(** * gojtp: JSON threat protection, a shallow embedding of [jtp.go]

    The validator of [jtp.go] walks a byte buffer [data] with an index [i],
    a shared nesting counter [*depth] and a read-only configuration
    [*Verify].  The embedding keeps that shape:

    - the buffer is a [list byte], read with [nth_error data i];
    - every Go [int] is a [nat] (indices) or a [Z] (limits and counters);
      each counter of the validator is bounded by [len(data)], so no 64-bit
      wrap-around can be reached and none is written out;
    - a Go [error] is its message ([err.Error()]), [nil] is [None];
    - [*depth] is threaded: every validator takes the counter and returns
      its new value in the [res_depth] field of its result;
    - a read or a slice outside the buffer is the outcome [Panic];
    - the three mutually recursive validators take a [fuel] argument that
      drops by one at every call and loop iteration; running out of it is
      the outcome [OutOfFuel].  [validany_total] shows that the fuel handed
      out by [isValidJSON] is always enough, and that nothing panics.

    The embedding comes first, then the vocabulary of the statements, the
    tests of the repository run on the embedding, and the properties. *)

From Stdlib Require Import List ZArith Lia Bool String Ascii DecimalString.
From Stdlib.Strings Require Import Byte.
Import ListNotations.

Local Open Scope Z_scope.

(** ** Outcomes of a call *)

Inductive outcome (A : Type) : Type :=
| Ret (a : A)
| Panic
| OutOfFuel.

Arguments Ret {A} a.
Arguments Panic {A}.
Arguments OutOfFuel {A}.

Definition bind {A B : Type} (m : outcome A) (k : A -> outcome B) : outcome B :=
  match m with
  | Ret a => k a
  | Panic => Panic
  | OutOfFuel => OutOfFuel
  end.

Notation "x <- m ;; k" := (bind m (fun x => k))
  (at level 61, m at next level, right associativity).

(** ** Bytes *)

Definition QUOTE : byte := x22.      (* the double quote *)
Definition BACKSLASH : byte := x5c.  (* the backslash *)
Definition TAB : byte := x09.        (* '\t' *)
Definition LF : byte := x0a.         (* '\n' *)
Definition CR : byte := x0d.         (* '\r' *)

Definition byte_ltb (a b : byte) : bool := (Byte.to_N a <? Byte.to_N b)%N.
Definition byte_leb (a b : byte) : bool := (Byte.to_N a <=? Byte.to_N b)%N.

(** [case ' ', '\t', '\n', '\r'] *)
Definition is_space (c : byte) : bool :=
  Byte.eqb c " " || Byte.eqb c TAB || Byte.eqb c LF || Byte.eqb c CR.

(** [data[i] >= '0' && data[i] <= '9'] *)
Definition is_digit (c : byte) : bool := byte_leb "0" c && byte_leb c "9".

(** The hexadecimal test of [isValidateString]. *)
Definition is_hex (c : byte) : bool :=
  (byte_leb "0" c && byte_leb c "9")
  || (byte_leb "a" c && byte_leb c "f")
  || (byte_leb "A" c && byte_leb c "F").

(** [data[i]], panicking outside the buffer. *)
Definition index (data : list byte) (i : nat) : outcome byte :=
  match nth_error data i with
  | Some c => Ret c
  | None => Panic
  end.

(** [i < len(data) && data[i] == c] *)
Definition at_is (data : list byte) (i : nat) (c : byte) : bool :=
  match nth_error data i with
  | Some b => Byte.eqb b c
  | None => false
  end.

(** ** unicode/utf8.RuneCount

    Go's standard library, not part of the repository: the number of runes
    in [p], where a byte that does not start a well-formed encoding counts
    as one rune of width 1.  [first_byte] is the table [first] of
    [unicode/utf8] joined with [acceptRanges]: the width announced by a
    leading byte and the range allowed for the second byte. *)

Definition first_byte (c : N) : option (nat * N * N) :=
  (if (0xC2 <=? c) && (c <=? 0xDF) then Some (2%nat, 0x80, 0xBF)
   else if c =? 0xE0 then Some (3%nat, 0xA0, 0xBF)
   else if (0xE1 <=? c) && (c <=? 0xEC) then Some (3%nat, 0x80, 0xBF)
   else if c =? 0xED then Some (3%nat, 0x80, 0x9F)
   else if (0xEE <=? c) && (c <=? 0xEF) then Some (3%nat, 0x80, 0xBF)
   else if c =? 0xF0 then Some (4%nat, 0x90, 0xBF)
   else if (0xF1 <=? c) && (c <=? 0xF3) then Some (4%nat, 0x80, 0xBF)
   else if c =? 0xF4 then Some (4%nat, 0x80, 0x8F)
   else None)%N.

Definition in_range (lo hi : N) (b : byte) : bool :=
  ((lo <=? Byte.to_N b) && (Byte.to_N b <=? hi))%N.

(** Width of the rune that starts [p]. *)
Definition rune_width (p : list byte) : nat :=
  match p with
  | [] => 0
  | c :: rest =>
    if (Byte.to_N c <? 0x80)%N then 1
    else
      match first_byte (Byte.to_N c) with
      | None => 1
      | Some (size, lo, hi) =>
        if (List.length p <? size)%nat then 1
        else
          match rest with
          | [] => 1
          | c1 :: rest1 =>
            if negb (in_range lo hi c1) then 1
            else if (size =? 2)%nat then 2
            else
              match rest1 with
              | [] => 1
              | c2 :: rest2 =>
                if negb (in_range 0x80 0xBF c2) then 1
                else if (size =? 3)%nat then 3
                else
                  match rest2 with
                  | [] => 1
                  | c3 :: _ => if negb (in_range 0x80 0xBF c3) then 1 else 4
                  end
              end
          end
      end
  end%nat.

(** [skip] bytes of the current rune are still to be passed over. *)
Fixpoint RuneCount_from (skip : nat) (p : list byte) : Z :=
  match p with
  | [] => 0
  | _ :: rest =>
    match skip with
    | S k => RuneCount_from k rest
    | O => 1 + RuneCount_from (rune_width p - 1) rest
    end
  end.

Definition RuneCount (p : list byte) : Z := RuneCount_from 0 p.

(** ** Errors *)

Definition error : Type := string.

(** [%d] *)
Definition fmt_d (z : Z) : string := NilZero.string_of_int (Z.to_int z).

Local Open Scope string_scope.

Definition objectKeyValueLength : string := "maxKeyLengthReached".
Definition stringValueLength : string := "maxStringValueLengthReached".

(** [errors.New("jtp.MalformedJSON")] *)
Definition ErrInvalidJSON : error := "jtp.MalformedJSON".

(** [fmt.Errorf("jtp.%s.Max-[%d]-Allowed.Found-[%d]", strType, max, found)] *)
Definition errLimit (strType : string) (maxAllowed found : Z) : error :=
  "jtp." ++ strType ++ ".Max-[" ++ fmt_d maxAllowed
         ++ "]-Allowed.Found-[" ++ fmt_d found ++ "]".

(** [fmt.Errorf("jtp.maxContainerDepthReached.Max-[%d]-Allowed.Found-[%d]", ..)] *)
Definition errContainerDepth (maxAllowed found : Z) : error :=
  "jtp.maxContainerDepthReached.Max-[" ++ fmt_d maxAllowed
         ++ "]-Allowed.Found-[" ++ fmt_d found ++ "]".

(** [fmt.Errorf("jtp.maxArrayElementCountReached.Max-[%d]-Allowed.Found-[%d]", ..)] *)
Definition errArrayElementCount (maxAllowed found : Z) : error :=
  "jtp.maxArrayElementCountReached.Max-[" ++ fmt_d maxAllowed
         ++ "]-Allowed.Found-[" ++ fmt_d found ++ "]".

(** [fmt.Errorf("jtp.maxObjectEntryCountReached.Max-[%d]-Allowed.Found-[%d]", ..)] *)
Definition errObjectEntryCount (maxAllowed found : Z) : error :=
  "jtp.maxObjectEntryCountReached.Max-[" ++ fmt_d maxAllowed
         ++ "]-Allowed.Found-[" ++ fmt_d found ++ "]".

Local Close Scope string_scope.

(** ** Configuration *)

Record Verify : Type := mkVerify {
  MaxArrayElementCount : Z;
  arrayEntryCountEnabled : bool;
  JSONContainerDepth : Z;
  jsonContainerDepthEnabled : bool;
  ObjectEntryCount : Z;
  objectEntryCountEnabled : bool;
  ObjectKeyLength : Z;
  objectKeyLengthEnabled : bool;
  StringValueLen : Z;
  stringLenEnabled : bool
}.

(** [Verify{}] *)
Definition zeroVerify : Verify :=
  mkVerify 0 false 0 false 0 false 0 false 0 false.

(** [type Option]: a setter on the configuration; it returns the updated
    configuration, or its error. *)
Definition Option : Type := Verify -> Verify + error.

Local Open Scope string_scope.

Definition WithMaxArrayElementCount (l : Z) : Option := fun verifier =>
  if (l =? 0)%Z then inl verifier
  else if (l <? 0)%Z then
    inr ("jtp: max array element count cannot be negative " ++ fmt_d l)
  else inl (mkVerify l true
                     (JSONContainerDepth verifier) (jsonContainerDepthEnabled verifier)
                     (ObjectEntryCount verifier) (objectEntryCountEnabled verifier)
                     (ObjectKeyLength verifier) (objectKeyLengthEnabled verifier)
                     (StringValueLen verifier) (stringLenEnabled verifier)).

Definition WithMaxContainerDepth (l : Z) : Option := fun verifier =>
  if (l =? 0)%Z then inl verifier
  else if (l <? 0)%Z then
    inr ("jtp: max Container depth cannot be negative " ++ fmt_d l)
  else inl (mkVerify (MaxArrayElementCount verifier) (arrayEntryCountEnabled verifier)
                     l true
                     (ObjectEntryCount verifier) (objectEntryCountEnabled verifier)
                     (ObjectKeyLength verifier) (objectKeyLengthEnabled verifier)
                     (StringValueLen verifier) (stringLenEnabled verifier)).

Definition WithMaxObjectKeyLength (l : Z) : Option := fun verifier =>
  if (l =? 0)%Z then inl verifier
  else if (l <? 0)%Z then
    inr ("jtp: max object key length cannot be negative " ++ fmt_d l)
  else inl (mkVerify (MaxArrayElementCount verifier) (arrayEntryCountEnabled verifier)
                     (JSONContainerDepth verifier) (jsonContainerDepthEnabled verifier)
                     (ObjectEntryCount verifier) (objectEntryCountEnabled verifier)
                     l true
                     (StringValueLen verifier) (stringLenEnabled verifier)).

Definition WithMaxStringLength (l : Z) : Option := fun verifier =>
  if (l =? 0)%Z then inl verifier
  else if (l <? 0)%Z then
    inr ("jtp: max string length cannot be negative " ++ fmt_d l)
  else inl (mkVerify (MaxArrayElementCount verifier) (arrayEntryCountEnabled verifier)
                     (JSONContainerDepth verifier) (jsonContainerDepthEnabled verifier)
                     (ObjectEntryCount verifier) (objectEntryCountEnabled verifier)
                     (ObjectKeyLength verifier) (objectKeyLengthEnabled verifier)
                     l true).

Definition WithMaxObjectEntryCount (l : Z) : Option := fun verifier =>
  if (l =? 0)%Z then inl verifier
  else if (l <? 0)%Z then
    inr ("jtp: max array element count cannot be negative " ++ fmt_d l)
  else inl (mkVerify (MaxArrayElementCount verifier) (arrayEntryCountEnabled verifier)
                     (JSONContainerDepth verifier) (jsonContainerDepthEnabled verifier)
                     l true
                     (ObjectKeyLength verifier) (objectKeyLengthEnabled verifier)
                     (StringValueLen verifier) (stringLenEnabled verifier)).

Local Close Scope string_scope.

(** [New(opt...)]: on an error the setters applied so far are dropped. *)
Fixpoint New_from (v : Verify) (opt : list Option) : Verify + error :=
  match opt with
  | [] => inl v
  | setter :: rest =>
    match setter v with
    | inr err => inr err
    | inl v' => New_from v' rest
    end
  end.

Definition New (opt : list Option) : Verify + error := New_from zeroVerify opt.

(** ** LengthGuard *)

(** [validateStringLength]: [data[startIndex:endIndex]] panics when the
    bounds are not ordered inside the buffer (the capacity of the slice is
    taken to be its length). *)
Definition validateStringLength (data : list byte) (startIndex endIndex : nat)
    (enabled : bool) (maxAllowed : Z) (strType : string) : outcome (option error) :=
  if (startIndex <=? endIndex)%nat && (endIndex <=? List.length data)%nat then
    let str := firstn (endIndex - startIndex) (skipn startIndex data) in
    let l := RuneCount str in
    if enabled && (l - 2 >? maxAllowed) then
      Ret (Some (errLimit strType maxAllowed (l - 2)))
    else Ret None
  else Panic.

(** ** StringScanner *)

(** The loop [for j := 0; j < 4; j++] of the [\u] escape; [j] counts the
    digits still expected. *)
Fixpoint hex_digits (j : nat) (data : list byte) (i : nat) : nat * bool :=
  match j with
  | O => (i, true)
  | S j' =>
    let i := S i in
    match nth_error data i with
    | None => (i, false)
    | Some c => if is_hex c then hex_digits j' data i else (i, false)
    end
  end.

(** The escapes of one byte: the double quote, the backslash and
    ['/', 'b', 'f', 'n', 'r', 't']. *)
Definition is_simple_escape (c : byte) : bool :=
  Byte.eqb c QUOTE || Byte.eqb c BACKSLASH || Byte.eqb c "/" || Byte.eqb c "b"
  || Byte.eqb c "f" || Byte.eqb c "n" || Byte.eqb c "r" || Byte.eqb c "t".

(** The loop of [isValidateString]; [n] bounds the iterations left
    ([len(data) - i <= n]), so [n = 0] is the exit [i >= len(data)]. *)
Fixpoint isValidateString_loop (n : nat) (data : list byte) (i : nat) : nat * bool :=
  match n with
  | O => (i, false)
  | S n' =>
    match nth_error data i with
    | None => (i, false)
    | Some c =>
      if byte_ltb c " " then (i, false)
      else if Byte.eqb c BACKSLASH then
        let i := S i in
        match nth_error data i with
        | None => (i, false)
        | Some e =>
          if is_simple_escape e then isValidateString_loop n' data (S i)
          else if Byte.eqb e "u" then
            let (i, ok) := hex_digits 4 data i in
            if ok then isValidateString_loop n' data (S i) else (i, false)
          else (i, false)
        end
      else if Byte.eqb c QUOTE then (S i, true)
      else isValidateString_loop n' data (S i)
    end
  end.

Definition isValidateString (data : list byte) (i : nat) : nat * bool :=
  isValidateString_loop (List.length data - i) data i.

(** ** LiteralScanner *)

Definition isValidTrue (data : list byte) (i : nat) : nat * bool :=
  if (i + 3 <=? List.length data)%nat && at_is data i "r"
     && at_is data (i + 1) "u" && at_is data (i + 2) "e"
  then ((i + 3)%nat, true) else (i, false).

Definition isValidFalse (data : list byte) (i : nat) : nat * bool :=
  if (i + 4 <=? List.length data)%nat && at_is data i "a"
     && at_is data (i + 1) "l" && at_is data (i + 2) "s" && at_is data (i + 3) "e"
  then ((i + 4)%nat, true) else (i, false).

Definition isValidNull (data : list byte) (i : nat) : nat * bool :=
  if (i + 3 <=? List.length data)%nat && at_is data i "u"
     && at_is data (i + 1) "l" && at_is data (i + 2) "l"
  then ((i + 3)%nat, true) else (i, false).

(** ** NumberScanner *)

(** [for ; i < len(data); i++ { if digit { continue }; break }] *)
Fixpoint digits_loop (n : nat) (data : list byte) (i : nat) : nat :=
  match n with
  | O => i
  | S n' =>
    match nth_error data i with
    | None => i
    | Some c => if is_digit c then digits_loop n' data (S i) else i
    end
  end.

Definition digits (data : list byte) (i : nat) : nat :=
  digits_loop (List.length data - i) data i.

(** From the comment [// exp] to the end of [isValidNumber]. *)
Definition isValidNumber_exp (data : list byte) (i : nat) : outcome (nat * bool) :=
  if (i =? List.length data)%nat then Ret (i, true)
  else
    c <- index data i ;;
    if Byte.eqb c "e" || Byte.eqb c "E" then
      let i := S i in
      if (i =? List.length data)%nat then Ret (i, false)
      else
        c <- index data i ;;
        let i := if Byte.eqb c "+" || Byte.eqb c "-" then S i else i in
        if (i =? List.length data)%nat then Ret (i, false)
        else
          c <- index data i ;;
          if byte_ltb c "0" || byte_ltb "9" c then Ret (i, false)
          else Ret (digits data (S i), true)
    else Ret (i, true).

(** From the comment [// frac] on. *)
Definition isValidNumber_frac (data : list byte) (i : nat) : outcome (nat * bool) :=
  if (i =? List.length data)%nat then Ret (i, true)
  else
    c <- index data i ;;
    if Byte.eqb c "." then
      let i := S i in
      if (i =? List.length data)%nat then Ret (i, false)
      else
        c <- index data i ;;
        if byte_ltb c "0" || byte_ltb "9" c then Ret (i, false)
        else isValidNumber_exp data (digits data (S i))
    else isValidNumber_exp data i.

(** [isValidNumber(data, i)]: the first statement is [i--]. *)
Definition isValidNumber (data : list byte) (i : nat) : outcome (nat * bool) :=
  match i with
  | O => Panic
  | S i =>
    c <- index data i ;;
    let i := if Byte.eqb c "-" then S i else i in
    if (i =? List.length data)%nat then Ret (i, false)
    else
      c <- index data i ;;
      let i := if Byte.eqb c "0" then S i else digits data i in
      isValidNumber_frac data i
  end.

(** ** Separators *)

(** The loops of [isValidComma] and [isValidColon]; [n] counts the
    iterations left, [len(data) - i]. *)
Fixpoint isValidComma_loop (n : nat) (data : list byte) (i : nat) (end_ : byte)
  : nat * bool :=
  match n with
  | O => (i, false)
  | S n' =>
    match nth_error data i with
    | None => (i, false)
    | Some c =>
      if is_space c then isValidComma_loop n' data (S i) end_
      else if Byte.eqb c "," then (i, true)
      else if Byte.eqb c end_ then (i, true)
      else (i, false)
    end
  end.

Definition isValidComma (data : list byte) (i : nat) (end_ : byte) : nat * bool :=
  isValidComma_loop (List.length data - i) data i end_.

Fixpoint isValidColon_loop (n : nat) (data : list byte) (i : nat) : nat * bool :=
  match n with
  | O => (i, false)
  | S n' =>
    match nth_error data i with
    | None => (i, false)
    | Some c =>
      if is_space c then isValidColon_loop n' data (S i)
      else if Byte.eqb c ":" then (S i, true)
      else (i, false)
    end
  end.

Definition isValidColon (data : list byte) (i : nat) : nat * bool :=
  isValidColon_loop (List.length data - i) data i.

(** ** ValueValidator, ArrayValidator, ObjectValidator *)

(** The results [(outi int, ok bool, err error)] of a validator, with the
    value it leaves in [*depth]. *)
Record scan : Type := Scan {
  res_i : nat;
  res_ok : bool;
  res_err : option error;
  res_depth : Z
}.

(** [err != nil] *)
Definition is_err (e : option error) : bool :=
  match e with Some _ => true | None => false end.

(** [case '-', '0', '1', '2', '3', '4', '5', '6', '7', '8', '9'] *)
Definition is_number_start (c : byte) : bool :=
  Byte.eqb c "-" || Byte.eqb c "0" || Byte.eqb c "1" || Byte.eqb c "2"
  || Byte.eqb c "3" || Byte.eqb c "4" || Byte.eqb c "5" || Byte.eqb c "6"
  || Byte.eqb c "7" || Byte.eqb c "8" || Byte.eqb c "9".

(** The guard that opens [validany], [isValidArray] and [isValidObject]. *)
Definition depth_exceeded (verifier : Verify) (depth : Z) : bool :=
  jsonContainerDepthEnabled verifier && (JSONContainerDepth verifier <? depth).

(** The validators, in the order of the source:
    - [isValidArray] is the guard; [isValidArray_loop] the outer [for] (it
      skips white space up to the first element or the bracket);
      [isValidArray_elems] the inner [for], with the variables [child] and
      [err].  When the inner loop runs off the buffer the outer loop adds
      one to [i] before it ends too.
    - [isValidObject] is the guard; [isValidObject_loop] the outer [for];
      [isValidObject_key] the code from the label [key:], entered at the
      opening quote of a key; [isValidObject_next] the [for] that looks for
      the next key after a comma.
    - [validany] is the guard; [validany_loop] its [for].  In [case 'f']
      the source assigns [outi, ok = isValidFalse(data, i+1)] and has no
      [return]: the switch ends and the loop goes on at [i+1].  Every later
      exit either names its results or assigns both [outi] and [ok] first,
      so the two assigned values are never read. *)
Fixpoint validany (fuel : nat) (data : list byte) (i : nat) (depth : Z)
    (verifier : Verify) {struct fuel} : outcome scan :=
  match fuel with
  | O => OutOfFuel
  | S fuel =>
    if depth_exceeded verifier depth then
      Ret (Scan i false
             (Some (errContainerDepth (JSONContainerDepth verifier) depth)) depth)
    else validany_loop fuel data i depth verifier
  end

with validany_loop (fuel : nat) (data : list byte) (i : nat) (depth : Z)
    (verifier : Verify) {struct fuel} : outcome scan :=
  match fuel with
  | O => OutOfFuel
  | S fuel =>
    match nth_error data i with
    | None => Ret (Scan i false None depth)
    | Some c =>
      if is_space c then validany_loop fuel data (S i) depth verifier
      else if Byte.eqb c "{" then
        isValidObject fuel data (S i) (depth + 1) verifier
      else if Byte.eqb c "[" then
        isValidArray fuel data (S i) (depth + 1) verifier
      else if Byte.eqb c QUOTE then
        let (outi, ok) := isValidateString data (S i) in
        err <- validateStringLength data i outi (stringLenEnabled verifier)
                 (StringValueLen verifier) stringValueLength ;;
        Ret (Scan outi ok err depth)
      else if is_number_start c then
        r <- isValidNumber data (S i) ;;
        Ret (Scan (fst r) (snd r) None depth)
      else if Byte.eqb c "t" then
        let (outi, ok) := isValidTrue data (S i) in
        Ret (Scan outi ok None depth)
      else if Byte.eqb c "f" then
        let (_, _) := isValidFalse data (S i) in
        validany_loop fuel data (S i) depth verifier
      else if Byte.eqb c "n" then
        let (outi, ok) := isValidNull data (S i) in
        Ret (Scan outi ok None depth)
      else Ret (Scan i false None depth)
    end
  end

with isValidArray (fuel : nat) (data : list byte) (i : nat) (depth : Z)
    (verifier : Verify) {struct fuel} : outcome scan :=
  match fuel with
  | O => OutOfFuel
  | S fuel =>
    if depth_exceeded verifier depth then
      Ret (Scan i false
             (Some (errContainerDepth (JSONContainerDepth verifier) depth)) depth)
    else isValidArray_loop fuel data i depth verifier
  end

with isValidArray_loop (fuel : nat) (data : list byte) (i : nat) (depth : Z)
    (verifier : Verify) {struct fuel} : outcome scan :=
  match fuel with
  | O => OutOfFuel
  | S fuel =>
    match nth_error data i with
    | None => Ret (Scan i false None depth)
    | Some c =>
      if is_space c then isValidArray_loop fuel data (S i) depth verifier
      else if Byte.eqb c "]" then Ret (Scan (S i) true None (depth - 1))
      else isValidArray_elems fuel data i 0 None depth verifier
    end
  end

with isValidArray_elems (fuel : nat) (data : list byte) (i : nat) (child : Z)
    (err : option error) (depth : Z) (verifier : Verify) {struct fuel}
    : outcome scan :=
  match fuel with
  | O => OutOfFuel
  | S fuel =>
    match nth_error data i with
    | None => Ret (Scan (S i) false err depth)
    | Some _ =>
      r <- validany fuel data i depth verifier ;;
      if negb (res_ok r) then Ret (Scan (res_i r) false (res_err r) (res_depth r))
      else
        let (i, ok) := isValidComma data (res_i r) "]" in
        if negb ok then Ret (Scan i false (res_err r) (res_depth r))
        else
          let child := child + 1 in
          if arrayEntryCountEnabled verifier
             && (child >? MaxArrayElementCount verifier) then
            Ret (Scan i false
                   (Some (errArrayElementCount (MaxArrayElementCount verifier) child))
                   (res_depth r))
          else
            c <- index data i ;;
            if Byte.eqb c "]" then
              Ret (Scan (S i) true (res_err r) (res_depth r - 1))
            else
              isValidArray_elems fuel data (S i) child (res_err r) (res_depth r)
                verifier
    end
  end

with isValidObject (fuel : nat) (data : list byte) (i : nat) (depth : Z)
    (verifier : Verify) {struct fuel} : outcome scan :=
  match fuel with
  | O => OutOfFuel
  | S fuel =>
    if depth_exceeded verifier depth then
      Ret (Scan i false
             (Some (errContainerDepth (JSONContainerDepth verifier) depth)) depth)
    else isValidObject_loop fuel data i depth verifier
  end

with isValidObject_loop (fuel : nat) (data : list byte) (i : nat) (depth : Z)
    (verifier : Verify) {struct fuel} : outcome scan :=
  match fuel with
  | O => OutOfFuel
  | S fuel =>
    match nth_error data i with
    | None => Ret (Scan i false None depth)
    | Some c =>
      if is_space c then isValidObject_loop fuel data (S i) depth verifier
      else if Byte.eqb c "}" then Ret (Scan (S i) true None (depth - 1))
      else if Byte.eqb c QUOTE then
        isValidObject_key fuel data i 0 None depth verifier
      else Ret (Scan i false None depth)
    end
  end

with isValidObject_key (fuel : nat) (data : list byte) (i : nat) (entries : Z)
    (err : option error) (depth : Z) (verifier : Verify) {struct fuel}
    : outcome scan :=
  match fuel with
  | O => OutOfFuel
  | S fuel =>
    let tempI := i in
    let (i, ok) := isValidateString data (S i) in
    if negb ok then Ret (Scan i false err depth)
    else
      let entries := entries + 1 in
      if objectEntryCountEnabled verifier
         && (ObjectEntryCount verifier <? entries) then
        Ret (Scan i false
               (Some (errObjectEntryCount (ObjectEntryCount verifier) entries))
               depth)
      else
        err <- validateStringLength data tempI i (objectKeyLengthEnabled verifier)
                 (ObjectKeyLength verifier) objectKeyValueLength ;;
        if is_err err then Ret (Scan i false err depth)
        else
          let (i, ok) := isValidColon data i in
          if negb ok then Ret (Scan i false err depth)
          else
            r <- validany fuel data i depth verifier ;;
            if negb (res_ok r) || is_err (res_err r) then
              Ret (Scan (res_i r) false (res_err r) (res_depth r))
            else
              let (i, ok) := isValidComma data (res_i r) "}" in
              if negb ok then Ret (Scan i false (res_err r) (res_depth r))
              else
                c <- index data i ;;
                if Byte.eqb c "}" then
                  Ret (Scan (S i) true (res_err r) (res_depth r - 1))
                else
                  isValidObject_next fuel data (S i) entries (res_err r)
                    (res_depth r) verifier
  end

with isValidObject_next (fuel : nat) (data : list byte) (i : nat) (entries : Z)
    (err : option error) (depth : Z) (verifier : Verify) {struct fuel}
    : outcome scan :=
  match fuel with
  | O => OutOfFuel
  | S fuel =>
    match nth_error data i with
    | None => Ret (Scan i false err depth)
    | Some c =>
      if is_space c then
        isValidObject_next fuel data (S i) entries err depth verifier
      else if Byte.eqb c QUOTE then
        isValidObject_key fuel data i entries err depth verifier
      else Ret (Scan i false err depth)
    end
  end.

(** ** TopLevelDriver *)

(** Fuel for a call of [validany] on [data]: five steps for each byte and
    two to start. *)
Definition fuel_for (data : list byte) : nat := 5 * List.length data + 2.

(** The loop that follows the value in [isValidJSON]. *)
Fixpoint isValidJSON_rest (n : nat) (data : list byte) (i : nat) : nat * bool :=
  match n with
  | O => (i, true)
  | S n' =>
    match nth_error data i with
    | None => (i, true)
    | Some c => if is_space c then isValidJSON_rest n' data (S i) else (i, false)
    end
  end.

(** The loop of [isValidJSON]; [n] counts the iterations left,
    [len(data) - i]. *)
Fixpoint isValidJSON_loop (n : nat) (data : list byte) (i : nat) (depth : Z)
    (verifier : Verify) : outcome scan :=
  match n with
  | O => Ret (Scan i false None depth)
  | S n' =>
    match nth_error data i with
    | None => Ret (Scan i false None depth)
    | Some c =>
      if is_space c then isValidJSON_loop n' data (S i) depth verifier
      else
        r <- validany (fuel_for data) data i depth verifier ;;
        if negb (res_ok r) || is_err (res_err r) then
          Ret (Scan (res_i r) false (res_err r) (res_depth r))
        else
          let (i, ok) := isValidJSON_rest (List.length data - res_i r) data (res_i r) in
          Ret (Scan i ok (res_err r) (res_depth r))
    end
  end.

Definition isValidJSON (data : list byte) (i : nat) (depth : Z)
    (verifier : Verify) : outcome scan :=
  isValidJSON_loop (List.length data - i) data i depth verifier.

(** [VerifyBytes]: [depth] starts at zero and its last value is dropped. *)
Definition VerifyBytes (v : Verify) (json : list byte) : outcome (bool * option error) :=
  r <- isValidJSON json 0 0 v ;;
  let err :=
    if negb (is_err (res_err r)) && negb (res_ok r) then Some ErrInvalidJSON
    else res_err r in
  Ret (res_ok r, err).

(** [VerifyString]: [[]byte(json)]. *)
Definition VerifyString (v : Verify) (json : string) : outcome (bool * option error) :=
  VerifyBytes v (list_byte_of_string json).

(** ** Writing documents

    A Rocq string cannot hold a double quote conveniently, so the examples
    write an apostrophe where the document has a double quote. *)
Definition json (s : string) : list byte :=
  map (fun b => if Byte.eqb b "'" then QUOTE else b) (list_byte_of_string s).

(** * Vocabulary of the statements *)

(** Every result reached with [fuel] is reached with [fuel']. *)
Definition fuel_grows (data : list byte) (v : Verify) (fuel fuel' : nat) : Prop :=
  (forall i d r, validany fuel data i d v = Ret r ->
                 validany fuel' data i d v = Ret r)
  /\ (forall i d r, validany_loop fuel data i d v = Ret r ->
                    validany_loop fuel' data i d v = Ret r)
  /\ (forall i d r, isValidArray fuel data i d v = Ret r ->
                    isValidArray fuel' data i d v = Ret r)
  /\ (forall i d r, isValidArray_loop fuel data i d v = Ret r ->
                    isValidArray_loop fuel' data i d v = Ret r)
  /\ (forall i ch e d r, isValidArray_elems fuel data i ch e d v = Ret r ->
                         isValidArray_elems fuel' data i ch e d v = Ret r)
  /\ (forall i d r, isValidObject fuel data i d v = Ret r ->
                    isValidObject fuel' data i d v = Ret r)
  /\ (forall i d r, isValidObject_loop fuel data i d v = Ret r ->
                    isValidObject_loop fuel' data i d v = Ret r)
  /\ (forall i en e d r, isValidObject_key fuel data i en e d v = Ret r ->
                         isValidObject_key fuel' data i en e d v = Ret r)
  /\ (forall i en e d r, isValidObject_next fuel data i en e d v = Ret r ->
                         isValidObject_next fuel' data i en e d v = Ret r).

(** A successful scan ends after its start and inside the buffer. *)
Definition moves (data : list byte) (i : nat) (r : scan) : Prop :=
  res_ok r = true -> (i < res_i r <= List.length data)%nat.

(** With five units of fuel for each byte that is left, each validator
    returns. *)
Definition total_at (data : list byte) (v : Verify) (fuel : nat) : Prop :=
  (forall i d, (i <= List.length data)%nat ->
     (5 * (List.length data - i) + 2 <= fuel)%nat ->
     exists r, validany fuel data i d v = Ret r /\ moves data i r)
  /\ (forall i d, (i <= List.length data)%nat ->
     (5 * (List.length data - i) + 1 <= fuel)%nat ->
     exists r, validany_loop fuel data i d v = Ret r /\ moves data i r)
  /\ (forall i d, (i <= List.length data)%nat ->
     (5 * (List.length data - i) + 5 <= fuel)%nat ->
     exists r, isValidArray fuel data i d v = Ret r /\ moves data i r)
  /\ (forall i d, (i <= List.length data)%nat ->
     (5 * (List.length data - i) + 4 <= fuel)%nat ->
     exists r, isValidArray_loop fuel data i d v = Ret r /\ moves data i r)
  /\ (forall i ch e d, (i <= List.length data)%nat ->
     (5 * (List.length data - i) + 3 <= fuel)%nat ->
     exists r, isValidArray_elems fuel data i ch e d v = Ret r /\ moves data i r)
  /\ (forall i d, (i <= List.length data)%nat ->
     (5 * (List.length data - i) + 3 <= fuel)%nat ->
     exists r, isValidObject fuel data i d v = Ret r /\ moves data i r)
  /\ (forall i d, (i <= List.length data)%nat ->
     (5 * (List.length data - i) + 2 <= fuel)%nat ->
     exists r, isValidObject_loop fuel data i d v = Ret r /\ moves data i r)
  /\ (forall i en e d, (i < List.length data)%nat ->
     (5 * (List.length data - i) + 1 <= fuel)%nat ->
     exists r, isValidObject_key fuel data i en e d v = Ret r /\ moves data i r)
  /\ (forall i en e d, (i <= List.length data)%nat ->
     (5 * (List.length data - i) + 2 <= fuel)%nat ->
     exists r, isValidObject_next fuel data i en e d v = Ret r /\ moves data i r).

(** [validany] returns [r]: some amount of fuel is enough for the call to
    end with [r] (and then [fuel_for data] is, see [validany_fuel_for]). *)
Definition validany_returns (data : list byte) (i : nat) (depth : Z)
    (verifier : Verify) (r : scan) : Prop :=
  exists fuel, validany fuel data i depth verifier = Ret r.


Definition space_from (data : list byte) (j : nat) : Prop :=
  forall k c, (j <= k)%nat -> nth_error data k = Some c -> is_space c = true.

(** [validany] leaves the counter as it found it when it succeeds, and
    never below when it fails. *)
Definition depth_kept (d : Z) (r : scan) : Prop :=
  (res_ok r = true -> res_depth r = d) /\ (res_ok r = false -> d <= res_depth r).

(** [isValidArray] and [isValidObject] are entered after the increment:
    they take one off when they succeed ([*depth--] at the closing bracket)
    and nothing when they fail. *)
Definition depth_closed (d : Z) (r : scan) : Prop :=
  (res_ok r = true -> res_depth r = d - 1) /\ (res_ok r = false -> d <= res_depth r).

(** The two properties, for the nine functions of the validators. *)
Definition depth_at (data : list byte) (v : Verify) (fuel : nat) : Prop :=
  (forall i d r, validany fuel data i d v = Ret r -> depth_kept d r)
  /\ (forall i d r, validany_loop fuel data i d v = Ret r -> depth_kept d r)
  /\ (forall i d r, isValidArray fuel data i d v = Ret r -> depth_closed d r)
  /\ (forall i d r, isValidArray_loop fuel data i d v = Ret r -> depth_closed d r)
  /\ (forall i ch e d r, isValidArray_elems fuel data i ch e d v = Ret r ->
                         depth_closed d r)
  /\ (forall i d r, isValidObject fuel data i d v = Ret r -> depth_closed d r)
  /\ (forall i d r, isValidObject_loop fuel data i d v = Ret r -> depth_closed d r)
  /\ (forall i en e d r, isValidObject_key fuel data i en e d v = Ret r ->
                         depth_closed d r)
  /\ (forall i en e d r, isValidObject_next fuel data i en e d v = Ret r ->
                         depth_closed d r).

(** The five labels of the limit errors. *)
Definition limit_labels : list string :=
  [ stringValueLength; "maxArrayElementCountReached"%string; objectKeyValueLength;
    "maxContainerDepthReached"%string; "maxObjectEntryCountReached"%string ].

(** The message of a limit error. *)
Definition is_limit_error (e : error) : Prop :=
  exists label maxAllowed found,
    In label limit_labels /\ e = errLimit label maxAllowed found.

Definition limit_or_nil (e : option error) : Prop :=
  forall m, e = Some m -> is_limit_error m.

(** No validator makes up another error. *)
Definition errors_at (data : list byte) (v : Verify) (fuel : nat) : Prop :=
  (forall i d r, validany fuel data i d v = Ret r -> limit_or_nil (res_err r))
  /\ (forall i d r, validany_loop fuel data i d v = Ret r -> limit_or_nil (res_err r))
  /\ (forall i d r, isValidArray fuel data i d v = Ret r -> limit_or_nil (res_err r))
  /\ (forall i d r, isValidArray_loop fuel data i d v = Ret r ->
                    limit_or_nil (res_err r))
  /\ (forall i ch e d r, isValidArray_elems fuel data i ch e d v = Ret r ->
                         limit_or_nil e -> limit_or_nil (res_err r))
  /\ (forall i d r, isValidObject fuel data i d v = Ret r -> limit_or_nil (res_err r))
  /\ (forall i d r, isValidObject_loop fuel data i d v = Ret r ->
                    limit_or_nil (res_err r))
  /\ (forall i en e d r, isValidObject_key fuel data i en e d v = Ret r ->
                         limit_or_nil e -> limit_or_nil (res_err r))
  /\ (forall i en e d r, isValidObject_next fuel data i en e d v = Ret r ->
                         limit_or_nil e -> limit_or_nil (res_err r)).

(** The document of [jtp_test.go] ([_getTestJSONBytes]), with an
    apostrophe for each double quote. *)
Definition testJSON : list byte := json "{
	'simple_string': 'hello word',
    'targets': [
      {
        'req_per_second_1': 5,
        'duration_of_time': 1,
		'utf8Key_1': 'Hello, 世界',
        'request_1': {
          'endpoint': 'https://httpbin.org/get',
          'http_method': 'GET',
          'payload': {
            'username': 'ankur',
            'password': 'ananad'
          },
		  'array_value_1': [
				'abcdefghijklmnopqrstuvwxyzabcdefghijklmnopqrstv'
			],
          'additional_header_1': [
            {
              'header_key': 'uuid',
              'header_value': [
                '1',
                '2'
              ]
            }
          ]
        }
      },
      {
        'req_per_second': 10,
        'duration_of_time': 1,
        'request': {
          'endpoint': 'https://httpbin.org/post',
          'http_method': 'POST',
          'payload': {
            'username': 'ankur',
            'password': 'ananad'
          },
          'additional_header': [
            {
              'header_key': 'uuid',
              'header_value': [
                '1',
                '2',
				'3',
				'4',
				'5',
				'Hello, 世界'
              ]
            }
          ]
        }
      }
    ]
}
	".

(** A byte that [isValidateString] steps over. *)
Definition plain_byte (b : byte) : bool :=
  negb (byte_ltb b " ") && negb (Byte.eqb b BACKSLASH) && negb (Byte.eqb b QUOTE).

(** What may follow a number for the scan of the digits before it to stop:
    nothing, or a byte other than ['.'], ['e'], ['E']. *)
Definition ends_number (rest : list byte) : bool :=
  match rest with
  | [] => true
  | c :: _ => negb (Byte.eqb c "." || Byte.eqb c "e" || Byte.eqb c "E")
  end.

Definition isValidArray_returns (data : list byte) (i : nat) (depth : Z)
    (verifier : Verify) (r : scan) : Prop :=
  exists fuel, isValidArray fuel data i depth verifier = Ret r.

Definition isValidArray_elems_returns (data : list byte) (i : nat) (child : Z)
    (err : option error) (depth : Z) (verifier : Verify) (r : scan) : Prop :=
  exists fuel, isValidArray_elems fuel data i child err depth verifier = Ret r.

Definition isValidObject_returns (data : list byte) (i : nat) (depth : Z)
    (verifier : Verify) (r : scan) : Prop :=
  exists fuel, isValidObject fuel data i depth verifier = Ret r.

Definition isValidObject_key_returns (data : list byte) (i : nat) (entries : Z)
    (err : option error) (depth : Z) (verifier : Verify) (r : scan) : Prop :=
  exists fuel, isValidObject_key fuel data i entries err depth verifier = Ret r.

(** The two kinds of container. *)
Inductive container : Type := ArrayC | ObjectC.

(** Containers nested in the order of [ks], around the number [0]; an
    object holds its content under the key [k]. *)
Fixpoint nested (ks : list container) : list byte :=
  match ks with
  | [] => ["0"%byte]
  | ArrayC :: ks' => "["%byte :: nested ks' ++ ["]"%byte]
  | ObjectC :: ks' =>
      "{"%byte :: QUOTE :: "k"%byte :: QUOTE :: ":"%byte :: nested ks' ++ ["}"%byte]
  end.

(** The depth limit alone, at [D]. *)
Definition depth_only (D : Z) : Verify :=
  mkVerify 0 false D true 0 false 0 false 0 false.

(** [,0] repeated [k] times and the closing bracket. *)
Fixpoint more_zeros (k : nat) : list byte :=
  match k with
  | O => ["]"%byte]
  | S k' => ","%byte :: "0"%byte :: more_zeros k'
  end.

(** The array of [n] elements [0]. *)
Definition array_of_zeros (n : nat) : list byte :=
  match n with
  | O => ["["%byte; "]"%byte]
  | S k => "["%byte :: "0"%byte :: more_zeros k
  end.

(** [,"k":0] repeated [k] times and the closing brace. *)
Fixpoint more_members (k : nat) : list byte :=
  match k with
  | O => ["}"%byte]
  | S k' =>
      ","%byte :: QUOTE :: "k"%byte :: QUOTE :: ":"%byte :: "0"%byte :: more_members k'
  end.

(** The object of [n] members ["k":0]. *)
Definition object_of_zeros (n : nat) : list byte :=
  match n with
  | O => ["{"%byte; "}"%byte]
  | S k => "{"%byte :: QUOTE :: "k"%byte :: QUOTE :: ":"%byte :: "0"%byte :: more_members k
  end.

(** One limit alone, at [M]. *)
Definition array_count_only (M : Z) : Verify :=
  mkVerify M true 0 false 0 false 0 false 0 false.

Definition entry_count_only (M : Z) : Verify :=
  mkVerify 0 false 0 false M true 0 false 0 false.

(** The well-formed UTF-8 byte sequences of one character (The Unicode
    Standard, table 3-7). *)
Definition utf8_char (c : list byte) : bool :=
  match c with
  | [b0] => in_range 0x00 0x7F b0
  | [b0; b1] => in_range 0xC2 0xDF b0 && in_range 0x80 0xBF b1
  | [b0; b1; b2] =>
      (in_range 0xE0 0xE0 b0 && in_range 0xA0 0xBF b1
       || in_range 0xE1 0xEC b0 && in_range 0x80 0xBF b1
       || in_range 0xED 0xED b0 && in_range 0x80 0x9F b1
       || in_range 0xEE 0xEF b0 && in_range 0x80 0xBF b1)
      && in_range 0x80 0xBF b2
  | [b0; b1; b2; b3] =>
      (in_range 0xF0 0xF0 b0 && in_range 0x90 0xBF b1
       || in_range 0xF1 0xF3 b0 && in_range 0x80 0xBF b1
       || in_range 0xF4 0xF4 b0 && in_range 0x80 0x8F b1)
      && in_range 0x80 0xBF b2 && in_range 0x80 0xBF b3
  | _ => false
  end.

(** A character of a JSON string that needs no escape. *)
Definition json_char (c : list byte) : bool :=
  utf8_char c && forallb plain_byte c.

(** The quoted token of the characters [chars]. *)
Definition quoted (chars : list (list byte)) : list byte :=
  QUOTE :: List.concat chars ++ [QUOTE].

(** One limit alone, at [L]. *)
Definition string_length_only (L : Z) : Verify :=
  mkVerify 0 false 0 false 0 false 0 false L true.

Definition key_length_only (L : Z) : Verify :=
  mkVerify 0 false 0 false 0 false L true 0 false.

(** The object whose one member has the key [chars] and the value [0]. *)
Definition keyed (chars : list (list byte)) : list byte :=
  "{"%byte :: quoted chars ++ [":"%byte; "0"%byte; "}"%byte].

(** After the index [i] the buffer ends, or goes on with a byte that is
    not a digit. *)
Definition no_digit_at (data : list byte) (i : nat) : Prop :=
  forall c, nth_error data i = Some c -> is_digit c = false.

(** ** Configurations *)

(** The five limits of a configuration. *)
Inductive limit : Type :=
| ArrayElementCount | ContainerDepth | ObjectKeyLen | StringLen | ObjectEntries.

Definition limit_eqb (k k' : limit) : bool :=
  match k, k' with
  | ArrayElementCount, ArrayElementCount
  | ContainerDepth, ContainerDepth
  | ObjectKeyLen, ObjectKeyLen
  | StringLen, StringLen
  | ObjectEntries, ObjectEntries => true
  | _, _ => false
  end.

(** The setter of a limit. *)
Definition setter (k : limit) (l : Z) : Option :=
  match k with
  | ArrayElementCount => WithMaxArrayElementCount l
  | ContainerDepth => WithMaxContainerDepth l
  | ObjectKeyLen => WithMaxObjectKeyLength l
  | StringLen => WithMaxStringLength l
  | ObjectEntries => WithMaxObjectEntryCount l
  end.

(** The setters that a list of limits and values stands for. *)
Definition setters (opts : list (limit * Z)) : list Option :=
  map (fun o => setter (fst o) (snd o)) opts.

(** The maximum and the flag of a limit in a configuration. *)
Definition limit_max (k : limit) (v : Verify) : Z :=
  match k with
  | ArrayElementCount => MaxArrayElementCount v
  | ContainerDepth => JSONContainerDepth v
  | ObjectKeyLen => ObjectKeyLength v
  | StringLen => StringValueLen v
  | ObjectEntries => ObjectEntryCount v
  end.

Definition limit_enabled (k : limit) (v : Verify) : bool :=
  match k with
  | ArrayElementCount => arrayEntryCountEnabled v
  | ContainerDepth => jsonContainerDepthEnabled v
  | ObjectKeyLen => objectKeyLengthEnabled v
  | StringLen => stringLenEnabled v
  | ObjectEntries => objectEntryCountEnabled v
  end.

(** The last value other than zero that [opts] gives the limit [k], or [cur]
    when there is none. *)
Fixpoint last_setting (k : limit) (opts : list (limit * Z)) (cur : option Z)
  : option Z :=
  match opts with
  | [] => cur
  | (k', l) :: rest =>
      last_setting k rest
        (if limit_eqb k k' && negb (l =? 0) then Some l else cur)
  end.

(** What a configuration holds for the limit [k] when its setting is [s]:
    disabled at zero, or enabled at the value. *)
Definition holds (k : limit) (v : Verify) (s : option Z) : Prop :=
  match s with
  | None => limit_enabled k v = false /\ limit_max k v = 0
  | Some l => limit_enabled k v = true /\ limit_max k v = l
  end.

(** The word by which the error of a negative value names the limit; the
    entry count of objects is named as the element count of arrays is. *)
Definition negative_label (k : limit) : string :=
  match k with
  | ArrayElementCount | ObjectEntries => "array element count"
  | ContainerDepth => "Container depth"
  | ObjectKeyLen => "object key length"
  | StringLen => "string length"
  end.

(** Each limit of [v] is enabled at a value above zero, or disabled at
    zero. *)
Definition well_configured (v : Verify) : Prop :=
  forall k, if limit_enabled k v then 0 < limit_max k v else limit_max k v = 0.

(** ** The content of strings *)

(** The pieces that the content of a string is made of: a byte that stands
    for itself, a backslash with one of the eight escape bytes, and a
    backslash with [u] and four hexadecimal digits. *)
Inductive piece : Type :=
| Plain (b : byte)
| Escape (e : byte)
| Unicode (h1 h2 h3 h4 : byte).

Definition piece_bytes (p : piece) : list byte :=
  match p with
  | Plain b => [b]
  | Escape e => [BACKSLASH; e]
  | Unicode h1 h2 h3 h4 => [BACKSLASH; "u"%byte; h1; h2; h3; h4]
  end.

Definition piece_ok (p : piece) : bool :=
  match p with
  | Plain b => plain_byte b
  | Escape e => is_simple_escape e
  | Unicode h1 h2 h3 h4 => is_hex h1 && is_hex h2 && is_hex h3 && is_hex h4
  end.

Definition content (ps : list piece) : list byte := flat_map piece_bytes ps.

(** The buffer ends, or goes on with a byte that is not a hexadecimal
    digit. *)
Definition no_hex_first (rest : list byte) : bool :=
  match rest with
  | [] => true
  | c :: _ => negb (is_hex c)
  end.

(** [stops tail k]: no piece and no closing quote starts [tail], and [k] is
    the offset of the byte, or of the end of the buffer, that shows it. *)
Inductive stops : list byte -> nat -> Prop :=
| stops_end : stops [] 0
| stops_control (c : byte) (rest : list byte) :
    byte_ltb c " " = true -> stops (c :: rest) 0
| stops_backslash : stops [BACKSLASH] 1
| stops_escape (e : byte) (rest : list byte) :
    is_simple_escape e = false -> Byte.eqb e "u" = false ->
    stops (BACKSLASH :: e :: rest) 1
| stops_hex (hs rest : list byte) :
    (List.length hs < 4)%nat -> forallb is_hex hs = true ->
    no_hex_first rest = true ->
    stops (BACKSLASH :: "u"%byte :: hs ++ rest) (2 + List.length hs).

(** ** The text of numbers *)

(** The parts of a number: the sign, the digits of the integer part, the
    digits after the point if there is one, and the exponent if there is
    one, with its letter, its sign if it has one and its digits. *)
Record number : Type := Number {
  minus : bool;
  int_part : list byte;
  frac_part : option (list byte);
  exp_part : option (byte * option byte * list byte)
}.

Definition frac_bytes (f : option (list byte)) : list byte :=
  match f with
  | None => []
  | Some ds => "."%byte :: ds
  end.

Definition exp_bytes (e : option (byte * option byte * list byte)) : list byte :=
  match e with
  | None => []
  | Some (letter, None, ds) => letter :: ds
  | Some (letter, Some sign, ds) => letter :: sign :: ds
  end.

Definition number_bytes (x : number) : list byte :=
  (if minus x then ["-"%byte] else [])
  ++ int_part x ++ frac_bytes (frac_part x) ++ exp_bytes (exp_part x).

(** One digit at least, and digits only. *)
Definition digits_ok (ds : list byte) : bool :=
  match ds with
  | [] => false
  | _ :: _ => forallb is_digit ds
  end.

(** The integer part of RFC 8259: [0] alone, or digits that do not start
    with [0]. *)
Definition int_ok (ds : list byte) : bool :=
  match ds with
  | [] => false
  | c :: rest =>
      if Byte.eqb c "0" then match rest with [] => true | _ :: _ => false end
      else forallb is_digit ds
  end.

Definition frac_ok (f : option (list byte)) : bool :=
  match f with
  | None => true
  | Some ds => digits_ok ds
  end.

Definition exp_ok (e : option (byte * option byte * list byte)) : bool :=
  match e with
  | None => true
  | Some (letter, sign, ds) =>
      (Byte.eqb letter "e" || Byte.eqb letter "E")
      && match sign with
         | None => true
         | Some s => Byte.eqb s "+" || Byte.eqb s "-"
         end
      && digits_ok ds
  end.

(** The numbers of RFC 8259. *)
Definition number_ok (x : number) : bool :=
  int_ok (int_part x) && frac_ok (frac_part x) && exp_ok (exp_part x).

(** What may follow the text of a number: the end of the buffer, or a byte
    that is not a digit, a point or the letter of an exponent. *)
Definition ends_token (rest : list byte) : bool :=
  match rest with
  | [] => true
  | c :: _ => negb (is_digit c) && ends_number rest
  end.

(** The buffer ends, or goes on with a byte that is not a digit. *)
Definition no_digit_first (rest : list byte) : bool :=
  match rest with
  | [] => true
  | c :: _ => negb (is_digit c)
  end.

(** A point, or the letter of an exponent with or without a sign, where
    [rest] brings no digit: what a number may not end on.  The point can
    only follow the integer part; after the letter alone [rest] does not
    start with a sign either. *)
Definition dangling (x : number) (d rest : list byte) : bool :=
  no_digit_first rest
  && match d with
     | [p] =>
         Byte.eqb p "." && match frac_part x with None => true | Some _ => false end
         || (Byte.eqb p "e" || Byte.eqb p "E")
            && match rest with
               | [] => true
               | s :: _ => negb (Byte.eqb s "+" || Byte.eqb s "-")
               end
     | [letter; sign] =>
         (Byte.eqb letter "e" || Byte.eqb letter "E")
         && (Byte.eqb sign "+" || Byte.eqb sign "-")
     | _ => false
     end.

(** ** White space *)

(** The buffer ends, or goes on with a byte that is not white space. *)
Definition no_space_first (rest : list byte) : bool :=
  match rest with
  | [] => true
  | c :: _ => negb (is_space c)
  end.

(** The bytes that the loop of [validany] steps over: white space, and the
    letter [f], whose case does not return. *)
Definition is_skipped (c : byte) : bool := is_space c || Byte.eqb c "f".

(** ** Documents *)

(** A part of a document with the white space before and after it. *)
Definition padded (A : Type) : Type := (list byte * A * list byte)%type.

(** The part itself. *)
Definition inner {A : Type} (p : padded A) : A := snd (fst p).

Definition pad {A : Type} (f : A -> list byte) (p : padded A) : list byte :=
  let '(before, a, after) := p in before ++ f a ++ after.

Definition pad_ok {A : Type} (f : A -> bool) (p : padded A) : bool :=
  let '(before, a, after) := p in
  forallb is_space before && f a && forallb is_space after.

(** The texts [parts] with [sep] between them. *)
Fixpoint sep_by (sep : byte) (parts : list (list byte)) : list byte :=
  match parts with
  | [] => []
  | [p] => p
  | p :: rest => p ++ sep :: sep_by sep rest
  end.

(** The text of a string. *)
Definition token (ps : list piece) : list byte := QUOTE :: content ps ++ [QUOTE].

(** The documents of RFC 8259 but for the literal [false], as they are
    written: a container has the white space after its opening bracket, its
    elements have theirs around them, and the key of a member has its own.
    RFC 8259 puts no text between the brackets of a container but white
    space, elements and commas. *)
#[warnings="-register-all"]
Inductive value : Type :=
| VNull
| VTrue
| VNumber (x : number)
| VString (ps : list piece)
| VArray (w : list byte) (xs : list (padded value))
| VObject (w : list byte) (ms : list (padded (list piece) * padded value)).

(** The text of a member: the key, the colon and the value. *)
Definition member_text (print : value -> list byte)
    (m : padded (list piece) * padded value) : list byte :=
  pad token (fst m) ++ ":"%byte :: pad print (snd m).

Fixpoint print (j : value) : list byte :=
  match j with
  | VNull => ["n"; "u"; "l"; "l"]%byte
  | VTrue => ["t"; "r"; "u"; "e"]%byte
  | VNumber x => number_bytes x
  | VString ps => token ps
  | VArray w xs => "["%byte :: w ++ sep_by "," (map (pad print) xs) ++ ["]"%byte]
  | VObject w ms =>
      "{"%byte :: w
      ++ sep_by "," (map (member_text print) ms) ++ ["}"%byte]
  end.

(** [fits v d j]: the document [j], met at the depth [d], is well formed and
    within the limits that [v] enables.  A container is one level deeper
    than where it is met; the length of a string or of a key is the number
    of runes of its text, less the quotes. *)
(** A string and a key within their limits. *)
Definition string_fits (v : Verify) (ps : list piece) : bool :=
  forallb piece_ok ps
  && negb (stringLenEnabled v && (RuneCount (token ps) - 2 >? StringValueLen v)).

Definition key_fits (v : Verify) (k : list piece) : bool :=
  forallb piece_ok k
  && negb (objectKeyLengthEnabled v
           && (RuneCount (token k) - 2 >? ObjectKeyLength v)).

Fixpoint fits (v : Verify) (d : Z) (j : value) : bool :=
  match j with
  | VNull | VTrue => true
  | VNumber x => number_ok x
  | VString ps => string_fits v ps
  | VArray w xs =>
      forallb is_space w
      && negb (depth_exceeded v (d + 1))
      && negb (arrayEntryCountEnabled v
               && (Z.of_nat (List.length xs) >? MaxArrayElementCount v))
      && forallb (pad_ok (fits v (d + 1))) xs
  | VObject w ms =>
      forallb is_space w
      && negb (depth_exceeded v (d + 1))
      && negb (objectEntryCountEnabled v
               && (ObjectEntryCount v <? Z.of_nat (List.length ms)))
      && forallb
           (fun m => pad_ok (key_fits v) (fst m) && pad_ok (fits v (d + 1)) (snd m))
           ms
  end.

(** What may follow a value: the end of the buffer, white space, a comma or
    a closing bracket. *)
Definition after_value (rest : list byte) : bool :=
  match rest with
  | [] => true
  | c :: _ => is_space c || Byte.eqb c "," || Byte.eqb c "]" || Byte.eqb c "}"
  end.

(** [validany] accepts the text of [j] wherever it stands, and returns the
    index after it. *)
Definition accepted (v : Verify) (j : value) : Prop :=
  forall (data : list byte) (i : nat) (d : Z) (rest : list byte),
    depth_exceeded v d = false -> fits v d j = true ->
    skipn i data = print j ++ rest -> after_value rest = true ->
    validany_returns data i d v (Scan (i + List.length (print j)) true None d).

(** [validany] takes the text of [x] wherever it stands at the depth [d],
    and returns the index after it with the error [e]. *)
Definition scanned (v : Verify) (d : Z) (x : value) (e : option error) : Prop :=
  forall (data : list byte) (i : nat) (rest : list byte),
    skipn i data = print x ++ rest -> after_value rest = true ->
    validany_returns data i d v (Scan (i + List.length (print x)) true e d).

(** Induction on documents, through the elements and the members. *)
Section ValueInduction.
Variable P : value -> Prop.
Hypothesis HNull : P VNull.
Hypothesis HTrue : P VTrue.
Hypothesis HNumber : forall x, P (VNumber x).
Hypothesis HString : forall ps, P (VString ps).
Hypothesis HArray :
  forall w xs, Forall (fun p => P (inner p)) xs -> P (VArray w xs).
Hypothesis HObject :
  forall w ms, Forall (fun m => P (inner (snd m))) ms -> P (VObject w ms).

Fixpoint value_induction (j : value) : P j :=
  match j with
  | VNull => HNull
  | VTrue => HTrue
  | VNumber x => HNumber x
  | VString ps => HString ps
  | VArray w xs =>
      HArray w xs
        ((fix all (l : list (padded value)) : Forall (fun p => P (inner p)) l :=
            match l with
            | [] => Forall_nil _
            | p :: l' => Forall_cons p (value_induction (inner p)) (all l')
            end) xs)
  | VObject w ms =>
      HObject w ms
        ((fix all (l : list (padded (list piece) * padded value))
            : Forall (fun m => P (inner (snd m))) l :=
            match l with
            | [] => Forall_nil _
            | m :: l' => Forall_cons m (value_induction (inner (snd m))) (all l')
            end) ms)
  end.

End ValueInduction.

(** ** Arrays that start with strings *)

(** A string as an element. *)
Definition string_element (s : padded (list piece)) : padded value :=
  let '(before, ps, after) := s in (before, VString ps, after).

(** The error of the length check on a string value. *)
Definition string_error (v : Verify) (ps : list piece) : option error :=
  if stringLenEnabled v && (RuneCount (token ps) - 2 >? StringValueLen v)
  then Some (errLimit stringValueLength (StringValueLen v) (RuneCount (token ps) - 2))
  else None.

(** A byte below [0x80]. *)
Definition is_ascii (b : byte) : bool := in_range 0x00 0x7F b.

(** ** What the validators admit *)

(** A number as [isValidNumber] takes it: one of RFC 8259, or a minus sign
    with no digit in the integer part. *)
Definition number_admitted (x : number) : bool :=
  (int_ok (int_part x)
   || minus x && match int_part x with [] => true | _ :: _ => false end)
  && frac_ok (frac_part x) && exp_ok (exp_part x).

(** An element or the value of a member as the validators take it: before
    it, any bytes that [validany] steps over; after it, white space. *)
Definition element_admitted (f : value -> bool) (p : padded value) : bool :=
  let '(before, x, after) := p in
  forallb is_skipped before && f x && forallb is_space after.

Definition member_admitted (v : Verify) (f : value -> bool)
    (m : padded (list piece) * padded value) : bool :=
  pad_ok (key_fits v) (fst m) && element_admitted f (snd m).

(** [admits v d j]: the document [j], met at the depth [d], is one that the
    validators can accept.  It is [fits v d j] but for three things: the
    letter [f] may stand where white space may before a value, a number may
    be a minus sign without integer digits, and the length of a string
    value is not looked at. *)
Fixpoint admits (v : Verify) (d : Z) (j : value) : bool :=
  match j with
  | VNull | VTrue => true
  | VNumber x => number_admitted x
  | VString ps => forallb piece_ok ps
  | VArray w xs =>
      forallb is_space w
      && negb (depth_exceeded v (d + 1))
      && negb (arrayEntryCountEnabled v
               && (Z.of_nat (List.length xs) >? MaxArrayElementCount v))
      && forallb (element_admitted (admits v (d + 1))) xs
  | VObject w ms =>
      forallb is_space w
      && negb (depth_exceeded v (d + 1))
      && negb (objectEntryCountEnabled v
               && (ObjectEntryCount v <? Z.of_nat (List.length ms)))
      && forallb (member_admitted v (admits v (d + 1))) ms
  end.

(** What a successful run has read between its start [i] and the index [o]
    that it returns: a value, the elements of an array up to its closing
    bracket, an array behind its opening bracket, the members of an object
    up to its closing brace, and an object behind its opening brace. *)
Definition value_found (data : list byte) (v : Verify) (i : nat) (d : Z)
    (o : nat) : Prop :=
  exists before x,
    forallb is_skipped before = true /\ admits v d x = true
    /\ skipn i data = before ++ print x ++ skipn o data.

Definition elements_found (data : list byte) (v : Verify) (i : nat) (ch : Z)
    (d : Z) (o : nat) : Prop :=
  exists p ps,
    forallb (element_admitted (admits v d)) (p :: ps) = true
    /\ arrayEntryCountEnabled v
       && (ch + Z.of_nat (List.length (p :: ps)) >? MaxArrayElementCount v) = false
    /\ skipn i data
       = sep_by "," (map (pad print) (p :: ps)) ++ "]"%byte :: skipn o data.

Definition array_found (data : list byte) (v : Verify) (i : nat) (d : Z)
    (o : nat) : Prop :=
  exists w xs,
    forallb is_space w = true
    /\ forallb (element_admitted (admits v d)) xs = true
    /\ arrayEntryCountEnabled v
       && (Z.of_nat (List.length xs) >? MaxArrayElementCount v) = false
    /\ skipn i data
       = w ++ sep_by "," (map (pad print) xs) ++ "]"%byte :: skipn o data.

Definition members_found (data : list byte) (v : Verify) (i : nat) (en : Z)
    (d : Z) (o : nat) : Prop :=
  exists m ms,
    forallb (member_admitted v (admits v d)) (m :: ms) = true
    /\ objectEntryCountEnabled v
       && (ObjectEntryCount v <? en + Z.of_nat (List.length (m :: ms))) = false
    /\ skipn i data
       = sep_by "," (map (member_text print) (m :: ms)) ++ "}"%byte :: skipn o data.

Definition object_found (data : list byte) (v : Verify) (i : nat) (d : Z)
    (o : nat) : Prop :=
  exists w ms,
    forallb is_space w = true
    /\ forallb (member_admitted v (admits v d)) ms = true
    /\ objectEntryCountEnabled v
       && (ObjectEntryCount v <? Z.of_nat (List.length ms)) = false
    /\ skipn i data
       = w ++ sep_by "," (map (member_text print) ms) ++ "}"%byte :: skipn o data.

(** The five properties, for the nine functions of the validators. *)
Definition sound_at (data : list byte) (v : Verify) (fuel : nat) : Prop :=
  (forall i d r, validany fuel data i d v = Ret r -> res_ok r = true ->
     depth_exceeded v d = false /\ value_found data v i d (res_i r))
  /\ (forall i d r, validany_loop fuel data i d v = Ret r -> res_ok r = true ->
        value_found data v i d (res_i r))
  /\ (forall i d r, isValidArray fuel data i d v = Ret r -> res_ok r = true ->
        depth_exceeded v d = false /\ array_found data v i d (res_i r))
  /\ (forall i d r, isValidArray_loop fuel data i d v = Ret r -> res_ok r = true ->
        array_found data v i d (res_i r))
  /\ (forall i ch e d r, isValidArray_elems fuel data i ch e d v = Ret r ->
        res_ok r = true -> elements_found data v i ch d (res_i r))
  /\ (forall i d r, isValidObject fuel data i d v = Ret r -> res_ok r = true ->
        depth_exceeded v d = false /\ object_found data v i d (res_i r))
  /\ (forall i d r, isValidObject_loop fuel data i d v = Ret r -> res_ok r = true ->
        object_found data v i d (res_i r))
  /\ (forall i en e d r, isValidObject_key fuel data i en e d v = Ret r ->
        res_ok r = true -> nth_error data i = Some QUOTE ->
        members_found data v i en d (res_i r))
  /\ (forall i en e d r, isValidObject_next fuel data i en e d v = Ret r ->
        res_ok r = true -> members_found data v i en d (res_i r)).

(** ** Nesting, and documents that are well formed *)

(** The largest of the measures [f] of the members of a list, or 0. *)
Definition deepest {A : Type} (f : A -> Z) (xs : list A) : Z :=
  fold_right (fun x m => Z.max (f x) m) 0 xs.

(** The depth to which the containers of a document nest: 0 for a scalar,
    1 for an array or an object that holds scalars or nothing, and one more
    than the deepest element or member value in general. *)
Fixpoint nesting (j : value) : Z :=
  match j with
  | VArray _ xs => 1 + deepest (fun p : padded value => nesting (inner p)) xs
  | VObject _ ms =>
      1 + deepest (fun m : padded (list piece) * padded value =>
                     nesting (inner (snd m))) ms
  | _ => 0
  end.

(** The documents of RFC 8259 without the literal [false], whatever the
    limits are: the numbers and the pieces of the strings are well formed
    and white space only stands around the values and the keys. *)
Fixpoint well_formed (j : value) : bool :=
  match j with
  | VNull | VTrue => true
  | VNumber x => number_ok x
  | VString ps => forallb piece_ok ps
  | VArray w xs => forallb is_space w && forallb (pad_ok well_formed) xs
  | VObject w ms =>
      forallb is_space w
      && forallb (fun m => pad_ok (forallb piece_ok) (fst m)
                           && pad_ok well_formed (snd m)) ms
  end.

(** A run that ends in failure with the error [E]. *)
Definition fails_with (E : error) (r : scan) : Prop :=
  res_ok r = false /\ res_err r = Some E.

(** The text of the members and the key of one more member, with the white
    space [wk] before that key. *)
Definition members_and_key (ms : list (padded (list piece) * padded value))
    (wk : list byte) (k : list piece) : list byte :=
  sep_by "," (map (member_text print) ms ++ [wk ++ token k]).

(** [validany] refuses with the depth error, wherever the text stands, a
    well-formed document that nests deeper than the limit [D] allows from
    the depth it is met at. *)
Definition refused_too_deep (D : Z) (j : value) : Prop :=
  forall (data : list byte) (i : nat) (d : Z) (rest : list byte),
    0 <= d <= D -> D < d + nesting j -> well_formed j = true ->
    skipn i data = print j ++ rest ->
    exists r, validany_returns data i d (depth_only D) r
              /\ fails_with (errContainerDepth D (D + 1)) r.

(** * The tests of the repository

    The cases of [jtp_test.go], run on the embedding. *)

(** [TestIsValidateString1]: the scan is entered at index 0, so a buffer
    that starts with a quote ends at once. *)
Example TestIsValidateString1 :
  snd (isValidateString (list_byte_of_string "i ♥ u") 0) = false
  /\ snd (isValidateString (json "'Example \u2764\ufe0f'") 0) = true
  /\ snd (isValidateString (json "'Example \u2764\ufe0f") 0) = true
  /\ isValidateString (json "'Example \u2764\ufe0f'") 1 = (22%nat, true).
Proof. repeat split; vm_compute; reflexivity. Qed.

(** [TestValidStringLengthUTF8], with [maxAllowed := 10]. *)
Example TestValidStringLengthUTF8 :
  validateStringLength (list_byte_of_string "Hello, 世界") 0 13 true 10
    stringValueLength = Ret None
  /\ validateStringLength (list_byte_of_string "i ♥ u") 0 7 true 10
       stringValueLength = Ret None
  /\ validateStringLength (json "'Hello, World!'") 0 15 true 10 stringValueLength
     = Ret (Some "jtp.maxStringValueLengthReached.Max-[10]-Allowed.Found-[13]"%string).
Proof. repeat split; vm_compute; reflexivity. Qed.

(** [TestIsValidArrayCase1], with [maxChild := 2]; the three cases share
    one counter. *)
Example TestIsValidArrayCase1 :
  let verifier := mkVerify 2 true 0 false 0 false 0 false 0 false in
  isValidArray 400 (json "['Hello, 世界', 'hello, world', 'hi there']") 1 0 verifier
  = Ret (Scan 44 false
           (Some "jtp.maxArrayElementCountReached.Max-[2]-Allowed.Found-[3]"%string) 0)
  /\ isValidArray 400 (json "['Hello, 世界', 'hi there']") 1 0 verifier
     = Ret (Scan 29 true None (-1))
  /\ isValidArray 400 (json "['Hello, 世界', 'hi there'") 1 (-1) verifier
     = Ret (Scan 28 false None (-1)).
Proof. repeat split; vm_compute; reflexivity. Qed.

(** [TestIsValidObjectCase1]: [isValidObject] entered at index 1 with the
    counter at zero. *)
Example TestIsValidObjectCase1 :
  let run v := r <- isValidObject (fuel_for testJSON) testJSON 1 0 v ;;
               Ret (res_ok r, res_err r) in
  run (mkVerify 4 true 0 false 0 false 0 false 0 false)
  = Ret (false, Some "jtp.maxArrayElementCountReached.Max-[4]-Allowed.Found-[5]"%string)
  /\ run (mkVerify 0 false 0 false 0 false 0 false 45 true)
     = Ret (false,
            Some "jtp.maxStringValueLengthReached.Max-[45]-Allowed.Found-[47]"%string)
  /\ run (mkVerify 0 false 0 false 0 false 7 true 0 false)
     = Ret (false, Some "jtp.maxKeyLengthReached.Max-[7]-Allowed.Found-[13]"%string)
  /\ run (mkVerify 0 false 2 true 0 false 0 false 0 false)
     = Ret (false, Some "jtp.maxContainerDepthReached.Max-[2]-Allowed.Found-[3]"%string)
  /\ run (mkVerify 0 false 5 true 0 false 0 false 0 false)
     = Ret (false, Some "jtp.maxContainerDepthReached.Max-[5]-Allowed.Found-[6]"%string)
  /\ run (mkVerify 0 false 0 false 4 true 0 false 0 false)
     = Ret (false, Some "jtp.maxObjectEntryCountReached.Max-[4]-Allowed.Found-[5]"%string).
Proof. repeat split; vm_compute; reflexivity. Qed.

(** [TestTestifyNoJSONThreatInBytesErrorCase] *)
Example TestTestifyNoJSONThreatInBytesErrorCase :
  VerifyBytes (mkVerify 4 true 0 false 0 false 0 false 0 false) testJSON
  = Ret (false, Some "jtp.maxArrayElementCountReached.Max-[4]-Allowed.Found-[5]"%string)
  /\ VerifyBytes (mkVerify 0 false 0 false 0 false 0 false 45 true) testJSON
     = Ret (false,
            Some "jtp.maxStringValueLengthReached.Max-[45]-Allowed.Found-[47]"%string)
  /\ VerifyBytes (mkVerify 0 false 0 false 0 false 7 true 0 false) testJSON
     = Ret (false, Some "jtp.maxKeyLengthReached.Max-[7]-Allowed.Found-[13]"%string)
  /\ VerifyBytes (mkVerify 0 false 2 true 0 false 0 false 0 false) testJSON
     = Ret (false, Some "jtp.maxContainerDepthReached.Max-[2]-Allowed.Found-[3]"%string)
  /\ VerifyBytes (mkVerify 0 false 5 true 0 false 0 false 0 false) testJSON
     = Ret (false, Some "jtp.maxContainerDepthReached.Max-[5]-Allowed.Found-[6]"%string).
Proof. repeat split; vm_compute; reflexivity. Qed.

(** [TestTestifyNoJSONThreatInBytesPositiveCase1] and the two boundary
    cases, the second through [New]. *)
Example TestTestifyNoJSONThreatInBytesPositive :
  VerifyBytes zeroVerify testJSON = Ret (true, None)
  /\ VerifyBytes (mkVerify 6 true 7 true 5 true 19 true 50 true) testJSON
     = Ret (true, None)
  /\ New [WithMaxArrayElementCount 6; WithMaxContainerDepth 7;
          WithMaxObjectKeyLength 19; WithMaxStringLength 50;
          WithMaxObjectEntryCount 5]
     = inl (mkVerify 6 true 7 true 5 true 19 true 50 true).
Proof. repeat split; vm_compute; reflexivity. Qed.

(** * Properties of the scanners *)

#[local] Arguments nth_error : simpl never.

Lemma nth_error_lt (data : list byte) (i : nat) (c : byte) :
  nth_error data i = Some c -> (i < List.length data)%nat.
Proof. intros H. apply nth_error_Some. congruence. Qed.

Lemma nth_error_ge (data : list byte) (i : nat) :
  nth_error data i = None -> (List.length data <= i)%nat.
Proof. intros H. now apply nth_error_None. Qed.

Lemma index_Some (data : list byte) (i : nat) (c : byte) :
  nth_error data i = Some c -> index data i = Ret c.
Proof. unfold index. now intros ->. Qed.

Lemma index_lt (data : list byte) (i : nat) :
  (i < List.length data)%nat -> exists c, index data i = Ret c /\ nth_error data i = Some c.
Proof.
  intros H. unfold index. destruct (nth_error data i) eqn:E.
  - now exists b.
  - apply nth_error_ge in E. lia.
Qed.

Lemma hex_digits_bounds (data : list byte) (j i : nat) :
  (i < List.length data)%nat ->
  (i <= fst (hex_digits j data i) <= List.length data)%nat
  /\ (snd (hex_digits j data i) = true ->
      (fst (hex_digits j data i) < List.length data)%nat).
Proof.
  revert i. induction j as [|j IH]; intros i Hi; simpl.
  - lia.
  - destruct (nth_error data (S i)) eqn:E; simpl.
    + apply nth_error_lt in E. destruct (is_hex b); simpl.
      * destruct (IH (S i) E) as [IH1 IH2]. split; [lia | exact IH2].
      * split; [lia | discriminate].
    + split; [lia | discriminate].
Qed.

Lemma isValidateString_loop_bounds (data : list byte) (n i : nat) :
  (i <= List.length data)%nat ->
  (i <= fst (isValidateString_loop n data i) <= List.length data)%nat
  /\ (snd (isValidateString_loop n data i) = true ->
      (i < fst (isValidateString_loop n data i))%nat).
Proof.
  revert i. induction n as [|n IH]; intros i Hi; cbn [isValidateString_loop fst snd].
  - split; [lia | discriminate].
  - destruct (nth_error data i) eqn:E; cbn [fst snd]; [|split; [lia | discriminate]].
    apply nth_error_lt in E.
    destruct (byte_ltb b " "); cbn [fst snd]; [split; [lia | discriminate]|].
    destruct (Byte.eqb b BACKSLASH).
    + destruct (nth_error data (S i)) eqn:E1; cbn [fst snd];
        [|split; [lia | discriminate]].
      apply nth_error_lt in E1.
      destruct (is_simple_escape b0).
      * destruct (IH (S (S i)) E1) as [IH1 IH2]. split; [lia | intros; lia].
      * destruct (Byte.eqb b0 "u"); cbn [fst snd]; [|split; [lia | discriminate]].
        pose proof (hex_digits_bounds data 4 (S i) E1) as [Hb Hok].
        destruct (hex_digits 4 data (S i)) as [i' ok'] eqn:Eh.
        cbn [fst snd] in Hb, Hok. destruct ok'; cbn [fst snd].
        -- specialize (Hok eq_refl). destruct (IH (S i') Hok) as [IH1 IH2].
           split; [lia | intros; lia].
        -- split; [lia | discriminate].
    + destruct (Byte.eqb b QUOTE); cbn [fst snd].
      * split; [lia | intros _; lia].
      * destruct (IH (S i) E) as [IH1 IH2]. split; [lia | intros; lia].
Qed.

Lemma isValidateString_bounds (data : list byte) (i o : nat) (ok : bool) :
  (i <= List.length data)%nat ->
  isValidateString data i = (o, ok) ->
  (i <= o <= List.length data)%nat /\ (ok = true -> (i < o)%nat).
Proof.
  intros Hi H. unfold isValidateString in H.
  pose proof (isValidateString_loop_bounds data (List.length data - i) i Hi) as B.
  rewrite H in B. exact B.
Qed.

Lemma digits_loop_bounds (data : list byte) (n i : nat) :
  (i <= List.length data)%nat ->
  (i <= digits_loop n data i <= List.length data)%nat.
Proof.
  revert i. induction n as [|n IH]; intros i Hi; simpl; [lia|].
  destruct (nth_error data i) eqn:E; [|lia].
  apply nth_error_lt in E. destruct (is_digit b); [|lia].
  specialize (IH (S i) E). lia.
Qed.

Lemma digits_bounds (data : list byte) (i : nat) :
  (i <= List.length data)%nat -> (i <= digits data i <= List.length data)%nat.
Proof. apply digits_loop_bounds. Qed.

Lemma digits_digit (data : list byte) (i : nat) (c : byte) :
  nth_error data i = Some c -> is_digit c = true -> (i < digits data i)%nat.
Proof.
  intros E D. unfold digits. pose proof (nth_error_lt _ _ _ E) as Hl.
  destruct (List.length data - i)%nat as [|n] eqn:En; [lia|].
  simpl. rewrite E, D.
  pose proof (digits_loop_bounds data n (S i) Hl). lia.
Qed.

Lemma isValidComma_loop_bounds (data : list byte) (e : byte) (n i : nat) :
  (i <= fst (isValidComma_loop n data i e))%nat
  /\ (snd (isValidComma_loop n data i e) = true ->
      (fst (isValidComma_loop n data i e) < List.length data)%nat).
Proof.
  revert i. induction n as [|n IH]; intros i; simpl.
  - split; [lia | discriminate].
  - destruct (nth_error data i) eqn:E; simpl; [|split; [lia | discriminate]].
    apply nth_error_lt in E.
    destruct (is_space b).
    + destruct (IH (S i)) as [IH1 IH2]. split; [lia | exact IH2].
    + destruct (Byte.eqb b ","); simpl; [split; [lia | intros _; lia]|].
      destruct (Byte.eqb b e); simpl; [split; [lia | intros _; lia]|].
      split; [lia | discriminate].
Qed.

Lemma isValidComma_bounds (data : list byte) (e : byte) (i o : nat) (ok : bool) :
  isValidComma data i e = (o, ok) ->
  (i <= o)%nat /\ (ok = true -> (o < List.length data)%nat).
Proof.
  intros H. unfold isValidComma in H.
  pose proof (isValidComma_loop_bounds data e (List.length data - i) i) as B.
  rewrite H in B. exact B.
Qed.

Lemma isValidColon_loop_bounds (data : list byte) (n i : nat) :
  snd (isValidColon_loop n data i) = true ->
  (i < fst (isValidColon_loop n data i) <= List.length data)%nat.
Proof.
  revert i. induction n as [|n IH]; intros i; simpl; [discriminate|].
  destruct (nth_error data i) eqn:E; simpl; [|discriminate].
  apply nth_error_lt in E.
  destruct (is_space b).
  - intros H. specialize (IH (S i) H). lia.
  - destruct (Byte.eqb b ":"); simpl; [intros _; lia | discriminate].
Qed.

Lemma isValidColon_bounds (data : list byte) (i o : nat) (ok : bool) :
  isValidColon data i = (o, ok) -> ok = true -> (i < o <= List.length data)%nat.
Proof.
  intros H Hok. unfold isValidColon in H.
  pose proof (isValidColon_loop_bounds data (List.length data - i) i) as B.
  rewrite H in B. subst ok. exact (B eq_refl).
Qed.

Lemma isValidTrue_bounds (data : list byte) (i o : nat) (ok : bool) :
  isValidTrue data i = (o, ok) -> ok = true -> (i < o <= List.length data)%nat.
Proof.
  unfold isValidTrue. destruct (i + 3 <=? List.length data)%nat eqn:E; simpl.
  - apply Nat.leb_le in E.
    destruct (at_is data i "r" && at_is data (i + 1) "u" && at_is data (i + 2) "e");
      intros H; inversion H; subst; intros; try discriminate; lia.
  - intros H; inversion H; subst; discriminate.
Qed.

Lemma isValidNull_bounds (data : list byte) (i o : nat) (ok : bool) :
  isValidNull data i = (o, ok) -> ok = true -> (i < o <= List.length data)%nat.
Proof.
  unfold isValidNull. destruct (i + 3 <=? List.length data)%nat eqn:E; simpl.
  - apply Nat.leb_le in E.
    destruct (at_is data i "u" && at_is data (i + 1) "l" && at_is data (i + 2) "l");
      intros H; inversion H; subst; intros; try discriminate; lia.
  - intros H; inversion H; subst; discriminate.
Qed.

Lemma is_number_start_cases (c : byte) :
  is_number_start c = true -> c = "-"%byte \/ is_digit c = true.
Proof. destruct c; cbv; auto; discriminate. Qed.

Lemma is_digit_not_minus (c : byte) : is_digit c = true -> Byte.eqb c "-" = false.
Proof. destruct c; cbv; auto; discriminate. Qed.

Lemma isValidNumber_exp_total (data : list byte) (i : nat) :
  (i <= List.length data)%nat ->
  exists o ok, isValidNumber_exp data i = Ret (o, ok)
               /\ (ok = true -> (i <= o <= List.length data)%nat).
Proof.
  intros Hi. unfold isValidNumber_exp.
  destruct (i =? List.length data)%nat eqn:E0.
  { exists i, true. split; [reflexivity | lia]. }
  apply Nat.eqb_neq in E0.
  destruct (index_lt data i) as (c & -> & _); [lia|]. cbn [bind].
  destruct (Byte.eqb c "e" || Byte.eqb c "E").
  2:{ exists i, true. split; [reflexivity | lia]. }
  destruct (S i =? List.length data)%nat eqn:E1.
  { exists (S i), false. split; [reflexivity | discriminate]. }
  apply Nat.eqb_neq in E1.
  destruct (index_lt data (S i)) as (c1 & -> & _); [lia|]. cbn [bind].
  set (i2 := if Byte.eqb c1 "+" || Byte.eqb c1 "-" then S (S i) else S i).
  assert (Hi2 : (S i <= i2 <= List.length data)%nat).
  { subst i2. destruct (Byte.eqb c1 "+" || Byte.eqb c1 "-"); lia. }
  destruct (i2 =? List.length data)%nat eqn:E2.
  { exists i2, false. split; [reflexivity | discriminate]. }
  apply Nat.eqb_neq in E2.
  destruct (index_lt data i2) as (c2 & -> & _); [lia|]. cbn [bind].
  destruct (byte_ltb c2 "0" || byte_ltb "9" c2).
  { exists i2, false. split; [reflexivity | discriminate]. }
  exists (digits data (S i2)), true. split; [reflexivity|]. intros _.
  pose proof (digits_bounds data (S i2)). lia.
Qed.

Lemma isValidNumber_frac_total (data : list byte) (i : nat) :
  (i <= List.length data)%nat ->
  exists o ok, isValidNumber_frac data i = Ret (o, ok)
               /\ (ok = true -> (i <= o <= List.length data)%nat).
Proof.
  intros Hi. unfold isValidNumber_frac.
  destruct (i =? List.length data)%nat eqn:E0.
  { exists i, true. split; [reflexivity | lia]. }
  apply Nat.eqb_neq in E0.
  destruct (index_lt data i) as (c & -> & _); [lia|]. cbn [bind].
  destruct (Byte.eqb c ".").
  2:{ now apply isValidNumber_exp_total. }
  destruct (S i =? List.length data)%nat eqn:E1.
  { exists (S i), false. split; [reflexivity | discriminate]. }
  apply Nat.eqb_neq in E1.
  destruct (index_lt data (S i)) as (c1 & -> & _); [lia|]. cbn [bind].
  destruct (byte_ltb c1 "0" || byte_ltb "9" c1).
  { exists (S i), false. split; [reflexivity | discriminate]. }
  pose proof (digits_bounds data (S (S i))) as Hd.
  destruct (isValidNumber_exp_total data (digits data (S (S i)))) as (o & ok & -> & Hb);
    [lia|].
  exists o, ok. split; [reflexivity|]. intros H. specialize (Hb H). lia.
Qed.

(** [isValidNumber] never reads outside the buffer when it is entered the
    way [validany] enters it, and a successful scan moves forward. *)
Lemma isValidNumber_total (data : list byte) (i : nat) (c : byte) :
  nth_error data i = Some c -> is_number_start c = true ->
  exists o ok, isValidNumber data (S i) = Ret (o, ok)
               /\ (ok = true -> (i < o <= List.length data)%nat).
Proof.
  intros E Hc. pose proof (nth_error_lt _ _ _ E) as Hl.
  unfold isValidNumber. rewrite (index_Some _ _ _ E). cbn [bind].
  destruct (is_number_start_cases c Hc) as [-> | Hd].
  - change (Byte.eqb "-" "-") with true. cbv iota.
    destruct (S i =? List.length data)%nat eqn:E1.
    { exists (S i), false. split; [reflexivity | discriminate]. }
    apply Nat.eqb_neq in E1.
    destruct (index_lt data (S i)) as (c1 & -> & _); [lia|]. cbn [bind].
    pose proof (digits_bounds data (S i)) as Hb.
    set (i2 := if Byte.eqb c1 "0" then S (S i) else digits data (S i)).
    assert (Hi2 : (S i <= i2 <= List.length data)%nat).
    { subst i2. destruct (Byte.eqb c1 "0"); lia. }
    destruct (isValidNumber_frac_total data i2) as (o & ok & -> & Ho); [lia|].
    exists o, ok. split; [reflexivity|]. intros H. specialize (Ho H). lia.
  - rewrite (is_digit_not_minus c Hd).
    destruct (i =? List.length data)%nat eqn:E1.
    { apply Nat.eqb_eq in E1. lia. }
    rewrite (index_Some _ _ _ E). cbn [bind].
    pose proof (digits_digit data i c E Hd) as Hlt.
    pose proof (digits_bounds data i) as Hb.
    set (i2 := if Byte.eqb c "0" then S i else digits data i).
    assert (Hi2 : (S i <= i2 <= List.length data)%nat).
    { subst i2. destruct (Byte.eqb c "0"); lia. }
    destruct (isValidNumber_frac_total data i2) as (o & ok & -> & Ho); [lia|].
    exists o, ok. split; [reflexivity|]. intros H. specialize (Ho H). lia.
Qed.

Lemma validateStringLength_total (data : list byte) (s e : nat) (en : bool)
    (m : Z) (ty : string) :
  (s <= e <= List.length data)%nat ->
  exists r, validateStringLength data s e en m ty = Ret r.
Proof.
  intros [H1 H2]. unfold validateStringLength.
  apply Nat.leb_le in H1, H2. rewrite H1, H2. cbn [andb].
  destruct (en && _); eauto.
Qed.

(** * Fuel

    The result of a validator does not depend on the fuel once there is
    enough of it, and [fuel_for data] is enough for every call that
    [isValidJSON] makes. *)

Ltac unfold_validators :=
  cbn [validany validany_loop isValidArray isValidArray_loop isValidArray_elems
       isValidObject isValidObject_loop isValidObject_key isValidObject_next].

Ltac unfold_validators_in H :=
  cbn [validany validany_loop isValidArray isValidArray_loop isValidArray_elems
       isValidObject isValidObject_loop isValidObject_key isValidObject_next] in H.

(** Case analysis along the path that led a validator to [Ret r]. *)
Ltac split_scan H :=
  match type of H with
  | Ret _ = Ret _ => idtac
  | (if ?b then _ else _) = Ret _ => destruct b eqn:?; split_scan H
  | match nth_error ?d ?i with _ => _ end = Ret _ =>
      destruct (nth_error d i) eqn:?; split_scan H
  | (let (_, _) := ?p in _) = Ret _ => destruct p eqn:?; split_scan H
  | bind ?m _ = Ret _ =>
      let E := fresh "E" in
      destruct m eqn:E; cbn [bind] in H;
      [split_scan H | discriminate H | discriminate H]
  | _ => idtac
  end.

Ltac rewrite_known :=
  repeat first
    [ progress cbn [bind negb]
    | match goal with
      | E : ?x = true |- context [?x] => rewrite E
      | E : ?x = false |- context [?x] => rewrite E
      | E : ?x = (_, _) |- context [?x] => rewrite E
      | E : ?x = Ret _ |- context [?x] => rewrite E
      end ].

Section Validators.

Variables (data : list byte) (v : Verify).

Lemma fuel_step : forall fuel, fuel_grows data v fuel (S fuel).
Proof.
  induction fuel as [|fuel IH].
  - unfold fuel_grows. repeat split; intros; discriminate.
  - destruct IH as (IH1 & IH2 & IH3 & IH4 & IH5 & IH6 & IH7 & IH8 & IH9).
    unfold fuel_grows. repeat split; intros until r; intros H.
    all: remember (S fuel) as f eqn:Ef; unfold_validators; subst f.
    all: unfold_validators_in H; split_scan H.
    all: try assumption.
    all: repeat match goal with
         | E : validany _ _ _ _ _ = Ret _ |- _ =>
             apply IH1 in E; rewrite E; cbn [bind]
         end.
    all: rewrite_known; auto.
Qed.

Lemma fuel_mono (fuel fuel' : nat) : (fuel <= fuel')%nat -> fuel_grows data v fuel fuel'.
Proof.
  induction 1 as [|m Hle IH].
  - unfold fuel_grows. repeat split; auto.
  - destruct IH as (IH1 & IH2 & IH3 & IH4 & IH5 & IH6 & IH7 & IH8 & IH9).
    destruct (fuel_step m) as (S1 & S2 & S3 & S4 & S5 & S6 & S7 & S8 & S9).
    unfold fuel_grows. repeat split; auto.
Qed.

Lemma validany_fuel (fuel fuel' i : nat) (d : Z) (r : scan) :
  (fuel <= fuel')%nat ->
  validany fuel data i d v = Ret r -> validany fuel' data i d v = Ret r.
Proof. intros Hle. apply (fuel_mono fuel fuel' Hle). Qed.

Lemma validany_deterministic (f1 f2 i : nat) (d : Z) (r1 r2 : scan) :
  validany f1 data i d v = Ret r1 -> validany f2 data i d v = Ret r2 -> r1 = r2.
Proof.
  intros H1 H2.
  apply (validany_fuel f1 (Nat.max f1 f2)) in H1; [|lia].
  apply (validany_fuel f2 (Nat.max f1 f2)) in H2; [|lia].
  congruence.
Qed.

Ltac done_ret :=
  eexists; split;
  [reflexivity
  | unfold moves; cbn [res_ok res_i]; intros; try discriminate; try lia].

Ltac by_IH IH :=
  let r := fresh "r" in let Hr := fresh "Hr" in let Hm := fresh "Hm" in
  edestruct IH as (r & Hr & Hm);
  [| | exists r; split;
       [exact Hr
       | unfold moves in *; let K := fresh in intros K; specialize (Hm K); lia]];
  lia.

(** No validator panics or runs out of fuel, given five units of fuel for
    each byte that is left. *)
Lemma validators_total : forall fuel, total_at data v fuel.
Proof.
  induction fuel as [|fuel IH].
  - unfold total_at. repeat split; intros; lia.
  - destruct IH as (IH1 & IH2 & IH3 & IH4 & IH5 & IH6 & IH7 & IH8 & IH9).
    unfold total_at. repeat split; intros; unfold_validators.
    + destruct (depth_exceeded v d); [done_ret|]. by_IH IH2.
    + destruct (nth_error data i) as [c|] eqn:E; [|done_ret].
      pose proof (nth_error_lt _ _ _ E) as Hl.
      destruct (is_space c); [by_IH IH2|].
      destruct (Byte.eqb c "{"); [by_IH IH6|].
      destruct (Byte.eqb c "["); [by_IH IH3|].
      destruct (Byte.eqb c QUOTE).
      { destruct (isValidateString data (S i)) as [o ok] eqn:Es.
        apply isValidateString_bounds in Es; [|lia]. destruct Es as [Hb Hok].
        destruct (validateStringLength_total data i o (stringLenEnabled v)
                    (StringValueLen v) stringValueLength) as [e ->]; [lia|].
        cbn [bind]. eexists; split; [reflexivity|].
        unfold moves; cbn [res_ok res_i].
        intros ->. specialize (Hok eq_refl). lia. }
      destruct (is_number_start c) eqn:En.
      { destruct (isValidNumber_total data i c E En) as (o & ok & -> & Ho).
        cbn [bind fst snd]. eexists; split; [reflexivity|]. exact Ho. }
      destruct (Byte.eqb c "t").
      { destruct (isValidTrue data (S i)) as [o ok] eqn:Et.
        eexists; split; [reflexivity|]. unfold moves; cbn [res_ok res_i].
        intros ->. pose proof (isValidTrue_bounds _ _ _ _ Et eq_refl). lia. }
      destruct (Byte.eqb c "f").
      { destruct (isValidFalse data (S i)). by_IH IH2. }
      destruct (Byte.eqb c "n"); [|done_ret].
      destruct (isValidNull data (S i)) as [o ok] eqn:Et.
      eexists; split; [reflexivity|]. unfold moves; cbn [res_ok res_i].
      intros ->. pose proof (isValidNull_bounds _ _ _ _ Et eq_refl). lia.
    + destruct (depth_exceeded v d); [done_ret|]. by_IH IH4.
    + destruct (nth_error data i) as [c|] eqn:E; [|done_ret].
      pose proof (nth_error_lt _ _ _ E) as Hl.
      destruct (is_space c); [by_IH IH4|].
      destruct (Byte.eqb c "]"); [done_ret|]. by_IH IH5.
    + destruct (nth_error data i) as [c|] eqn:E; [|done_ret].
      pose proof (nth_error_lt _ _ _ E) as Hl.
      destruct (IH1 i d) as (a & -> & Ha); [lia | lia |]. cbn [bind].
      destruct (res_ok a) eqn:Eok; cbn [negb]; [|done_ret].
      specialize (Ha Eok).
      destruct (isValidComma data (res_i a) "]") as [i' ok'] eqn:Ec.
      apply isValidComma_bounds in Ec. destruct Ec as [Hc1 Hc2].
      destruct ok'; cbn [negb]; [|done_ret]. specialize (Hc2 eq_refl).
      destruct (arrayEntryCountEnabled v && _); [done_ret|].
      destruct (index_lt data i' Hc2) as (c' & -> & _). cbn [bind].
      destruct (Byte.eqb c' "]"); [done_ret|]. by_IH IH5.
    + destruct (depth_exceeded v d); [done_ret|]. by_IH IH7.
    + destruct (nth_error data i) as [c|] eqn:E; [|done_ret].
      pose proof (nth_error_lt _ _ _ E) as Hl.
      destruct (is_space c); [by_IH IH7|].
      destruct (Byte.eqb c "}"); [done_ret|].
      destruct (Byte.eqb c QUOTE); [|done_ret]. by_IH IH8.
    + destruct (isValidateString data (S i)) as [o ok] eqn:Es.
      apply isValidateString_bounds in Es; [|lia]. destruct Es as [Hb Hok].
      destruct ok; cbn [negb]; [|done_ret]. specialize (Hok eq_refl).
      destruct (objectEntryCountEnabled v && _); [done_ret|].
      destruct (validateStringLength_total data i o (objectKeyLengthEnabled v)
                  (ObjectKeyLength v) objectKeyValueLength) as [e' ->]; [lia|].
      cbn [bind]. destruct (is_err e'); [done_ret|].
      destruct (isValidColon data o) as [i1 ok1] eqn:Ec.
      destruct ok1; cbn [negb]; [|done_ret].
      pose proof (isValidColon_bounds _ _ _ _ Ec eq_refl) as Hc.
      destruct (IH1 i1 d) as (a & -> & Ha); [lia | lia |]. cbn [bind].
      destruct (res_ok a) eqn:Eok; cbn [negb orb]; [|done_ret].
      specialize (Ha Eok).
      destruct (is_err (res_err a)); [done_ret|].
      destruct (isValidComma data (res_i a) "}") as [i2 ok2] eqn:Ec2.
      apply isValidComma_bounds in Ec2. destruct Ec2 as [Hc1 Hc2].
      destruct ok2; cbn [negb]; [|done_ret]. specialize (Hc2 eq_refl).
      destruct (index_lt data i2 Hc2) as (c' & -> & _). cbn [bind].
      destruct (Byte.eqb c' "}"); [done_ret|]. by_IH IH9.
    + destruct (nth_error data i) as [c|] eqn:E; [|done_ret].
      pose proof (nth_error_lt _ _ _ E) as Hl.
      destruct (is_space c); [by_IH IH9|].
      destruct (Byte.eqb c QUOTE); [|done_ret]. by_IH IH8.
Qed.

(** [isValidJSON] gives [validany] enough fuel. *)
Lemma validany_total (i : nat) (d : Z) :
  (i <= List.length data)%nat ->
  exists r, validany (fuel_for data) data i d v = Ret r /\ moves data i r.
Proof.
  intros Hi. apply (validators_total (fuel_for data)); [exact Hi|].
  unfold fuel_for. lia.
Qed.

(** Whatever fuel produced a result, [isValidJSON] finds the same one. *)
Lemma validany_fuel_for (fuel i : nat) (d : Z) (r : scan) :
  (i <= List.length data)%nat ->
  validany fuel data i d v = Ret r -> validany (fuel_for data) data i d v = Ret r.
Proof.
  intros Hi H. destruct (validany_total i d Hi) as (r' & Hr' & _).
  rewrite Hr'. f_equal. exact (validany_deterministic _ _ _ _ _ _ Hr' H).
Qed.

End Validators.

(** * The top-level driver *)

Lemma isValidJSON_rest_spec (data : list byte) (n j : nat) :
  (List.length data - j <= n)%nat ->
  (snd (isValidJSON_rest n data j) = true <-> space_from data j).
Proof.
  revert j. induction n as [|n IH]; intros j Hn; cbn [isValidJSON_rest].
  - cbn [snd]. split; [|reflexivity]. intros _ k c Hk E.
    apply nth_error_lt in E. lia.
  - destruct (nth_error data j) as [c|] eqn:E.
    + pose proof (nth_error_lt _ _ _ E) as Hl.
      destruct (is_space c) eqn:Ec.
      * rewrite IH by lia. split; intros H k c' Hk E'.
        -- destruct (Nat.eq_dec k j) as [->|Hne]; [congruence|].
           apply (H k c'); [lia | exact E'].
        -- apply (H k c'); [lia | exact E'].
      * cbn [snd]. split; [discriminate|]. intros H.
        rewrite (H j c (Nat.le_refl j) E) in Ec. discriminate.
    + cbn [snd]. split; [|reflexivity]. intros _ k c Hk E'.
      apply nth_error_ge in E. apply nth_error_lt in E'. lia.
Qed.

Section Driver.

Variables (data : list byte) (v : Verify).

(** The outer loop of [isValidJSON] always returns, and never returns
    [ok] with an error. *)
Lemma isValidJSON_loop_returns (n i : nat) (d : Z) :
  (i <= List.length data)%nat ->
  exists r, isValidJSON_loop n data i d v = Ret r
            /\ (res_ok r = true -> res_err r = None).
Proof.
  revert i. induction n as [|n IH]; intros i Hi; cbn [isValidJSON_loop].
  - eexists; split; [reflexivity | discriminate].
  - destruct (nth_error data i) as [c|] eqn:E.
    2:{ eexists; split; [reflexivity | discriminate]. }
    pose proof (nth_error_lt _ _ _ E) as Hl.
    destruct (is_space c); [apply IH; lia|].
    destruct (validany_total data v i d Hi) as (a & -> & _). cbn [bind].
    destruct (res_ok a); cbn [negb orb].
    2:{ eexists; split; [reflexivity | discriminate]. }
    destruct (res_err a) as [e|] eqn:Ee; cbn [is_err].
    { eexists; split; [reflexivity | discriminate]. }
    destruct (isValidJSON_rest _ data (res_i a)) as [k ok'].
    eexists; split; [reflexivity | reflexivity].
Qed.

(** What a successful run of the outer loop went through. *)
Lemma isValidJSON_loop_ok (n i : nat) (d : Z) (r : scan) :
  isValidJSON_loop n data i d v = Ret r -> res_ok r = true ->
  exists j c a,
    (i <= j)%nat
    /\ (forall k c', (i <= k < j)%nat -> nth_error data k = Some c' ->
                     is_space c' = true)
    /\ nth_error data j = Some c /\ is_space c = false
    /\ validany (fuel_for data) data j d v = Ret a
    /\ res_ok a = true /\ res_err a = None
    /\ space_from data (res_i a)
    /\ res_err r = None /\ res_depth r = res_depth a.
Proof.
  revert i. induction n as [|n IH]; intros i H Hok; cbn [isValidJSON_loop] in H.
  - inversion H; subst r. discriminate.
  - destruct (nth_error data i) as [c|] eqn:E.
    2:{ inversion H; subst r. discriminate. }
    destruct (is_space c) eqn:Ec.
    + destruct (IH (S i) H Hok) as (j & c0 & a & Hj & Hws & rest).
      exists j, c0, a. split; [lia|]. split; [|exact rest].
      intros k c' Hk E'. destruct (Nat.eq_dec k i) as [->|Hne]; [congruence|].
      apply (Hws k c'); [lia | exact E'].
    + destruct (validany (fuel_for data) data i d v) as [a| |] eqn:Ea;
        cbn [bind] in H; try discriminate.
      destruct (res_ok a) eqn:Eok; cbn [negb orb] in H.
      2:{ inversion H; subst r. discriminate. }
      destruct (res_err a) as [e|] eqn:Ee; cbn [is_err] in H.
      { inversion H; subst r. discriminate. }
      destruct (isValidJSON_rest _ data (res_i a)) as [k ok'] eqn:Er.
      inversion H; subst r. cbn [res_ok res_err res_depth] in *. subst ok'.
      exists i, c, a. repeat split; auto.
      * intros k0 c' Hk. lia.
      * apply (isValidJSON_rest_spec data (List.length data - res_i a) (res_i a));
          [lia|]. now rewrite Er.
Qed.

(** The converse: white space, one value, white space is accepted. *)
Lemma isValidJSON_loop_accepts (n i j : nat) (d : Z) (c : byte) (a : scan) :
  (i <= j)%nat -> (j - i < n)%nat ->
  (forall k c', (i <= k < j)%nat -> nth_error data k = Some c' ->
                is_space c' = true) ->
  nth_error data j = Some c -> is_space c = false ->
  validany (fuel_for data) data j d v = Ret a ->
  res_ok a = true -> res_err a = None -> space_from data (res_i a) ->
  exists k, isValidJSON_loop n data i d v = Ret (Scan k true None (res_depth a)).
Proof.
  revert i. induction n as [|n IH]; intros i Hij Hn Hws Ej Ec Ha Hok He Hsp; [lia|].
  cbn [isValidJSON_loop].
  destruct (Nat.eq_dec i j) as [->|Hne].
  - rewrite Ej, Ec, Ha. cbn [bind]. rewrite Hok, He. cbn [negb orb is_err].
    destruct (isValidJSON_rest _ data (res_i a)) as [k ok'] eqn:Er.
    assert (ok' = true) as ->.
    { change ok' with (snd (k, ok')). rewrite <- Er.
      apply isValidJSON_rest_spec; [lia | exact Hsp]. }
    now exists k.
  - assert (Hlt : (i < j)%nat) by lia.
    pose proof (nth_error_lt _ _ _ Ej) as Hl.
    destruct (index_lt data i) as (ci & _ & Ei); [lia|].
    rewrite Ei, (Hws i ci) by (auto; lia).
    apply IH; auto; try lia.
    intros k c' Hk. apply Hws. lia.
Qed.

(** On white space alone the outer loop runs to the end. *)
Lemma isValidJSON_loop_space (n i : nat) (d : Z) :
  (forall c, In c data -> is_space c = true) ->
  exists k, isValidJSON_loop n data i d v = Ret (Scan k false None d).
Proof.
  intros Hws. revert i. induction n as [|n IH]; intros i; cbn [isValidJSON_loop].
  - now exists i.
  - destruct (nth_error data i) as [c|] eqn:E; [|now exists i].
    rewrite (Hws c (nth_error_In _ _ E)). apply IH.
Qed.

End Driver.

(** * Claims about the driver *)

Lemma isValidJSON_returns (v : Verify) (data : list byte) :
  exists r, isValidJSON data 0 0 v = Ret r /\ (res_ok r = true -> res_err r = None).
Proof. apply isValidJSON_loop_returns. lia. Qed.

Lemma VerifyBytes_outcome (v : Verify) (data : list byte) :
  VerifyBytes v data = Ret (true, None)
  \/ exists e, VerifyBytes v data = Ret (false, Some e).
Proof.
  unfold VerifyBytes.
  destruct (isValidJSON_returns v data) as ([i ok e d] & -> & Hnil).
  cbn [bind res_ok res_err] in *. destruct ok.
  - left. rewrite (Hnil eq_refl). reflexivity.
  - right. destruct e as [e|]; cbn [is_err negb andb]; eauto.
Qed.

(** C1. [VerifyBytes] and [VerifyString] always return, and what they
    return is either [(true, nil)] or [false] with a non-nil error: the pair
    [(true, non-nil error)] never occurs.  For an array whose only string is
    longer than the enabled limit, [isValidArray] itself returns [true] with
    the length error, and [VerifyBytes] returns [false] with it. *)
Theorem verify_true_means_nil :
  (forall (v : Verify) (data : list byte),
      VerifyBytes v data = Ret (true, None)
      \/ exists e, VerifyBytes v data = Ret (false, Some e))
  /\ (forall (v : Verify) (s : string),
      VerifyString v s = Ret (true, None)
      \/ exists e, VerifyString v s = Ret (false, Some e))
  /\ isValidArray_returns (json "['abcd']") 1 1
       (mkVerify 0 false 0 false 0 false 0 false 3 true)
       (Scan 8 true (Some (errLimit stringValueLength 3 4)) 0)
  /\ VerifyBytes (mkVerify 0 false 0 false 0 false 0 false 3 true) (json "['abcd']")
     = Ret (false, Some (errLimit stringValueLength 3 4)).
Proof.
  split; [|split; [|split]].
  - exact VerifyBytes_outcome.
  - intros v s. unfold VerifyString. apply VerifyBytes_outcome.
  - exists 10%nat. vm_compute. reflexivity.
  - vm_compute. reflexivity.
Qed.

(** C10. On the empty buffer, and on a buffer that holds nothing but
    [' '], ['\t'], ['\n'] and ['\r'], [VerifyBytes] returns
    [(false, ErrInvalidJSON)] whatever the configuration. *)
Theorem verify_blank_is_malformed (v : Verify) (data : list byte) :
  forallb is_space data = true ->
  VerifyBytes v data = Ret (false, Some ErrInvalidJSON).
Proof.
  intros H. rewrite forallb_forall in H.
  unfold VerifyBytes, isValidJSON.
  destruct (isValidJSON_loop_space data v (List.length data - 0) 0 0 H) as [k ->].
  reflexivity.
Qed.

(** An instance: the four kinds of white space, with every limit enabled. *)
Lemma verify_blank_is_malformed_witness :
  forallb is_space [" "; TAB; LF; CR; " "]%byte = true
  /\ VerifyBytes (mkVerify 2 true 1 true 1 true 1 true 1 true) [" "; TAB; LF; CR; " "]%byte
     = Ret (false, Some ErrInvalidJSON).
Proof.
  split; [reflexivity|].
  apply (verify_blank_is_malformed
           (mkVerify 2 true 1 true 1 true 1 true 1 true) [" "; TAB; LF; CR; " "]%byte).
  reflexivity.
Defined.


(** * The depth counter *)

Ltac split_all := repeat match goal with |- _ /\ _ => split end.

Ltac use_IH IH :=
  repeat match goal with
         | E : _ = Ret _ |- _ => apply IH in E
         end.

Ltac depth_arith :=
  unfold depth_kept, depth_closed in *; cbn [res_ok res_depth] in *;
  repeat match goal with
         | H : negb _ = false |- _ => apply negb_false_iff in H
         | H : negb _ = true |- _ => apply negb_true_iff in H
         | H : _ || _ = false |- _ => apply orb_false_elim in H; destruct H
         | H : _ /\ _ |- _ => destruct H
         end;
  split; intros;
  repeat match goal with
         | H : ?a = true -> _, K : ?a = true |- _ => specialize (H K)
         | H : ?a = false -> _, K : ?a = false |- _ => specialize (H K)
         end;
  try discriminate; try lia;
  try match goal with
      | H : res_ok ?a = true -> _, K : res_ok ?a = false -> _ |- _ =>
          destruct (res_ok a);
          [specialize (H eq_refl) | specialize (K eq_refl)]; lia
      end.

Section Depth.

Variables (data : list byte) (v : Verify).

Lemma depth_paired : forall fuel, depth_at data v fuel.
Proof.
  induction fuel as [|fuel IH].
  - unfold depth_at. split_all; intros; discriminate.
  - destruct IH as (IH1 & IH2 & IH3 & IH4 & IH5 & IH6 & IH7 & IH8 & IH9).
    unfold depth_at. split_all; intros until r; intros H.
    all: unfold_validators_in H; split_scan H.
    all: use_IH IH1; use_IH IH2; use_IH IH3; use_IH IH4; use_IH IH5;
         use_IH IH6; use_IH IH7; use_IH IH8; use_IH IH9.
    all: try (inversion H; subst r; clear H).
    all: depth_arith.
Qed.

Lemma isValidJSON_loop_depth (n i : nat) (d : Z) (r : scan) :
  isValidJSON_loop n data i d v = Ret r -> depth_kept d r.
Proof.
  revert i. induction n as [|n IH]; intros i H; cbn [isValidJSON_loop] in H.
  - inversion H; subst r. depth_arith.
  - split_scan H; eauto.
    all: try (apply (depth_paired (fuel_for data)) in E).
    all: inversion H; subst r; clear H; depth_arith.
Qed.

End Depth.

(** C8, as the code has it.  The counter goes down only at a successful
    close, once for each container: a validator that succeeds leaves it as
    it found it ([validany]) or one below its value at entry
    ([isValidArray] and [isValidObject], entered after the increment), and
    a validator that fails never takes anything off.  So [isValidJSON]
    ends with the counter at zero when it succeeds, and at zero or above
    when it fails. *)
Theorem depth_restored_on_success :
  (forall fuel data v i d r,
      validany fuel data i d v = Ret r -> depth_kept d r)
  /\ (forall fuel data v i d r,
      isValidArray fuel data i d v = Ret r -> depth_closed d r)
  /\ (forall fuel data v i d r,
      isValidObject fuel data i d v = Ret r -> depth_closed d r)
  /\ (forall v data,
      exists r, isValidJSON data 0 0 v = Ret r /\ depth_kept 0 r).
Proof.
  split_all.
  - intros fuel data v. apply (depth_paired data v fuel).
  - intros fuel data v. apply (depth_paired data v fuel).
  - intros fuel data v. apply (depth_paired data v fuel).
  - intros v data. destruct (isValidJSON_returns v data) as (r & Hr & _).
    exists r. split; [exact Hr|].
    exact (isValidJSON_loop_depth data v _ _ _ _ Hr).
Qed.

(** C8 as the spec words it fails: after the unclosed bracket the
    validation has failed and the counter is still at one. *)
Lemma depth_left_incremented_on_failure :
  exists r, isValidJSON (json "[") 0 0 zeroVerify = Ret r
            /\ res_ok r = false /\ res_depth r <> 0.
Proof.
  exists (Scan 1 false None 1). split; [vm_compute; reflexivity|].
  split; [reflexivity | discriminate].
Qed.

(** * Error messages *)

Lemma limit_or_nil_None : limit_or_nil None.
Proof. intros m H. discriminate. Qed.

Lemma limit_or_nil_depth (m f : Z) : limit_or_nil (Some (errContainerDepth m f)).
Proof.
  intros x H. inversion H; subst x.
  exists "maxContainerDepthReached"%string, m, f. split; [cbn; tauto | reflexivity].
Qed.

Lemma limit_or_nil_array (m f : Z) : limit_or_nil (Some (errArrayElementCount m f)).
Proof.
  intros x H. inversion H; subst x.
  exists "maxArrayElementCountReached"%string, m, f. split; [cbn; tauto | reflexivity].
Qed.

Lemma limit_or_nil_entries (m f : Z) : limit_or_nil (Some (errObjectEntryCount m f)).
Proof.
  intros x H. inversion H; subst x.
  exists "maxObjectEntryCountReached"%string, m, f. split; [cbn; tauto | reflexivity].
Qed.

Lemma validateStringLength_limit (data : list byte) (s e : nat) (en : bool)
    (m : Z) (ty : string) (r : option error) :
  In ty limit_labels ->
  validateStringLength data s e en m ty = Ret r -> limit_or_nil r.
Proof.
  intros Hty. unfold validateStringLength.
  destruct (_ && _); [|discriminate].
  destruct (en && _); intros H; inversion H; subst r.
  - intros x Hx. inversion Hx; subst x.
    eexists ty, m, _. split; [exact Hty | reflexivity].
  - apply limit_or_nil_None.
Qed.

Section Errors.

Variables (data : list byte) (v : Verify).

Lemma errors_are_limits : forall fuel, errors_at data v fuel.
Proof.
  induction fuel as [|fuel IH].
  - unfold errors_at. split_all; intros; discriminate.
  - destruct IH as (IH1 & IH2 & IH3 & IH4 & IH5 & IH6 & IH7 & IH8 & IH9).
    unfold errors_at. split_all; intros until r; intros H;
      try match goal with |- limit_or_nil _ -> _ => intros He end.
    all: unfold_validators_in H; split_scan H.
    all: repeat match goal with
         | E : validateStringLength _ _ _ _ _ _ = Ret _ |- _ =>
             apply validateStringLength_limit in E; [|cbn; tauto]
         end.
    all: use_IH IH1.
    all: use_IH IH2; use_IH IH3; use_IH IH4; use_IH IH6; use_IH IH7.
    all: try (apply IH5 in H); try (apply IH8 in H); try (apply IH9 in H).
    all: try (inversion H; subst r; clear H; cbn [res_err]).
    all: auto using limit_or_nil_None, limit_or_nil_depth, limit_or_nil_array,
           limit_or_nil_entries.
Qed.

Lemma isValidJSON_loop_errors (n i : nat) (d : Z) (r : scan) :
  isValidJSON_loop n data i d v = Ret r -> limit_or_nil (res_err r).
Proof.
  revert i. induction n as [|n IH]; intros i H; cbn [isValidJSON_loop] in H.
  - inversion H; subst r. apply limit_or_nil_None.
  - split_scan H; eauto.
    all: try (apply (errors_are_limits (fuel_for data)) in E).
    all: inversion H; subst r; clear H; cbn [res_err];
      auto using limit_or_nil_None.
Qed.

End Errors.

Lemma ErrInvalidJSON_not_limit : ~ is_limit_error ErrInvalidJSON.
Proof.
  intros (label & m & f & Hin & E). cbn in Hin.
  destruct Hin as [<-|[<-|[<-|[<-|[<-|[]]]]]]; cbv in E; discriminate.
Qed.

(** C3, as the code has it.  An error returned by [VerifyBytes] is the
    sentinel [ErrInvalidJSON], whose message is [jtp.MalformedJSON], or the
    text [jtp.<label>.Max-[<max>]-Allowed.Found-[<found>]] for one of the
    five labels, and never both.  The test document, whose longest string
    value has 47 characters, checked with a string limit of 45 and nothing
    else enabled, gives the message with the prefix [jtp.]. *)
Theorem verify_error_messages :
  (forall v data ok e,
      VerifyBytes v data = Ret (ok, Some e) ->
      e = ErrInvalidJSON \/ is_limit_error e)
  /\ ~ is_limit_error ErrInvalidJSON
  /\ ErrInvalidJSON = "jtp.MalformedJSON"%string
  /\ (forall label m f,
      errLimit label m f
      = ("jtp." ++ label ++ ".Max-[" ++ fmt_d m
                ++ "]-Allowed.Found-[" ++ fmt_d f ++ "]")%string)
  /\ VerifyBytes (mkVerify 0 false 0 false 0 false 0 false 45 true) testJSON
     = Ret (false,
            Some "jtp.maxStringValueLengthReached.Max-[45]-Allowed.Found-[47]"%string).
Proof.
  split_all.
  - intros v data ok e H. unfold VerifyBytes in H.
    destruct (isValidJSON data 0 0 v) as [r| |] eqn:Er; cbn [bind] in H;
      try discriminate.
    pose proof (isValidJSON_loop_errors data v _ _ _ _ Er) as Hl.
    destruct (res_err r) as [x|] eqn:Ex; cbn [is_err negb andb] in H.
    + inversion H; subst. right. now apply Hl.
    + destruct (res_ok r); cbn [negb] in H; inversion H. now left.
  - exact ErrInvalidJSON_not_limit.
  - reflexivity.
  - reflexivity.
  - vm_compute. reflexivity.
Qed.

(** C3 as the spec words it fails: the message does not start with
    [threat.]. *)
Lemma verify_error_prefix_is_not_threat :
  VerifyBytes (mkVerify 0 false 0 false 0 false 0 false 45 true) testJSON
  <> Ret (false,
          Some "threat.maxStringValueLengthReached.Max-[45]-Allowed.Found-[47]"%string).
Proof. vm_compute. discriminate. Qed.

(** * Reading a buffer whose tail is known *)

Lemma skipn_cons_inv (data : list byte) (i : nat) (c : byte) (r : list byte) :
  skipn i data = c :: r -> nth_error data i = Some c /\ skipn (S i) data = r.
Proof.
  intros H. split.
  - rewrite <- hd_error_skipn, H. reflexivity.
  - change (S i) with (1 + i)%nat. rewrite <- skipn_skipn, H. reflexivity.
Qed.

Lemma skipn_app_inv (data : list byte) (i : nat) (p r : list byte) :
  skipn i data = p ++ r -> skipn (i + List.length p) data = r.
Proof.
  intros H. rewrite Nat.add_comm, <- skipn_skipn, H.
  rewrite skipn_app, skipn_all, Nat.sub_diag. reflexivity.
Qed.

Lemma skipn_length_inv (data : list byte) (i : nat) (r : list byte) :
  skipn i data = r -> (List.length data - i = List.length r)%nat.
Proof. intros <-. now rewrite length_skipn. Qed.

Lemma skipn_nil_inv (data : list byte) (i : nat) :
  skipn i data = [] -> nth_error data i = None.
Proof.
  intros H. apply nth_error_None. apply skipn_length_inv in H. cbn in H. lia.
Qed.

Lemma isValidateString_plain (data : list byte) (content rest : list byte) (i : nat) :
  forallb plain_byte content = true ->
  skipn i data = content ++ QUOTE :: rest ->
  isValidateString data i = ((i + List.length content + 1)%nat, true).
Proof.
  unfold isValidateString. revert i.
  induction content as [|b content IH]; intros i Hp Hs.
  - cbn [app] in Hs. pose proof (skipn_length_inv _ _ _ Hs) as Hl.
    destruct (skipn_cons_inv _ _ _ _ Hs) as [E _].
    cbn [List.length] in Hl. rewrite Hl. cbn [isValidateString_loop].
    rewrite E. change (byte_ltb QUOTE " ") with false.
    change (Byte.eqb QUOTE BACKSLASH) with false.
    change (Byte.eqb QUOTE QUOTE) with true. cbv iota.
    f_equal. cbn [List.length]. lia.
  - cbn [app] in Hs. pose proof (skipn_length_inv _ _ _ Hs) as Hl.
    destruct (skipn_cons_inv _ _ _ _ Hs) as [E Hs'].
    cbn [forallb] in Hp. apply andb_prop in Hp. destruct Hp as [Hb Hp].
    unfold plain_byte in Hb. apply andb_prop in Hb. destruct Hb as [Hb H3].
    apply andb_prop in Hb. destruct Hb as [H1 H2].
    apply negb_true_iff in H1, H2, H3.
    cbn [List.length] in Hl. rewrite Hl. cbn [isValidateString_loop].
    rewrite E, H1, H2, H3.
    specialize (IH (S i) Hp Hs').
    pose proof (skipn_length_inv _ _ _ Hs') as Hl'.
    rewrite Hl' in IH. rewrite IH. f_equal. cbn [List.length]. lia.
Qed.

Lemma isValidColon_at (data : list byte) (i : nat) (rest : list byte) :
  skipn i data = ":"%byte :: rest -> isValidColon data i = (S i, true).
Proof.
  intros Hs. unfold isValidColon.
  rewrite (skipn_length_inv _ _ _ Hs). destruct (skipn_cons_inv _ _ _ _ Hs) as [E _].
  cbn [List.length isValidColon_loop]. rewrite E. reflexivity.
Qed.

Lemma isValidComma_at_comma (data : list byte) (i : nat) (e : byte) (rest : list byte) :
  skipn i data = ","%byte :: rest -> isValidComma data i e = (i, true).
Proof.
  intros Hs. unfold isValidComma.
  rewrite (skipn_length_inv _ _ _ Hs). destruct (skipn_cons_inv _ _ _ _ Hs) as [E _].
  cbn [List.length isValidComma_loop]. rewrite E. reflexivity.
Qed.

Lemma isValidComma_at_end (data : list byte) (i : nat) (e : byte) (rest : list byte) :
  is_space e = false ->
  skipn i data = e :: rest -> isValidComma data i e = (i, true).
Proof.
  intros He Hs. unfold isValidComma.
  rewrite (skipn_length_inv _ _ _ Hs). destruct (skipn_cons_inv _ _ _ _ Hs) as [E _].
  cbn [List.length isValidComma_loop]. rewrite E, He.
  destruct (Byte.eqb e ","); [reflexivity|].
  now rewrite (byte_dec_lb (eq_refl e)).
Qed.

Lemma ends_number_at (data : list byte) (i : nat) (rest : list byte) :
  (i <= List.length data)%nat -> skipn i data = rest -> ends_number rest = true ->
  (i =? List.length data)%nat = true
  \/ exists c, (i =? List.length data)%nat = false /\ index data i = Ret c
                /\ Byte.eqb c "." = false /\ Byte.eqb c "e" = false
                /\ Byte.eqb c "E" = false.
Proof.
  intros Hi Hs Hr. destruct rest as [|c rest].
  - left. apply skipn_length_inv in Hs. cbn [List.length] in Hs.
    apply Nat.eqb_eq. lia.
  - right. exists c. destruct (skipn_cons_inv _ _ _ _ Hs) as [E _].
    pose proof (nth_error_lt _ _ _ E) as Hl.
    cbn [ends_number] in Hr. apply negb_true_iff in Hr.
    apply orb_false_elim in Hr. destruct Hr as [Hr H3].
    apply orb_false_elim in Hr. destruct Hr as [H1 H2].
    repeat split; auto. { apply Nat.eqb_neq. lia. } now apply index_Some.
Qed.

Lemma isValidNumber_exp_stop (data : list byte) (i : nat) (rest : list byte) :
  (i <= List.length data)%nat -> skipn i data = rest -> ends_number rest = true ->
  isValidNumber_exp data i = Ret (i, true).
Proof.
  intros Hi Hs Hr. unfold isValidNumber_exp.
  destruct (ends_number_at data i rest Hi Hs Hr)
    as [-> | (c & E1 & E2 & _ & H2 & H3)]; [reflexivity|].
  rewrite E1, E2. cbn [bind]. rewrite H2, H3. reflexivity.
Qed.

Lemma isValidNumber_frac_stop (data : list byte) (i : nat) (rest : list byte) :
  (i <= List.length data)%nat -> skipn i data = rest -> ends_number rest = true ->
  isValidNumber_frac data i = Ret (i, true).
Proof.
  intros Hi Hs Hr. unfold isValidNumber_frac.
  destruct (ends_number_at data i rest Hi Hs Hr)
    as [-> | (c & E1 & E2 & H1 & _ & _)]; [reflexivity|].
  rewrite E1, E2. cbn [bind]. rewrite H1.
  now apply (isValidNumber_exp_stop data i rest).
Qed.

Lemma isValidNumber_zero (data : list byte) (i : nat) (rest : list byte) :
  skipn i data = "0"%byte :: rest -> ends_number rest = true ->
  isValidNumber data (S i) = Ret (S i, true).
Proof.
  intros Hs Hr. destruct (skipn_cons_inv _ _ _ _ Hs) as [E Hs'].
  pose proof (nth_error_lt _ _ _ E) as Hl.
  unfold isValidNumber. rewrite (index_Some _ _ _ E). cbn [bind].
  change (Byte.eqb "0" "-") with false. cbv iota.
  replace (i =? List.length data)%nat with false by (symmetry; apply Nat.eqb_neq; lia).
  rewrite (index_Some _ _ _ E). cbn [bind].
  change (Byte.eqb "0" "0") with true. cbv iota.
  apply (isValidNumber_frac_stop data (S i) rest); auto.
Qed.

(** * Rules for running the validators

    Each lemma runs one validator through one path of its code, for some
    amount of fuel. *)

(** Evaluate the tests on bytes that are known. *)
Ltac byte_tests :=
  repeat match goal with
         | |- context [Byte.eqb ?a ?b] =>
             let r := eval vm_compute in (Byte.eqb a b) in
             match r with true => idtac | false => idtac end;
             change (Byte.eqb a b) with r
         | |- context [is_space ?a] =>
             let r := eval vm_compute in (is_space a) in
             match r with true => idtac | false => idtac end;
             change (is_space a) with r
         | |- context [is_number_start ?a] =>
             let r := eval vm_compute in (is_number_start a) in
             match r with true => idtac | false => idtac end;
             change (is_number_start a) with r
         end.

(** Run a validator along facts that are among the hypotheses. *)
Ltac run :=
  repeat first
    [ progress cbn [bind negb orb andb is_err fst snd res_i res_ok res_err res_depth]
    | progress byte_tests
    | progress cbv iota
    | match goal with
      | E : nth_error ?d ?i = Some _ |- context [nth_error ?d ?i] => rewrite E
      | E : nth_error ?d ?i = Some _ |- context [index ?d ?i] =>
          rewrite (index_Some _ _ _ E)
      | E : ?x = true |- context [?x] => rewrite E
      | E : ?x = false |- context [?x] => rewrite E
      | E : ?x = (_, _) |- context [?x] => rewrite E
      | E : ?x = Ret _ |- context [?x] => rewrite E
      | E : ?x = None |- context [?x] => rewrite E
      end ].

Section Rules.
Variables (data : list byte) (v : Verify).

Lemma validany_array (i : nat) (d : Z) (r : scan) :
  nth_error data i = Some "["%byte -> depth_exceeded v d = false ->
  isValidArray_returns data (S i) (d + 1) v r -> validany_returns data i d v r.
Proof.
  intros E Hd [f H]. exists (S (S f)). unfold_validators. run. reflexivity.
Qed.

Lemma validany_object (i : nat) (d : Z) (r : scan) :
  nth_error data i = Some "{"%byte -> depth_exceeded v d = false ->
  isValidObject_returns data (S i) (d + 1) v r -> validany_returns data i d v r.
Proof.
  intros E Hd [f H]. exists (S (S f)). unfold_validators. run. reflexivity.
Qed.

Lemma validany_string (i o : nat) (ok : bool) (e : option error) (d : Z) :
  nth_error data i = Some QUOTE -> depth_exceeded v d = false ->
  isValidateString data (S i) = (o, ok) ->
  validateStringLength data i o (stringLenEnabled v) (StringValueLen v)
    stringValueLength = Ret e ->
  validany_returns data i d v (Scan o ok e d).
Proof.
  intros E Hd Hs Hl. exists 2%nat. unfold_validators. run. reflexivity.
Qed.

Lemma validany_number (i o : nat) (ok : bool) (c : byte) (d : Z) :
  nth_error data i = Some c -> is_number_start c = true ->
  depth_exceeded v d = false ->
  isValidNumber data (S i) = Ret (o, ok) ->
  validany_returns data i d v (Scan o ok None d).
Proof.
  intros E Hc Hd Hn. exists 2%nat. unfold_validators. run.
  assert (is_space c = false /\ Byte.eqb c "{" = false /\ Byte.eqb c "[" = false
          /\ Byte.eqb c QUOTE = false) as (H1 & H2 & H3 & H4).
  { clear -Hc. destruct c; try discriminate Hc; repeat split; reflexivity. }
  run. reflexivity.
Qed.

Lemma isValidArray_empty (i : nat) (d : Z) :
  nth_error data i = Some "]"%byte -> depth_exceeded v d = false ->
  isValidArray_returns data i d v (Scan (S i) true None (d - 1)).
Proof.
  intros E Hd. exists 2%nat. unfold_validators. run. reflexivity.
Qed.

Lemma isValidArray_first (i : nat) (c : byte) (d : Z) (r : scan) :
  nth_error data i = Some c -> is_space c = false -> Byte.eqb c "]" = false ->
  depth_exceeded v d = false ->
  isValidArray_elems_returns data i 0 None d v r ->
  isValidArray_returns data i d v r.
Proof.
  intros E H1 H2 Hd [f H]. exists (S (S f)). unfold_validators. run. reflexivity.
Qed.

Lemma isValidArray_elems_fuel (fuel fuel' i : nat) (ch : Z) (e : option error)
    (d : Z) (r : scan) :
  (fuel <= fuel')%nat ->
  isValidArray_elems fuel data i ch e d v = Ret r ->
  isValidArray_elems fuel' data i ch e d v = Ret r.
Proof. intros Hle. apply (fuel_mono data v fuel fuel' Hle). Qed.

Lemma isValidObject_next_fuel (fuel fuel' i : nat) (en : Z) (e : option error)
    (d : Z) (r : scan) :
  (fuel <= fuel')%nat ->
  isValidObject_next fuel data i en e d v = Ret r ->
  isValidObject_next fuel' data i en e d v = Ret r.
Proof. intros Hle. apply (fuel_mono data v fuel fuel' Hle). Qed.

(** One element that fails ends the array. *)
Lemma isValidArray_elems_fails (i : nat) (c : byte) (ch : Z) (e : option error)
    (d : Z) (a : scan) :
  nth_error data i = Some c ->
  validany_returns data i d v a -> res_ok a = false ->
  isValidArray_elems_returns data i ch e d v
    (Scan (res_i a) false (res_err a) (res_depth a)).
Proof.
  intros E [f Ha] Hok. exists (S f). unfold_validators. run. reflexivity.
Qed.

(** One element too many. *)
Lemma isValidArray_elems_count (i j : nat) (c : byte) (ch : Z) (e : option error)
    (d : Z) (a : scan) :
  nth_error data i = Some c ->
  validany_returns data i d v a -> res_ok a = true ->
  isValidComma data (res_i a) "]" = (j, true) ->
  arrayEntryCountEnabled v && (ch + 1 >? MaxArrayElementCount v) = true ->
  isValidArray_elems_returns data i ch e d v
    (Scan j false (Some (errArrayElementCount (MaxArrayElementCount v) (ch + 1)))
          (res_depth a)).
Proof.
  intros E [f Ha] Hok Hc Hn. exists (S f). unfold_validators. run. reflexivity.
Qed.

(** The last element. *)
Lemma isValidArray_elems_last (i j : nat) (c : byte) (ch : Z) (e : option error)
    (d : Z) (a : scan) :
  nth_error data i = Some c ->
  validany_returns data i d v a -> res_ok a = true ->
  isValidComma data (res_i a) "]" = (j, true) ->
  arrayEntryCountEnabled v && (ch + 1 >? MaxArrayElementCount v) = false ->
  nth_error data j = Some "]"%byte ->
  isValidArray_elems_returns data i ch e d v
    (Scan (S j) true (res_err a) (res_depth a - 1)).
Proof.
  intros E [f Ha] Hok Hc Hn Ej. exists (S f). unfold_validators. run. reflexivity.
Qed.

(** An element that is followed by another. *)
Lemma isValidArray_elems_more (i j : nat) (c c' : byte) (ch : Z)
    (e : option error) (d : Z) (a r : scan) :
  nth_error data i = Some c ->
  validany_returns data i d v a -> res_ok a = true ->
  isValidComma data (res_i a) "]" = (j, true) ->
  arrayEntryCountEnabled v && (ch + 1 >? MaxArrayElementCount v) = false ->
  nth_error data j = Some c' -> Byte.eqb c' "]" = false ->
  isValidArray_elems_returns data (S j) (ch + 1) (res_err a) (res_depth a) v r ->
  isValidArray_elems_returns data i ch e d v r.
Proof.
  intros E [f1 Ha] Hok Hc Hn Ej Hc' [f2 Hr].
  apply (validany_fuel data v f1 (Nat.max f1 f2)) in Ha; [|lia].
  apply (isValidArray_elems_fuel f2 (Nat.max f1 f2)) in Hr; [|lia].
  exists (S (Nat.max f1 f2)). unfold_validators. run. reflexivity.
Qed.

Lemma isValidObject_empty (i : nat) (d : Z) :
  nth_error data i = Some "}"%byte -> depth_exceeded v d = false ->
  isValidObject_returns data i d v (Scan (S i) true None (d - 1)).
Proof.
  intros E Hd. exists 2%nat. unfold_validators. run. reflexivity.
Qed.

Lemma isValidObject_first (i : nat) (d : Z) (r : scan) :
  nth_error data i = Some QUOTE -> depth_exceeded v d = false ->
  isValidObject_key_returns data i 0 None d v r ->
  isValidObject_returns data i d v r.
Proof.
  intros E Hd [f H]. exists (S (S f)). unfold_validators. run. reflexivity.
Qed.

(** One entry too many: the count is taken when the key has been read. *)
Lemma isValidObject_key_count (i o : nat) (en : Z) (e : option error) (d : Z) :
  isValidateString data (S i) = (o, true) ->
  objectEntryCountEnabled v && (ObjectEntryCount v <? en + 1) = true ->
  isValidObject_key_returns data i en e d v
    (Scan o false (Some (errObjectEntryCount (ObjectEntryCount v) (en + 1))) d).
Proof.
  intros Hs Hn. exists 1%nat. unfold_validators. run. reflexivity.
Qed.

(** A key that is too long. *)
Lemma isValidObject_key_long (i o : nat) (en : Z) (e : option error) (d : Z)
    (x : error) :
  isValidateString data (S i) = (o, true) ->
  objectEntryCountEnabled v && (ObjectEntryCount v <? en + 1) = false ->
  validateStringLength data i o (objectKeyLengthEnabled v) (ObjectKeyLength v)
    objectKeyValueLength = Ret (Some x) ->
  isValidObject_key_returns data i en e d v (Scan o false (Some x) d).
Proof.
  intros Hs Hn Hl. exists 1%nat. unfold_validators. run. reflexivity.
Qed.

(** A member whose value fails, or comes back with an error. *)
Lemma isValidObject_key_fails (i o i1 : nat) (en : Z) (e : option error) (d : Z)
    (a : scan) :
  isValidateString data (S i) = (o, true) ->
  objectEntryCountEnabled v && (ObjectEntryCount v <? en + 1) = false ->
  validateStringLength data i o (objectKeyLengthEnabled v) (ObjectKeyLength v)
    objectKeyValueLength = Ret None ->
  isValidColon data o = (i1, true) ->
  validany_returns data i1 d v a ->
  negb (res_ok a) || is_err (res_err a) = true ->
  isValidObject_key_returns data i en e d v
    (Scan (res_i a) false (res_err a) (res_depth a)).
Proof.
  intros Hs Hn Hl Hc [f Ha] Hbad. exists (S f). unfold_validators. run. reflexivity.
Qed.

(** The last member. *)
Lemma isValidObject_key_last (i o i1 j : nat) (en : Z) (e : option error) (d : Z)
    (a : scan) :
  isValidateString data (S i) = (o, true) ->
  objectEntryCountEnabled v && (ObjectEntryCount v <? en + 1) = false ->
  validateStringLength data i o (objectKeyLengthEnabled v) (ObjectKeyLength v)
    objectKeyValueLength = Ret None ->
  isValidColon data o = (i1, true) ->
  validany_returns data i1 d v a ->
  res_ok a = true -> res_err a = None ->
  isValidComma data (res_i a) "}" = (j, true) ->
  nth_error data j = Some "}"%byte ->
  isValidObject_key_returns data i en e d v
    (Scan (S j) true None (res_depth a - 1)).
Proof.
  intros Hs Hn Hl Hc [f Ha] Hok He Hcm Ej. exists (S f). unfold_validators. run.
  reflexivity.
Qed.

(** A member that is followed, after the comma, by the next key. *)
Lemma isValidObject_key_more (i o i1 j : nat) (en : Z) (e : option error) (d : Z)
    (a r : scan) :
  isValidateString data (S i) = (o, true) ->
  objectEntryCountEnabled v && (ObjectEntryCount v <? en + 1) = false ->
  validateStringLength data i o (objectKeyLengthEnabled v) (ObjectKeyLength v)
    objectKeyValueLength = Ret None ->
  isValidColon data o = (i1, true) ->
  validany_returns data i1 d v a ->
  res_ok a = true -> res_err a = None ->
  isValidComma data (res_i a) "}" = (j, true) ->
  nth_error data j = Some ","%byte ->
  nth_error data (S j) = Some QUOTE ->
  isValidObject_key_returns data (S j) (en + 1) None (res_depth a) v r ->
  isValidObject_key_returns data i en e d v r.
Proof.
  intros Hs Hn Hl Hc [f1 Ha] Hok He Hcm Ej Eq [f2 Hr].
  apply (validany_fuel data v f1 (S (Nat.max f1 f2))) in Ha; [|lia].
  apply (fuel_mono data v f2 (Nat.max f1 f2)) in Hr; [|lia].
  assert (Hnext : isValidObject_next (S (Nat.max f1 f2)) data (S j) (en + 1)
                    (res_err a) (res_depth a) v = Ret r).
  { unfold_validators. run. reflexivity. }
  remember (S (Nat.max f1 f2)) as m eqn:Em.
  exists (S m). unfold_validators. run. reflexivity.
Qed.

End Rules.

Lemma isValidArray_too_deep (data : list byte) (v : Verify) (i : nat) (d : Z) :
  depth_exceeded v d = true ->
  isValidArray_returns data i d v
    (Scan i false (Some (errContainerDepth (JSONContainerDepth v) d)) d).
Proof. intros Hd. exists 1%nat. unfold_validators. run. reflexivity. Qed.

Lemma isValidObject_too_deep (data : list byte) (v : Verify) (i : nat) (d : Z) :
  depth_exceeded v d = true ->
  isValidObject_returns data i d v
    (Scan i false (Some (errContainerDepth (JSONContainerDepth v) d)) d).
Proof. intros Hd. exists 1%nat. unfold_validators. run. reflexivity. Qed.

Lemma validateStringLength_disabled (data : list byte) (s e : nat) (m : Z)
    (ty : string) :
  (s <= e <= List.length data)%nat ->
  validateStringLength data s e false m ty = Ret None.
Proof.
  intros [H1 H2]. unfold validateStringLength.
  apply Nat.leb_le in H1, H2. now rewrite H1, H2.
Qed.

(** The driver on a buffer that starts with a value. *)
Lemma VerifyBytes_accepts (v : Verify) (data : list byte) (c : byte) (a : scan) :
  nth_error data 0 = Some c -> is_space c = false ->
  validany_returns data 0 0 v a ->
  res_ok a = true -> res_err a = None -> res_i a = List.length data ->
  VerifyBytes v data = Ret (true, None).
Proof.
  intros E Hc [f Ha] Hok He Hi.
  apply validany_fuel_for in Ha; [|lia].
  destruct (isValidJSON_loop_accepts data v (List.length data - 0) 0 0 0 c a)
    as [k Hk]; auto; try lia.
  - apply nth_error_lt in E. lia.
  - intros k c' Hk E'. apply nth_error_lt in E'. lia.
  - unfold VerifyBytes, isValidJSON. rewrite Hk. reflexivity.
Qed.

Lemma VerifyBytes_rejects (v : Verify) (data : list byte) (c : byte) (a : scan)
    (e : error) :
  nth_error data 0 = Some c -> is_space c = false ->
  validany_returns data 0 0 v a -> res_err a = Some e ->
  VerifyBytes v data = Ret (false, Some e).
Proof.
  intros E Hc [f Ha] He.
  apply validany_fuel_for in Ha; [|lia].
  pose proof (nth_error_lt _ _ _ E) as Hl.
  unfold VerifyBytes, isValidJSON.
  destruct (List.length data - 0)%nat as [|n] eqn:En; [lia|].
  cbn [isValidJSON_loop]. rewrite E, Hc, Ha. cbn [bind]. rewrite He.
  cbn [is_err]. rewrite orb_true_r. reflexivity.
Qed.

(** * Nesting depth *)

Lemma depth_only_exceeded (D d : Z) :
  depth_exceeded (depth_only D) d = (D <? d).
Proof. reflexivity. Qed.

Lemma nested_head (ks : list container) :
  exists c tl, nested ks = c :: tl /\ is_space c = false
               /\ Byte.eqb c "]" = false.
Proof.
  destruct ks as [|[|] ks]; cbn [nested]; eexists _, _; repeat split.
Qed.

Lemma nested_within (D : Z) (ks : list container) :
  forall data i d rest,
    skipn i data = nested ks ++ rest -> ends_number rest = true ->
    d + Z.of_nat (List.length ks) <= D ->
    validany_returns data i d (depth_only D)
      (Scan (i + List.length (nested ks)) true None d).
Proof.
  induction ks as [|[|] ks IH]; intros data i d rest Hs Hr Hd;
    cbn [nested List.length] in *.
  - destruct (skipn_cons_inv _ _ _ _ Hs) as [E _].
    replace (i + 1)%nat with (S i) by lia.
    apply (validany_number data _ i (S i) true "0"); auto.
    + rewrite depth_only_exceeded. lia.
    + apply (isValidNumber_zero data i rest); auto.
  - cbn [app] in Hs. rewrite <- app_assoc in Hs. cbn [app] in Hs.
    destruct (skipn_cons_inv _ _ _ _ Hs) as [E Hs1].
    pose proof (skipn_app_inv _ _ _ _ Hs1) as Hs2.
    destruct (skipn_cons_inv _ _ _ _ Hs2) as [E2 _].
    destruct (nested_head ks) as (c & tl & Hc & Hc1 & Hc2).
    assert (E1 : nth_error data (S i) = Some c).
    { rewrite Hc in Hs1. cbn [app] in Hs1. now destruct (skipn_cons_inv _ _ _ _ Hs1). }
    assert (Ha : validany_returns data (S i) (d + 1) (depth_only D)
              (Scan (S i + List.length (nested ks)) true None (d + 1))).
    { apply (IH data (S i) (d + 1) ("]"%byte :: rest)); auto. lia. }
    apply validany_array; auto. { rewrite depth_only_exceeded. lia. }
    apply (isValidArray_first data _ (S i) c); auto.
    { rewrite depth_only_exceeded. lia. }
    replace (Scan (i + S (List.length (nested ks ++ ["]"%byte]))) true None d)
      with (Scan (S (S i + List.length (nested ks))) true
              (res_err (Scan (S i + List.length (nested ks)) true None (d + 1)))
              (res_depth (Scan (S i + List.length (nested ks)) true None (d + 1)) - 1)).
    2:{ cbn [res_err res_depth]. rewrite length_app. cbn [List.length].
        f_equal; lia. }
    apply (isValidArray_elems_last data _ (S i) _ c); auto.
    cbn [res_i]. apply (isValidComma_at_end data _ "]" rest); auto.
  - cbn [app] in Hs. rewrite <- app_assoc in Hs. cbn [app] in Hs.
    destruct (skipn_cons_inv _ _ _ _ Hs) as [E Hs1].
    destruct (skipn_cons_inv _ _ _ _ Hs1) as [E1 Hs2].
    assert (Hstr : isValidateString data (S (S i)) = (S (S (S (S i))), true)).
    { rewrite (isValidateString_plain data ["k"%byte] _ (S (S i)) eq_refl Hs2).
      f_equal. cbn [List.length]. lia. }
    pose proof (skipn_app_inv data (S (S i)) ["k"%byte; QUOTE] _ Hs2) as Hs4.
    cbn [List.length] in Hs4. replace (S (S i) + 2)%nat with (S (S (S (S i)))) in Hs4 by lia.
    destruct (skipn_cons_inv _ _ _ _ Hs4) as [E4 Hs5].
    pose proof (nth_error_lt _ _ _ E4) as Hl4.
    pose proof (skipn_app_inv _ _ _ _ Hs5) as Hs6.
    destruct (skipn_cons_inv _ _ _ _ Hs6) as [E6 _].
    assert (Ha : validany_returns data (S (S (S (S (S i))))) (d + 1) (depth_only D)
              (Scan (S (S (S (S (S i)))) + List.length (nested ks)) true None (d + 1))).
    { apply (IH data _ (d + 1) ("}"%byte :: rest)); auto. lia. }
    apply validany_object; auto. { rewrite depth_only_exceeded. lia. }
    apply isValidObject_first; auto. { rewrite depth_only_exceeded. lia. }
    replace (Scan _ true None d)
      with (Scan (S (S (S (S (S (S i)))) + List.length (nested ks))) true None
              (res_depth (Scan (S (S (S (S (S i)))) + List.length (nested ks)) true
                            None (d + 1)) - 1)).
    2:{ cbn [res_depth]. rewrite length_app. cbn [List.length]. f_equal; lia. }
    apply (isValidObject_key_last data _ (S i) (S (S (S (S i))))
             (S (S (S (S (S i)))))); auto.
    + apply validateStringLength_disabled. lia.
    + apply (isValidColon_at data _ _ Hs4).
    + cbn [res_i]. apply (isValidComma_at_end data _ "}" rest); auto.
Qed.

Lemma nested_too_deep (D : Z) (ks : list container) :
  forall data i d rest,
    skipn i data = nested ks ++ rest ->
    d <= D -> D < d + Z.of_nat (List.length ks) ->
    exists j d',
      validany_returns data i d (depth_only D)
        (Scan j false (Some (errContainerDepth D (D + 1))) d').
Proof.
  induction ks as [|[|] ks IH]; intros data i d rest Hs Hd Hk;
    cbn [nested List.length] in *.
  - lia.
  - cbn [app] in Hs. rewrite <- app_assoc in Hs. cbn [app] in Hs.
    destruct (skipn_cons_inv _ _ _ _ Hs) as [E Hs1].
    destruct (Z.eq_dec d D) as [->|Hne].
    + exists (S i), (D + 1). apply validany_array; auto.
      { rewrite depth_only_exceeded. lia. }
      apply (isValidArray_too_deep data (depth_only D) (S i) (D + 1)).
      rewrite depth_only_exceeded. lia.
    + destruct (IH data (S i) (d + 1) ("]"%byte :: rest)) as (j & d' & Ha);
        auto; try lia.
      destruct (nested_head ks) as (c & tl & Hc & Hc1 & Hc2).
      assert (E1 : nth_error data (S i) = Some c).
      { rewrite Hc in Hs1. cbn [app] in Hs1.
        now destruct (skipn_cons_inv _ _ _ _ Hs1). }
      exists j, d'. apply validany_array; auto.
      { rewrite depth_only_exceeded. lia. }
      apply (isValidArray_first data _ (S i) c); auto.
      { rewrite depth_only_exceeded. lia. }
      apply (isValidArray_elems_fails data _ (S i) c 0 None (d + 1) _ E1 Ha).
      reflexivity.
  - cbn [app] in Hs. rewrite <- app_assoc in Hs. cbn [app] in Hs.
    destruct (skipn_cons_inv _ _ _ _ Hs) as [E Hs1].
    destruct (skipn_cons_inv _ _ _ _ Hs1) as [E1 Hs2].
    destruct (Z.eq_dec d D) as [->|Hne].
    + exists (S i), (D + 1). apply validany_object; auto.
      { rewrite depth_only_exceeded. lia. }
      apply (isValidObject_too_deep data (depth_only D) (S i) (D + 1)).
      rewrite depth_only_exceeded. lia.
    + assert (Hstr : isValidateString data (S (S i)) = (S (S (S (S i))), true)).
      { rewrite (isValidateString_plain data ["k"%byte] _ (S (S i)) eq_refl Hs2).
        f_equal. cbn [List.length]. lia. }
      pose proof (skipn_app_inv data (S (S i)) ["k"%byte; QUOTE] _ Hs2) as Hs4.
      cbn [List.length] in Hs4.
      replace (S (S i) + 2)%nat with (S (S (S (S i)))) in Hs4 by lia.
      destruct (skipn_cons_inv _ _ _ _ Hs4) as [E4 Hs5].
      pose proof (nth_error_lt _ _ _ E4) as Hl4.
      destruct (IH data (S (S (S (S (S i))))) (d + 1) ("}"%byte :: rest))
        as (j & d' & Ha); auto; try lia.
      exists j, d'. apply validany_object; auto.
      { rewrite depth_only_exceeded. lia. }
      apply isValidObject_first; auto. { rewrite depth_only_exceeded. lia. }
      apply (isValidObject_key_fails data _ (S i) (S (S (S (S i))))
               (S (S (S (S (S i))))) 0 None (d + 1)
               (Scan j false (Some (errContainerDepth D (D + 1))) d') Hstr); auto.
      * apply validateStringLength_disabled. lia.
      * apply (isValidColon_at data _ _ Hs4).
Qed.

(** The depth boundary on chains of containers, each the only child of the
    one around it.  With the depth limit alone enabled at [D], containers
    nested to depth [D] or less validate, and containers nested deeper fail
    with the depth error that reports [D + 1]: the value of the counter
    once the container of depth [D + 1] has been entered. *)
Theorem depth_boundary (D : Z) (ks : list container) :
  0 <= D ->
  (Z.of_nat (List.length ks) <= D ->
   VerifyBytes (depth_only D) (nested ks) = Ret (true, None))
  /\ (D < Z.of_nat (List.length ks) ->
      VerifyBytes (depth_only D) (nested ks)
      = Ret (false, Some (errContainerDepth D (D + 1)))).
Proof.
  intros HD.
  destruct (nested_head ks) as (c & tl & Hc & Hc1 & _).
  assert (E : nth_error (nested ks) 0 = Some c) by now rewrite Hc.
  assert (Hs : skipn 0 (nested ks) = nested ks ++ []) by now rewrite app_nil_r.
  split; intros Hk.
  - apply (VerifyBytes_accepts _ _ c
             (Scan (0 + List.length (nested ks)) true None 0)); auto.
    apply (nested_within D ks _ 0 0 []); auto.
  - destruct (nested_too_deep D ks _ 0 0 [] Hs) as (j & d' & Ha); try lia.
    apply (VerifyBytes_rejects _ _ c _ _ E Hc1 Ha). reflexivity.
Qed.

(** An instance: [[{"k":0}]] and [{"k":[[0]]}] under the limit 2. *)
Lemma depth_boundary_witness :
  0 <= 2
  /\ VerifyBytes (depth_only 2) (nested [ArrayC; ObjectC]) = Ret (true, None)
  /\ VerifyBytes (depth_only 2) (nested [ObjectC; ArrayC; ArrayC])
     = Ret (false,
            Some "jtp.maxContainerDepthReached.Max-[2]-Allowed.Found-[3]"%string).
Proof.
  split; [lia|]. split.
  - apply (depth_boundary 2 [ArrayC; ObjectC]); cbn; lia.
  - apply (depth_boundary 2 [ObjectC; ArrayC; ArrayC]); cbn; lia.
Defined.

(** * Element and entry counts *)

Lemma more_zeros_ends (k : nat) : ends_number (more_zeros k) = true.
Proof. destruct k; reflexivity. Qed.

Lemma more_members_ends (k : nat) : ends_number (more_members k) = true.
Proof. destruct k; reflexivity. Qed.

Lemma more_zeros_comma (data : list byte) (i k : nat) :
  skipn i data = more_zeros k -> isValidComma data i "]" = (i, true).
Proof.
  destruct k; cbn [more_zeros]; intros Hs.
  - now apply (isValidComma_at_end data i "]" []).
  - now apply (isValidComma_at_comma data i "]" ("0"%byte :: more_zeros k)).
Qed.

Lemma more_members_comma (data : list byte) (i k : nat) :
  skipn i data = more_members k -> isValidComma data i "}" = (i, true).
Proof.
  destruct k; cbn [more_members]; intros Hs.
  - now apply (isValidComma_at_end data i "}" []).
  - eapply (isValidComma_at_comma data i "}"). exact Hs.
Qed.

Lemma validany_zero (data : list byte) (v : Verify) (i : nat) (d : Z)
    (rest : list byte) :
  skipn i data = "0"%byte :: rest -> ends_number rest = true ->
  depth_exceeded v d = false ->
  validany_returns data i d v (Scan (S i) true None d).
Proof.
  intros Hs Hr Hd. destruct (skipn_cons_inv _ _ _ _ Hs) as [E _].
  apply (validany_number data v i (S i) true "0"); auto.
  now apply (isValidNumber_zero data i rest).
Qed.

Lemma elems_zeros_fit (M : Z) (k : nat) :
  forall data i ch e d,
    skipn i data = "0"%byte :: more_zeros k ->
    ch + 1 + Z.of_nat k <= M ->
    isValidArray_elems_returns data i ch e d (array_count_only M)
      (Scan (i + 2 * k + 2) true None (d - 1)).
Proof.
  induction k as [|k IH]; intros data i ch e d Hs Hm.
  - destruct (skipn_cons_inv _ _ _ _ Hs) as [E Hs1].
    destruct (skipn_cons_inv _ _ _ _ Hs1) as [E1 _].
    replace (i + 2 * 0 + 2)%nat with (S (S i)) by lia.
    apply (isValidArray_elems_last data (array_count_only M) i (S i) "0" ch e d
             (Scan (S i) true None d)); auto.
    + now apply (validany_zero data _ i d (more_zeros 0)).
    + now apply (more_zeros_comma data (S i) 0).
    + cbn. rewrite Z.gtb_ltb. apply Z.ltb_ge. lia.
  - destruct (skipn_cons_inv _ _ _ _ Hs) as [E Hs1].
    cbn [more_zeros] in Hs1.
    destruct (skipn_cons_inv _ _ _ _ Hs1) as [E1 Hs2].
    apply (isValidArray_elems_more data (array_count_only M) i (S i) "0" "," ch e d
             (Scan (S i) true None d)); auto.
    + now apply (validany_zero data _ i d (more_zeros (S k))).
    + now apply (more_zeros_comma data (S i) (S k)).
    + cbn. rewrite Z.gtb_ltb. apply Z.ltb_ge. lia.
    + cbn [res_err res_depth].
      replace (i + 2 * S k + 2)%nat with (S (S i) + 2 * k + 2)%nat by lia.
      apply IH; auto. lia.
Qed.

Lemma elems_zeros_over (M : Z) (k : nat) :
  forall data i ch e d,
    skipn i data = "0"%byte :: more_zeros k ->
    ch <= M -> M < ch + 1 + Z.of_nat k ->
    exists j,
      isValidArray_elems_returns data i ch e d (array_count_only M)
        (Scan j false (Some (errArrayElementCount M (M + 1))) d).
Proof.
  induction k as [|k IH]; intros data i ch e d Hs Hc Hm.
  - destruct (skipn_cons_inv _ _ _ _ Hs) as [E Hs1].
    assert (ch = M) as -> by lia. exists (S i).
    apply (isValidArray_elems_count data (array_count_only M) i (S i) "0" M e d
             (Scan (S i) true None d)); auto.
    + now apply (validany_zero data _ i d (more_zeros 0)).
    + now apply (more_zeros_comma data (S i) 0).
    + cbn. rewrite Z.gtb_ltb. apply Z.ltb_lt. lia.
  - destruct (skipn_cons_inv _ _ _ _ Hs) as [E Hs1].
    destruct (Z.eq_dec ch M) as [->|Hne].
    + exists (S i).
      apply (isValidArray_elems_count data (array_count_only M) i (S i) "0" M e d
               (Scan (S i) true None d)); auto.
      * now apply (validany_zero data _ i d (more_zeros (S k))).
      * now apply (more_zeros_comma data (S i) (S k)).
      * cbn. rewrite Z.gtb_ltb. apply Z.ltb_lt. lia.
    + cbn [more_zeros] in Hs1.
      destruct (skipn_cons_inv _ _ _ _ Hs1) as [E1 Hs2].
      destruct (IH data (S (S i)) (ch + 1) None d Hs2) as [j Hj]; try lia.
      exists j.
      apply (isValidArray_elems_more data (array_count_only M) i (S i) "0" "," ch e d
               (Scan (S i) true None d)); auto.
      * now apply (validany_zero data _ i d (more_zeros (S k))).
      * now apply (more_zeros_comma data (S i) (S k)).
      * cbn. rewrite Z.gtb_ltb. apply Z.ltb_ge. lia.
Qed.

(** The scanners on one member ["k":0] that starts at [i]. *)
Lemma member_scans (data : list byte) (i : nat) (rest : list byte) :
  skipn i data = QUOTE :: "k"%byte :: QUOTE :: ":"%byte :: "0"%byte :: rest ->
  isValidateString data (S i) = (S (S (S i)), true)
  /\ (forall m ty, validateStringLength data i (S (S (S i))) false m ty = Ret None)
  /\ isValidColon data (S (S (S i))) = (S (S (S (S i))), true)
  /\ skipn (S (S (S (S i)))) data = "0"%byte :: rest
  /\ skipn (S (S (S (S (S i))))) data = rest.
Proof.
  intros Hs. destruct (skipn_cons_inv _ _ _ _ Hs) as [E Hs1].
  pose proof (skipn_app_inv data (S i) ["k"%byte; QUOTE] _ Hs1) as Hs3.
  cbn [List.length] in Hs3. replace (S i + 2)%nat with (S (S (S i))) in Hs3 by lia.
  destruct (skipn_cons_inv _ _ _ _ Hs3) as [E3 Hs4].
  destruct (skipn_cons_inv _ _ _ _ Hs4) as [E4 Hs5].
  pose proof (nth_error_lt _ _ _ E3) as Hl.
  split_all; auto.
  - rewrite (isValidateString_plain data ["k"%byte] _ (S i) eq_refl Hs1).
    f_equal. cbn [List.length]. lia.
  - intros m ty. apply validateStringLength_disabled. lia.
  - apply (isValidColon_at data _ _ Hs3).
Qed.

Lemma members_fit (M : Z) (k : nat) :
  forall data i en e d,
    skipn i data
    = QUOTE :: "k"%byte :: QUOTE :: ":"%byte :: "0"%byte :: more_members k ->
    en + 1 + Z.of_nat k <= M ->
    isValidObject_key_returns data i en e d (entry_count_only M)
      (Scan (i + 6 * k + 6) true None (d - 1)).
Proof.
  induction k as [|k IH]; intros data i en e d Hs Hm;
    destruct (member_scans data i _ Hs) as (Hstr & Hlen & Hcol & Hs4 & Hs5).
  - destruct (skipn_cons_inv _ _ _ _ Hs5) as [E5 _].
    replace (i + 6 * 0 + 6)%nat with (S (S (S (S (S (S i)))))) by lia.
    apply (isValidObject_key_last data (entry_count_only M) i (S (S (S i)))
             (S (S (S (S i)))) (S (S (S (S (S i))))) en e d
             (Scan (S (S (S (S (S i))))) true None d)); auto.
    + cbn. apply Z.ltb_ge. lia.
    + now apply (validany_zero data _ _ d (more_members 0)).
    + now apply (more_members_comma data _ 0).
  - cbn [more_members] in Hs5.
    destruct (skipn_cons_inv _ _ _ _ Hs5) as [E5 Hs6].
    destruct (skipn_cons_inv _ _ _ _ Hs6) as [E6 _].
    apply (isValidObject_key_more data (entry_count_only M) i (S (S (S i)))
             (S (S (S (S i)))) (S (S (S (S (S i))))) en e d
             (Scan (S (S (S (S (S i))))) true None d)); auto.
    + cbn. apply Z.ltb_ge. lia.
    + now apply (validany_zero data _ _ d (more_members (S k))).
    + now apply (more_members_comma data _ (S k)).
    + cbn [res_depth].
      replace (i + 6 * S k + 6)%nat with (S (S (S (S (S (S i))))) + 6 * k + 6)%nat
        by lia.
      apply IH; auto. lia.
Qed.

Lemma members_over (M : Z) (k : nat) :
  forall data i en e d,
    skipn i data
    = QUOTE :: "k"%byte :: QUOTE :: ":"%byte :: "0"%byte :: more_members k ->
    en <= M -> M < en + 1 + Z.of_nat k ->
    exists j,
      isValidObject_key_returns data i en e d (entry_count_only M)
        (Scan j false (Some (errObjectEntryCount M (M + 1))) d).
Proof.
  induction k as [|k IH]; intros data i en e d Hs Hc Hm;
    destruct (member_scans data i _ Hs) as (Hstr & Hlen & Hcol & Hs4 & Hs5).
  - assert (en = M) as -> by lia. exists (S (S (S i))).
    apply (isValidObject_key_count data (entry_count_only M) i _ M e d Hstr).
    cbn. apply Z.ltb_lt. lia.
  - destruct (Z.eq_dec en M) as [->|Hne].
    + exists (S (S (S i))).
      apply (isValidObject_key_count data (entry_count_only M) i _ M e d Hstr).
      cbn. apply Z.ltb_lt. lia.
    + cbn [more_members] in Hs5.
      destruct (skipn_cons_inv _ _ _ _ Hs5) as [E5 Hs6].
      destruct (skipn_cons_inv _ _ _ _ Hs6) as [E6 _].
      destruct (IH data (S (S (S (S (S (S i)))))) (en + 1) None d Hs6) as [j Hj];
        try lia.
      exists j.
      apply (isValidObject_key_more data (entry_count_only M) i (S (S (S i)))
               (S (S (S (S i)))) (S (S (S (S (S i))))) en e d
               (Scan (S (S (S (S (S i))))) true None d)); auto.
      * cbn. apply Z.ltb_ge. lia.
      * now apply (validany_zero data _ _ d (more_members (S k))).
      * now apply (more_members_comma data _ (S k)).
Qed.

Lemma array_of_zeros_fit (M : Z) (n : nat) :
  Z.of_nat n <= M ->
  VerifyBytes (array_count_only M) (array_of_zeros n) = Ret (true, None).
Proof.
  intros Hn. destruct n as [|k]; [vm_compute; reflexivity|].
  cbn [array_of_zeros].
  set (data := "["%byte :: "0"%byte :: more_zeros k).
  assert (Hlen : List.length data = (1 + 2 * k + 2)%nat).
  { subst data. cbn [List.length]. clear. induction k; cbn [more_zeros List.length]; lia. }
  apply (VerifyBytes_accepts _ data "[" (Scan (1 + 2 * k + 2) true None 0)); auto.
  apply validany_array; auto.
  apply (isValidArray_first data _ 1 "0"); auto.
  replace (Scan (1 + 2 * k + 2) true None 0)
    with (Scan (1 + 2 * k + 2) true None (0 + 1 - 1)) by (f_equal; lia).
  apply elems_zeros_fit; auto. lia.
Qed.

Lemma array_of_zeros_over (M : Z) (n : nat) :
  0 <= M -> M < Z.of_nat n ->
  VerifyBytes (array_count_only M) (array_of_zeros n)
  = Ret (false, Some (errArrayElementCount M (M + 1))).
Proof.
  intros HM Hn. destruct n as [|k]; [cbn in Hn; lia|].
  cbn [array_of_zeros].
  set (data := "["%byte :: "0"%byte :: more_zeros k).
  destruct (elems_zeros_over M k data 1 0 None (0 + 1)) as [j Hj]; auto; try lia.
  apply (VerifyBytes_rejects _ data "["
           (Scan j false (Some (errArrayElementCount M (M + 1))) (0 + 1))); auto.
  apply validany_array; auto.
  apply (isValidArray_first data _ 1 "0"); auto.
Qed.

Lemma object_of_zeros_fit (M : Z) (n : nat) :
  Z.of_nat n <= M ->
  VerifyBytes (entry_count_only M) (object_of_zeros n) = Ret (true, None).
Proof.
  intros Hn. destruct n as [|k]; [vm_compute; reflexivity|].
  cbn [object_of_zeros].
  set (data := "{"%byte :: QUOTE :: "k"%byte :: QUOTE :: ":"%byte :: "0"%byte
                 :: more_members k).
  assert (Hlen : List.length data = (1 + 6 * k + 6)%nat).
  { subst data. cbn [List.length]. clear.
    induction k; cbn [more_members List.length]; lia. }
  apply (VerifyBytes_accepts _ data "{" (Scan (1 + 6 * k + 6) true None 0)); auto.
  apply validany_object; auto.
  apply (isValidObject_first data _ 1); auto.
  replace (Scan (1 + 6 * k + 6) true None 0)
    with (Scan (1 + 6 * k + 6) true None (0 + 1 - 1)) by (f_equal; lia).
  apply members_fit; auto. lia.
Qed.

Lemma object_of_zeros_over (M : Z) (n : nat) :
  0 <= M -> M < Z.of_nat n ->
  VerifyBytes (entry_count_only M) (object_of_zeros n)
  = Ret (false, Some (errObjectEntryCount M (M + 1))).
Proof.
  intros HM Hn. destruct n as [|k]; [cbn in Hn; lia|].
  cbn [object_of_zeros].
  set (data := "{"%byte :: QUOTE :: "k"%byte :: QUOTE :: ":"%byte :: "0"%byte
                 :: more_members k).
  destruct (members_over M k data 1 0 None (0 + 1)) as [j Hj]; auto; try lia.
  apply (VerifyBytes_rejects _ data "{"
           (Scan j false (Some (errObjectEntryCount M (M + 1))) (0 + 1))); auto.
  apply validany_object; auto.
  apply (isValidObject_first data _ 1); auto.
Qed.

(** The count boundary on arrays of zeros and on objects whose members are
    all ["k":0].  With the element count alone enabled at [M], an array of
    [M] elements or fewer passes and a longer one fails with the count error
    that reports [M + 1]; the same holds for the members of an object under
    the entry count.  The tests are strict: [M] itself is allowed. *)
Theorem count_boundary (M : Z) (n : nat) :
  0 <= M ->
  (Z.of_nat n <= M ->
   VerifyBytes (array_count_only M) (array_of_zeros n) = Ret (true, None))
  /\ (M < Z.of_nat n ->
      VerifyBytes (array_count_only M) (array_of_zeros n)
      = Ret (false, Some (errArrayElementCount M (M + 1))))
  /\ (Z.of_nat n <= M ->
      VerifyBytes (entry_count_only M) (object_of_zeros n) = Ret (true, None))
  /\ (M < Z.of_nat n ->
      VerifyBytes (entry_count_only M) (object_of_zeros n)
      = Ret (false, Some (errObjectEntryCount M (M + 1)))).
Proof.
  intros HM. split_all.
  - apply array_of_zeros_fit.
  - now apply array_of_zeros_over.
  - apply object_of_zeros_fit.
  - now apply object_of_zeros_over.
Qed.

(** An instance: three and four elements, and members, under the limit 3. *)
Lemma count_boundary_witness :
  0 <= 3
  /\ VerifyBytes (array_count_only 3) (json "[0,0,0]") = Ret (true, None)
  /\ VerifyBytes (array_count_only 3) (json "[0,0,0,0]")
     = Ret (false,
            Some "jtp.maxArrayElementCountReached.Max-[3]-Allowed.Found-[4]"%string)
  /\ VerifyBytes (entry_count_only 3) (json "{'k':0,'k':0,'k':0}") = Ret (true, None)
  /\ VerifyBytes (entry_count_only 3) (json "{'k':0,'k':0,'k':0,'k':0}")
     = Ret (false,
            Some "jtp.maxObjectEntryCountReached.Max-[3]-Allowed.Found-[4]"%string).
Proof.
  split; [lia|]. split_all.
  - apply (count_boundary 3 3); lia.
  - apply (count_boundary 3 4); lia.
  - apply (count_boundary 3 3); lia.
  - apply (count_boundary 3 4); lia.
Defined.

(** * String lengths *)

Ltac bool_to_prop :=
  repeat match goal with
         | H : _ && _ = true |- _ => apply andb_prop in H; destruct H
         | H : _ || _ = true |- _ => apply orb_prop in H; destruct H
         | H : in_range _ _ _ = true |- _ => unfold in_range in H
         | H : (_ <=? _)%N = true |- _ => apply N.leb_le in H
         | H : (_ <? _)%N = true |- _ => apply N.ltb_lt in H
         end.

Ltac decide_tests :=
  repeat match goal with
         | |- context [(?a <? ?b)%N] =>
             first [ replace (a <? b)%N with true by (symmetry; apply N.ltb_lt; lia)
                   | replace (a <? b)%N with false by (symmetry; apply N.ltb_ge; lia) ]
         | |- context [(?a <=? ?b)%N] =>
             first [ replace (a <=? b)%N with true by (symmetry; apply N.leb_le; lia)
                   | replace (a <=? b)%N with false by (symmetry; apply N.leb_gt; lia) ]
         | |- context [(?a =? ?b)%N] =>
             first [ replace (a =? b)%N with true by (symmetry; apply N.eqb_eq; lia)
                   | replace (a =? b)%N with false by (symmetry; apply N.eqb_neq; lia) ]
         end.

Lemma rune_width_char (c rest : list byte) :
  utf8_char c = true -> rune_width (c ++ rest) = List.length c.
Proof.
  destruct c as [|b0 [|b1 [|b2 [|b3 [|b4 c]]]]]; try discriminate;
    cbn [utf8_char app List.length]; intros H; bool_to_prop;
    unfold rune_width, first_byte, in_range; decide_tests; cbn; decide_tests;
    try reflexivity.
Qed.

Lemma RuneCount_from_skip (p rest : list byte) :
  RuneCount_from (List.length p) (p ++ rest) = RuneCount_from 0 rest.
Proof. induction p as [|b p IH]; [reflexivity | exact IH]. Qed.

Lemma RuneCount_char (c rest : list byte) :
  utf8_char c = true -> RuneCount (c ++ rest) = 1 + RuneCount rest.
Proof.
  intros H. pose proof (rune_width_char c rest H) as Hw.
  destruct c as [|b c]; [discriminate|].
  unfold RuneCount. cbn [app RuneCount_from] in *. rewrite Hw.
  cbn [List.length]. rewrite Nat.sub_succ, Nat.sub_0_r.
  now rewrite RuneCount_from_skip.
Qed.

(** Multi-byte characters count as one each. *)
Lemma RuneCount_chars (chars : list (list byte)) (rest : list byte) :
  forallb utf8_char chars = true ->
  RuneCount (List.concat chars ++ rest) = Z.of_nat (List.length chars) + RuneCount rest.
Proof.
  induction chars as [|c chars IH]; intros H.
  - reflexivity.
  - cbn [forallb] in H. apply andb_prop in H. destruct H as [Hc H].
    cbn [List.concat List.length]. rewrite <- app_assoc, (RuneCount_char _ _ Hc), IH by auto.
    lia.
Qed.

Lemma json_chars_utf8 (chars : list (list byte)) :
  forallb json_char chars = true -> forallb utf8_char chars = true.
Proof.
  induction chars as [|c chars IH]; [reflexivity|]. cbn [forallb].
  intros H. apply andb_prop in H. destruct H as [Hc H].
  unfold json_char in Hc. apply andb_prop in Hc. destruct Hc as [Hc _].
  now rewrite Hc, IH.
Qed.

Lemma json_chars_plain (chars : list (list byte)) :
  forallb json_char chars = true -> forallb plain_byte (List.concat chars) = true.
Proof.
  induction chars as [|c chars IH]; [reflexivity|]. cbn [forallb List.concat].
  intros H. apply andb_prop in H. destruct H as [Hc H].
  unfold json_char in Hc. apply andb_prop in Hc. destruct Hc as [_ Hc].
  now rewrite forallb_app, Hc, IH.
Qed.

Lemma RuneCount_quoted (chars : list (list byte)) :
  forallb json_char chars = true ->
  RuneCount (quoted chars) - 2 = Z.of_nat (List.length chars).
Proof.
  intros H. unfold quoted.
  change (QUOTE :: List.concat chars ++ [QUOTE]) with ([QUOTE] ++ List.concat chars ++ [QUOTE]).
  rewrite (RuneCount_char [QUOTE]) by reflexivity.
  rewrite RuneCount_chars by now apply json_chars_utf8.
  change (RuneCount [QUOTE]) with 1. lia.
Qed.

(** The scanners on a token that starts at [i]. *)
Lemma quoted_scans (data : list byte) (i : nat) (chars : list (list byte))
    (rest : list byte) :
  forallb json_char chars = true ->
  skipn i data = quoted chars ++ rest ->
  let o := (i + List.length (quoted chars))%nat in
  nth_error data i = Some QUOTE
  /\ isValidateString data (S i) = (o, true)
  /\ skipn o data = rest
  /\ forall en m ty,
      validateStringLength data i o en m ty
      = Ret (if en && (Z.of_nat (List.length chars) >? m)
             then Some (errLimit ty m (Z.of_nat (List.length chars)))
             else None).
Proof.
  intros Hc Hs o. pose proof (skipn_app_inv _ _ _ _ Hs) as Hrest.
  pose proof (skipn_length_inv _ _ _ Hs) as Hlen. rewrite length_app in Hlen.
  unfold quoted in Hs. cbn [app] in Hs. rewrite <- app_assoc in Hs. cbn [app] in Hs.
  destruct (skipn_cons_inv _ _ _ _ Hs) as [E Hs1].
  assert (Ho : o = (S i + List.length (List.concat chars) + 1)%nat).
  { subst o. unfold quoted. cbn [List.length]. rewrite length_app. cbn [List.length]. lia. }
  split_all; auto.
  - rewrite Ho. apply (isValidateString_plain data _ rest); auto.
    now apply json_chars_plain.
  - intros en m ty. unfold validateStringLength.
    replace (i <=? o)%nat with true by (symmetry; apply Nat.leb_le; lia).
    replace (o <=? List.length data)%nat with true
      by (symmetry; apply Nat.leb_le; subst o; lia).
    cbn [andb].
    replace (firstn (o - i) (skipn i data)) with (quoted chars).
    2:{ rewrite Hs. unfold quoted in *. cbn [app].
        replace (o - i)%nat with (List.length (QUOTE :: List.concat chars ++ [QUOTE]))
          by (subst o; lia).
        change (QUOTE :: List.concat chars ++ QUOTE :: rest)
          with ((QUOTE :: List.concat chars) ++ QUOTE :: rest).
        change (QUOTE :: List.concat chars ++ [QUOTE])
          with ((QUOTE :: List.concat chars) ++ [QUOTE]).
        rewrite length_app, firstn_app, firstn_all2 by lia.
        replace (_ + _ - _)%nat with 1%nat by (cbn [List.length]; lia).
        reflexivity. }
    rewrite (RuneCount_quoted chars Hc). now destruct (en && _).
Qed.

Lemma quoted_value (L : Z) (chars : list (list byte)) :
  forallb json_char chars = true ->
  VerifyBytes (string_length_only L) (quoted chars)
  = if Z.of_nat (List.length chars) >? L
    then Ret (false, Some (errLimit stringValueLength L (Z.of_nat (List.length chars))))
    else Ret (true, None).
Proof.
  intros Hc. set (data := quoted chars).
  assert (Hs : skipn 0 data = quoted chars ++ []) by now rewrite app_nil_r.
  destruct (quoted_scans data 0 chars [] Hc Hs) as (E & Hstr & _ & Hlen).
  specialize (Hlen true L stringValueLength). cbn [andb] in Hlen.
  pose proof (validany_string data (string_length_only L) 0 _ true _ 0 E eq_refl
                Hstr Hlen) as Ha.
  destruct (Z.of_nat (List.length chars) >? L).
  - apply (VerifyBytes_rejects _ data QUOTE _ _ E eq_refl Ha). reflexivity.
  - apply (VerifyBytes_accepts _ data QUOTE _ E eq_refl Ha); reflexivity.
Qed.

Lemma quoted_key (L : Z) (chars : list (list byte)) :
  forallb json_char chars = true ->
  VerifyBytes (key_length_only L) (keyed chars)
  = if Z.of_nat (List.length chars) >? L
    then Ret (false, Some (errLimit objectKeyValueLength L (Z.of_nat (List.length chars))))
    else Ret (true, None).
Proof.
  intros Hc. set (data := keyed chars).
  assert (E0 : nth_error data 0 = Some "{"%byte) by reflexivity.
  assert (Hs : skipn 1 data = quoted chars ++ [":"%byte; "0"%byte; "}"%byte])
    by reflexivity.
  destruct (quoted_scans data 1 chars _ Hc Hs) as (E & Hstr & Hs2 & Hlen).
  specialize (Hlen true L objectKeyValueLength). cbn [andb] in Hlen.
  set (o := (1 + List.length (quoted chars))%nat) in *.
  destruct (skipn_cons_inv _ _ _ _ Hs2) as [E2 Hs3].
  destruct (skipn_cons_inv _ _ _ _ Hs3) as [E3 Hs4].
  destruct (skipn_cons_inv _ _ _ _ Hs4) as [E4 Hs5].
  destruct (Z.of_nat (List.length chars) >? L).
  - apply (VerifyBytes_rejects _ data "{"
             (Scan o false
                (Some (errLimit objectKeyValueLength L (Z.of_nat (List.length chars))))
                (0 + 1)) _ E0 eq_refl); [|reflexivity].
    apply validany_object; auto.
    apply isValidObject_first; auto.
    apply (isValidObject_key_long data (key_length_only L) 1 o 0 None (0 + 1) _
             Hstr eq_refl Hlen).
  - assert (Hdata : List.length data = S (S (S o))).
    { apply skipn_length_inv in Hs5. cbn [List.length] in Hs5.
      pose proof (nth_error_lt _ _ _ E4). lia. }
    apply (VerifyBytes_accepts _ data "{" (Scan (S (S (S o))) true None 0) E0);
      auto.
    apply validany_object; auto.
    apply isValidObject_first; auto.
    replace (Scan (S (S (S o))) true None 0)
      with (Scan (S (S (S o))) true None (0 + 1 - 1)) by (f_equal; lia).
    apply (isValidObject_key_last data (key_length_only L) 1 o (S o) (S (S o)) 0 None
             (0 + 1) (Scan (S (S o)) true None (0 + 1)) Hstr eq_refl Hlen); auto.
    + apply (isValidColon_at data _ _ Hs2).
    + now apply (validany_zero data _ (S o) (0 + 1) ["}"%byte]).
    + now apply (isValidComma_at_end data _ "}" []).
Qed.

(** X19. The string-length boundary where the error is not lost: for a token
    of unescaped, well-formed characters the check counts the characters
    (the runes of the span with both quotes, less two); as the top-level
    value and as the key of a member, a token of at most [L] characters
    validates and a longer one fails with the error that reports its
    length. *)
Theorem string_length_boundary (L : Z) (chars : list (list byte)) :
  forallb json_char chars = true ->
  RuneCount (quoted chars) - 2 = Z.of_nat (List.length chars)
  /\ (Z.of_nat (List.length chars) <= L ->
      VerifyBytes (string_length_only L) (quoted chars) = Ret (true, None)
      /\ VerifyBytes (key_length_only L) (keyed chars) = Ret (true, None))
  /\ (L < Z.of_nat (List.length chars) ->
      VerifyBytes (string_length_only L) (quoted chars)
      = Ret (false,
             Some (errLimit stringValueLength L (Z.of_nat (List.length chars))))
      /\ VerifyBytes (key_length_only L) (keyed chars)
         = Ret (false,
                Some (errLimit objectKeyValueLength L (Z.of_nat (List.length chars))))).
Proof.
  intros Hc. split; [now apply RuneCount_quoted|].
  rewrite (quoted_value L chars Hc), (quoted_key L chars Hc), Z.gtb_ltb.
  split; intros H.
  - apply Z.ltb_ge in H. rewrite H. now split.
  - apply Z.ltb_lt in H. rewrite H. now split.
Qed.

(** An instance: the two characters of three bytes each of the test
    document, under the limits 2 and 1. *)
Lemma string_length_boundary_witness :
  forallb json_char [[xe4; xb8; x96]; [xe7; x95; x8c]] = true
  /\ RuneCount (QUOTE :: [xe4; xb8; x96; xe7; x95; x8c] ++ [QUOTE]) - 2 = 2
  /\ VerifyBytes (string_length_only 2) (QUOTE :: [xe4; xb8; x96; xe7; x95; x8c] ++ [QUOTE])
     = Ret (true, None)
  /\ VerifyBytes (string_length_only 1) (QUOTE :: [xe4; xb8; x96; xe7; x95; x8c] ++ [QUOTE])
     = Ret (false,
            Some "jtp.maxStringValueLengthReached.Max-[1]-Allowed.Found-[2]"%string).
Proof.
  split; [reflexivity|]. split_all.
  - apply (string_length_boundary 2 [[xe4; xb8; x96]; [xe7; x95; x8c]] eq_refl).
  - apply (string_length_boundary 2 [[xe4; xb8; x96]; [xe7; x95; x8c]] eq_refl).
    cbn. lia.
  - apply (string_length_boundary 1 [[xe4; xb8; x96]; [xe7; x95; x8c]] eq_refl).
    cbn. lia.
Defined.

(** * Numbers *)

Lemma not_digit_test (c : byte) :
  is_digit c = false -> byte_ltb c "0" || byte_ltb "9" c = true.
Proof.
  unfold is_digit, byte_ltb, byte_leb. intros H.
  rewrite !N.ltb_antisym. apply andb_false_iff in H.
  destruct H as [-> | ->]; cbn; auto using orb_true_r.
Qed.

Lemma needs_digit (data : list byte) (i : nat) :
  (i <= List.length data)%nat -> no_digit_at data i ->
  (i =? List.length data)%nat = true
  \/ exists c, (i =? List.length data)%nat = false /\ index data i = Ret c
               /\ byte_ltb c "0" || byte_ltb "9" c = true.
Proof.
  intros Hi Hn. destruct (nth_error data i) as [c|] eqn:E.
  - right. exists c. pose proof (nth_error_lt _ _ _ E).
    split_all; [apply Nat.eqb_neq; lia | now apply index_Some | ].
    apply not_digit_test. now apply Hn.
  - left. apply nth_error_ge in E. apply Nat.eqb_eq. lia.
Qed.

(** A ['.'] that no digit follows makes the scan fail. *)
Lemma isValidNumber_frac_needs_digit (data : list byte) (i : nat) :
  nth_error data i = Some "."%byte -> no_digit_at data (S i) ->
  exists o, isValidNumber_frac data i = Ret (o, false).
Proof.
  intros E Hn. pose proof (nth_error_lt _ _ _ E) as Hl.
  unfold isValidNumber_frac.
  replace (i =? List.length data)%nat with false by (symmetry; apply Nat.eqb_neq; lia).
  rewrite (index_Some _ _ _ E). cbn [bind].
  change (Byte.eqb "." ".") with true. cbv iota.
  destruct (needs_digit data (S i)) as [-> | (c & -> & -> & Hc)]; auto; [eauto|].
  cbn [bind]. rewrite Hc. eauto.
Qed.

(** An ['e'] or ['E'] that no digit follows, with or without a sign in
    between, makes the scan fail. *)
Lemma isValidNumber_exp_needs_digit (data : list byte) (i : nat) (c0 : byte) :
  nth_error data i = Some c0 -> Byte.eqb c0 "e" || Byte.eqb c0 "E" = true ->
  no_digit_at data (S i) ->
  (forall s, nth_error data (S i) = Some s ->
             Byte.eqb s "+" || Byte.eqb s "-" = true -> no_digit_at data (S (S i))) ->
  exists o, isValidNumber_exp data i = Ret (o, false).
Proof.
  intros E He Hn Hs. pose proof (nth_error_lt _ _ _ E) as Hl.
  unfold isValidNumber_exp.
  replace (i =? List.length data)%nat with false by (symmetry; apply Nat.eqb_neq; lia).
  rewrite (index_Some _ _ _ E). cbn [bind]. rewrite He.
  destruct (nth_error data (S i)) as [s|] eqn:E1.
  2:{ apply nth_error_ge in E1.
      replace (S i =? List.length data)%nat with true
        by (symmetry; apply Nat.eqb_eq; lia). eauto. }
  pose proof (nth_error_lt _ _ _ E1) as Hl1.
  replace (S i =? List.length data)%nat with false
    by (symmetry; apply Nat.eqb_neq; lia).
  rewrite (index_Some _ _ _ E1). cbn [bind].
  destruct (Byte.eqb s "+" || Byte.eqb s "-") eqn:Esign.
  - destruct (needs_digit data (S (S i))) as [-> | (c & -> & -> & Hc)]; auto;
      [eauto | eauto |].
    cbn [bind]. rewrite Hc. eauto.
  - replace (S i =? List.length data)%nat with false
      by (symmetry; apply Nat.eqb_neq; lia).
    rewrite (index_Some _ _ _ E1). cbn [bind].
    rewrite (not_digit_test s (Hn s E1)). eauto.
Qed.

(** A ['-'] that is followed by a byte that is neither a digit nor one of
    ['.'], ['e'], ['E'] is taken for a number: the loop over the digits
    reads none and nothing asks for one. *)
Lemma isValidNumber_lone_minus (data : list byte) (i : nat) (c : byte)
    (rest : list byte) :
  skipn i data = "-"%byte :: c :: rest ->
  is_digit c = false -> ends_number (c :: rest) = true ->
  isValidNumber data (S i) = Ret (S i, true).
Proof.
  intros Hs Hd He. destruct (skipn_cons_inv _ _ _ _ Hs) as [E Hs1].
  destruct (skipn_cons_inv _ _ _ _ Hs1) as [E1 _].
  pose proof (nth_error_lt _ _ _ E1) as Hl.
  unfold isValidNumber. rewrite (index_Some _ _ _ E). cbn [bind].
  change (Byte.eqb "-" "-") with true. cbv iota.
  replace (S i =? List.length data)%nat with false
    by (symmetry; apply Nat.eqb_neq; lia).
  rewrite (index_Some _ _ _ E1). cbn [bind].
  assert (H0 : Byte.eqb c "0" = false).
  { destruct (Byte.eqb c "0") eqn:E0; [|reflexivity].
    apply byte_dec_bl in E0. subst c. discriminate. }
  rewrite H0.
  assert (Hdig : digits data (S i) = S i).
  { unfold digits. destruct (List.length data - S i)%nat as [|n] eqn:En; [lia|].
    cbn [digits_loop]. now rewrite E1, Hd. }
  rewrite Hdig. apply (isValidNumber_frac_stop data (S i) (c :: rest)); auto. lia.
Qed.

(** C7 fails on the code: a minus sign with no digit after it is accepted
    as an array element and as a member value.  (The same defect accepts
    [-.5] and [-e5].)  What the claim says of ['.'] and of the exponent does
    hold: see [isValidNumber_frac_needs_digit] and
    [isValidNumber_exp_needs_digit]. *)
Theorem minus_without_digit_is_accepted :
  VerifyBytes zeroVerify (json "[-]") = Ret (true, None)
  /\ VerifyBytes zeroVerify (json "{'a':-}") = Ret (true, None)
  /\ isValidNumber (json "[-]") 2 = Ret (2%nat, true)
  /\ VerifyBytes zeroVerify (json "[-.5]") = Ret (true, None)
  /\ VerifyBytes zeroVerify (json "[1.]") = Ret (false, Some ErrInvalidJSON)
  /\ VerifyBytes zeroVerify (json "[1e]") = Ret (false, Some ErrInvalidJSON)
  /\ VerifyBytes zeroVerify (json "[1e+]") = Ret (false, Some ErrInvalidJSON).
Proof. split_all; vm_compute; reflexivity. Qed.

(** * Literals *)

(** [true] and [null] are accepted, alone, between white space, as
    elements and as member values. *)
Lemma true_and_null_accepted (v : Verify) :
  depth_exceeded v 0 = false ->
  VerifyBytes v (json "true") = Ret (true, None)
  /\ VerifyBytes v (json " null ") = Ret (true, None)
  /\ VerifyBytes zeroVerify (json "[true,null]") = Ret (true, None)
  /\ VerifyBytes zeroVerify (json "{'a':true,'b':null}") = Ret (true, None).
Proof.
  intros H. destruct v as [a1 a2 D De e1 e2 k1 k2 s1 s2].
  unfold depth_exceeded in H. cbn in H.
  split_all; try (vm_compute; reflexivity).
  all: destruct De; [destruct D as [|p|p]; try discriminate H|];
    vm_compute; reflexivity.
Qed.

(** C2 fails on the code for [false]: [case 'f'] of [validany] calls
    [isValidFalse] and does not return, so the loop goes on at the byte
    after the [f], which is an [a].  No configuration accepts [false],
    alone or inside a container; the [f] itself is passed over as white
    space is, so that [f1] is accepted. *)
Theorem literal_false_is_rejected :
  (forall v, VerifyBytes v (json "false") <> Ret (true, None))
  /\ VerifyBytes zeroVerify (json "false") = Ret (false, Some ErrInvalidJSON)
  /\ isValidFalse (json "false") 1 = (5%nat, true)
  /\ VerifyBytes zeroVerify (json "[false]") = Ret (false, Some ErrInvalidJSON)
  /\ VerifyBytes zeroVerify (json "{'a':false}") = Ret (false, Some ErrInvalidJSON)
  /\ VerifyBytes zeroVerify (json "f1") = Ret (true, None).
Proof.
  split_all; try (vm_compute; reflexivity).
  intros v. destruct v as [a1 a2 D De e1 e2 k1 k2 s1 s2].
  unfold VerifyBytes, isValidJSON.
  intros H. vm_compute in H.
  destruct De; [destruct D as [|p|p]|]; vm_compute in H; discriminate.
Qed.

(** * An error that an array loses

    [isValidArray] stops on [!ok] alone, where [isValidObject] and
    [isValidJSON] stop on [!ok || err != nil].  [validany] returns a string
    that is too long as [ok] with the length error, so the array goes on,
    and the next element overwrites [err] with its own. *)

(** C5 fails on the code for a string value that is not the last element of
    its array: with the limit at 1, the token of two characters gets the
    length error from the check, and the document is accepted.  As the last
    element, as a member value and at the top level the same token is
    rejected with the error. *)
Theorem array_loses_string_length_error :
  validany_returns (json "['ab',0]") 1 1 (string_length_only 1)
    (Scan 5 true (Some (errLimit stringValueLength 1 2)) 1)
  /\ VerifyBytes (string_length_only 1) (json "['ab',0]") = Ret (true, None)
  /\ VerifyBytes (string_length_only 1) (json "[0,'ab']")
     = Ret (false, Some (errLimit stringValueLength 1 2))
  /\ VerifyBytes (string_length_only 1) (json "{'k':'ab','j':0}")
     = Ret (false, Some (errLimit stringValueLength 1 2))
  /\ VerifyBytes (string_length_only 1) (json "'ab'")
     = Ret (false, Some (errLimit stringValueLength 1 2)).
Proof.
  split_all; try (vm_compute; reflexivity).
  exists 2%nat. vm_compute. reflexivity.
Qed.

(** * Building a configuration *)

Ltac unfold_setter :=
  unfold setter, WithMaxArrayElementCount, WithMaxContainerDepth,
    WithMaxObjectKeyLength, WithMaxStringLength, WithMaxObjectEntryCount.

Lemma setter_neg (k : limit) (l : Z) (v : Verify) :
  l < 0 ->
  setter k l v
  = inr ("jtp: max " ++ negative_label k ++ " cannot be negative " ++ fmt_d l)%string.
Proof.
  intros H. destruct k; unfold_setter;
    destruct (Z.eqb_spec l 0); try lia;
    destruct (Z.ltb_spec l 0); try lia; reflexivity.
Qed.

Lemma setter_zero (k : limit) (v : Verify) : setter k 0 v = inl v.
Proof. destruct k; reflexivity. Qed.

Lemma setter_pos (k : limit) (l : Z) (v : Verify) :
  0 < l ->
  exists v', setter k l v = inl v'
             /\ limit_enabled k v' = true /\ limit_max k v' = l
             /\ forall k', k' <> k ->
                  limit_enabled k' v' = limit_enabled k' v
                  /\ limit_max k' v' = limit_max k' v.
Proof.
  intros H. destruct k; unfold_setter;
    destruct (Z.eqb_spec l 0); try lia;
    destruct (Z.ltb_spec l 0); try lia;
    (eexists; split; [reflexivity|]); cbn; split_all; try reflexivity;
    intros k' Hk; destruct k'; cbn; split; congruence.
Qed.

Lemma limit_eqb_eq (k k' : limit) : limit_eqb k k' = true <-> k = k'.
Proof. destruct k, k'; cbn; split; congruence. Qed.

Lemma New_from_settings (opts : list (limit * Z)) :
  Forall (fun o => 0 <= snd o) opts ->
  forall (v : Verify) (cur : limit -> option Z),
    (forall k, holds k v (cur k)) ->
    exists v', New_from v (setters opts) = inl v'
               /\ forall k, holds k v' (last_setting k opts (cur k)).
Proof.
  induction 1 as [|[k0 l] rest Hl _ IH]; intros v cur Hv;
    cbn [setters map New_from].
  - exists v. split; [reflexivity | exact Hv].
  - cbn [fst snd] in *. destruct (Z.eq_dec l 0) as [->|Hnz].
    + rewrite setter_zero.
      destruct (IH v cur Hv) as (v' & E & Hv'). exists v'. split; [exact E|].
      intros k. cbn [last_setting]. rewrite Z.eqb_refl, andb_false_r. apply Hv'.
    + destruct (setter_pos k0 l v) as (v1 & E1 & Hen & Hmax & Hother); [lia|].
      rewrite E1.
      destruct (IH v1 (fun k => if limit_eqb k k0 then Some l else cur k))
        as (v' & E & Hv').
      * intros k. destruct (limit_eqb k k0) eqn:Ek.
        -- apply limit_eqb_eq in Ek. subst k. cbn. auto.
        -- assert (k <> k0) as Hne
             by (intros ->; destruct k0; discriminate).
           destruct (Hother k Hne) as [He Hm]. specialize (Hv k).
           unfold holds in *. rewrite He, Hm. exact Hv.
      * exists v'. split; [exact E|]. intros k. cbn [last_setting].
        replace (l =? 0) with false by (symmetry; apply Z.eqb_neq; exact Hnz).
        cbn [negb]. rewrite andb_true_r. apply Hv'.
Qed.

Lemma New_from_error (before : list (limit * Z)) :
  Forall (fun o => 0 <= snd o) before ->
  forall (v : Verify) (k : limit) (l : Z) (after : list (limit * Z)) (e : error),
    (forall v', setter k l v' = inr e) ->
    New_from v (setters (before ++ (k, l) :: after)) = inr e.
Proof.
  induction 1 as [|[k0 l0] rest Hl _ IH]; intros v k l after e He;
    cbn [setters map New_from app fst snd].
  - rewrite He. reflexivity.
  - cbn [fst snd] in Hl. destruct (Z.eq_dec l0 0) as [->|Hnz].
    + rewrite setter_zero. apply IH. exact He.
    + destruct (setter_pos k0 l0 v) as (v1 & E1 & _); [lia|].
      rewrite E1. apply IH. exact He.
Qed.

(** X1. [New] accepts every list of setters whose values are not negative, and
    each limit of the configuration it returns is enabled at the last value
    other than zero given for it, or disabled at zero when there is none: a
    later zero does not switch a limit off again. *)
Theorem New_keeps_last_setting (opts : list (limit * Z)) :
  Forall (fun o => 0 <= snd o) opts ->
  exists v, New (setters opts) = inl v
            /\ forall k, holds k v (last_setting k opts None).
Proof.
  intros H. apply (New_from_settings opts H zeroVerify (fun _ => None)).
  intros k. destruct k; cbn; auto.
Qed.

(** The string limit set to 5 and then to 0 stays at 5; of the two array
    limits the later one holds; the depth limit set to 0 stays disabled. *)
Lemma New_keeps_last_setting_witness :
  exists v, New [WithMaxStringLength 5; WithMaxContainerDepth 0;
                 WithMaxStringLength 0; WithMaxArrayElementCount 3;
                 WithMaxArrayElementCount 4] = inl v
            /\ StringValueLen v = 5 /\ stringLenEnabled v = true
            /\ MaxArrayElementCount v = 4
            /\ jsonContainerDepthEnabled v = false.
Proof.
  destruct (New_keeps_last_setting
              [(StringLen, 5); (ContainerDepth, 0); (StringLen, 0);
               (ArrayElementCount, 3); (ArrayElementCount, 4)])
    as (v & E & Hv).
  - repeat constructor; cbn; lia.
  - exists v. split; [exact E|].
    pose proof (Hv StringLen) as [H1 H2].
    pose proof (Hv ArrayElementCount) as [H3 H4].
    pose proof (Hv ContainerDepth) as [H5 H6].
    cbn in *. auto.
Defined.

(** X2. [New] fails at the first setter whose value is negative, whatever
    follows it: it returns the error of that setter, which names the limit and
    the value, and the options before it are lost.  The setter of the object
    entry count names the array element count in its error. *)
Theorem New_rejects_negative
    (before after : list (limit * Z)) (k : limit) (l : Z) :
  Forall (fun o => 0 <= snd o) before ->
  l < 0 ->
  New (setters (before ++ (k, l) :: after))
  = inr ("jtp: max " ++ negative_label k ++ " cannot be negative " ++ fmt_d l)%string.
Proof.
  intros Hb Hl. apply New_from_error; [exact Hb|].
  intros v'. apply setter_neg. exact Hl.
Qed.

Lemma New_rejects_negative_witness :
  New [WithMaxStringLength 5; WithMaxObjectEntryCount (-2);
       WithMaxContainerDepth 1]
  = inr "jtp: max array element count cannot be negative -2"%string.
Proof.
  apply (New_rejects_negative [(StringLen, 5)] [(ContainerDepth, 1)]
           ObjectEntries (-2)).
  - repeat constructor; cbn; lia.
  - lia.
Defined.

Lemma setter_well_configured (k : limit) (l : Z) (v v' : Verify) :
  well_configured v -> setter k l v = inl v' -> well_configured v'.
Proof.
  intros Hv E. destruct (Z.lt_trichotomy l 0) as [Hl | [-> | Hl]].
  - rewrite (setter_neg k l v Hl) in E. discriminate.
  - rewrite setter_zero in E. now injection E as <-.
  - destruct (setter_pos k l v Hl) as (v1 & E1 & Hen & Hmax & Hother).
    rewrite E1 in E. injection E as <-. intros k'.
    destruct (limit_eqb k' k) eqn:Ek.
    + apply limit_eqb_eq in Ek. subst k'. now rewrite Hen, Hmax.
    + assert (k' <> k) as Hne by (intros ->; destruct k; discriminate).
      destruct (Hother k' Hne) as [-> ->]. apply Hv.
Qed.

Lemma New_from_well_configured (opts : list (limit * Z)) :
  forall v v', well_configured v -> New_from v (setters opts) = inl v' ->
               well_configured v'.
Proof.
  induction opts as [|[k l] opts IH]; intros v v' Hv E; cbn [setters map New_from] in E.
  - now injection E as <-.
  - cbn [fst snd] in E. destruct (setter k l v) as [v1|e] eqn:E1; [|discriminate].
    apply (IH v1 v'); [|exact E]. exact (setter_well_configured k l v v1 Hv E1).
Qed.

(** X3. In every configuration that [New] returns, a limit that is enabled is
    above zero and a limit that is disabled is zero; so the depth check
    never fails on a document that is not inside a container. *)
Theorem New_is_well_configured (opts : list (limit * Z)) (v : Verify) :
  New (setters opts) = inl v ->
  well_configured v /\ depth_exceeded v 0 = false.
Proof.
  intros E.
  assert (Hv : well_configured v).
  { apply (New_from_well_configured opts zeroVerify v); [|exact E].
    intros k. destruct k; reflexivity. }
  split; [exact Hv|]. specialize (Hv ContainerDepth).
  unfold depth_exceeded. cbn [limit_enabled limit_max] in Hv.
  destruct (jsonContainerDepthEnabled v); [|reflexivity].
  cbn [andb]. apply Z.ltb_ge. lia.
Qed.

Lemma New_is_well_configured_witness :
  depth_exceeded (mkVerify 0 false 7 true 0 false 0 false 50 true) 0 = false.
Proof.
  apply (New_is_well_configured [(ContainerDepth, 7); (StringLen, 50)]).
  reflexivity.
Defined.

(** * The content of strings *)

Lemma skipn_nth (data : list byte) (i : nat) (c : byte) :
  nth_error data i = Some c -> skipn i data = c :: skipn (S i) data.
Proof.
  intros H. destruct (nth_error_split data i H) as (l1 & l2 & -> & <-).
  rewrite (skipn_app (List.length l1)), skipn_all, Nat.sub_diag.
  change (S (List.length l1)) with (1 + List.length l1)%nat.
  rewrite <- skipn_skipn, skipn_app, skipn_all, Nat.sub_diag. reflexivity.
Qed.

Lemma hex_digits_run (data hs rest : list byte) (i : nat) :
  forallb is_hex hs = true -> skipn (S i) data = hs ++ rest ->
  hex_digits (List.length hs) data i = ((i + List.length hs)%nat, true).
Proof.
  revert i. induction hs as [|h hs IH]; intros i Hh Hs.
  - cbn [List.length hex_digits]. f_equal. lia.
  - cbn [forallb] in Hh. apply andb_prop in Hh. destruct Hh as [Hh Hhs].
    cbn [app] in Hs. destruct (skipn_cons_inv _ _ _ _ Hs) as [E Hs'].
    cbn [List.length hex_digits]. rewrite E, Hh, (IH (S i) Hhs Hs').
    f_equal. lia.
Qed.

Lemma hex_digits_short (data hs rest : list byte) (j i : nat) :
  (List.length hs < j)%nat -> forallb is_hex hs = true ->
  no_hex_first rest = true -> skipn (S i) data = hs ++ rest ->
  hex_digits j data i = ((i + List.length hs + 1)%nat, false).
Proof.
  revert j i. induction hs as [|h hs IH]; intros j i Hj Hh Hr Hs.
  - destruct j as [|j]; [cbn in Hj; lia|]. cbn [hex_digits app List.length] in *.
    destruct rest as [|c rest].
    + rewrite (skipn_nil_inv _ _ Hs). f_equal. lia.
    + destruct (skipn_cons_inv _ _ _ _ Hs) as [E _]. rewrite E.
      cbn [no_hex_first] in Hr. apply negb_true_iff in Hr. rewrite Hr.
      f_equal. lia.
  - destruct j as [|j]; [cbn in Hj; lia|].
    cbn [forallb] in Hh. apply andb_prop in Hh. destruct Hh as [Hh Hhs].
    cbn [app] in Hs. destruct (skipn_cons_inv _ _ _ _ Hs) as [E Hs'].
    cbn [List.length hex_digits] in *. rewrite E, Hh.
    rewrite (IH j (S i)) by (auto; lia). f_equal. lia.
Qed.

Lemma hex_digits_inv (data : list byte) (j i o : nat) :
  hex_digits j data i = (o, true) ->
  o = (i + j)%nat
  /\ exists hs, List.length hs = j /\ forallb is_hex hs = true
                /\ skipn (S i) data = hs ++ skipn (S o) data.
Proof.
  revert i. induction j as [|j IH]; intros i H; cbn [hex_digits] in H.
  - injection H as <-. split; [lia|]. exists []. auto.
  - destruct (nth_error data (S i)) as [c|] eqn:E; [|discriminate].
    destruct (is_hex c) eqn:Hc; [|discriminate].
    destruct (IH _ H) as (-> & hs & Hl & Hh & Hs). split; [lia|].
    exists (c :: hs). cbn [List.length forallb app]. rewrite Hc, Hh, Hl.
    split_all; auto. rewrite (skipn_nth _ _ _ E), Hs. reflexivity.
Qed.

Lemma content_length (ps : list piece) :
  (List.length ps <= List.length (content ps))%nat.
Proof.
  induction ps as [|p ps IH]; [apply Nat.le_refl|].
  unfold content in *. cbn [flat_map List.length]. rewrite length_app.
  destruct p; cbn [piece_bytes List.length]; lia.
Qed.

Lemma plain_byte_tests (b : byte) :
  plain_byte b = true ->
  byte_ltb b " " = false /\ Byte.eqb b BACKSLASH = false /\ Byte.eqb b QUOTE = false.
Proof.
  unfold plain_byte. intros H. apply andb_prop in H. destruct H as [H H3].
  apply andb_prop in H. destruct H as [H1 H2].
  apply negb_true_iff in H1, H2, H3. auto.
Qed.

(** One piece, then the scan goes on behind it. *)
Lemma isValidateString_loop_piece (data : list byte) (n i : nat) (p : piece)
    (rest : list byte) :
  piece_ok p = true -> skipn i data = piece_bytes p ++ rest ->
  isValidateString_loop (S n) data i
  = isValidateString_loop n data (i + List.length (piece_bytes p)).
Proof.
  intros Hp Hs. destruct p as [b|e|h1 h2 h3 h4]; cbn [piece_bytes app piece_ok] in *.
  - destruct (skipn_cons_inv _ _ _ _ Hs) as [E _].
    destruct (plain_byte_tests b Hp) as (H1 & H2 & H3).
    cbn [isValidateString_loop List.length]. rewrite E, H1, H2, H3.
    f_equal. lia.
  - destruct (skipn_cons_inv _ _ _ _ Hs) as [E Hs1].
    destruct (skipn_cons_inv _ _ _ _ Hs1) as [E1 _].
    cbn [isValidateString_loop List.length]. rewrite E.
    change (byte_ltb BACKSLASH " ") with false.
    change (Byte.eqb BACKSLASH BACKSLASH) with true. cbv iota.
    rewrite E1, Hp. f_equal. lia.
  - destruct (skipn_cons_inv _ _ _ _ Hs) as [E Hs1].
    destruct (skipn_cons_inv _ _ _ _ Hs1) as [E1 Hs2].
    assert (Hh : forallb is_hex [h1; h2; h3; h4] = true)
      by (cbn [forallb]; rewrite andb_true_r, !andb_assoc; exact Hp).
    pose proof (hex_digits_run data [h1; h2; h3; h4] rest (S i) Hh Hs2) as Hx.
    cbn [isValidateString_loop]. rewrite E.
    change (byte_ltb BACKSLASH " ") with false.
    change (Byte.eqb BACKSLASH BACKSLASH) with true. cbv iota.
    rewrite E1. change (is_simple_escape "u") with false.
    change (Byte.eqb "u" "u") with true. cbv iota.
    change 4%nat with (List.length [h1; h2; h3; h4]). rewrite Hx.
    f_equal. cbn [List.length]. lia.
Qed.

Lemma isValidateString_loop_pieces (data : list byte) (ps : list piece)
    (rest : list byte) (n i : nat) :
  forallb piece_ok ps = true -> skipn i data = content ps ++ rest ->
  isValidateString_loop (List.length ps + n) data i
  = isValidateString_loop n data (i + List.length (content ps)).
Proof.
  revert i. induction ps as [|p ps IH]; intros i Hp Hs.
  - cbn [List.length content flat_map Nat.add]. f_equal. lia.
  - cbn [forallb] in Hp. apply andb_prop in Hp. destruct Hp as [Hp Hps].
    unfold content in *. cbn [flat_map] in *. rewrite <- app_assoc in Hs.
    cbn [List.length Nat.add].
    rewrite (isValidateString_loop_piece data _ i p _ Hp Hs).
    rewrite (IH _ Hps (skipn_app_inv _ _ _ _ Hs)), length_app.
    f_equal. lia.
Qed.

Lemma isValidateString_loop_stops (data tail : list byte) (k n i : nat) :
  stops tail k -> skipn i data = tail ->
  (Nat.min 1 (List.length tail) <= n)%nat ->
  isValidateString_loop n data i = ((i + k)%nat, false).
Proof.
  intros Ht Hs Hn. destruct Ht as [|c rest Hc| |e rest He Hu|hs rest Hl Hh Hr].
  - destruct n as [|n]; cbn [isValidateString_loop];
      [|rewrite (skipn_nil_inv _ _ Hs)]; f_equal; lia.
  - destruct n as [|n]; [cbn in Hn; lia|].
    destruct (skipn_cons_inv _ _ _ _ Hs) as [E _].
    cbn [isValidateString_loop]. rewrite E, Hc. f_equal. lia.
  - destruct n as [|n]; [cbn in Hn; lia|].
    destruct (skipn_cons_inv _ _ _ _ Hs) as [E Hs1].
    cbn [isValidateString_loop]. rewrite E.
    change (byte_ltb BACKSLASH " ") with false.
    change (Byte.eqb BACKSLASH BACKSLASH) with true. cbv iota.
    rewrite (skipn_nil_inv _ _ Hs1). f_equal. lia.
  - destruct n as [|n]; [cbn in Hn; lia|].
    destruct (skipn_cons_inv _ _ _ _ Hs) as [E Hs1].
    destruct (skipn_cons_inv _ _ _ _ Hs1) as [E1 _].
    cbn [isValidateString_loop]. rewrite E.
    change (byte_ltb BACKSLASH " ") with false.
    change (Byte.eqb BACKSLASH BACKSLASH) with true. cbv iota.
    rewrite E1, He, Hu. f_equal. lia.
  - destruct n as [|n]; [cbn in Hn; lia|].
    destruct (skipn_cons_inv _ _ _ _ Hs) as [E Hs1].
    destruct (skipn_cons_inv _ _ _ _ Hs1) as [E1 Hs2].
    cbn [isValidateString_loop]. rewrite E.
    change (byte_ltb BACKSLASH " ") with false.
    change (Byte.eqb BACKSLASH BACKSLASH) with true. cbv iota.
    rewrite E1. change (is_simple_escape "u") with false.
    change (Byte.eqb "u" "u") with true. cbv iota.
    rewrite (hex_digits_short data hs rest 4 (S i) Hl Hh Hr Hs2).
    f_equal. lia.
Qed.

Lemma isValidateString_content (data : list byte) (i : nat) (ps : list piece)
    (rest : list byte) :
  forallb piece_ok ps = true ->
  skipn i data = content ps ++ QUOTE :: rest ->
  isValidateString data i = ((i + List.length (content ps) + 1)%nat, true).
Proof.
  intros Hp Hs. unfold isValidateString.
  pose proof (skipn_length_inv _ _ _ Hs) as Hl.
  rewrite length_app in Hl. cbn [List.length] in Hl.
  pose proof (content_length ps) as Hc.
  replace (List.length data - i)%nat
    with (List.length ps + (List.length data - i - List.length ps))%nat by lia.
  rewrite (isValidateString_loop_pieces data ps _ _ i Hp Hs).
  destruct (skipn_cons_inv _ _ _ _ (skipn_app_inv _ _ _ _ Hs)) as [E _].
  destruct (List.length data - i - List.length ps)%nat as [|n] eqn:En; [lia|].
  cbn [isValidateString_loop]. rewrite E.
  change (byte_ltb QUOTE " ") with false.
  change (Byte.eqb QUOTE BACKSLASH) with false.
  change (Byte.eqb QUOTE QUOTE) with true. cbv iota. f_equal. lia.
Qed.

(** X4. [isValidateString] accepts every content made of bytes from [0x20]
    up other than the quote and the backslash, of the eight escapes of one
    byte and of [\u] with four hexadecimal digits, when a quote closes it,
    and returns the index after that quote.  It asks nothing more of the
    bytes: an escaped quote does not close the string, and bytes that are
    not UTF-8 pass. *)
Theorem isValidateString_accepts (data : list byte) (i : nat) (ps : list piece)
    (rest : list byte) :
  forallb piece_ok ps = true ->
  skipn i data = content ps ++ QUOTE :: rest ->
  isValidateString data i = ((i + List.length (content ps) + 1)%nat, true).
Proof. apply isValidateString_content. Qed.

(** An escaped quote, a byte that is not UTF-8 and a [\u] escape, between
    the quotes of a token. *)
Lemma isValidateString_accepts_witness :
  isValidateString
    [QUOTE; "a"%byte; BACKSLASH; QUOTE; xff; BACKSLASH; "u"%byte; "0"%byte;
     "0"%byte; "e"%byte; "9"%byte; QUOTE; ","%byte] 1
  = (12%nat, true).
Proof.
  apply (isValidateString_accepts _ 1
           [Plain "a"; Escape QUOTE; Plain xff; Unicode "0" "0" "e" "9"]
           [","%byte]); reflexivity.
Defined.

Lemma isValidateString_stops (data : list byte) (i : nat) (ps : list piece)
    (tail : list byte) (k : nat) :
  forallb piece_ok ps = true ->
  skipn i data = content ps ++ tail ->
  stops tail k ->
  isValidateString data i = ((i + List.length (content ps) + k)%nat, false).
Proof.
  intros Hp Hs Ht. unfold isValidateString.
  pose proof (skipn_length_inv _ _ _ Hs) as Hl. rewrite length_app in Hl.
  pose proof (content_length ps) as Hc.
  replace (List.length data - i)%nat
    with (List.length ps + (List.length data - i - List.length ps))%nat by lia.
  rewrite (isValidateString_loop_pieces data ps _ _ i Hp Hs).
  apply (isValidateString_loop_stops data tail); auto.
  - now apply skipn_app_inv in Hs.
  - destruct tail; cbn [List.length Nat.min] in *; lia.
Qed.

(** X5. [isValidateString] fails, and returns the index where it stopped,
    when the content that it has accepted so far is followed by the end of
    the buffer, by a byte below [0x20], or by a backslash that is not the
    start of an escape; for [\u] the index is that of the first byte that is
    not a hexadecimal digit. *)
Theorem isValidateString_rejects (data : list byte) (i : nat) (ps : list piece)
    (tail : list byte) (k : nat) :
  forallb piece_ok ps = true ->
  skipn i data = content ps ++ tail ->
  stops tail k ->
  isValidateString data i = ((i + List.length (content ps) + k)%nat, false).
Proof. apply isValidateString_stops. Qed.

(** A tab inside a string, and a [\u] escape with three digits. *)
Lemma isValidateString_rejects_witness :
  isValidateString [QUOTE; "a"%byte; TAB; QUOTE] 1 = (2%nat, false)
  /\ isValidateString
       [QUOTE; BACKSLASH; "u"%byte; "1"%byte; "2"%byte; "3"%byte; QUOTE] 1
     = (6%nat, false).
Proof.
  split.
  - apply (isValidateString_rejects _ 1 [Plain "a"] [TAB; QUOTE] 0);
      [reflexivity | reflexivity | now apply stops_control].
  - apply (isValidateString_rejects _ 1 []
             [BACKSLASH; "u"; "1"; "2"; "3"; QUOTE]%byte 5);
      [reflexivity | reflexivity |].
    apply (stops_hex ["1"; "2"; "3"]%byte [QUOTE]);
      [cbn; lia | reflexivity | reflexivity].
Defined.

Lemma isValidateString_loop_sound (data : list byte) (n i o : nat) :
  isValidateString_loop n data i = (o, true) ->
  exists ps, forallb piece_ok ps = true
             /\ skipn i data = content ps ++ QUOTE :: skipn o data
             /\ o = (i + List.length (content ps) + 1)%nat.
Proof.
  revert i. induction n as [|n IH]; intros i H; cbn [isValidateString_loop] in H;
    [discriminate|].
  destruct (nth_error data i) as [c|] eqn:E; [|discriminate].
  destruct (byte_ltb c " ") eqn:H1; [discriminate|].
  destruct (Byte.eqb c BACKSLASH) eqn:H2.
  - apply byte_dec_bl in H2. subst c.
    destruct (nth_error data (S i)) as [e|] eqn:E1; [|discriminate].
    destruct (is_simple_escape e) eqn:He.
    + destruct (IH _ H) as (ps & Hp & Hs & Ho).
      exists (Escape e :: ps). unfold content in *.
      cbn [forallb piece_ok flat_map piece_bytes app List.length].
      rewrite He, Hp, (skipn_nth _ _ _ E), (skipn_nth _ _ _ E1), Hs.
      split_all; auto. lia.
    + destruct (Byte.eqb e "u") eqn:Hu; [|discriminate].
      apply byte_dec_bl in Hu. subst e.
      destruct (hex_digits 4 data (S i)) as [i' ok] eqn:Hx.
      destruct ok; [|discriminate].
      destruct (hex_digits_inv _ _ _ _ Hx) as (-> & hs & Hl & Hh & Hhs).
      destruct (IH _ H) as (ps & Hp & Hs & Ho).
      destruct hs as [|h1 [|h2 [|h3 [|h4 [|h5 hs]]]]]; try discriminate Hl.
      cbn [forallb] in Hh. rewrite andb_true_r, !andb_assoc in Hh.
      exists (Unicode h1 h2 h3 h4 :: ps). unfold content in *.
      cbn [forallb piece_ok flat_map piece_bytes app List.length].
      rewrite Hh, Hp, (skipn_nth _ _ _ E), (skipn_nth _ _ _ E1), Hhs, Hs.
      split_all; auto. lia.
  - destruct (Byte.eqb c QUOTE) eqn:H3.
    + apply byte_dec_bl in H3. subst c. injection H as <-.
      exists []. cbn [forallb content flat_map app List.length].
      rewrite (skipn_nth _ _ _ E). split_all; auto. lia.
    + destruct (IH _ H) as (ps & Hp & Hs & Ho).
      exists (Plain c :: ps). unfold content in *.
      cbn [forallb piece_ok flat_map piece_bytes app List.length].
      unfold plain_byte. rewrite H1, H2, H3, Hp, (skipn_nth _ _ _ E), Hs.
      split_all; auto. lia.
Qed.

(** X6. What [isValidateString] accepts is a string: when it succeeds, the
    bytes from its start to the index it returns are pieces of content, each
    a byte from [0x20] up, an escape of one byte or [\u] with four
    hexadecimal digits, and then the closing quote. *)
Theorem isValidateString_sound (data : list byte) (i o : nat) :
  isValidateString data i = (o, true) ->
  exists ps, forallb piece_ok ps = true
             /\ skipn i data = content ps ++ QUOTE :: skipn o data
             /\ o = (i + List.length (content ps) + 1)%nat.
Proof. apply isValidateString_loop_sound. Qed.

Lemma isValidateString_sound_witness :
  exists ps, forallb piece_ok ps = true
             /\ [QUOTE; "a"%byte; BACKSLASH; "n"%byte; QUOTE; "]"%byte]
                = QUOTE :: content ps ++ [QUOTE; "]"%byte].
Proof.
  destruct (isValidateString_sound
              [QUOTE; "a"%byte; BACKSLASH; "n"%byte; QUOTE; "]"%byte] 1 5 eq_refl)
    as (ps & Hp & Hs & _).
  exists ps. split; [exact Hp|]. cbn [skipn] in Hs. now rewrite <- Hs.
Defined.

(** * The text of numbers *)

Lemma is_digit_tests (c : byte) :
  is_digit c = true ->
  byte_ltb c "0" || byte_ltb "9" c = false
  /\ Byte.eqb c "-" = false /\ Byte.eqb c "+" = false /\ Byte.eqb c "." = false
  /\ Byte.eqb c "e" = false /\ Byte.eqb c "E" = false.
Proof. destruct c; intros H; try discriminate H; split_all; reflexivity. Qed.

Lemma letter_tests (c : byte) :
  Byte.eqb c "e" || Byte.eqb c "E" = true ->
  is_digit c = false /\ Byte.eqb c "." = false.
Proof. destruct c; intros H; try discriminate H; split; reflexivity. Qed.

Lemma sign_tests (c : byte) :
  Byte.eqb c "+" || Byte.eqb c "-" = true -> is_digit c = false.
Proof. destruct c; intros H; try discriminate H; reflexivity. Qed.

Lemma ends_token_parts (rest : list byte) :
  ends_token rest = true -> no_digit_first rest = true /\ ends_number rest = true.
Proof.
  destruct rest as [|c rest]; [auto|]. cbn [ends_token no_digit_first].
  intros H. apply andb_prop in H. exact H.
Qed.

Lemma digits_loop_run (data ds rest : list byte) (n i : nat) :
  forallb is_digit ds = true -> no_digit_first rest = true ->
  skipn i data = ds ++ rest -> (List.length ds <= n)%nat ->
  digits_loop n data i = (i + List.length ds)%nat.
Proof.
  revert n i. induction ds as [|d ds IH]; intros n i Hd Hr Hs Hn.
  - cbn [app List.length] in *. rewrite Nat.add_0_r.
    destruct n as [|n]; [reflexivity|]. cbn [digits_loop].
    destruct rest as [|c rest].
    + now rewrite (skipn_nil_inv _ _ Hs).
    + destruct (skipn_cons_inv _ _ _ _ Hs) as [E _]. rewrite E.
      cbn [no_digit_first] in Hr. apply negb_true_iff in Hr. now rewrite Hr.
  - cbn [forallb] in Hd. apply andb_prop in Hd. destruct Hd as [Hd Hds].
    cbn [app List.length] in *. destruct n as [|n]; [lia|].
    destruct (skipn_cons_inv _ _ _ _ Hs) as [E Hs'].
    cbn [digits_loop]. rewrite E, Hd, (IH n (S i)) by (auto; lia). lia.
Qed.

(** The loop over the digits reads all of them. *)
Lemma digits_run (data ds rest : list byte) (i : nat) :
  forallb is_digit ds = true -> no_digit_first rest = true ->
  skipn i data = ds ++ rest ->
  digits data i = (i + List.length ds)%nat.
Proof.
  intros Hd Hr Hs. unfold digits. apply (digits_loop_run data ds rest); auto.
  apply skipn_length_inv in Hs. rewrite length_app in Hs. lia.
Qed.

Lemma digits_ok_inv (ds : list byte) :
  digits_ok ds = true ->
  exists d ds', ds = d :: ds' /\ is_digit d = true /\ forallb is_digit ds' = true.
Proof.
  destruct ds as [|d ds]; [discriminate|]. cbn [digits_ok forallb].
  intros H. apply andb_prop in H. destruct H. eauto.
Qed.

Ltac not_at_end :=
  match goal with
  | Hl : (?i < List.length ?d)%nat |- context [(?i =? List.length ?d)%nat] =>
      replace (i =? List.length d)%nat with false
        by (symmetry; apply Nat.eqb_neq; lia)
  end.

(** The exponent. *)
Lemma isValidNumber_exp_accepts (data : list byte) (i : nat)
    (e : option (byte * option byte * list byte)) (rest : list byte) :
  exp_ok e = true -> (i <= List.length data)%nat ->
  skipn i data = exp_bytes e ++ rest -> ends_token rest = true ->
  isValidNumber_exp data i = Ret ((i + List.length (exp_bytes e))%nat, true).
Proof.
  intros He Hi Hs Hr. destruct (ends_token_parts _ Hr) as [Hnd Hen].
  destruct e as [[[letter sign] ds]|]; cbn [exp_bytes exp_ok] in *.
  2:{ rewrite Nat.add_0_r. now apply (isValidNumber_exp_stop data i rest). }
  apply andb_prop in He. destruct He as [He Hds].
  apply andb_prop in He. destruct He as [Hletter Hsign].
  destruct (digits_ok_inv _ Hds) as (d & ds' & -> & Hd & Hds').
  destruct (is_digit_tests d Hd) as (Ht & Hm & Hp & _).
  unfold isValidNumber_exp. destruct sign as [s|]; cbn [app] in Hs.
  - destruct (skipn_cons_inv _ _ _ _ Hs) as [E Hs1].
    destruct (skipn_cons_inv _ _ _ _ Hs1) as [E1 Hs2].
    destruct (skipn_cons_inv _ _ _ _ Hs2) as [E2 Hs3].
    pose proof (nth_error_lt _ _ _ E). pose proof (nth_error_lt _ _ _ E1).
    pose proof (nth_error_lt _ _ _ E2).
    not_at_end. rewrite (index_Some _ _ _ E). cbn [bind]. rewrite Hletter.
    not_at_end. rewrite (index_Some _ _ _ E1). cbn [bind]. rewrite Hsign.
    not_at_end. rewrite (index_Some _ _ _ E2). cbn [bind]. rewrite Ht.
    rewrite (digits_run data ds' rest _ Hds' Hnd Hs3).
    do 2 f_equal. cbn [List.length]. lia.
  - destruct (skipn_cons_inv _ _ _ _ Hs) as [E Hs1].
    destruct (skipn_cons_inv _ _ _ _ Hs1) as [E1 Hs2].
    pose proof (nth_error_lt _ _ _ E). pose proof (nth_error_lt _ _ _ E1).
    not_at_end. rewrite (index_Some _ _ _ E). cbn [bind]. rewrite Hletter.
    not_at_end. rewrite (index_Some _ _ _ E1). cbn [bind]. rewrite Hp, Hm.
    cbn [orb]. not_at_end. rewrite (index_Some _ _ _ E1). cbn [bind]. rewrite Ht.
    rewrite (digits_run data ds' rest _ Hds' Hnd Hs2).
    do 2 f_equal. cbn [List.length]. lia.
Qed.

(** The letter of an exponent that no digit follows. *)
Lemma isValidNumber_exp_dangling (data : list byte) (i : nat) (x : number)
    (d rest : list byte) :
  dangling x d rest = true ->
  match d with [p] => Byte.eqb p "." = false | _ => True end ->
  skipn i data = d ++ rest ->
  isValidNumber_exp data i = Ret ((i + List.length d)%nat, false).
Proof.
  intros Hd Hp Hs. unfold dangling in Hd. apply andb_prop in Hd.
  destruct Hd as [Hnd Hd]. unfold isValidNumber_exp.
  destruct d as [|letter [|sign [|c d]]]; try discriminate Hd; cbn [app] in Hs.
  - rewrite Hp in Hd. cbn [andb orb] in Hd. apply andb_prop in Hd.
    destruct Hd as [Hletter Hsign].
    destruct (skipn_cons_inv _ _ _ _ Hs) as [E Hs1].
    pose proof (nth_error_lt _ _ _ E).
    not_at_end. rewrite (index_Some _ _ _ E). cbn [bind]. rewrite Hletter.
    destruct rest as [|s rest].
    + pose proof (skipn_length_inv _ _ _ Hs1) as Hl. cbn [List.length] in Hl.
      replace (S i =? List.length data)%nat with true
        by (symmetry; apply Nat.eqb_eq; lia).
      do 2 f_equal. cbn [List.length]. lia.
    + destruct (skipn_cons_inv _ _ _ _ Hs1) as [E1 _].
      pose proof (nth_error_lt _ _ _ E1).
      apply negb_true_iff in Hsign. cbn [no_digit_first] in Hnd.
      apply negb_true_iff in Hnd.
      not_at_end. rewrite (index_Some _ _ _ E1). cbn [bind]. rewrite Hsign.
      not_at_end. rewrite (index_Some _ _ _ E1). cbn [bind].
      rewrite (not_digit_test _ Hnd). do 2 f_equal. cbn [List.length]. lia.
  - apply andb_prop in Hd. destruct Hd as [Hletter Hsign].
    destruct (skipn_cons_inv _ _ _ _ Hs) as [E Hs1].
    destruct (skipn_cons_inv _ _ _ _ Hs1) as [E1 Hs2].
    pose proof (nth_error_lt _ _ _ E). pose proof (nth_error_lt _ _ _ E1).
    not_at_end. rewrite (index_Some _ _ _ E). cbn [bind]. rewrite Hletter.
    not_at_end. rewrite (index_Some _ _ _ E1). cbn [bind]. rewrite Hsign.
    destruct rest as [|c rest].
    + pose proof (skipn_length_inv _ _ _ Hs2) as Hl. cbn [List.length] in Hl.
      replace (S (S i) =? List.length data)%nat with true
        by (symmetry; apply Nat.eqb_eq; lia).
      do 2 f_equal. cbn [List.length]. lia.
    + destruct (skipn_cons_inv _ _ _ _ Hs2) as [E2 _].
      pose proof (nth_error_lt _ _ _ E2).
      cbn [no_digit_first] in Hnd. apply negb_true_iff in Hnd.
      not_at_end. rewrite (index_Some _ _ _ E2). cbn [bind].
      rewrite (not_digit_test _ Hnd). do 2 f_equal. cbn [List.length]. lia.
Qed.

(** The fraction, up to the exponent. *)
Lemma isValidNumber_frac_through (data : list byte) (i : nat)
    (f : option (list byte)) (tail : list byte) :
  frac_ok f = true -> (i <= List.length data)%nat ->
  skipn i data = frac_bytes f ++ tail ->
  no_digit_first tail = true ->
  (f = None -> match tail with c :: _ => Byte.eqb c "." = false | [] => True end) ->
  isValidNumber_frac data i
  = isValidNumber_exp data (i + List.length (frac_bytes f)).
Proof.
  intros Hf Hi Hs Hnd Hp. unfold isValidNumber_frac.
  destruct f as [ds|]; cbn [frac_bytes frac_ok app List.length] in *.
  - destruct (digits_ok_inv _ Hf) as (d & ds' & -> & Hd & Hds').
    destruct (is_digit_tests d Hd) as (Ht & _).
    cbn [app] in Hs.
    destruct (skipn_cons_inv _ _ _ _ Hs) as [E Hs1].
    destruct (skipn_cons_inv _ _ _ _ Hs1) as [E1 Hs2].
    pose proof (nth_error_lt _ _ _ E). pose proof (nth_error_lt _ _ _ E1).
    not_at_end. rewrite (index_Some _ _ _ E). cbn [bind].
    change (Byte.eqb "." ".") with true. cbv iota.
    not_at_end. rewrite (index_Some _ _ _ E1). cbn [bind]. rewrite Ht.
    rewrite (digits_run data ds' tail _ Hds' Hnd Hs2).
    f_equal. cbn [List.length]. lia.
  - rewrite Nat.add_0_r. specialize (Hp eq_refl). destruct tail as [|c tail].
    + pose proof (skipn_length_inv _ _ _ Hs) as Hl. cbn [List.length] in Hl.
      replace (i =? List.length data)%nat with true
        by (symmetry; apply Nat.eqb_eq; lia).
      unfold isValidNumber_exp.
      replace (i =? List.length data)%nat with true
        by (symmetry; apply Nat.eqb_eq; lia).
      reflexivity.
    + destruct (skipn_cons_inv _ _ _ _ Hs) as [E _].
      pose proof (nth_error_lt _ _ _ E).
      not_at_end. rewrite (index_Some _ _ _ E). cbn [bind]. now rewrite Hp.
Qed.

(** The sign and the integer part, up to the fraction.  The integer part
    may be missing after a minus sign that is not the last byte. *)
Lemma isValidNumber_int_through (data : list byte) (i : nat) (sign : bool)
    (int tail : list byte) :
  int_ok int = true \/ (sign = true /\ int = [] /\ tail <> []) ->
  skipn i data = (if sign then ["-"%byte] else []) ++ int ++ tail ->
  no_digit_first tail = true ->
  isValidNumber data (S i)
  = isValidNumber_frac data
      (i + List.length ((if sign then ["-"%byte] else []) ++ int)).
Proof.
  intros Hint Hs Hnd. unfold isValidNumber.
  assert (Hstart : forall j, skipn j data = int ++ tail -> (j < List.length data)%nat ->
            (c <- index data j ;;
             (let i0 := if Byte.eqb c "0" then S j else digits data j in
              isValidNumber_frac data i0))
            = isValidNumber_frac data (j + List.length int)).
  { intros j Hj Hl. destruct (nth_error data j) as [c|] eqn:E.
    2:{ apply nth_error_ge in E. lia. }
    rewrite (index_Some _ _ _ E). cbn [bind].
    destruct Hint as [Hint | (_ & -> & Ht)].
    - destruct int as [|c0 int]; [discriminate|]. cbn [app] in Hj.
      destruct (skipn_cons_inv _ _ _ _ Hj) as [E' Hj1].
      rewrite E in E'. injection E' as <-. cbn [int_ok] in Hint.
      destruct (Byte.eqb c "0") eqn:E0.
      + destruct int; [|discriminate]. f_equal. cbn [List.length]. lia.
      + change (c :: int ++ tail) with ((c :: int) ++ tail) in Hj.
        now rewrite (digits_run data (c :: int) tail j Hint Hnd Hj).
    - cbn [app List.length] in *. destruct tail as [|c' tail]; [congruence|].
      destruct (skipn_cons_inv _ _ _ _ Hj) as [E' _].
      rewrite E in E'. injection E' as <-.
      cbn [no_digit_first] in Hnd. apply negb_true_iff in Hnd.
      assert (E0 : Byte.eqb c "0" = false).
      { destruct (Byte.eqb c "0") eqn:E0; [|reflexivity].
        apply byte_dec_bl in E0. subst c. discriminate. }
      rewrite E0.
      now rewrite (digits_run data [] (c :: tail) j eq_refl (proj2 (negb_true_iff _) Hnd) Hj). }
  assert (Hlen : (List.length ((if sign then ["-"%byte] else []) ++ int ++ tail) > 0)%nat).
  { destruct sign; cbn [app List.length]; [lia|].
    destruct Hint as [Hint | (? & _)]; [|discriminate].
    destruct int; [discriminate|]. cbn [app List.length]. lia. }
  pose proof (skipn_length_inv _ _ _ Hs) as Hl.
  destruct sign; cbn [app] in Hs.
  - destruct (skipn_cons_inv _ _ _ _ Hs) as [E Hs1].
    rewrite (index_Some _ _ _ E). cbn [bind].
    change (Byte.eqb "-" "-") with true. cbv iota.
    assert (Hl1 : (S i < List.length data)%nat).
    { pose proof (skipn_length_inv _ _ _ Hs1) as Hl1. rewrite length_app in Hl1.
      destruct Hint as [Hint | (_ & -> & Ht)].
      - destruct int; [discriminate|]. cbn [List.length] in Hl1. lia.
      - destruct tail; [congruence|]. cbn [List.length] in Hl1. lia. }
    not_at_end.
    transitivity (isValidNumber_frac data (S i + List.length int));
      [exact (Hstart (S i) Hs1 Hl1) |].
    f_equal. cbn [app List.length]. lia.
  - destruct Hint as [Hint | (? & _)]; [|discriminate].
    destruct int as [|c int]; [discriminate|]. cbn [app] in Hs.
    destruct (skipn_cons_inv _ _ _ _ Hs) as [E _].
    pose proof (nth_error_lt _ _ _ E) as Hli.
    rewrite (index_Some _ _ _ E). cbn [bind].
    assert (Hc : Byte.eqb c "-" = false).
    { cbn [int_ok] in Hint. destruct (Byte.eqb c "0") eqn:E0.
      - apply byte_dec_bl in E0. now subst c.
      - cbn [forallb] in Hint. apply andb_prop in Hint. destruct Hint as [Hc _].
        now destruct (is_digit_tests c Hc) as (_ & Hm & _). }
    rewrite Hc. not_at_end. exact (Hstart i Hs Hli).
Qed.

Lemma number_starts_inside (data : list byte) (i : nat) (sign : bool)
    (int tail : list byte) :
  int_ok int = true \/ (sign = true /\ int = [] /\ tail <> []) ->
  skipn i data = (if sign then ["-"%byte] else []) ++ int ++ tail ->
  (i < List.length data)%nat.
Proof.
  intros Hint Hs. apply skipn_length_inv in Hs. rewrite !length_app in Hs.
  destruct Hint as [Hint | (-> & _)].
  - destruct int; [discriminate|]. cbn [List.length] in Hs. lia.
  - cbn [List.length] in Hs. lia.
Qed.

Lemma no_digit_first_exp (e : option (byte * option byte * list byte))
    (rest : list byte) :
  exp_ok e = true -> no_digit_first rest = true ->
  no_digit_first (exp_bytes e ++ rest) = true.
Proof.
  intros He Hr. destruct e as [[[letter sign] ds]|]; [|exact Hr].
  cbn [exp_ok] in He. apply andb_prop in He. destruct He as [He _].
  apply andb_prop in He. destruct He as [Hletter _].
  destruct (letter_tests _ Hletter) as [Hd _].
  destruct sign; cbn [exp_bytes app no_digit_first]; now rewrite Hd.
Qed.

Lemma no_digit_first_frac (f : option (list byte)) (rest : list byte) :
  no_digit_first rest = true -> no_digit_first (frac_bytes f ++ rest) = true.
Proof. intros Hr. destruct f; [reflexivity | exact Hr]. Qed.

Lemma no_point_first_exp (e : option (byte * option byte * list byte))
    (rest : list byte) :
  exp_ok e = true -> ends_number rest = true ->
  match exp_bytes e ++ rest with
  | c :: _ => Byte.eqb c "." = false
  | [] => True
  end.
Proof.
  intros He Hr. destruct e as [[[letter sign] ds]|].
  - cbn [exp_ok] in He. apply andb_prop in He. destruct He as [He _].
    apply andb_prop in He. destruct He as [Hletter _].
    destruct (letter_tests _ Hletter) as [_ Hp].
    destruct sign; cbn [exp_bytes app]; exact Hp.
  - cbn [exp_bytes app]. destruct rest as [|c rest]; [exact I|].
    cbn [ends_number] in Hr. apply negb_true_iff in Hr.
    apply orb_false_elim in Hr. destruct Hr as [Hr _].
    apply orb_false_elim in Hr. now destruct Hr.
Qed.

(** The scan of the text of a number, with or without the digits of the
    integer part after a minus sign. *)
Lemma isValidNumber_scans (data : list byte) (i : nat) (x : number)
    (rest : list byte) :
  int_ok (int_part x) = true
  \/ (minus x = true /\ int_part x = []
      /\ frac_bytes (frac_part x) ++ exp_bytes (exp_part x) ++ rest <> []) ->
  frac_ok (frac_part x) = true -> exp_ok (exp_part x) = true ->
  skipn i data = number_bytes x ++ rest ->
  ends_token rest = true ->
  isValidNumber data (S i) = Ret ((i + List.length (number_bytes x))%nat, true).
Proof.
  intros Hint Hf He Hs Hr. destruct (ends_token_parts _ Hr) as [Hnd Hen].
  destruct x as [sign int f e]. unfold number_bytes in *.
  cbn [minus int_part frac_part exp_part] in *.
  rewrite <- !app_assoc in Hs.
  pose proof (no_digit_first_exp e rest He Hnd) as Hnd1.
  pose proof (no_digit_first_frac f _ Hnd1) as Hnd2.
  pose proof (skipn_length_inv _ _ _ Hs) as Hl.
  pose proof (number_starts_inside data i sign int _ Hint Hs) as Hi.
  rewrite (isValidNumber_int_through data i sign int _ Hint Hs Hnd2).
  rewrite app_assoc in Hs. pose proof (skipn_app_inv _ _ _ _ Hs) as Hs1.
  rewrite !length_app in Hl.
  rewrite (isValidNumber_frac_through data _ f (exp_bytes e ++ rest) Hf); auto.
  2:{ rewrite length_app. lia. }
  2:{ intros _. now apply no_point_first_exp. }
  pose proof (skipn_app_inv _ _ _ _ Hs1) as Hs2.
  rewrite (isValidNumber_exp_accepts data _ e rest He); auto.
  - do 2 f_equal. rewrite !length_app. lia.
  - rewrite length_app. lia.
Qed.

(** X7. [isValidNumber] accepts every number of RFC 8259 (an optional minus
    sign; [0] or digits that do not start with [0]; an optional point with
    digits; an optional exponent with its letter, an optional sign and
    digits) that the end of the buffer or a byte other than a digit, a point
    and [e], [E] follows, and returns the index after its last byte. *)
Theorem isValidNumber_accepts (data : list byte) (i : nat) (x : number)
    (rest : list byte) :
  number_ok x = true ->
  skipn i data = number_bytes x ++ rest ->
  ends_token rest = true ->
  isValidNumber data (S i) = Ret ((i + List.length (number_bytes x))%nat, true).
Proof.
  intros Hx Hs Hr. unfold number_ok in Hx.
  apply andb_prop in Hx. destruct Hx as [Hx He].
  apply andb_prop in Hx. destruct Hx as [Hint Hf].
  apply isValidNumber_scans with (rest := rest); auto.
Qed.

(** The number [-12.50E+3] as an element of an array. *)
Lemma isValidNumber_accepts_witness :
  isValidNumber (json "[-12.50E+3,1]") 2 = Ret (10%nat, true).
Proof.
  apply (isValidNumber_accepts (json "[-12.50E+3,1]") 1
           (Number true ["1"; "2"]%byte (Some ["5"; "0"]%byte)
              (Some ("E", Some "+", ["3"]))%byte)
           (json ",1]")); reflexivity.
Defined.

(** X8. [isValidNumber] takes a minus sign for a number with no digit in its
    integer part: when the sign is not the last byte of the buffer, what
    follows it may be a fraction, an exponent, or the byte that ends the
    number, and the scan succeeds as it does for a number of RFC 8259. *)
Theorem isValidNumber_accepts_bare_minus (data : list byte) (i : nat)
    (f : option (list byte)) (e : option (byte * option byte * list byte))
    (rest : list byte) :
  frac_ok f = true -> exp_ok e = true ->
  skipn i data = number_bytes (Number true [] f e) ++ rest ->
  ends_token rest = true ->
  number_bytes (Number true [] f e) ++ rest <> ["-"%byte] ->
  isValidNumber data (S i)
  = Ret ((i + List.length (number_bytes (Number true [] f e)))%nat, true).
Proof.
  intros Hf He Hs Hr Hne.
  apply isValidNumber_scans with (rest := rest); auto.
  right. cbn [minus int_part frac_part exp_part]. split_all; auto.
  intros H. apply Hne. unfold number_bytes.
  cbn [minus int_part frac_part exp_part app]. now rewrite <- app_assoc, H.
Qed.

(** The sign alone before a comma, and the sign with a fraction. *)
Lemma isValidNumber_accepts_bare_minus_witness :
  isValidNumber (json "[-,1]") 2 = Ret (2%nat, true)
  /\ isValidNumber (json "[-.5]") 2 = Ret (4%nat, true).
Proof.
  split.
  - apply (isValidNumber_accepts_bare_minus (json "[-,1]") 1 None None (json ",1]"));
      try reflexivity. discriminate.
  - apply (isValidNumber_accepts_bare_minus (json "[-.5]") 1 (Some ["5"%byte]) None
             (json "]")); try reflexivity. discriminate.
Defined.

(** X9. [isValidNumber] fails on a point or on the letter of an exponent,
    with or without its sign, that no digit follows, and returns the index
    where the digit is missing. *)
Theorem isValidNumber_needs_digit (data : list byte) (i : nat) (x : number)
    (d rest : list byte) :
  number_ok x = true -> exp_part x = None ->
  dangling x d rest = true ->
  skipn i data = number_bytes x ++ d ++ rest ->
  isValidNumber data (S i)
  = Ret ((i + List.length (number_bytes x ++ d))%nat, false).
Proof.
  intros Hx Hnone Hd Hs. unfold number_ok in Hx.
  apply andb_prop in Hx. destruct Hx as [Hx He].
  apply andb_prop in Hx. destruct Hx as [Hint Hf].
  destruct x as [sign int f e]. unfold number_bytes in *.
  cbn [minus int_part frac_part exp_part] in *. subst e.
  cbn [exp_bytes] in *. rewrite app_nil_r in *.
  rewrite <- !app_assoc in Hs.
  pose proof (skipn_length_inv _ _ _ Hs) as Hl. rewrite !length_app in Hl.
  assert (Hd0 : exists p d', d = p :: d' /\ is_digit p = false
                             /\ (Byte.eqb p "." = true -> f = None /\ d' = [])).
  { unfold dangling in Hd. apply andb_prop in Hd. destruct Hd as [_ Hd].
    destruct d as [|p [|s [|c d]]]; try discriminate Hd; exists p; eexists;
      (split; [reflexivity|]).
    - destruct p; try discriminate Hd; split; try reflexivity; try discriminate.
      intros _. destruct f; [discriminate Hd | auto].
    - destruct p; try discriminate Hd; split; try reflexivity; discriminate. }
  destruct Hd0 as (p & d' & -> & Hp & Hpoint).
  assert (Hnd2 : no_digit_first (frac_bytes f ++ (p :: d') ++ rest) = true).
  { apply no_digit_first_frac. cbn [app no_digit_first]. now rewrite Hp. }
  pose proof (number_starts_inside data i sign int _ (or_introl Hint) Hs) as Hi.
  rewrite (isValidNumber_int_through data i sign int _ (or_introl Hint) Hs Hnd2).
  rewrite app_assoc in Hs. pose proof (skipn_app_inv _ _ _ _ Hs) as Hs1.
  destruct (Byte.eqb p ".") eqn:Epoint.
  - destruct (Hpoint eq_refl) as [-> ->]. apply byte_dec_bl in Epoint. subst p.
    cbn [frac_bytes app List.length] in *.
    unfold dangling in Hd. apply andb_prop in Hd. destruct Hd as [Hnd _].
    destruct (skipn_cons_inv _ _ _ _ Hs1) as [E Hs2].
    pose proof (nth_error_lt _ _ _ E).
    unfold isValidNumber_frac. not_at_end.
    rewrite (index_Some _ _ _ E). cbn [bind].
    change (Byte.eqb "." ".") with true. cbv iota.
    destruct rest as [|c rest].
    + pose proof (skipn_length_inv _ _ _ Hs2) as Hl2. cbn [List.length] in Hl2.
      replace (S _ =? List.length data)%nat with true
        by (symmetry; apply Nat.eqb_eq; lia).
      do 2 f_equal. rewrite !length_app. cbn [List.length]. lia.
    + destruct (skipn_cons_inv _ _ _ _ Hs2) as [E2 _].
      pose proof (nth_error_lt _ _ _ E2).
      cbn [no_digit_first] in Hnd. apply negb_true_iff in Hnd.
      not_at_end. rewrite (index_Some _ _ _ E2). cbn [bind].
      rewrite (not_digit_test _ Hnd).
      do 2 f_equal. rewrite !length_app. cbn [List.length]. lia.
  - rewrite (isValidNumber_frac_through data _ f ((p :: d') ++ rest) Hf); auto.
    2:{ rewrite length_app. lia. }
    2:{ cbn [app no_digit_first]. now rewrite Hp. }
    pose proof (skipn_app_inv _ _ _ _ Hs1) as Hs2.
    rewrite (isValidNumber_exp_dangling data _ (Number sign int f None)
               (p :: d') rest Hd); auto.
    + do 2 f_equal. rewrite !length_app. lia.
    + destruct d'; [exact Epoint | exact I].
Qed.

(** [1.] and [2.5e+] before the closing bracket. *)
Lemma isValidNumber_needs_digit_witness :
  isValidNumber (json "[1.]") 2 = Ret (3%nat, false)
  /\ isValidNumber (json "[2.5e+]") 2 = Ret (6%nat, false).
Proof.
  split.
  - apply (isValidNumber_needs_digit (json "[1.]") 1
             (Number false ["1"%byte] None None) ["."%byte] (json "]"));
      reflexivity.
  - apply (isValidNumber_needs_digit (json "[2.5e+]") 1
             (Number false ["2"%byte] (Some ["5"%byte]) None) ["e"; "+"]%byte
             (json "]")); reflexivity.
Defined.

(** * White space and separators *)

Lemma isValidComma_loop_skips (data ws tail : list byte) (e : byte) (n i : nat) :
  forallb is_space ws = true -> no_space_first tail = true ->
  skipn i data = ws ++ tail ->
  (List.length ws + Nat.min 1 (List.length tail) <= n)%nat ->
  isValidComma_loop n data i e
  = ((i + List.length ws)%nat,
     match tail with
     | c :: _ => Byte.eqb c "," || Byte.eqb c e
     | [] => false
     end).
Proof.
  revert n i. induction ws as [|w ws IH]; intros n i Hw Ht Hs Hn.
  - cbn [app List.length] in *. rewrite Nat.add_0_r. destruct tail as [|c tail].
    + destruct n as [|n]; cbn [isValidComma_loop]; [reflexivity|].
      now rewrite (skipn_nil_inv _ _ Hs).
    + destruct n as [|n]; [cbn in Hn; lia|].
      destruct (skipn_cons_inv _ _ _ _ Hs) as [E _].
      cbn [no_space_first] in Ht. apply negb_true_iff in Ht.
      cbn [isValidComma_loop]. rewrite E, Ht.
      destruct (Byte.eqb c ","); [reflexivity|]. now destruct (Byte.eqb c e).
  - cbn [forallb] in Hw. apply andb_prop in Hw. destruct Hw as [Hw Hws].
    cbn [app List.length] in *. destruct n as [|n]; [lia|].
    destruct (skipn_cons_inv _ _ _ _ Hs) as [E Hs'].
    cbn [isValidComma_loop]. rewrite E, Hw, (IH n (S i)) by (auto; lia).
    f_equal. lia.
Qed.

Lemma isValidColon_loop_skips (data ws tail : list byte) (n i : nat) :
  forallb is_space ws = true -> no_space_first tail = true ->
  skipn i data = ws ++ tail ->
  (List.length ws + Nat.min 1 (List.length tail) <= n)%nat ->
  isValidColon_loop n data i
  = match tail with
    | c :: _ => if Byte.eqb c ":" then ((i + List.length ws + 1)%nat, true)
                else ((i + List.length ws)%nat, false)
    | [] => ((i + List.length ws)%nat, false)
    end.
Proof.
  revert n i. induction ws as [|w ws IH]; intros n i Hw Ht Hs Hn.
  - cbn [app List.length] in *. rewrite !Nat.add_0_r. destruct tail as [|c tail].
    + destruct n as [|n]; cbn [isValidColon_loop]; [reflexivity|].
      now rewrite (skipn_nil_inv _ _ Hs).
    + destruct n as [|n]; [cbn in Hn; lia|].
      destruct (skipn_cons_inv _ _ _ _ Hs) as [E _].
      cbn [no_space_first] in Ht. apply negb_true_iff in Ht.
      cbn [isValidColon_loop]. rewrite E, Ht.
      destruct (Byte.eqb c ":"); [f_equal; lia | reflexivity].
  - cbn [forallb] in Hw. apply andb_prop in Hw. destruct Hw as [Hw Hws].
    cbn [app List.length] in *. destruct n as [|n]; [lia|].
    destruct (skipn_cons_inv _ _ _ _ Hs) as [E Hs'].
    cbn [isValidColon_loop]. rewrite E, Hw, (IH n (S i)) by (auto; lia).
    destruct tail as [|c tail]; [f_equal; lia|].
    destruct (Byte.eqb c ":"); f_equal; lia.
Qed.

Lemma space_run_fits (data ws tail : list byte) (i : nat) :
  skipn i data = ws ++ tail ->
  (List.length ws + Nat.min 1 (List.length tail) <= List.length data - i)%nat.
Proof.
  intros Hs. apply skipn_length_inv in Hs. rewrite length_app in Hs. lia.
Qed.

Lemma isValidComma_space (data ws tail : list byte) (i : nat) (e : byte) :
  forallb is_space ws = true -> no_space_first tail = true ->
  skipn i data = ws ++ tail ->
  isValidComma data i e
  = ((i + List.length ws)%nat,
     match tail with
     | c :: _ => Byte.eqb c "," || Byte.eqb c e
     | [] => false
     end).
Proof.
  intros Hw Ht Hs. apply isValidComma_loop_skips; auto.
  now apply space_run_fits.
Qed.

Lemma isValidColon_space (data ws tail : list byte) (i : nat) :
  forallb is_space ws = true -> no_space_first tail = true ->
  skipn i data = ws ++ tail ->
  isValidColon data i
  = match tail with
    | c :: _ => if Byte.eqb c ":" then ((i + List.length ws + 1)%nat, true)
                else ((i + List.length ws)%nat, false)
    | [] => ((i + List.length ws)%nat, false)
    end.
Proof.
  intros Hw Ht Hs. apply isValidColon_loop_skips; auto.
  now apply space_run_fits.
Qed.

(** X10. [isValidComma] and [isValidColon] step over white space and test
    the first other byte.  [isValidComma] returns the index of that byte,
    with [true] when it is a comma or the closing byte it was given;
    [isValidColon] returns the index after it when it is a colon, and fails
    at it otherwise.  Both fail at the end of the buffer. *)
Theorem separators_skip_space (data ws tail : list byte) (i : nat) (e : byte) :
  forallb is_space ws = true -> no_space_first tail = true ->
  skipn i data = ws ++ tail ->
  isValidComma data i e
  = ((i + List.length ws)%nat,
     match tail with
     | c :: _ => Byte.eqb c "," || Byte.eqb c e
     | [] => false
     end)
  /\ isValidColon data i
     = match tail with
       | c :: _ => if Byte.eqb c ":" then ((i + List.length ws + 1)%nat, true)
                   else ((i + List.length ws)%nat, false)
       | [] => ((i + List.length ws)%nat, false)
       end.
Proof.
  intros Hw Ht Hs. split.
  - now apply isValidComma_space.
  - now apply isValidColon_space.
Qed.

(** After [1] in an array of two elements, and after a key. *)
Lemma separators_skip_space_witness :
  isValidComma (json "[1 , 2]") 2 "]" = (3%nat, true)
  /\ isValidColon (json "{'a' : 1}") 4 = (6%nat, true)
  /\ isValidColon (json "{'a' 1}") 4 = (5%nat, false).
Proof.
  split_all.
  - apply (separators_skip_space (json "[1 , 2]") (json " ") (json ", 2]") 2 "]");
      reflexivity.
  - apply (separators_skip_space (json "{'a' : 1}") (json " ") (json ": 1}") 4 "}");
      reflexivity.
  - apply (separators_skip_space (json "{'a' 1}") (json " ") (json "1}") 4 "}");
      reflexivity.
Defined.

Section Skipping.
Variables (data : list byte) (v : Verify).

Lemma validany_loop_skips (ws tail : list byte) (fuel i : nat) (d : Z) :
  forallb is_skipped ws = true -> skipn i data = ws ++ tail ->
  validany_loop (List.length ws + fuel) data i d v
  = validany_loop fuel data (i + List.length ws) d v.
Proof.
  revert i. induction ws as [|w ws IH]; intros i Hw Hs.
  - cbn [List.length Nat.add]. now rewrite Nat.add_0_r.
  - cbn [forallb] in Hw. apply andb_prop in Hw. destruct Hw as [Hw Hws].
    cbn [app List.length Nat.add] in *.
    destruct (skipn_cons_inv _ _ _ _ Hs) as [E Hs'].
    unfold_validators. rewrite E. unfold is_skipped in Hw.
    replace (i + S (List.length ws))%nat with (S i + List.length ws)%nat by lia.
    destruct (is_space w) eqn:Es; [now apply IH|].
    cbn [orb] in Hw. apply byte_dec_bl in Hw. subst w.
    byte_tests. cbv iota. destruct (isValidFalse data (S i)). now apply IH.
Qed.

Lemma isValidArray_loop_skips (ws tail : list byte) (fuel i : nat) (d : Z) :
  forallb is_space ws = true -> skipn i data = ws ++ tail ->
  isValidArray_loop (List.length ws + fuel) data i d v
  = isValidArray_loop fuel data (i + List.length ws) d v.
Proof.
  revert i. induction ws as [|w ws IH]; intros i Hw Hs.
  - cbn [List.length Nat.add]. now rewrite Nat.add_0_r.
  - cbn [forallb] in Hw. apply andb_prop in Hw. destruct Hw as [Hw Hws].
    cbn [app List.length Nat.add] in *.
    destruct (skipn_cons_inv _ _ _ _ Hs) as [E Hs'].
    unfold_validators. rewrite E, Hw.
    replace (i + S (List.length ws))%nat with (S i + List.length ws)%nat by lia.
    now apply IH.
Qed.

Lemma isValidObject_loop_skips (ws tail : list byte) (fuel i : nat) (d : Z) :
  forallb is_space ws = true -> skipn i data = ws ++ tail ->
  isValidObject_loop (List.length ws + fuel) data i d v
  = isValidObject_loop fuel data (i + List.length ws) d v.
Proof.
  revert i. induction ws as [|w ws IH]; intros i Hw Hs.
  - cbn [List.length Nat.add]. now rewrite Nat.add_0_r.
  - cbn [forallb] in Hw. apply andb_prop in Hw. destruct Hw as [Hw Hws].
    cbn [app List.length Nat.add] in *.
    destruct (skipn_cons_inv _ _ _ _ Hs) as [E Hs'].
    unfold_validators. rewrite E, Hw.
    replace (i + S (List.length ws))%nat with (S i + List.length ws)%nat by lia.
    now apply IH.
Qed.

Lemma isValidObject_next_skips (ws tail : list byte) (fuel i : nat) (en : Z)
    (e : option error) (d : Z) :
  forallb is_space ws = true -> skipn i data = ws ++ tail ->
  isValidObject_next (List.length ws + fuel) data i en e d v
  = isValidObject_next fuel data (i + List.length ws) en e d v.
Proof.
  revert i. induction ws as [|w ws IH]; intros i Hw Hs.
  - cbn [List.length Nat.add]. now rewrite Nat.add_0_r.
  - cbn [forallb] in Hw. apply andb_prop in Hw. destruct Hw as [Hw Hws].
    cbn [app List.length Nat.add] in *.
    destruct (skipn_cons_inv _ _ _ _ Hs) as [E Hs'].
    unfold_validators. rewrite E, Hw.
    replace (i + S (List.length ws))%nat with (S i + List.length ws)%nat by lia.
    now apply IH.
Qed.

(** The bytes that [validany] steps over change nothing of its result. *)
Lemma validany_skips_iff (ws tail : list byte) (i : nat) (d : Z) (r : scan) :
  forallb is_skipped ws = true -> skipn i data = ws ++ tail ->
  depth_exceeded v d = false ->
  (validany_returns data i d v r
   <-> validany_returns data (i + List.length ws) d v r).
Proof.
  intros Hw Hs Hd. split; intros [fuel H].
  - exists (List.length ws + fuel)%nat.
    destruct fuel as [|fuel]; [discriminate|].
    apply (validany_fuel data v (S fuel) (List.length ws + S fuel)) in H; [|lia].
    rewrite Nat.add_succ_r in *. unfold_validators_in H. unfold_validators.
    rewrite Hd in *.
    rewrite (validany_loop_skips ws tail fuel i d Hw Hs) in H.
    apply (fuel_mono data v fuel (List.length ws + fuel)); [lia | exact H].
  - exists (List.length ws + fuel)%nat.
    destruct fuel as [|fuel]; [discriminate|].
    rewrite Nat.add_succ_r. unfold_validators_in H. unfold_validators.
    rewrite Hd in *.
    now rewrite (validany_loop_skips ws tail fuel i d Hw Hs).
Qed.

(** A member that is followed, after the comma and white space, by
    something else than a key. *)
Lemma isValidObject_key_more_stray (i o i1 j : nat) (en : Z) (e : option error)
    (d : Z) (a : scan) (ws tail : list byte) :
  isValidateString data (S i) = (o, true) ->
  objectEntryCountEnabled v && (ObjectEntryCount v <? en + 1) = false ->
  validateStringLength data i o (objectKeyLengthEnabled v) (ObjectKeyLength v)
    objectKeyValueLength = Ret None ->
  isValidColon data o = (i1, true) ->
  validany_returns data i1 d v a ->
  res_ok a = true -> res_err a = None ->
  isValidComma data (res_i a) "}" = (j, true) ->
  nth_error data j = Some ","%byte ->
  forallb is_space ws = true -> skipn (S j) data = ws ++ tail ->
  match tail with
  | [] => True
  | c :: _ => is_space c = false /\ Byte.eqb c QUOTE = false
  end ->
  isValidObject_key_returns data i en e d v
    (Scan (S j + List.length ws) false None (res_depth a)).
Proof.
  intros Hs Hn Hl Hc [f1 Ha] Hok He Hcm Ej Hw Hsk Ht.
  assert (Hnext : isValidObject_next (List.length ws + S f1) data (S j)
                    (en + 1) (res_err a) (res_depth a) v
                  = Ret (Scan (S j + List.length ws) false None (res_depth a))).
  { rewrite (isValidObject_next_skips ws tail _ _ _ _ _ Hw Hsk).
    pose proof (skipn_app_inv _ _ _ _ Hsk) as Hsk'.
    unfold_validators. destruct tail as [|c tail].
    - rewrite (skipn_nil_inv _ _ Hsk'), He. reflexivity.
    - destruct (skipn_cons_inv _ _ _ _ Hsk') as [Ec _]. destruct Ht as [H1 H2].
      rewrite Ec, H1, H2, He. reflexivity. }
  apply (validany_fuel data v f1 (List.length ws + S f1)) in Ha; [|lia].
  remember (List.length ws + S f1)%nat as m eqn:Em.
  exists (S m). unfold_validators. run. reflexivity.
Qed.

Lemma is_space_skipped (ws : list byte) :
  forallb is_space ws = true -> forallb is_skipped ws = true.
Proof.
  induction ws as [|w ws IH]; [reflexivity|]. cbn [forallb]. intros H.
  apply andb_prop in H. destruct H as [Hw Hws]. unfold is_skipped at 1.
  now rewrite Hw, IH.
Qed.

(** White space before a value, before the first element of an array and
    before the first key of an object. *)
Lemma validany_space (ws tail : list byte) (i : nat) (d : Z) (r : scan) :
  forallb is_space ws = true -> skipn i data = ws ++ tail ->
  depth_exceeded v d = false ->
  validany_returns data (i + List.length ws) d v r ->
  validany_returns data i d v r.
Proof.
  intros Hw Hs Hd. apply validany_skips_iff with (tail := tail); auto.
  now apply is_space_skipped.
Qed.

Lemma isValidArray_space (ws tail : list byte) (i : nat) (d : Z) (r : scan) :
  forallb is_space ws = true -> skipn i data = ws ++ tail ->
  depth_exceeded v d = false ->
  isValidArray_returns data (i + List.length ws) d v r ->
  isValidArray_returns data i d v r.
Proof.
  intros Hw Hs Hd [fuel H]. exists (List.length ws + fuel)%nat.
  destruct fuel as [|fuel]; [discriminate|].
  rewrite Nat.add_succ_r. unfold_validators_in H. unfold_validators.
  rewrite Hd in *. now rewrite (isValidArray_loop_skips ws tail fuel i d Hw Hs).
Qed.

Lemma isValidObject_space (ws tail : list byte) (i : nat) (d : Z) (r : scan) :
  forallb is_space ws = true -> skipn i data = ws ++ tail ->
  depth_exceeded v d = false ->
  isValidObject_returns data (i + List.length ws) d v r ->
  isValidObject_returns data i d v r.
Proof.
  intros Hw Hs Hd [fuel H]. exists (List.length ws + fuel)%nat.
  destruct fuel as [|fuel]; [discriminate|].
  rewrite Nat.add_succ_r. unfold_validators_in H. unfold_validators.
  rewrite Hd in *. now rewrite (isValidObject_loop_skips ws tail fuel i d Hw Hs).
Qed.

(** A member that is followed, after the comma and white space, by the
    next key. *)
Lemma isValidObject_key_more_space (i o i1 j : nat) (en : Z) (e : option error)
    (d : Z) (a r : scan) (ws tail : list byte) :
  isValidateString data (S i) = (o, true) ->
  objectEntryCountEnabled v && (ObjectEntryCount v <? en + 1) = false ->
  validateStringLength data i o (objectKeyLengthEnabled v) (ObjectKeyLength v)
    objectKeyValueLength = Ret None ->
  isValidColon data o = (i1, true) ->
  validany_returns data i1 d v a ->
  res_ok a = true -> res_err a = None ->
  isValidComma data (res_i a) "}" = (j, true) ->
  nth_error data j = Some ","%byte ->
  forallb is_space ws = true -> skipn (S j) data = ws ++ QUOTE :: tail ->
  isValidObject_key_returns data (S j + List.length ws) (en + 1) None
    (res_depth a) v r ->
  isValidObject_key_returns data i en e d v r.
Proof.
  intros Hs Hn Hl Hc [f1 Ha] Hok He Hcm Ej Hw Hsk [f2 Hr].
  apply (fuel_mono data v f2 (Nat.max f1 f2)) in Hr; [|lia].
  assert (Hnext : isValidObject_next (List.length ws + S (Nat.max f1 f2)) data (S j)
                    (en + 1) (res_err a) (res_depth a) v = Ret r).
  { rewrite (isValidObject_next_skips ws (QUOTE :: tail) _ _ _ _ _ Hw Hsk).
    destruct (skipn_cons_inv _ _ _ _ (skipn_app_inv _ _ _ _ Hsk)) as [Eq _].
    unfold_validators. run. reflexivity. }
  apply (validany_fuel data v f1 (List.length ws + S (Nat.max f1 f2))) in Ha; [|lia].
  remember (List.length ws + S (Nat.max f1 f2))%nat as m eqn:Em.
  exists (S m). unfold_validators. run. reflexivity.
Qed.

End Skipping.

(** X11. The loop of [validany] steps over white space before a value, and
    over the letter [f] as well, since its case has no [return]: whatever
    run of such bytes precedes an index, [validany] returns from the start
    of the run what it returns from that index, unless the depth check
    that opens it fails. *)
Theorem validany_skips (data : list byte) (v : Verify) (ws tail : list byte)
    (i : nat) (d : Z) (r : scan) :
  forallb is_skipped ws = true -> skipn i data = ws ++ tail ->
  depth_exceeded v d = false ->
  (validany_returns data i d v r
   <-> validany_returns data (i + List.length ws) d v r).
Proof. apply validany_skips_iff. Qed.

(** [true] after a space, two [f] and a tab: [validany] returns from
    index 0 what it returns from index 4. *)
Lemma validany_skips_witness :
  validany_returns (" "%byte :: "f"%byte :: "f"%byte :: TAB :: json "true") 0 0
    zeroVerify (Scan 8 true None 0).
Proof.
  apply (validany_skips (" "%byte :: "f"%byte :: "f"%byte :: TAB :: json "true")
           zeroVerify [" "%byte; "f"%byte; "f"%byte; TAB] (json "true")
           0 0 (Scan 8 true None 0) eq_refl eq_refl eq_refl).
  exists 2%nat. reflexivity.
Defined.

(** * Documents *)

Lemma sep_by_cons (sep : byte) (p : list byte) (ps : list (list byte))
    (tl : list byte) :
  sep_by sep (p :: ps) ++ tl
  = p ++ fold_right (fun q acc => sep :: q ++ acc) tl ps.
Proof.
  revert p. induction ps as [|q ps IH]; intros p.
  - reflexivity.
  - change (sep_by sep (p :: q :: ps)) with (p ++ sep :: sep_by sep (q :: ps)).
    rewrite <- app_assoc. cbn [app fold_right]. now rewrite IH.
Qed.

Lemma after_value_ends (rest : list byte) :
  after_value rest = true -> ends_token rest = true.
Proof.
  destruct rest as [|c rest]; [reflexivity|]. cbn [after_value ends_token ends_number].
  destruct c; intros H; try discriminate H; reflexivity.
Qed.

Lemma after_value_space (w tail : list byte) :
  forallb is_space w = true -> after_value tail = true ->
  after_value (w ++ tail) = true.
Proof.
  destruct w as [|c w]; [auto|]. cbn [forallb app after_value].
  intros H _. apply andb_prop in H. destruct H as [-> _]. reflexivity.
Qed.

Lemma pad_ok_inv {A : Type} (f : A -> bool) (p : padded A) :
  pad_ok f p = true ->
  exists w1 a w2, p = (w1, a, w2) /\ forallb is_space w1 = true /\ f a = true
                  /\ forallb is_space w2 = true.
Proof.
  destruct p as [[w1 a] w2]. cbn [pad_ok]. intros H.
  apply andb_prop in H. destruct H as [H H2].
  apply andb_prop in H. destruct H as [H1 Ha].
  exists w1, a, w2. auto.
Qed.

(** The text of a document starts with a byte that opens a value. *)
Lemma print_head (v : Verify) (d : Z) (j : value) :
  fits v d j = true ->
  exists c tl, print j = c :: tl /\ is_space c = false /\ Byte.eqb c "]" = false
               /\ Byte.eqb c "}" = false.
Proof.
  destruct j as [| |x|ps|w xs|w ms]; cbn [fits print]; intros H;
    try (do 2 eexists; split_all; reflexivity).
  unfold number_ok in H. apply andb_prop in H. destruct H as [H _].
  apply andb_prop in H. destruct H as [H _].
  unfold number_bytes. destruct (minus x).
  - do 2 eexists; split_all; reflexivity.
  - destruct (int_part x) as [|c int]; [discriminate|]. cbn [app].
    exists c. eexists. split; [reflexivity|].
    assert (Hc : is_digit c = true).
    { cbn [int_ok] in H. destruct (Byte.eqb c "0") eqn:E0.
      - apply byte_dec_bl in E0. now subst c.
      - cbn [forallb] in H. apply andb_prop in H. now destruct H. }
    clear -Hc. destruct c; try discriminate Hc; split_all; reflexivity.
Qed.

Lemma number_head (x : number) :
  number_ok x = true ->
  exists c tl, number_bytes x = c :: tl /\ is_number_start c = true.
Proof.
  intros H. unfold number_ok in H. apply andb_prop in H. destruct H as [H _].
  apply andb_prop in H. destruct H as [H _].
  unfold number_bytes. destruct (minus x).
  - do 2 eexists; split; reflexivity.
  - destruct (int_part x) as [|c int]; [discriminate|]. cbn [app].
    exists c. eexists. split; [reflexivity|].
    assert (Hc : is_digit c = true).
    { cbn [int_ok] in H. destruct (Byte.eqb c "0") eqn:E0.
      - apply byte_dec_bl in E0. now subst c.
      - cbn [forallb] in H. apply andb_prop in H. now destruct H. }
    clear -Hc. destruct c; try discriminate Hc; reflexivity.
Qed.

(** The length check on the text of a string. *)
Lemma validateStringLength_token (data : list byte) (i : nat) (ps : list piece)
    (rest : list byte) (en : bool) (m : Z) (ty : string) :
  skipn i data = token ps ++ rest ->
  validateStringLength data i (i + List.length (token ps)) en m ty
  = Ret (if en && (RuneCount (token ps) - 2 >? m)
         then Some (errLimit ty m (RuneCount (token ps) - 2))
         else None).
Proof.
  intros Hs. pose proof (skipn_length_inv _ _ _ Hs) as Hl.
  rewrite length_app in Hl. unfold validateStringLength.
  assert (Hpos : (0 < List.length (token ps))%nat) by (cbn [token List.length]; lia).
  replace (i <=? i + List.length (token ps))%nat with true
    by (symmetry; apply Nat.leb_le; lia).
  replace (i + List.length (token ps) <=? List.length data)%nat with true
    by (symmetry; apply Nat.leb_le; lia).
  cbn [andb].
  replace (firstn (i + List.length (token ps) - i) (skipn i data)) with (token ps).
  2:{ rewrite Hs. replace (i + List.length (token ps) - i)%nat
        with (List.length (token ps) + 0)%nat by lia.
      rewrite firstn_app_2. cbn [firstn]. now rewrite app_nil_r. }
  now destruct (en && _).
Qed.

Section Values.
Variables (data : list byte) (v : Verify).

Lemma validany_null (i : nat) (d : Z) (rest : list byte) :
  skipn i data = print VNull ++ rest -> depth_exceeded v d = false ->
  validany_returns data i d v (Scan (i + 4) true None d).
Proof.
  intros Hs Hd. cbn [print app] in Hs.
  destruct (skipn_cons_inv _ _ _ _ Hs) as [E Hs1].
  destruct (skipn_cons_inv _ _ _ _ Hs1) as [E1 Hs2].
  destruct (skipn_cons_inv _ _ _ _ Hs2) as [E2 Hs3].
  destruct (skipn_cons_inv _ _ _ _ Hs3) as [E3 _].
  pose proof (nth_error_lt _ _ _ E3) as Hl.
  assert (Hn : isValidNull data (S i) = ((i + 4)%nat, true)).
  { unfold isValidNull, at_is.
    replace (S i + 1)%nat with (S (S i)) by lia.
    replace (S i + 2)%nat with (S (S (S i))) by lia.
    rewrite E1, E2, E3.
    replace (S i + 3 <=? List.length data)%nat with true
      by (symmetry; apply Nat.leb_le; lia).
    cbn. f_equal. lia. }
  exists 2%nat. unfold_validators. run. reflexivity.
Qed.

Lemma validany_true (i : nat) (d : Z) (rest : list byte) :
  skipn i data = print VTrue ++ rest -> depth_exceeded v d = false ->
  validany_returns data i d v (Scan (i + 4) true None d).
Proof.
  intros Hs Hd. cbn [print app] in Hs.
  destruct (skipn_cons_inv _ _ _ _ Hs) as [E Hs1].
  destruct (skipn_cons_inv _ _ _ _ Hs1) as [E1 Hs2].
  destruct (skipn_cons_inv _ _ _ _ Hs2) as [E2 Hs3].
  destruct (skipn_cons_inv _ _ _ _ Hs3) as [E3 _].
  pose proof (nth_error_lt _ _ _ E3) as Hl.
  assert (Hn : isValidTrue data (S i) = ((i + 4)%nat, true)).
  { unfold isValidTrue, at_is.
    replace (S i + 1)%nat with (S (S i)) by lia.
    replace (S i + 2)%nat with (S (S (S i))) by lia.
    rewrite E1, E2, E3.
    replace (S i + 3 <=? List.length data)%nat with true
      by (symmetry; apply Nat.leb_le; lia).
    cbn. f_equal. lia. }
  exists 2%nat. unfold_validators. run. reflexivity.
Qed.

End Values.

(** The index at which a known tail of the buffer starts. *)
Lemma skipn_index (data : list byte) (k : nat) (rest : list byte) :
  skipn k data = rest -> (k <= List.length data)%nat ->
  k = (List.length data - List.length rest)%nat.
Proof. intros H Hk. apply skipn_length_inv in H. lia. Qed.

Lemma skipn_app_index (data : list byte) (i : nat) (p rest : list byte) :
  skipn i data = p ++ rest -> (0 < List.length p)%nat ->
  (i + List.length p)%nat = (List.length data - List.length rest)%nat.
Proof.
  intros H Hp. apply skipn_length_inv in H. rewrite length_app in H. lia.
Qed.

(** What follows an element or a member: the comma and the next ones, or
    the closing bracket. *)
Lemma more_parts_head (close : byte) (rest : list byte) (parts : list (list byte)) :
  exists c tl,
    fold_right (fun q acc => ","%byte :: q ++ acc) (close :: rest) parts = c :: tl
    /\ (c = close \/ c = ","%byte).
Proof. destruct parts as [|q parts]; cbn [fold_right]; eauto. Qed.

Lemma count_step (en : bool) (ch M : Z) (n : nat) :
  en && (ch + Z.of_nat (S n) >? M) = false ->
  en && (ch + 1 >? M) = false /\ en && (ch + 1 + Z.of_nat n >? M) = false.
Proof.
  destruct en; [|auto]. cbn [andb]. rewrite !Z.gtb_ltb, !Z.ltb_ge. lia.
Qed.

Lemma entries_step (en : bool) (ch M : Z) (n : nat) :
  en && (M <? ch + Z.of_nat (S n)) = false ->
  en && (M <? ch + 1) = false /\ en && (M <? ch + 1 + Z.of_nat n) = false.
Proof.
  destruct en; [|auto]. cbn [andb]. rewrite !Z.ltb_ge. lia.
Qed.

Lemma accepted_null (v : Verify) : accepted v VNull.
Proof.
  intros data i d rest Hd _ Hs _. now apply validany_null with (rest := rest).
Qed.

Lemma accepted_true (v : Verify) : accepted v VTrue.
Proof.
  intros data i d rest Hd _ Hs _. now apply validany_true with (rest := rest).
Qed.

Lemma accepted_number (v : Verify) (x : number) : accepted v (VNumber x).
Proof.
  intros data i d rest Hd Hf Hs Hr. cbn [fits print] in *.
  destruct (number_head x Hf) as (c & tl & Hx & Hc).
  pose proof Hs as Hs'. rewrite Hx in Hs'. cbn [app] in Hs'.
  destruct (skipn_cons_inv _ _ _ _ Hs') as [E _].
  apply (validany_number data v i _ true c d E Hc Hd).
  unfold number_ok in Hf. apply andb_prop in Hf. destruct Hf as [Hf He].
  apply andb_prop in Hf. destruct Hf as [Hint Hf].
  apply isValidNumber_scans with (rest := rest); auto.
  now apply after_value_ends.
Qed.

(** The scan of the text of a string or of a key, and its length check. *)
Lemma token_scans (data : list byte) (i : nat) (ps : list piece)
    (rest : list byte) :
  forallb piece_ok ps = true -> skipn i data = token ps ++ rest ->
  nth_error data i = Some QUOTE
  /\ isValidateString data (S i) = ((i + List.length (token ps))%nat, true)
  /\ skipn (i + List.length (token ps)) data = rest.
Proof.
  intros Hp Hs. pose proof (skipn_app_inv _ _ _ _ Hs) as Hrest.
  unfold token in Hs. cbn [app] in Hs. rewrite <- app_assoc in Hs. cbn [app] in Hs.
  destruct (skipn_cons_inv _ _ _ _ Hs) as [E Hs1]. split_all; auto.
  rewrite (isValidateString_content data (S i) ps rest Hp Hs1). f_equal.
  unfold token. cbn [List.length]. rewrite length_app. cbn [List.length]. lia.
Qed.

Lemma accepted_string (v : Verify) (ps : list piece) : accepted v (VString ps).
Proof.
  intros data i d rest Hd Hf Hs Hr. cbn [fits print] in *.
  unfold string_fits in Hf. apply andb_prop in Hf. destruct Hf as [Hp Hlen].
  apply negb_true_iff in Hlen.
  destruct (token_scans data i ps rest Hp Hs) as (E & Hstr & _).
  apply (validany_string data v i _ true None d E Hd Hstr).
  rewrite (validateStringLength_token data i ps rest _ _ _ Hs). now rewrite Hlen.
Qed.

Lemma pad_length {A : Type} (f : A -> list byte) (w1 : list byte) (a : A)
    (w2 : list byte) :
  List.length (pad f (w1, a, w2))
  = (List.length w1 + List.length (f a) + List.length w2)%nat.
Proof. cbn [pad]. rewrite !length_app. lia. Qed.

(** An element of an array or the value of a member, with the white space
    around it and the separator [c] that follows: [validany] takes it and
    [isValidComma] finds the separator. *)
Lemma element_scans (v : Verify) (data : list byte) (d : Z) (w1 : list byte)
    (x : value) (w2 : list byte) (e' : option error) (i : nat) (c : byte)
    (tail : list byte) :
  scanned v d x e' ->
  forallb is_space w1 = true -> forallb is_space w2 = true ->
  depth_exceeded v d = false -> print x <> [] ->
  skipn i data = pad print (w1, x, w2) ++ c :: tail ->
  is_space c = false -> after_value (c :: tail) = true ->
  exists ci a,
    nth_error data i = Some ci
    /\ validany_returns data i d v a
    /\ res_ok a = true /\ res_err a = e' /\ res_depth a = d
    /\ (forall close,
         isValidComma data (res_i a) close
         = ((i + List.length (pad print (w1, x, w2)))%nat,
            Byte.eqb c "," || Byte.eqb c close))
    /\ nth_error data (i + List.length (pad print (w1, x, w2))) = Some c
    /\ skipn (S (i + List.length (pad print (w1, x, w2)))) data = tail.
Proof.
  intros Hx Hw1 Hw2 Hd Hne Hs Hc Hafter.
  pose proof (skipn_app_inv _ _ _ _ Hs) as Hend.
  destruct (skipn_cons_inv _ _ _ _ Hend) as [Ec Htail].
  rewrite pad_length in *. cbn [pad] in Hs. rewrite <- !app_assoc in Hs.
  pose proof (skipn_app_inv _ _ _ _ Hs) as Hs1.
  pose proof (skipn_app_inv _ _ _ _ Hs1) as Hs2.
  assert (Ei : exists ci, nth_error data i = Some ci).
  { destruct w1 as [|b w1]; cbn [app] in Hs.
    - destruct (print x) as [|b tl]; [congruence|]. cbn [app] in Hs.
      destruct (skipn_cons_inv _ _ _ _ Hs) as [E _]. eauto.
    - destruct (skipn_cons_inv _ _ _ _ Hs) as [E _]. eauto. }
  destruct Ei as [ci Ei].
  assert (Hnsf : no_space_first (c :: tail) = true)
    by (cbn [no_space_first]; now rewrite Hc).
  exists ci, (Scan (i + List.length w1 + List.length (print x)) true e' d).
  cbn [res_i res_ok res_err res_depth]. split_all; auto.
  - apply (validany_space data v w1 _ i d _ Hw1 Hs Hd).
    apply (Hx data _ _ Hs1). now apply after_value_space.
  - intros close.
    rewrite (isValidComma_space data w2 (c :: tail) _ close Hw2 (Hnsf) Hs2).
    f_equal. lia.
Qed.

Lemma fits_scanned (v : Verify) (d : Z) (x : value) :
  accepted v x -> depth_exceeded v d = false -> fits v d x = true ->
  scanned v d x None.
Proof. intros Hx Hd Hf data i rest Hs Hr. now apply (Hx data i d rest). Qed.

Lemma fits_nonempty (v : Verify) (d : Z) (x : value) :
  fits v d x = true -> print x <> [].
Proof.
  intros Hf. destruct (print_head v d x Hf) as (c & tl & -> & _). discriminate.
Qed.

Section Elements.
Variables (v : Verify) (data : list byte) (d : Z).
Hypothesis Hd : depth_exceeded v d = false.

(** An element that a comma follows: the loop over the elements goes on
    behind the comma, with the error of the element. *)
Lemma element_more (w1 : list byte) (x : value) (w2 : list byte)
    (e' : option error) (i : nat) (ch : Z) (e : option error) (tail : list byte)
    (r : scan) :
  scanned v d x e' ->
  forallb is_space w1 = true -> forallb is_space w2 = true -> print x <> [] ->
  arrayEntryCountEnabled v && (ch + 1 >? MaxArrayElementCount v) = false ->
  skipn i data = pad print (w1, x, w2) ++ ","%byte :: tail ->
  isValidArray_elems_returns data (S (i + List.length (pad print (w1, x, w2))))
    (ch + 1) e' d v r ->
  isValidArray_elems_returns data i ch e d v r.
Proof.
  intros Hx Hw1 Hw2 Hne Hcount Hs Hr.
  destruct (element_scans v data d w1 x w2 e' i "," tail Hx Hw1 Hw2 Hd Hne Hs
              eq_refl eq_refl)
    as (ci & a & Ei & Ha & Hok & He & Hdepth & Hcomma & Ej & _).
  specialize (Hcomma "]"%byte).
  change (Byte.eqb "," "," || Byte.eqb "," "]") with true in Hcomma.
  apply (isValidArray_elems_more data v i _ ci "," ch e d a r Ei Ha Hok Hcomma
           Hcount Ej eq_refl).
  now rewrite He, Hdepth.
Qed.

(** The element that the closing bracket follows. *)
Lemma element_last (w1 : list byte) (x : value) (w2 : list byte)
    (e' : option error) (i : nat) (ch : Z) (e : option error) (rest : list byte) :
  scanned v d x e' ->
  forallb is_space w1 = true -> forallb is_space w2 = true -> print x <> [] ->
  arrayEntryCountEnabled v && (ch + 1 >? MaxArrayElementCount v) = false ->
  skipn i data = pad print (w1, x, w2) ++ "]"%byte :: rest ->
  isValidArray_elems_returns data i ch e d v
    (Scan (List.length data - List.length rest) true e' (d - 1)).
Proof.
  intros Hx Hw1 Hw2 Hne Hcount Hs.
  destruct (element_scans v data d w1 x w2 e' i "]" rest Hx Hw1 Hw2 Hd Hne Hs
              eq_refl eq_refl)
    as (ci & a & Ei & Ha & Hok & He & Hdepth & Hcomma & Ej & Hrest).
  specialize (Hcomma "]"%byte).
  change (Byte.eqb "]" "," || Byte.eqb "]" "]") with true in Hcomma.
  pose proof (isValidArray_elems_last data v i _ ci ch e d a Ei Ha Hok Hcomma
                Hcount Ej) as Hlast.
  rewrite He, Hdepth in Hlast. pose proof (nth_error_lt _ _ _ Ej) as Hl.
  rewrite <- (skipn_index data _ rest Hrest) by lia. exact Hlast.
Qed.

(** A key with the white space after it and its colon. *)
Lemma key_scans (k : list piece) (wk : list byte) (i : nat) (tail : list byte) :
  key_fits v k = true -> forallb is_space wk = true ->
  skipn i data = token k ++ wk ++ ":"%byte :: tail ->
  let o := (i + List.length (token k))%nat in
  let i1 := (o + List.length wk + 1)%nat in
  isValidateString data (S i) = (o, true)
  /\ validateStringLength data i o (objectKeyLengthEnabled v) (ObjectKeyLength v)
       objectKeyValueLength = Ret None
  /\ isValidColon data o = (i1, true)
  /\ skipn i1 data = tail.
Proof.
  intros Hk Hwk Hs o i1. unfold key_fits in Hk. apply andb_prop in Hk.
  destruct Hk as [Hpieces Hklen]. apply negb_true_iff in Hklen.
  destruct (token_scans data i k _ Hpieces Hs) as (_ & Hstr & Hs1).
  pose proof (validateStringLength_token data i k _ (objectKeyLengthEnabled v)
                (ObjectKeyLength v) objectKeyValueLength Hs) as Hlen.
  rewrite Hklen in Hlen.
  pose proof (isValidColon_space data wk (":"%byte :: tail) _ Hwk eq_refl Hs1)
    as Hcolon.
  change (Byte.eqb ":" ":") with true in Hcolon. cbv iota in Hcolon.
  destruct (skipn_cons_inv _ _ _ _ (skipn_app_inv _ _ _ _ Hs1)) as [_ Hs2].
  split_all; auto. subst i1 o. rewrite <- Hs2. f_equal. lia.
Qed.

Lemma member_length (k : list piece) (wk : list byte) (px : padded value) :
  List.length (member_text print (([], k, wk), px))
  = (List.length (token k) + List.length wk + 1 + List.length (pad print px))%nat.
Proof.
  unfold member_text. cbn [fst snd pad app]. rewrite !length_app.
  cbn [List.length]. lia.
Qed.

(** The member that the closing brace follows. *)
Lemma member_last (k : list piece) (wk w1 : list byte) (x : value)
    (w2 : list byte) (i : nat) (en : Z) (e : option error) (rest : list byte) :
  key_fits v k = true -> forallb is_space wk = true ->
  scanned v d x None ->
  forallb is_space w1 = true -> forallb is_space w2 = true -> print x <> [] ->
  objectEntryCountEnabled v && (ObjectEntryCount v <? en + 1) = false ->
  skipn i data = member_text print (([], k, wk), (w1, x, w2)) ++ "}"%byte :: rest ->
  isValidObject_key_returns data i en e d v
    (Scan (List.length data - List.length rest) true None (d - 1)).
Proof.
  intros Hk Hwk Hx Hw1 Hw2 Hne Hcount Hs.
  unfold member_text in Hs. cbn [fst snd] in Hs.
  change (pad token ([], k, wk)) with (token k ++ wk) in Hs.
  rewrite <- !app_assoc in Hs. cbn [app] in Hs.
  destruct (key_scans k wk i _ Hk Hwk Hs) as (Hstr & Hlen & Hcolon & Hs1).
  destruct (element_scans v data d w1 x w2 None _ "}" rest Hx Hw1 Hw2 Hd Hne Hs1
              eq_refl eq_refl)
    as (ci & a & Ei & Ha & Hok & He & Hdepth & Hcomma & Ej & Hrest).
  specialize (Hcomma "}"%byte).
  change (Byte.eqb "}" "," || Byte.eqb "}" "}") with true in Hcomma.
  pose proof (isValidObject_key_last data v i _ _ _ en e d a Hstr Hcount Hlen
                Hcolon Ha Hok He Hcomma Ej) as Hlast.
  rewrite Hdepth in Hlast. pose proof (nth_error_lt _ _ _ Ej) as Hl.
  rewrite <- (skipn_index data _ rest Hrest) by lia. exact Hlast.
Qed.

(** A member that a comma follows, with white space and the next key. *)
Lemma member_more (k : list piece) (wk w1 : list byte) (x : value)
    (w2 : list byte) (i : nat) (en : Z) (e : option error) (wk1 tail : list byte)
    (r : scan) :
  key_fits v k = true -> forallb is_space wk = true ->
  scanned v d x None ->
  forallb is_space w1 = true -> forallb is_space w2 = true -> print x <> [] ->
  objectEntryCountEnabled v && (ObjectEntryCount v <? en + 1) = false ->
  forallb is_space wk1 = true ->
  skipn i data
  = member_text print (([], k, wk), (w1, x, w2)) ++ ","%byte :: wk1 ++ QUOTE :: tail ->
  isValidObject_key_returns data
    (S (i + List.length (member_text print (([], k, wk), (w1, x, w2))))
     + List.length wk1) (en + 1) None d v r ->
  isValidObject_key_returns data i en e d v r.
Proof.
  intros Hk Hwk Hx Hw1 Hw2 Hne Hcount Hwk1 Hs Hr.
  rewrite member_length in Hr.
  unfold member_text in Hs. cbn [fst snd] in Hs.
  change (pad token ([], k, wk)) with (token k ++ wk) in Hs.
  rewrite <- !app_assoc in Hs. cbn [app] in Hs.
  destruct (key_scans k wk i _ Hk Hwk Hs) as (Hstr & Hlen & Hcolon & Hs1).
  destruct (element_scans v data d w1 x w2 None _ "," _ Hx Hw1 Hw2 Hd Hne Hs1
              eq_refl eq_refl)
    as (ci & a & Ei & Ha & Hok & He & Hdepth & Hcomma & Ej & Hrest).
  specialize (Hcomma "}"%byte).
  change (Byte.eqb "," "," || Byte.eqb "," "}") with true in Hcomma.
  apply (isValidObject_key_more_space data v i _ _ _ en e d a r wk1 tail Hstr
           Hcount Hlen Hcolon Ha Hok He Hcomma Ej Hwk1 Hrest).
  rewrite Hdepth.
  match goal with
  | H : isValidObject_key_returns _ ?n _ _ _ _ _ |- isValidObject_key_returns _ ?m _ _ _ _ _ =>
      replace m with n by lia
  end.
  exact Hr.
Qed.

End Elements.

Lemma sep_by_two (sep : byte) (p q : list byte) (ps : list (list byte)) :
  sep_by sep (p :: q :: ps) = p ++ sep :: sep_by sep (q :: ps).
Proof. reflexivity. Qed.

(** The loop over the elements, up to the last one: [last] says what the
    loop returns from the last element, which the text [T] follows. *)
Lemma elems_run (v : Verify) (data : list byte) (d : Z) (T : list byte)
    (r : scan) :
  depth_exceeded v d = false ->
  (forall w1 x w2 i ch e,
      accepted v x -> fits v d x = true ->
      forallb is_space w1 = true -> forallb is_space w2 = true ->
      arrayEntryCountEnabled v && (ch + 1 >? MaxArrayElementCount v) = false ->
      skipn i data = pad print (w1, x, w2) ++ T ->
      isValidArray_elems_returns data i ch e d v r) ->
  forall (ps : list (padded value)) (p : padded value) (i : nat) (ch : Z)
         (e : option error),
    Forall (fun q => accepted v (inner q)) (p :: ps) ->
    forallb (pad_ok (fits v d)) (p :: ps) = true ->
    arrayEntryCountEnabled v
    && (ch + Z.of_nat (List.length (p :: ps)) >? MaxArrayElementCount v) = false ->
    skipn i data = sep_by "," (map (pad print) (p :: ps)) ++ T ->
    isValidArray_elems_returns data i ch e d v r.
Proof.
  intros Hd Hlast.
  induction ps as [|p' ps IH]; intros p i ch e Hacc Hfit Hcount Hs.
  all: inversion Hacc as [|? ? Hp Hacc']; subst.
  all: cbn [forallb] in Hfit; apply andb_prop in Hfit; destruct Hfit as [Hp_ok Hfit].
  all: destruct (pad_ok_inv _ _ Hp_ok) as (w1 & x & w2 & -> & Hw1 & Hx & Hw2).
  all: cbn [inner fst snd] in Hp.
  all: cbn [List.length] in Hcount; destruct (count_step _ _ _ _ Hcount) as [Hc1 Hc2].
  - cbn [map sep_by] in Hs. now apply (Hlast w1 x w2).
  - pose proof (fits_scanned v _ x Hp Hd Hx) as Hsc.
    pose proof (fits_nonempty v _ x Hx) as Hne.
    cbn [map] in Hs. rewrite sep_by_two, <- app_assoc in Hs. cbn [app] in Hs.
    apply (element_more v data d Hd w1 x w2 None i ch e _ _ Hsc Hw1 Hw2 Hne
             Hc1 Hs).
    apply (IH p'); auto.
    exact (proj2 (skipn_cons_inv _ _ _ _ (skipn_app_inv _ _ _ _ Hs))).
Qed.

Lemma elems_accepted (v : Verify) (data rest : list byte) (d : Z)
    (ps : list (padded value)) (p : padded value) (i : nat) (ch : Z)
    (e : option error) :
  Forall (fun q => accepted v (inner q)) (p :: ps) ->
  forallb (pad_ok (fits v (d + 1))) (p :: ps) = true ->
  depth_exceeded v (d + 1) = false ->
  arrayEntryCountEnabled v
  && (ch + Z.of_nat (List.length (p :: ps)) >? MaxArrayElementCount v) = false ->
  skipn i data = sep_by "," (map (pad print) (p :: ps)) ++ "]"%byte :: rest ->
  isValidArray_elems_returns data i ch e (d + 1) v
    (Scan (List.length data - List.length rest) true None (d + 1 - 1)).
Proof.
  intros Hacc Hfit Hd Hcount Hs.
  apply (elems_run v data (d + 1) ("]"%byte :: rest) _ Hd) with (ps := ps) (p := p);
    auto.
  intros w1 x w2 i' ch' e' Hx Hf Hw1 Hw2 Hc Hs'.
  apply (element_last v data (d + 1) Hd w1 x w2 None i' ch' e' rest); auto.
  - now apply fits_scanned.
  - now apply (fits_nonempty v (d + 1)).
Qed.

(** The same for the members of an object, from the key of the first. *)
Lemma members_run (v : Verify) (data : list byte) (d : Z) (T : list byte)
    (r : scan) :
  depth_exceeded v d = false ->
  (forall k wk w1 x w2 i en e,
      key_fits v k = true -> forallb is_space wk = true ->
      accepted v x -> fits v d x = true ->
      forallb is_space w1 = true -> forallb is_space w2 = true ->
      objectEntryCountEnabled v && (ObjectEntryCount v <? en + 1) = false ->
      skipn i data = member_text print (([], k, wk), (w1, x, w2)) ++ T ->
      isValidObject_key_returns data i en e d v r) ->
  forall (ms : list (padded (list piece) * padded value)) (k : list piece)
         (wk : list byte) (px : padded value) (i : nat) (en : Z) (e : option error),
    Forall (fun m => accepted v (inner (snd m))) ((([], k, wk), px) :: ms) ->
    forallb (fun m => pad_ok (key_fits v) (fst m) && pad_ok (fits v d) (snd m))
            ((([], k, wk), px) :: ms) = true ->
    objectEntryCountEnabled v
    && (ObjectEntryCount v <? en + Z.of_nat (List.length ((([], k, wk), px) :: ms)))
    = false ->
    skipn i data
    = sep_by "," (map (member_text print) ((([], k, wk), px) :: ms)) ++ T ->
    isValidObject_key_returns data i en e d v r.
Proof.
  intros Hd Hlast.
  induction ms as [|m' ms IH]; intros k wk px i en e Hacc Hfit Hcount Hs.
  all: inversion Hacc as [|? ? Hp Hacc']; subst.
  all: cbn [forallb fst snd] in Hfit; apply andb_prop in Hfit;
    destruct Hfit as [Hm_ok Hfit].
  all: apply andb_prop in Hm_ok; destruct Hm_ok as [Hk_ok Hp_ok].
  all: cbn [pad_ok forallb andb] in Hk_ok; apply andb_prop in Hk_ok;
    destruct Hk_ok as [Hk Hwk].
  all: destruct (pad_ok_inv _ _ Hp_ok) as (w1 & x & w2 & -> & Hw1 & Hx & Hw2).
  all: cbn [inner fst snd] in Hp.
  all: cbn [List.length] in Hcount; destruct (entries_step _ _ _ _ Hcount) as [Hc1 Hc2].
  - cbn [map sep_by] in Hs. now apply (Hlast k wk w1 x w2).
  - pose proof (fits_scanned v _ x Hp Hd Hx) as Hsc.
    pose proof (fits_nonempty v _ x Hx) as Hne.
    cbn [map] in Hs. rewrite sep_by_two, <- app_assoc in Hs. cbn [app] in Hs.
    inversion Hacc' as [|? ? Hp' Hacc'']; subst.
    destruct m' as [[[wk1 k'] wk'] px'].
    pose proof Hfit as Hfit'. cbn [forallb fst snd] in Hfit'.
    apply andb_prop in Hfit'. destruct Hfit' as [Hm' Hrest'].
    apply andb_prop in Hm'. destruct Hm' as [Hk' Hpx'].
    cbn [pad_ok] in Hk'. apply andb_prop in Hk'. destruct Hk' as [Hk' Hwk'].
    apply andb_prop in Hk'. destruct Hk' as [Hwk1 Hk'].
    pose proof (skipn_app_inv _ _ _ _ Hs) as Hnext.
    destruct (skipn_cons_inv _ _ _ _ Hnext) as [_ Hnext1].
    assert (Hshape : sep_by "," (member_text print (wk1, k', wk', px')
                                 :: map (member_text print) ms) ++ T
                     = wk1 ++ sep_by "," (map (member_text print)
                                            ((([], k', wk'), px') :: ms)) ++ T).
    { cbn [map]. rewrite !sep_by_cons. unfold member_text at 1 3.
      cbn [pad fst snd app]. now rewrite <- !app_assoc. }
    pose proof (eq_trans Hnext1 Hshape) as Hnext2.
    assert (Hq : exists tl,
               sep_by "," (map (member_text print) ((([], k', wk'), px') :: ms)) ++ T
               = QUOTE :: tl).
    { cbn [map]. rewrite sep_by_cons. unfold member_text at 1, token.
      cbn [pad fst snd app]. eauto. }
    destruct Hq as [tl Hq].
    assert (Hs' : skipn i data
                  = member_text print (([], k, wk), (w1, x, w2))
                    ++ ","%byte :: wk1 ++ QUOTE :: tl).
    { etransitivity; [exact Hs|]. do 2 f_equal.
      etransitivity; [exact Hshape|]. now rewrite Hq. }
    apply (member_more v data d Hd k wk w1 x w2 i en e wk1 tl _ Hk Hwk Hsc
             Hw1 Hw2 Hne Hc1 Hwk1 Hs').
    apply (IH k' wk' px').
    + constructor; [exact Hp' | exact Hacc''].
    + cbn [forallb fst snd pad_ok]. cbn [forallb andb].
      now rewrite Hk', Hwk', Hpx', Hrest'.
    + exact Hc2.
    + exact (skipn_app_inv _ _ _ _ Hnext2).
Qed.

Lemma members_accepted (v : Verify) (data rest : list byte) (d : Z)
    (ms : list (padded (list piece) * padded value)) (k : list piece)
    (wk : list byte) (px : padded value) (i : nat) (en : Z) (e : option error) :
  Forall (fun m => accepted v (inner (snd m))) ((([], k, wk), px) :: ms) ->
  forallb (fun m => pad_ok (key_fits v) (fst m) && pad_ok (fits v (d + 1)) (snd m))
          ((([], k, wk), px) :: ms) = true ->
  depth_exceeded v (d + 1) = false ->
  objectEntryCountEnabled v
  && (ObjectEntryCount v <? en + Z.of_nat (List.length ((([], k, wk), px) :: ms)))
  = false ->
  skipn i data
  = sep_by "," (map (member_text print) ((([], k, wk), px) :: ms))
    ++ "}"%byte :: rest ->
  isValidObject_key_returns data i en e (d + 1) v
    (Scan (List.length data - List.length rest) true None (d + 1 - 1)).
Proof.
  intros Hacc Hfit Hd Hcount Hs.
  apply (members_run v data (d + 1) ("}"%byte :: rest) _ Hd)
    with (ms := ms) (k := k) (wk := wk) (px := px); auto.
  intros k' wk' w1 x w2 i' en' e' Hk Hwk Hx Hf Hw1 Hw2 Hc Hs'.
  apply (member_last v data (d + 1) Hd k' wk' w1 x w2 i' en' e' rest); auto.
  - now apply fits_scanned.
  - now apply (fits_nonempty v (d + 1)).
Qed.

(** Into an array with a first element, and into an object with a first
    member: the run goes on at the element, respectively at the key. *)
Lemma array_enter (v : Verify) (data : list byte) (i : nat) (d : Z)
    (w w1 : list byte) (x : value) (tail : list byte) (r : scan) :
  depth_exceeded v d = false -> depth_exceeded v (d + 1) = false ->
  forallb is_space w = true -> forallb is_space w1 = true ->
  (exists c tl, print x = c :: tl /\ is_space c = false /\ Byte.eqb c "]" = false) ->
  skipn i data = "["%byte :: w ++ w1 ++ print x ++ tail ->
  isValidArray_elems_returns data (S i + List.length w + List.length w1) 0 None
    (d + 1) v r ->
  validany_returns data i d v r.
Proof.
  intros Hd Hd1 Hw Hw1 (c & tl & Hhead & Hc1 & Hc2) Hs Hr.
  destruct (skipn_cons_inv _ _ _ _ Hs) as [E Hs1].
  apply (validany_array data v i d _ E Hd).
  rewrite app_assoc in Hs1.
  assert (Hww : forallb is_space (w ++ w1) = true)
    by (rewrite forallb_app, Hw, Hw1; reflexivity).
  apply (isValidArray_space data v (w ++ w1) _ (S i) (d + 1) _ Hww Hs1 Hd1).
  pose proof (skipn_app_inv _ _ _ _ Hs1) as Hs2.
  rewrite Hhead in Hs2. cbn [app] in Hs2.
  destruct (skipn_cons_inv _ _ _ _ Hs2) as [Ec _].
  apply (isValidArray_first data v _ c (d + 1) _ Ec Hc1 Hc2 Hd1).
  rewrite length_app, Nat.add_assoc. exact Hr.
Qed.

Lemma object_enter (v : Verify) (data : list byte) (i : nat) (d : Z)
    (w wk1 : list byte) (tail : list byte) (r : scan) :
  depth_exceeded v d = false -> depth_exceeded v (d + 1) = false ->
  forallb is_space w = true -> forallb is_space wk1 = true ->
  skipn i data = "{"%byte :: w ++ wk1 ++ QUOTE :: tail ->
  isValidObject_key_returns data (S i + List.length w + List.length wk1) 0 None
    (d + 1) v r ->
  validany_returns data i d v r.
Proof.
  intros Hd Hd1 Hw Hwk1 Hs Hr.
  destruct (skipn_cons_inv _ _ _ _ Hs) as [E Hs1].
  apply (validany_object data v i d _ E Hd).
  rewrite app_assoc in Hs1.
  assert (Hww : forallb is_space (w ++ wk1) = true)
    by (rewrite forallb_app, Hw, Hwk1; reflexivity).
  apply (isValidObject_space data v (w ++ wk1) _ (S i) (d + 1) _ Hww Hs1 Hd1).
  destruct (skipn_cons_inv _ _ _ _ (skipn_app_inv _ _ _ _ Hs1)) as [Ec _].
  apply (isValidObject_first data v _ (d + 1) _ Ec Hd1).
  rewrite length_app, Nat.add_assoc. exact Hr.
Qed.

Lemma fits_head (v : Verify) (d : Z) (x : value) :
  fits v d x = true ->
  exists c tl, print x = c :: tl /\ is_space c = false /\ Byte.eqb c "]" = false.
Proof.
  intros Hf. destruct (print_head v d x Hf) as (c & tl & H1 & H2 & H3 & _). eauto.
Qed.

Lemma accepted_array (v : Verify) (w : list byte) (xs : list (padded value)) :
  Forall (fun p => accepted v (inner p)) xs -> accepted v (VArray w xs).
Proof.
  intros Hacc data i d rest Hd Hf Hs Hr. cbn [fits] in Hf.
  apply andb_prop in Hf. destruct Hf as [Hf Hxs].
  apply andb_prop in Hf. destruct Hf as [Hf Hcount].
  apply andb_prop in Hf. destruct Hf as [Hw Hd1].
  apply negb_true_iff in Hd1, Hcount.
  rewrite (skipn_app_index data i _ rest Hs) by (cbn [print List.length]; lia).
  cbn [print app] in Hs. rewrite <- !app_assoc in Hs. cbn [app] in Hs.
  replace (Scan (List.length data - List.length rest) true None d)
    with (Scan (List.length data - List.length rest) true None (d + 1 - 1))
    by (f_equal; lia).
  destruct xs as [|p ps].
  - destruct (skipn_cons_inv _ _ _ _ Hs) as [E Hs1].
    apply (validany_array data v i d _ E Hd).
    cbn [map sep_by app] in Hs1.
    apply (isValidArray_space data v w _ (S i) (d + 1) _ Hw Hs1 Hd1).
    destruct (skipn_cons_inv _ _ _ _ (skipn_app_inv _ _ _ _ Hs1)) as [Ec Hs2].
    pose proof (nth_error_lt _ _ _ Ec) as Hl.
    rewrite <- (skipn_index data _ rest Hs2) by lia.
    now apply isValidArray_empty.
  - inversion Hacc as [|? ? Hp Hacc']; subst.
    cbn [forallb] in Hxs. apply andb_prop in Hxs. destruct Hxs as [Hp_ok Hps].
    destruct (pad_ok_inv _ _ Hp_ok) as (w1 & x & w2 & -> & Hw1 & Hx & Hw2).
    cbn [inner fst snd] in Hp.
    cbn [map] in Hs. rewrite sep_by_cons in Hs. cbn [pad] in Hs.
    rewrite <- !app_assoc in Hs.
    apply (array_enter v data i d w w1 x _ _ Hd Hd1 Hw Hw1 (fits_head v _ x Hx) Hs).
    apply (elems_accepted v data rest d ps ([], x, w2)).
    + constructor; [exact Hp | exact Hacc'].
    + cbn [forallb pad_ok]. cbn [forallb andb]. now rewrite Hx, Hw2, Hps.
    + exact Hd1.
    + rewrite Z.add_0_l. exact Hcount.
    + cbn [map]. rewrite sep_by_cons. cbn [pad app]. rewrite <- ?app_assoc.
      destruct (skipn_cons_inv _ _ _ _ Hs) as [_ Hs1].
      exact (skipn_app_inv _ _ _ _ (skipn_app_inv _ _ _ _ Hs1)).
Qed.

Lemma accepted_object (v : Verify) (w : list byte)
    (ms : list (padded (list piece) * padded value)) :
  Forall (fun m => accepted v (inner (snd m))) ms -> accepted v (VObject w ms).
Proof.
  intros Hacc data i d rest Hd Hf Hs Hr. cbn [fits] in Hf.
  apply andb_prop in Hf. destruct Hf as [Hf Hms].
  apply andb_prop in Hf. destruct Hf as [Hf Hcount].
  apply andb_prop in Hf. destruct Hf as [Hw Hd1].
  apply negb_true_iff in Hd1, Hcount.
  rewrite (skipn_app_index data i _ rest Hs) by (cbn [print List.length]; lia).
  cbn [print app] in Hs. rewrite <- !app_assoc in Hs. cbn [app] in Hs.
  replace (Scan (List.length data - List.length rest) true None d)
    with (Scan (List.length data - List.length rest) true None (d + 1 - 1))
    by (f_equal; lia).
  destruct ms as [|m ms].
  - destruct (skipn_cons_inv _ _ _ _ Hs) as [E Hs1].
    apply (validany_object data v i d _ E Hd).
    cbn [map sep_by app] in Hs1.
    apply (isValidObject_space data v w _ (S i) (d + 1) _ Hw Hs1 Hd1).
    destruct (skipn_cons_inv _ _ _ _ (skipn_app_inv _ _ _ _ Hs1)) as [Ec Hs2].
    pose proof (nth_error_lt _ _ _ Ec) as Hl.
    rewrite <- (skipn_index data _ rest Hs2) by lia.
    now apply isValidObject_empty.
  - inversion Hacc as [|? ? Hp Hacc']; subst.
    destruct m as [[[wk1 k] wk] px].
    pose proof Hms as Hms'. cbn [forallb fst snd] in Hms'.
    apply andb_prop in Hms'. destruct Hms' as [Hm Hrest].
    apply andb_prop in Hm. destruct Hm as [Hk Hpx].
    cbn [pad_ok] in Hk. apply andb_prop in Hk. destruct Hk as [Hk Hwk].
    apply andb_prop in Hk. destruct Hk as [Hwk1 Hk].
    cbn [map] in Hs. rewrite sep_by_cons in Hs.
    unfold member_text at 1 in Hs. cbn [pad fst snd] in Hs.
    rewrite <- !app_assoc in Hs. unfold token at 1 in Hs. cbn [app] in Hs.
    rewrite <- ?app_assoc in Hs. cbn [app] in Hs.
    apply (object_enter v data i d w wk1 _ _ Hd Hd1 Hw Hwk1 Hs).
    apply (members_accepted v data rest d ms k wk px).
    + constructor; [exact Hp | exact Hacc'].
    + cbn [forallb fst snd pad_ok]. cbn [forallb andb]. now rewrite Hk, Hwk, Hpx, Hrest.
    + exact Hd1.
    + rewrite Z.add_0_l. exact Hcount.
    + cbn [map]. rewrite sep_by_cons. unfold member_text at 1, token at 1.
      cbn [pad fst snd app]. rewrite <- ?app_assoc. cbn [app].
      destruct (skipn_cons_inv _ _ _ _ Hs) as [_ Hs1].
      exact (skipn_app_inv _ _ _ _ (skipn_app_inv _ _ _ _ Hs1)).
Qed.

(** [validany] accepts every document that fits. *)
Lemma all_accepted (v : Verify) (j : value) : accepted v j.
Proof.
  apply (value_induction (accepted v)).
  - apply accepted_null.
  - apply accepted_true.
  - apply accepted_number.
  - apply accepted_string.
  - apply accepted_array.
  - apply accepted_object.
Qed.

Lemma space_at (ws : list byte) (k : nat) (c : byte) :
  forallb is_space ws = true -> nth_error ws k = Some c -> is_space c = true.
Proof.
  intros H E. rewrite forallb_forall in H. apply H. now apply nth_error_In in E.
Qed.

Lemma after_value_spaces (ws : list byte) :
  forallb is_space ws = true -> after_value ws = true.
Proof.
  destruct ws as [|c ws]; [reflexivity|]. cbn [forallb after_value].
  intros H. apply andb_prop in H. destruct H as [-> _]. reflexivity.
Qed.

Lemma document_verified (v : Verify) (j : value) (before after : list byte) :
  depth_exceeded v 0 = false -> fits v 0 j = true ->
  forallb is_space before = true -> forallb is_space after = true ->
  VerifyBytes v (before ++ print j ++ after) = Ret (true, None).
Proof.
  intros Hd Hf Hb Ha. set (data := before ++ print j ++ after).
  assert (Hs : skipn (List.length before) data = print j ++ after).
  { unfold data. now rewrite skipn_app, skipn_all, Nat.sub_diag. }
  destruct (print_head v 0 j Hf) as (c & tl & Hhead & Hc & _).
  pose proof (all_accepted v j data _ 0 after Hd Hf Hs (after_value_spaces _ Ha))
    as [fuel Hv].
  assert (E : nth_error data (List.length before) = Some c).
  { pose proof Hs as Hs'. rewrite Hhead in Hs'. cbn [app] in Hs'.
    now destruct (skipn_cons_inv _ _ _ _ Hs'). }
  pose proof (nth_error_lt _ _ _ E) as Hl.
  apply validany_fuel_for in Hv; [|lia].
  destruct (isValidJSON_loop_accepts data v (List.length data - 0) 0
              (List.length before) 0 c
              (Scan (List.length before + List.length (print j)) true None 0))
    as [k Hk]; auto; try lia.
  - intros k c' Hk E'. apply (space_at before k c' Hb).
    unfold data in E'. rewrite nth_error_app1 in E' by lia. exact E'.
  - cbn [res_i]. intros k c' Hk E'. apply (space_at after (k - List.length before - List.length (print j)) c' Ha).
    unfold data in E'. rewrite nth_error_app2 in E' by lia.
    rewrite nth_error_app2 in E' by lia. exact E'.
  - unfold VerifyBytes, isValidJSON. fold data. rewrite Hk. reflexivity.
Qed.


(** X12. Every document of RFC 8259 that holds no literal [false] and stays
    within the limits that are enabled is accepted, however white space is
    laid out in it and around it: no nesting deeper than the depth limit, no
    array or object with more elements or members than its limit, no string
    or key with more runes than its limit.  Numbers, strings and keys are
    those of RFC 8259; the same key may occur twice. *)
Theorem document_accepted (v : Verify) (j : value) (before after : list byte) :
  depth_exceeded v 0 = false -> fits v 0 j = true ->
  forallb is_space before = true -> forallb is_space after = true ->
  VerifyBytes v (before ++ print j ++ after) = Ret (true, None).
Proof. apply document_verified. Qed.

(** An object with an array, a nested object and a repeated key, under the
    limits 3 (array elements), 2 (depth), 3 (entries), 1 (key length) and 3
    (string length). *)
Lemma document_accepted_witness :
  VerifyBytes (mkVerify 3 true 2 true 3 true 1 true 3 true)
    (json " {'a' : [1, -2.5e3 ,'x\n'], 'b':{'c':null}, 'a': true } ")
  = Ret (true, None).
Proof.
  exact (document_accepted (mkVerify 3 true 2 true 3 true 1 true 3 true)
           (VObject []
              [ ((json " ", [Plain "a"], json " "),
                 (json " ",
                  VArray []
                    [ ([], VNumber (Number false ["1"%byte] None None), []);
                      (json " ",
                       VNumber (Number true ["2"%byte] (Some ["5"%byte])
                                  (Some ("e", None, ["3"]))%byte),
                       json " ");
                      ([], VString [Plain "x"; Escape "n"], []) ],
                  []));
                ((json " ", [Plain "b"], []),
                 ([], VObject [] [ (([], [Plain "c"], []), ([], VNull, [])) ], []));
                ((json " ", [Plain "a"], []), (json " ", VTrue, json " ")) ])
           (json " ") (json " ") eq_refl eq_refl eq_refl eq_refl).
Defined.

(** * Running to the end *)

(** X13. [validany], [isValidArray] and [isValidObject] return from every
    index of every buffer, under every configuration: the run ends and no
    index or slice is out of range.  When they succeed, the index they
    return is after the start and not after the end of the buffer. *)
Theorem validators_return (data : list byte) (v : Verify) (i : nat) (d : Z) :
  (i <= List.length data)%nat ->
  (exists r, validany_returns data i d v r /\ moves data i r)
  /\ (exists r, isValidArray_returns data i d v r /\ moves data i r)
  /\ (exists r, isValidObject_returns data i d v r /\ moves data i r).
Proof.
  intros Hi.
  destruct (validators_total data v (5 * List.length data + 5))
    as (H1 & _ & H3 & _ & _ & H6 & _).
  split_all.
  - destruct (H1 i d Hi) as (r & Hr & Hm); [lia|]. exists r. split; [|exact Hm].
    eexists. exact Hr.
  - destruct (H3 i d Hi) as (r & Hr & Hm); [lia|]. exists r. split; [|exact Hm].
    eexists. exact Hr.
  - destruct (H6 i d Hi) as (r & Hr & Hm); [lia|]. exists r. split; [|exact Hm].
    eexists. exact Hr.
Qed.

(** On a buffer that ends inside an array. *)
Lemma validators_return_witness :
  exists r, isValidArray_returns (json "[1,[2,'a") 1 1 zeroVerify r.
Proof.
  destruct (validators_return (json "[1,[2,'a") zeroVerify 1 1) as (_ & (r & Hr & _) & _).
  - cbn. lia.
  - exists r. exact Hr.
Defined.

(** * What the validators refuse *)

(** A byte that opens no value. *)
Lemma validany_stray (data : list byte) (v : Verify) (i : nat) (d : Z) (c : byte) :
  nth_error data i = Some c -> depth_exceeded v d = false ->
  c = ","%byte \/ c = "]"%byte \/ c = "}"%byte \/ c = ":"%byte ->
  validany_returns data i d v (Scan i false None d).
Proof.
  intros E Hd Hc. exists 2%nat. unfold_validators. rewrite Hd, E.
  destruct Hc as [-> | [-> | [-> | ->]]]; reflexivity.
Qed.

(** The driver on a buffer that starts with a value that fails without an
    error. *)
Lemma VerifyBytes_malformed (v : Verify) (data : list byte) (c : byte) (a : scan) :
  nth_error data 0 = Some c -> is_space c = false ->
  validany_returns data 0 0 v a -> res_ok a = false -> res_err a = None ->
  VerifyBytes v data = Ret (false, Some ErrInvalidJSON).
Proof.
  intros E Hc [f Ha] Hok He.
  apply validany_fuel_for in Ha; [|lia].
  pose proof (nth_error_lt _ _ _ E) as Hl.
  unfold VerifyBytes, isValidJSON.
  destruct (List.length data - 0)%nat as [|n] eqn:En; [lia|].
  cbn [isValidJSON_loop]. rewrite E, Hc, Ha. cbn [bind]. rewrite Hok, He.
  reflexivity.
Qed.

Section Strays.
Variables (v : Verify) (data : list byte) (d : Z).
Hypothesis Hd : depth_exceeded v d = false.

(** An element that is followed by a comma, white space and the closing
    bracket: the loop over the elements fails at the bracket. *)
Lemma element_stray (w1 : list byte) (x : value) (w2 : list byte) (i : nat)
    (ch : Z) (e : option error) (w' rest : list byte) :
  scanned v d x None ->
  forallb is_space w1 = true -> forallb is_space w2 = true -> print x <> [] ->
  arrayEntryCountEnabled v && (ch + 1 >? MaxArrayElementCount v) = false ->
  forallb is_space w' = true ->
  skipn i data = pad print (w1, x, w2) ++ ","%byte :: w' ++ "]"%byte :: rest ->
  isValidArray_elems_returns data i ch e d v
    (Scan (List.length data - List.length rest - 1) false None d).
Proof.
  intros Hx Hw1 Hw2 Hne Hcount Hw' Hs.
  apply (element_more v data d Hd w1 x w2 None i ch e _ _ Hx Hw1 Hw2 Hne Hcount Hs).
  pose proof (skipn_app_inv _ _ _ _ Hs) as Hs1.
  destruct (skipn_cons_inv _ _ _ _ Hs1) as [_ Hs2].
  pose proof (skipn_app_inv _ _ _ _ Hs2) as Hs3.
  destruct (skipn_cons_inv _ _ _ _ Hs3) as [Ec Hs4].
  pose proof (nth_error_lt _ _ _ Ec) as Hl.
  assert (Ej : exists c, nth_error data (S (i + List.length (pad print (w1, x, w2))))
                         = Some c).
  { destruct w' as [|c w']; cbn [app] in Hs2;
      destruct (skipn_cons_inv _ _ _ _ Hs2) as [E _]; eauto. }
  destruct Ej as [c Ej].
  assert (Ha : validany_returns data (S (i + List.length (pad print (w1, x, w2)))) d v
                 (Scan (List.length data - List.length rest - 1) false None d)).
  { apply (validany_space data v w' _ _ d _ Hw' Hs2 Hd).
    replace (List.length data - List.length rest - 1)%nat
      with (S (i + List.length (pad print (w1, x, w2))) + List.length w')%nat
      by (apply skipn_length_inv in Hs4; lia).
    apply (validany_stray data v _ d "]" Ec Hd). auto. }
  exact (isValidArray_elems_fails data v _ c (ch + 1) None d _ Ej Ha eq_refl).
Qed.

(** A member that is followed by a comma, white space and the closing
    brace: the object fails at the brace. *)
Lemma member_stray (k : list piece) (wk w1 : list byte) (x : value)
    (w2 : list byte) (i : nat) (en : Z) (e : option error) (w' rest : list byte) :
  key_fits v k = true -> forallb is_space wk = true ->
  scanned v d x None ->
  forallb is_space w1 = true -> forallb is_space w2 = true -> print x <> [] ->
  objectEntryCountEnabled v && (ObjectEntryCount v <? en + 1) = false ->
  forallb is_space w' = true ->
  skipn i data
  = member_text print (([], k, wk), (w1, x, w2))
    ++ ","%byte :: w' ++ "}"%byte :: rest ->
  isValidObject_key_returns data i en e d v
    (Scan (List.length data - List.length rest - 1) false None d).
Proof.
  intros Hk Hwk Hx Hw1 Hw2 Hne Hcount Hw' Hs.
  unfold member_text in Hs. cbn [fst snd] in Hs.
  change (pad token ([], k, wk)) with (token k ++ wk) in Hs.
  rewrite <- !app_assoc in Hs. cbn [app] in Hs.
  destruct (key_scans v data k wk i _ Hk Hwk Hs) as (Hstr & Hlen & Hcolon & Hs1).
  destruct (element_scans v data d w1 x w2 None _ "," _ Hx Hw1 Hw2 Hd Hne Hs1
              eq_refl eq_refl)
    as (ci & a & Ei & Ha & Hok & He & Hdepth & Hcomma & Ej & Hrest).
  specialize (Hcomma "}"%byte).
  change (Byte.eqb "," "," || Byte.eqb "," "}") with true in Hcomma.
  pose proof (isValidObject_key_more_stray data v i _ _ _ en e d a w'
                ("}"%byte :: rest) Hstr Hcount Hlen Hcolon Ha Hok He Hcomma Ej Hw'
                Hrest (conj eq_refl eq_refl)) as Hstray.
  rewrite Hdepth in Hstray.
  pose proof (skipn_app_inv _ _ _ _ Hrest) as Hend.
  destruct (skipn_cons_inv _ _ _ _ Hend) as [Ec Hend1].
  pose proof (nth_error_lt _ _ _ Ec) as Hl.
  match type of Hstray with
  | isValidObject_key_returns _ _ _ _ _ _ (Scan ?n _ _ _) =>
      replace (List.length data - List.length rest - 1)%nat with n
        by (apply skipn_length_inv in Hend1; lia)
  end.
  exact Hstray.
Qed.

End Strays.

Lemma all_accepted_elements (v : Verify) (xs : list (padded value)) :
  Forall (fun q => accepted v (inner q)) xs.
Proof. apply Forall_forall. intros q _. apply all_accepted. Qed.

Lemma all_accepted_members (v : Verify)
    (ms : list (padded (list piece) * padded value)) :
  Forall (fun m => accepted v (inner (snd m))) ms.
Proof. apply Forall_forall. intros m _. apply all_accepted. Qed.

Lemma array_trailing_comma (v : Verify) (w w' : list byte) (p : padded value)
    (ps : list (padded value)) :
  depth_exceeded v 0 = false -> forallb is_space w' = true ->
  fits v 0 (VArray w (p :: ps)) = true ->
  VerifyBytes v
    ("["%byte :: w ++ sep_by "," (map (pad print) (p :: ps))
     ++ ","%byte :: w' ++ ["]"%byte])
  = Ret (false, Some ErrInvalidJSON).
Proof.
  intros Hd Hw' Hf. cbn [fits] in Hf.
  apply andb_prop in Hf. destruct Hf as [Hf Hxs].
  apply andb_prop in Hf. destruct Hf as [Hf Hcount].
  apply andb_prop in Hf. destruct Hf as [Hw Hd1].
  apply negb_true_iff in Hd1, Hcount. cbn [Z.add] in *.
  pose proof Hxs as Hxs'. cbn [forallb] in Hxs'.
  apply andb_prop in Hxs'. destruct Hxs' as [Hp_ok Hps].
  destruct (pad_ok_inv _ _ Hp_ok) as (w1 & x & w2 & -> & Hw1 & Hx & Hw2).
  set (data := "["%byte :: w ++ sep_by "," (map (pad print) ((w1, x, w2) :: ps))
               ++ ","%byte :: w' ++ ["]"%byte]).
  assert (Hs : skipn 0 data
               = "["%byte :: w ++ w1
                 ++ print x ++ w2
                 ++ fold_right (fun q acc => ","%byte :: q ++ acc)
                      (","%byte :: w' ++ ["]"%byte]) (map (pad print) ps)).
  { unfold data. cbn [skipn map]. rewrite sep_by_cons. cbn [pad].
    now rewrite <- !app_assoc. }
  apply (VerifyBytes_malformed v data "[" (Scan (List.length data - 0 - 1) false None 1));
    try reflexivity.
  apply (array_enter v data 0 0 w w1 x _ _ Hd Hd1 Hw Hw1 (fits_head v _ x Hx) Hs).
  apply (elems_run v data 1 (","%byte :: w' ++ ["]"%byte]) _ Hd1)
    with (ps := ps) (p := ([], x, w2)).
  - intros w1' x' w2' i' ch' e' Hacc' Hf' Hw1' Hw2' Hc' Hs'.
    change (List.length data - 0 - 1)%nat
      with (List.length data - List.length (@nil byte) - 1)%nat.
    apply (element_stray v data 1 Hd1 w1' x' w2' i' ch' e' w' []); auto.
    + now apply fits_scanned.
    + now apply (fits_nonempty v 1).
  - apply all_accepted_elements.
  - cbn [forallb pad_ok]. cbn [forallb andb]. now rewrite Hx, Hw2, Hps.
  - rewrite Z.add_0_l. exact Hcount.
  - cbn [map]. rewrite sep_by_cons. cbn [pad app]. rewrite <- ?app_assoc.
    destruct (skipn_cons_inv _ _ _ _ Hs) as [_ Hs1].
    exact (skipn_app_inv _ _ _ _ (skipn_app_inv _ _ _ _ Hs1)).
Qed.

Lemma object_trailing_comma (v : Verify) (w w' : list byte)
    (m : padded (list piece) * padded value)
    (ms : list (padded (list piece) * padded value)) :
  depth_exceeded v 0 = false -> forallb is_space w' = true ->
  fits v 0 (VObject w (m :: ms)) = true ->
  VerifyBytes v
    ("{"%byte :: w ++ sep_by "," (map (member_text print) (m :: ms))
     ++ ","%byte :: w' ++ ["}"%byte])
  = Ret (false, Some ErrInvalidJSON).
Proof.
  intros Hd Hw' Hf. cbn [fits] in Hf.
  apply andb_prop in Hf. destruct Hf as [Hf Hms].
  apply andb_prop in Hf. destruct Hf as [Hf Hcount].
  apply andb_prop in Hf. destruct Hf as [Hw Hd1].
  apply negb_true_iff in Hd1, Hcount. cbn [Z.add] in *.
  destruct m as [[[wk1 k] wk] px].
  pose proof Hms as Hms'. cbn [forallb fst snd] in Hms'.
  apply andb_prop in Hms'. destruct Hms' as [Hm Hrest].
  apply andb_prop in Hm. destruct Hm as [Hk Hpx].
  cbn [pad_ok] in Hk. apply andb_prop in Hk. destruct Hk as [Hk Hwk].
  apply andb_prop in Hk. destruct Hk as [Hwk1 Hk].
  set (data := "{"%byte :: w
               ++ sep_by "," (map (member_text print) ((wk1, k, wk, px) :: ms))
               ++ ","%byte :: w' ++ ["}"%byte]).
  assert (Hs1 : skipn 1 data
                = w ++ wk1
                  ++ sep_by "," (map (member_text print) ((([], k, wk), px) :: ms))
                  ++ ","%byte :: w' ++ ["}"%byte]).
  { unfold data. cbn [skipn map]. rewrite !sep_by_cons. unfold member_text at 1 3.
    cbn [pad fst snd app]. now rewrite <- !app_assoc. }
  assert (Hq : exists tl,
             sep_by "," (map (member_text print) ((([], k, wk), px) :: ms))
             ++ ","%byte :: w' ++ ["}"%byte] = QUOTE :: tl).
  { cbn [map]. rewrite sep_by_cons. unfold member_text at 1, token.
    cbn [pad fst snd app]. eauto. }
  destruct Hq as [tl Hq].
  assert (Hs : skipn 0 data = "{"%byte :: w ++ wk1 ++ QUOTE :: tl).
  { cbn [skipn]. unfold data. f_equal. cbn [skipn] in Hs1. unfold data in Hs1.
    rewrite Hs1. now rewrite Hq. }
  apply (VerifyBytes_malformed v data "{" (Scan (List.length data - 0 - 1) false None 1));
    try reflexivity.
  apply (object_enter v data 0 0 w wk1 tl _ Hd Hd1 Hw Hwk1 Hs).
  apply (members_run v data 1 (","%byte :: w' ++ ["}"%byte]) _ Hd1)
    with (ms := ms) (k := k) (wk := wk) (px := px).
  - intros k' wk' w1' x' w2' i' en' e' Hk' Hwk' Hacc' Hf' Hw1' Hw2' Hc' Hs'.
    change (List.length data - 0 - 1)%nat
      with (List.length data - List.length (@nil byte) - 1)%nat.
    apply (member_stray v data 1 Hd1 k' wk' w1' x' w2' i' en' e' w' []); auto.
    + now apply fits_scanned.
    + now apply (fits_nonempty v 1).
  - apply all_accepted_members.
  - cbn [forallb fst snd pad_ok]. cbn [forallb andb]. now rewrite Hk, Hwk, Hpx, Hrest.
  - rewrite Z.add_0_l. exact Hcount.
  - exact (skipn_app_inv _ _ _ _ (skipn_app_inv _ _ _ _ Hs1)).
Qed.

(** X14. A comma after the last element of an array, or after the last
    member of an object, makes the document malformed, whatever white space
    stands between the comma and the closing bracket. *)
Theorem trailing_comma_rejected (v : Verify) (w w' : list byte)
    (p : padded value) (ps : list (padded value))
    (m : padded (list piece) * padded value)
    (ms : list (padded (list piece) * padded value)) :
  depth_exceeded v 0 = false -> forallb is_space w' = true ->
  (fits v 0 (VArray w (p :: ps)) = true ->
   VerifyBytes v
     ("["%byte :: w ++ sep_by "," (map (pad print) (p :: ps))
      ++ ","%byte :: w' ++ ["]"%byte])
   = Ret (false, Some ErrInvalidJSON))
  /\ (fits v 0 (VObject w (m :: ms)) = true ->
      VerifyBytes v
        ("{"%byte :: w ++ sep_by "," (map (member_text print) (m :: ms))
         ++ ","%byte :: w' ++ ["}"%byte])
      = Ret (false, Some ErrInvalidJSON)).
Proof.
  intros Hd Hw'. split; intros Hf.
  - now apply array_trailing_comma.
  - now apply object_trailing_comma.
Qed.

Lemma trailing_comma_rejected_witness :
  VerifyBytes zeroVerify (json "[1,2, ]") = Ret (false, Some ErrInvalidJSON)
  /\ VerifyBytes zeroVerify (json "{'a':1,}") = Ret (false, Some ErrInvalidJSON).
Proof.
  destruct (trailing_comma_rejected zeroVerify [] (json " ")
              ([], VNumber (Number false ["1"%byte] None None), [])
              [([], VNumber (Number false ["2"%byte] None None), [])]
              (([], [Plain "a"], []),
               ([], VNumber (Number false ["1"%byte] None None), [])) []
              eq_refl eq_refl) as [Ha _].
  destruct (trailing_comma_rejected zeroVerify [] []
              ([], VNumber (Number false ["1"%byte] None None), [])
              [([], VNumber (Number false ["2"%byte] None None), [])]
              (([], [Plain "a"], []),
               ([], VNumber (Number false ["1"%byte] None None), [])) []
              eq_refl eq_refl) as [_ Ho].
  split; [exact (Ha eq_refl) | exact (Ho eq_refl)].
Defined.

(** * Strings of any length in an array *)

Lemma string_scanned (v : Verify) (d : Z) (ps : list piece) :
  forallb piece_ok ps = true -> depth_exceeded v d = false ->
  scanned v d (VString ps) (string_error v ps).
Proof.
  intros Hp Hd data i rest Hs Hr. cbn [print] in *.
  destruct (token_scans data i ps rest Hp Hs) as (E & Hstr & _).
  apply (validany_string data v i _ true _ d E Hd Hstr).
  apply (validateStringLength_token data i ps rest _ _ _ Hs).
Qed.

Lemma more_parts (sep : byte) (T : list byte) (parts : list (list byte)) :
  parts <> [] ->
  fold_right (fun q acc => sep :: q ++ acc) T parts = sep :: sep_by sep parts ++ T.
Proof.
  destruct parts as [|q qs]; [congruence|]. intros _.
  cbn [fold_right]. now rewrite sep_by_cons.
Qed.

Lemma elems_strings (v : Verify) (data rest : list byte) (d : Z)
    (q : padded value) (qs : list (padded value))
    (strs : list (padded (list piece))) :
  depth_exceeded v d = false ->
  forallb (pad_ok (fits v d)) (q :: qs) = true ->
  forall (i : nat) (ch : Z) (e : option error),
    forallb (pad_ok (forallb piece_ok)) strs = true ->
    arrayEntryCountEnabled v
    && (ch + Z.of_nat (List.length (map string_element strs ++ q :: qs)) >? MaxArrayElementCount v)
    = false ->
    skipn i data
    = sep_by "," (map (pad print) (map string_element strs ++ q :: qs))
      ++ "]"%byte :: rest ->
    isValidArray_elems_returns data i ch e d v
      (Scan (List.length data - List.length rest) true None (d - 1)).
Proof.
  intros Hd Hfit. induction strs as [|s strs IH]; intros i ch e Hstrs Hcount Hs.
  - cbn [map app] in *.
    apply (elems_run v data d ("]"%byte :: rest) _ Hd) with (ps := qs) (p := q);
      auto using all_accepted_elements.
    intros w1 x w2 i' ch' e' Hx Hf Hw1 Hw2 Hc Hs'.
    apply (element_last v data d Hd w1 x w2 None i' ch' e' rest); auto.
    + now apply fits_scanned.
    + now apply (fits_nonempty v d).
  - cbn [forallb] in Hstrs. apply andb_prop in Hstrs. destruct Hstrs as [Hs_ok Hstrs].
    destruct (pad_ok_inv _ _ Hs_ok) as (w1 & ps & w2 & -> & Hw1 & Hp & Hw2).
    cbn [map app string_element] in Hs. rewrite sep_by_cons in Hs.
    rewrite more_parts in Hs by (destruct strs; discriminate).
    change (List.length (map string_element ((w1, ps, w2) :: strs) ++ q :: qs))
      with (S (List.length (map string_element strs ++ q :: qs))) in Hcount.
    destruct (count_step _ _ _ _ Hcount) as [Hc1 Hc2].
    match type of Hs with
    | _ = _ ++ _ :: ?t =>
        apply (element_more v data d Hd w1 (VString ps) w2 (string_error v ps) i ch e
                 t _ (string_scanned v d ps Hp Hd) Hw1 Hw2)
    end; auto.
    + discriminate.
    + apply IH; auto.
      exact (proj2 (skipn_cons_inv _ _ _ _ (skipn_app_inv _ _ _ _ Hs))).
Qed.

(** X15. An array accepts strings of any length, whatever the limit on
    string values, so long as an element that fits comes after them:
    [isValidArray] goes on after an element that [validany] returned with
    [ok] and the length error, and the next element overwrites the error. *)
Theorem array_forgets_string_length (v : Verify) (w : list byte)
    (strs : list (padded (list piece))) (q : padded value)
    (qs : list (padded value)) :
  depth_exceeded v 0 = false -> depth_exceeded v 1 = false ->
  forallb is_space w = true ->
  forallb (pad_ok (forallb piece_ok)) strs = true ->
  forallb (pad_ok (fits v 1)) (q :: qs) = true ->
  arrayEntryCountEnabled v
  && (Z.of_nat (List.length (map string_element strs ++ q :: qs)) >? MaxArrayElementCount v) = false ->
  VerifyBytes v (print (VArray w (map string_element strs ++ q :: qs)))
  = Ret (true, None).
Proof.
  intros Hd Hd1 Hw Hstrs Hfit Hcount.
  set (data := print (VArray w (map string_element strs ++ q :: qs))).
  assert (Hs : skipn 0 data
               = "["%byte :: w
                 ++ sep_by "," (map (pad print) (map string_element strs ++ q :: qs))
                 ++ ["]"%byte]) by reflexivity.
  apply (VerifyBytes_accepts v data "[" (Scan (List.length data - 0) true None (1 - 1)));
    try reflexivity.
  destruct strs as [|[[w1 ps] w2] strs].
  - cbn [map app] in *.
    pose proof Hfit as Hfit'. cbn [forallb] in Hfit'.
    apply andb_prop in Hfit'. destruct Hfit' as [Hq_ok Hqs].
    destruct (pad_ok_inv _ _ Hq_ok) as (w1 & x & w2 & -> & Hw1 & Hx & Hw2).
    cbn [map] in Hs. rewrite sep_by_cons in Hs. cbn [pad] in Hs.
    rewrite <- !app_assoc in Hs.
    apply (array_enter v data 0 0 w w1 x _ _ Hd Hd1 Hw Hw1 (fits_head v _ x Hx) Hs).
    apply (elems_strings v data [] 1 ([], x, w2) qs [] Hd1); auto.
    + cbn [forallb pad_ok]. cbn [forallb andb]. now rewrite Hx, Hw2, Hqs.
    + cbn [map app]. rewrite sep_by_cons. cbn [pad app]. rewrite <- ?app_assoc.
      destruct (skipn_cons_inv _ _ _ _ Hs) as [_ Hs1].
      exact (skipn_app_inv _ _ _ _ (skipn_app_inv _ _ _ _ Hs1)).
  - pose proof Hstrs as Hstrs'. cbn [forallb pad_ok] in Hstrs'.
    apply andb_prop in Hstrs'. destruct Hstrs' as [Hs_ok Hrest].
    apply andb_prop in Hs_ok. destruct Hs_ok as [Hs_ok Hw2].
    apply andb_prop in Hs_ok. destruct Hs_ok as [Hw1 Hp].
    cbn [map app string_element] in Hs. rewrite sep_by_cons in Hs. cbn [pad] in Hs.
    rewrite <- !app_assoc in Hs.
    assert (Hhead : exists c tl, print (VString ps) = c :: tl /\ is_space c = false
                                 /\ Byte.eqb c "]" = false)
      by (do 2 eexists; split_all; reflexivity).
    apply (array_enter v data 0 0 w w1 (VString ps) _ _ Hd Hd1 Hw Hw1 Hhead Hs).
    apply (elems_strings v data [] 1 q qs (([], ps, w2) :: strs) Hd1 Hfit).
    + cbn [forallb pad_ok]. cbn [forallb andb]. now rewrite Hp, Hw2, Hrest.
    + rewrite Z.add_0_l. exact Hcount.
    + cbn [map app string_element]. rewrite sep_by_cons. cbn [pad app].
      rewrite <- ?app_assoc.
      destruct (skipn_cons_inv _ _ _ _ Hs) as [_ Hs1].
      exact (skipn_app_inv _ _ _ _ (skipn_app_inv _ _ _ _ Hs1)).
Qed.

(** Two strings of five and of four characters before a number, with the
    string limit at 1. *)
Lemma array_forgets_string_length_witness :
  VerifyBytes (string_length_only 1) (json "['abcde' ,'wxyz', 0]") = Ret (true, None).
Proof.
  exact (array_forgets_string_length (string_length_only 1) []
           [ ([], [Plain "a"; Plain "b"; Plain "c"; Plain "d"; Plain "e"], json " ");
             ([], [Plain "w"; Plain "x"; Plain "y"; Plain "z"], []) ]
           (json " ", VNumber (Number false ["0"%byte] None None), []) []
           eq_refl eq_refl eq_refl eq_refl eq_refl eq_refl).
Defined.

(** * The length of a string *)

Lemma RuneCount_ascii (l rest : list byte) :
  forallb is_ascii l = true ->
  RuneCount (l ++ rest) = Z.of_nat (List.length l) + RuneCount rest.
Proof.
  induction l as [|b l IH]; intros H; [reflexivity|].
  cbn [forallb] in H. apply andb_prop in H. destruct H as [Hb Hl].
  change ((b :: l) ++ rest) with ([b] ++ l ++ rest).
  rewrite (RuneCount_char [b] _ Hb), (IH Hl). cbn [List.length]. lia.
Qed.

Lemma RuneCount_token_ascii (ps : list piece) :
  forallb is_ascii (content ps) = true ->
  RuneCount (token ps) - 2 = Z.of_nat (List.length (content ps)).
Proof.
  intros H. unfold token.
  change (QUOTE :: content ps ++ [QUOTE]) with ([QUOTE] ++ content ps ++ [QUOTE]).
  rewrite (RuneCount_ascii [QUOTE]) by reflexivity.
  rewrite (RuneCount_ascii (content ps)) by exact H.
  change (RuneCount [QUOTE]) with 1. cbn [List.length]. lia.
Qed.

(** X16. The length of a string value is the number of runes between its
    quotes as they are written: an escape counts for each of its bytes, two
    for [\n] and six for [\u00e9], not for the one character it stands
    for.  A string of bytes below [0x80] passes when that number is at most
    the limit and fails with the error that reports it otherwise. *)
Theorem string_length_counts_escapes (v : Verify) (ps : list piece) :
  depth_exceeded v 0 = false ->
  forallb piece_ok ps = true -> forallb is_ascii (content ps) = true ->
  VerifyBytes v (token ps)
  = if stringLenEnabled v
       && (Z.of_nat (List.length (content ps)) >? StringValueLen v)
    then Ret (false,
              Some (errLimit stringValueLength (StringValueLen v)
                      (Z.of_nat (List.length (content ps)))))
    else Ret (true, None).
Proof.
  intros Hd Hp Ha. set (data := token ps).
  assert (Hs : skipn 0 data = print (VString ps) ++ []) by (now rewrite app_nil_r).
  pose proof (string_scanned v 0 ps Hp Hd data 0%nat [] Hs eq_refl) as Hv.
  unfold string_error in Hv. rewrite (RuneCount_token_ascii ps Ha) in Hv.
  destruct (stringLenEnabled v && _).
  - now apply (VerifyBytes_rejects v data QUOTE _ _ eq_refl eq_refl Hv).
  - now apply (VerifyBytes_accepts v data QUOTE _ eq_refl eq_refl Hv).
Qed.

(** The string that is written [\u00e9] under the limit 5. *)
Lemma string_length_counts_escapes_witness :
  VerifyBytes (string_length_only 5) (json "'\u00e9'")
  = Ret (false, Some "jtp.maxStringValueLengthReached.Max-[5]-Allowed.Found-[6]"%string).
Proof.
  exact (string_length_counts_escapes (string_length_only 5)
           [Unicode "0" "0" "e" "9"] eq_refl eq_refl eq_refl).
Defined.

(** X17. A string that the end of the buffer cuts short is not always
    reported as malformed: the length check runs on the text up to the end
    of the buffer, and when the runes of that text, less two, are more than
    the limit, the error is the length error. *)
Theorem unterminated_string (v : Verify) (ps : list piece) :
  depth_exceeded v 0 = false -> forallb piece_ok ps = true ->
  VerifyBytes v (QUOTE :: content ps)
  = Ret (false,
         Some (if stringLenEnabled v
                  && (RuneCount (QUOTE :: content ps) - 2 >? StringValueLen v)
               then errLimit stringValueLength (StringValueLen v)
                      (RuneCount (QUOTE :: content ps) - 2)
               else ErrInvalidJSON)).
Proof.
  intros Hd Hp. set (data := QUOTE :: content ps).
  assert (Hs : skipn 1 data = content ps ++ []) by (cbn [skipn data]; now rewrite app_nil_r).
  pose proof (isValidateString_stops data 1 ps [] 0 Hp Hs stops_end) as Hstr.
  assert (Ho : (1 + List.length (content ps) + 0)%nat = List.length data)
    by (cbn [data List.length]; lia).
  rewrite Ho in Hstr.
  assert (Hlen : validateStringLength data 0 (List.length data) (stringLenEnabled v)
                   (StringValueLen v) stringValueLength
                 = Ret (if stringLenEnabled v && (RuneCount data - 2 >? StringValueLen v)
                        then Some (errLimit stringValueLength (StringValueLen v)
                                     (RuneCount data - 2))
                        else None)).
  { unfold validateStringLength. rewrite Nat.leb_refl. cbn [Nat.leb andb skipn].
    rewrite Nat.sub_0_r, firstn_all. now destruct (stringLenEnabled v && _). }
  pose proof (validany_string data v 0 _ false _ 0 eq_refl Hd Hstr Hlen) as Hv.
  destruct (stringLenEnabled v && _).
  - now apply (VerifyBytes_rejects v data QUOTE _ _ eq_refl eq_refl Hv).
  - now apply (VerifyBytes_malformed v data QUOTE _ eq_refl eq_refl Hv).
Qed.

(** The five bytes of an opening quote and [abcd], under the limits 2
    and 3. *)
Lemma unterminated_string_witness :
  VerifyBytes (string_length_only 2) (json "'abcd")
  = Ret (false, Some "jtp.maxStringValueLengthReached.Max-[2]-Allowed.Found-[3]"%string)
  /\ VerifyBytes (string_length_only 3) (json "'abcd")
     = Ret (false, Some ErrInvalidJSON).
Proof.
  split.
  - exact (unterminated_string (string_length_only 2)
             [Plain "a"; Plain "b"; Plain "c"; Plain "d"] eq_refl eq_refl).
  - exact (unterminated_string (string_length_only 3)
             [Plain "a"; Plain "b"; Plain "c"; Plain "d"] eq_refl eq_refl).
Defined.

(** * Leading zeros *)

(** The driver on a buffer that starts with a value and goes on with a
    byte that is not white space. *)
Lemma VerifyBytes_trailing (v : Verify) (data : list byte) (c c' : byte) (a : scan) :
  nth_error data 0 = Some c -> is_space c = false ->
  validany_returns data 0 0 v a -> res_ok a = true -> res_err a = None ->
  nth_error data (res_i a) = Some c' -> is_space c' = false ->
  VerifyBytes v data = Ret (false, Some ErrInvalidJSON).
Proof.
  intros E Hc [f Ha] Hok He E' Hc'.
  apply validany_fuel_for in Ha; [|lia].
  pose proof (nth_error_lt _ _ _ E) as Hl. pose proof (nth_error_lt _ _ _ E') as Hl'.
  unfold VerifyBytes, isValidJSON.
  destruct (List.length data - 0)%nat as [|n] eqn:En; [lia|].
  cbn [isValidJSON_loop]. rewrite E, Hc, Ha. cbn [bind]. rewrite Hok, He.
  cbn [negb is_err orb].
  destruct (List.length data - res_i a)%nat as [|n'] eqn:En'; [lia|].
  cbn [isValidJSON_rest]. rewrite E', Hc'. reflexivity.
Qed.

(** X18. The scan of a number stops behind a leading zero: [isValidNumber]
    succeeds there and leaves the digits that follow, and the document whose
    value is such a number, [01] or [-007], is malformed. *)
Theorem leading_zero_rejected (v : Verify) (sign : bool) (d : byte)
    (rest : list byte) :
  is_digit d = true -> depth_exceeded v 0 = false ->
  isValidNumber ((if sign then ["-"%byte] else []) ++ "0"%byte :: d :: rest) 1
  = Ret ((if sign then 2 else 1)%nat, true)
  /\ VerifyBytes v ((if sign then ["-"%byte] else []) ++ "0"%byte :: d :: rest)
     = Ret (false, Some ErrInvalidJSON).
Proof.
  intros Hdigit Hd.
  set (data := (if sign then ["-"%byte] else []) ++ "0"%byte :: d :: rest).
  assert (Hsp : is_space d = false)
    by (clear -Hdigit; destruct d; try discriminate Hdigit; reflexivity).
  assert (Hends : ends_number (d :: rest) = true)
    by (clear -Hdigit; destruct d; try discriminate Hdigit; reflexivity).
  assert (Hn : isValidNumber data 1 = Ret ((if sign then 2 else 1)%nat, true)).
  { unfold isValidNumber, index. subst data. destruct sign; cbn [app nth_error bind].
    - change (Byte.eqb "-" "-") with true. cbv iota.
      change (1 =? List.length ("-"%byte :: "0"%byte :: d :: rest))%nat with false.
      cbv iota. change (nth_error ("-"%byte :: "0"%byte :: d :: rest) 1)
        with (Some "0"%byte). cbn [bind].
      change (Byte.eqb "0" "0") with true. cbv iota.
      apply (isValidNumber_frac_stop _ 2 (d :: rest)); auto. cbn [List.length]. lia.
    - change (Byte.eqb "0" "-") with false. cbv iota.
      change (0 =? List.length ("0"%byte :: d :: rest))%nat with false.
      cbv iota. change (nth_error ("0"%byte :: d :: rest) 0) with (Some "0"%byte).
      cbn [bind]. change (Byte.eqb "0" "0") with true. cbv iota.
      apply (isValidNumber_frac_stop _ 1 (d :: rest)); auto. cbn [List.length]. lia. }
  split; [exact Hn|].
  assert (E0 : exists c, nth_error data 0 = Some c /\ is_number_start c = true
                         /\ is_space c = false)
    by (subst data; destruct sign; eexists; split_all; reflexivity).
  destruct E0 as (c & E0 & Hc & Hc').
  pose proof (validany_number data v 0 _ true c 0 E0 Hc Hd Hn) as Hv.
  apply (VerifyBytes_trailing v data c d _ E0 Hc' Hv); auto.
  subst data. destruct sign; reflexivity.
Qed.

Lemma leading_zero_rejected_witness :
  VerifyBytes zeroVerify (json "01") = Ret (false, Some ErrInvalidJSON)
  /\ VerifyBytes zeroVerify (json "-007") = Ret (false, Some ErrInvalidJSON).
Proof.
  split.
  - apply (leading_zero_rejected zeroVerify false "1" []); reflexivity.
  - apply (leading_zero_rejected zeroVerify true "0" ["7"%byte]); reflexivity.
Defined.

(** * What the validators accept

    The converse of [document_verified]: a buffer that is accepted is the
    text of a document that the validators admit. *)

(** Two texts that are the same list, up to the grouping of its parts. *)
Ltac same_text := repeat first [progress cbn [app] | rewrite <- app_assoc]; reflexivity.

Lemma index_Ret (data : list byte) (i : nat) (c : byte) :
  index data i = Ret c -> nth_error data i = Some c.
Proof. unfold index. destruct (nth_error data i); congruence. Qed.

Lemma at_is_nth (data : list byte) (i : nat) (c : byte) :
  at_is data i c = true -> nth_error data i = Some c.
Proof.
  unfold at_is. destruct (nth_error data i) as [b|]; [|discriminate].
  intros H. apply byte_dec_bl in H. now subst b.
Qed.

Lemma digit_test (c : byte) :
  byte_ltb c "0" || byte_ltb "9" c = false -> is_digit c = true.
Proof.
  unfold is_digit, byte_ltb, byte_leb. intros H. apply orb_false_elim in H.
  destruct H as [H1 H2]. rewrite N.ltb_antisym in H1, H2.
  apply negb_false_iff in H1, H2. now rewrite H1, H2.
Qed.

(** ** The leaves *)

Lemma isValidTrue_inv (data : list byte) (i o : nat) :
  nth_error data i = Some "t"%byte -> isValidTrue data (S i) = (o, true) ->
  skipn i data = print VTrue ++ skipn o data.
Proof.
  intros E H. unfold isValidTrue in H.
  destruct (_ && _) eqn:T in H; [|discriminate]. injection H as <-.
  apply andb_prop in T. destruct T as [T T3]. apply andb_prop in T.
  destruct T as [T T2]. apply andb_prop in T. destruct T as [_ T1].
  apply at_is_nth in T1, T2, T3.
  replace (S i + 1)%nat with (S (S i)) in T2 by lia.
  replace (S i + 2)%nat with (S (S (S i))) in T3 by lia.
  match goal with
  | |- context [skipn ?k data] => replace k with (S (S (S (S i)))) by lia
  end.
  rewrite (skipn_nth _ _ _ E), (skipn_nth _ _ _ T1), (skipn_nth _ _ _ T2),
    (skipn_nth _ _ _ T3). reflexivity.
Qed.

Lemma isValidNull_inv (data : list byte) (i o : nat) :
  nth_error data i = Some "n"%byte -> isValidNull data (S i) = (o, true) ->
  skipn i data = print VNull ++ skipn o data.
Proof.
  intros E H. unfold isValidNull in H.
  destruct (_ && _) eqn:T in H; [|discriminate]. injection H as <-.
  apply andb_prop in T. destruct T as [T T3]. apply andb_prop in T.
  destruct T as [T T2]. apply andb_prop in T. destruct T as [_ T1].
  apply at_is_nth in T1, T2, T3.
  replace (S i + 1)%nat with (S (S i)) in T2 by lia.
  replace (S i + 2)%nat with (S (S (S i))) in T3 by lia.
  match goal with
  | |- context [skipn ?k data] => replace k with (S (S (S (S i)))) by lia
  end.
  rewrite (skipn_nth _ _ _ E), (skipn_nth _ _ _ T1), (skipn_nth _ _ _ T2),
    (skipn_nth _ _ _ T3). reflexivity.
Qed.

Lemma isValidComma_loop_inv (data : list byte) (e : byte) (n i o : nat) :
  isValidComma_loop n data i e = (o, true) ->
  exists ws c,
    forallb is_space ws = true /\ (c = ","%byte \/ c = e)
    /\ nth_error data o = Some c
    /\ skipn i data = ws ++ c :: skipn (S o) data.
Proof.
  revert i. induction n as [|n IH]; intros i H; cbn [isValidComma_loop] in H;
    [discriminate|].
  destruct (nth_error data i) as [c|] eqn:E; [|discriminate].
  destruct (is_space c) eqn:Hsp.
  - destruct (IH _ H) as (ws & c' & Hws & Hc & Eo & Hs).
    exists (c :: ws), c'. split_all; auto.
    + cbn [forallb]. now rewrite Hsp.
    + rewrite (skipn_nth _ _ _ E), Hs. reflexivity.
  - destruct (Byte.eqb c ",") eqn:H1.
    + injection H as <-. apply byte_dec_bl in H1. subst c.
      exists [], ","%byte. split_all; auto. exact (skipn_nth _ _ _ E).
    + destruct (Byte.eqb c e) eqn:H2; [|discriminate].
      injection H as <-. apply byte_dec_bl in H2. subst c.
      exists [], e. split_all; auto. exact (skipn_nth _ _ _ E).
Qed.

Lemma isValidColon_loop_inv (data : list byte) (n i o : nat) :
  isValidColon_loop n data i = (o, true) ->
  exists ws, forallb is_space ws = true
             /\ skipn i data = ws ++ ":"%byte :: skipn o data.
Proof.
  revert i. induction n as [|n IH]; intros i H; cbn [isValidColon_loop] in H;
    [discriminate|].
  destruct (nth_error data i) as [c|] eqn:E; [|discriminate].
  destruct (is_space c) eqn:Hsp.
  - destruct (IH _ H) as (ws & Hws & Hs). exists (c :: ws). split.
    + cbn [forallb]. now rewrite Hsp.
    + rewrite (skipn_nth _ _ _ E), Hs. reflexivity.
  - destruct (Byte.eqb c ":") eqn:H1; [|discriminate].
    injection H as <-. apply byte_dec_bl in H1. subst c.
    exists []. split; [reflexivity|]. exact (skipn_nth _ _ _ E).
Qed.

(** ** Numbers *)

Lemma digits_loop_inv (data : list byte) (n i : nat) :
  exists ds, forallb is_digit ds = true
             /\ skipn i data = ds ++ skipn (digits_loop n data i) data.
Proof.
  revert i. induction n as [|n IH]; intros i; cbn [digits_loop].
  - now exists [].
  - destruct (nth_error data i) as [c|] eqn:E; [|now exists []].
    destruct (is_digit c) eqn:Hd; [|now exists []].
    destruct (IH (S i)) as (ds & Hds & Hs). exists (c :: ds). split.
    + cbn [forallb]. now rewrite Hd.
    + rewrite (skipn_nth _ _ _ E), Hs. reflexivity.
Qed.

Lemma digits_inv (data : list byte) (i : nat) :
  exists ds, forallb is_digit ds = true
             /\ skipn i data = ds ++ skipn (digits data i) data.
Proof. apply digits_loop_inv. Qed.

(** The digits from a digit on. *)
Lemma digits_from_digit (data : list byte) (i : nat) (c : byte) :
  nth_error data i = Some c -> is_digit c = true ->
  exists ds, forallb is_digit ds = true
             /\ skipn i data = c :: ds ++ skipn (digits data (S i)) data.
Proof.
  intros E Hc. destruct (digits_inv data (S i)) as (ds & Hds & Hs).
  exists ds. split; [exact Hds|]. rewrite (skipn_nth _ _ _ E), Hs. reflexivity.
Qed.

Lemma isValidNumber_exp_inv (data : list byte) (i o : nat) :
  isValidNumber_exp data i = Ret (o, true) ->
  exists e, exp_ok e = true /\ skipn i data = exp_bytes e ++ skipn o data.
Proof.
  unfold isValidNumber_exp. intros H.
  destruct (i =? List.length data)%nat.
  { injection H as <-. now exists None. }
  destruct (index data i) as [c| |] eqn:E; cbn [bind] in H; try discriminate.
  apply index_Ret in E.
  destruct (Byte.eqb c "e" || Byte.eqb c "E") eqn:Hl.
  2:{ injection H as <-. now exists None. }
  destruct (S i =? List.length data)%nat; [discriminate|].
  destruct (index data (S i)) as [s| |] eqn:E1; cbn [bind] in H; try discriminate.
  apply index_Ret in E1.
  destruct (Byte.eqb s "+" || Byte.eqb s "-") eqn:Hsign.
  - destruct (S (S i) =? List.length data)%nat; [discriminate|].
    destruct (index data (S (S i))) as [c2| |] eqn:E2; cbn [bind] in H;
      try discriminate.
    apply index_Ret in E2.
    destruct (byte_ltb c2 "0" || byte_ltb "9" c2) eqn:Hd; [discriminate|].
    injection H as <-. apply digit_test in Hd.
    destruct (digits_from_digit data _ c2 E2 Hd) as (ds & Hds & Hs).
    exists (Some (c, Some s, c2 :: ds)). split.
    + cbn [exp_ok digits_ok forallb]. now rewrite Hl, Hsign, Hd, Hds.
    + cbn [exp_bytes app]. rewrite (skipn_nth _ _ _ E), (skipn_nth _ _ _ E1), Hs.
      reflexivity.
  - cbn [bind] in H.
    destruct (S i =? List.length data)%nat; [discriminate|].
    rewrite (index_Some _ _ _ E1) in H. cbn [bind] in H.
    destruct (byte_ltb s "0" || byte_ltb "9" s) eqn:Hd; [discriminate|].
    injection H as <-. apply digit_test in Hd.
    destruct (digits_from_digit data _ s E1 Hd) as (ds & Hds & Hs).
    exists (Some (c, None, s :: ds)). split.
    + cbn [exp_ok digits_ok forallb]. now rewrite Hl, Hd, Hds.
    + cbn [exp_bytes app]. rewrite (skipn_nth _ _ _ E), Hs. reflexivity.
Qed.

Lemma isValidNumber_frac_inv (data : list byte) (i o : nat) :
  isValidNumber_frac data i = Ret (o, true) ->
  exists f e, frac_ok f = true /\ exp_ok e = true
              /\ skipn i data = frac_bytes f ++ exp_bytes e ++ skipn o data.
Proof.
  unfold isValidNumber_frac. intros H.
  destruct (i =? List.length data)%nat.
  { injection H as <-. now exists None, None. }
  destruct (index data i) as [c| |] eqn:E; cbn [bind] in H; try discriminate.
  apply index_Ret in E.
  destruct (Byte.eqb c ".") eqn:Hp.
  - apply byte_dec_bl in Hp. subst c.
    destruct (S i =? List.length data)%nat; [discriminate|].
    destruct (index data (S i)) as [c1| |] eqn:E1; cbn [bind] in H;
      try discriminate.
    apply index_Ret in E1.
    destruct (byte_ltb c1 "0" || byte_ltb "9" c1) eqn:Hd; [discriminate|].
    apply digit_test in Hd.
    destruct (digits_from_digit data _ c1 E1 Hd) as (ds & Hds & Hs).
    destruct (isValidNumber_exp_inv _ _ _ H) as (e & He & Hs1).
    exists (Some (c1 :: ds)), e. split_all; auto.
    + cbn [frac_ok digits_ok forallb]. now rewrite Hd, Hds.
    + cbn [frac_bytes app]. rewrite (skipn_nth _ _ _ E), Hs, Hs1.
      cbn [app]. rewrite <- ?app_assoc. reflexivity.
  - destruct (isValidNumber_exp_inv _ _ _ H) as (e & He & Hs1).
    exists None, e. split_all; auto.
Qed.

Lemma int_ok_digits (c : byte) (ds : list byte) :
  is_digit c = true -> Byte.eqb c "0" = false -> forallb is_digit ds = true ->
  int_ok (c :: ds) = true.
Proof. intros Hc H0 Hds. cbn [int_ok forallb]. now rewrite H0, Hc, Hds. Qed.

(** The integer part: from the index [i] behind the sign, if there is one,
    [0] alone, or the digits that are there. *)
Lemma isValidNumber_int_inv (data : list byte) (i : nat) (c : byte) :
  nth_error data i = Some c ->
  exists ds,
    skipn i data
    = ds ++ skipn (if Byte.eqb c "0" then S i else digits data i) data
    /\ (int_ok ds = true \/ ds = [] /\ is_digit c = false).
Proof.
  intros E. destruct (Byte.eqb c "0") eqn:H0.
  - apply byte_dec_bl in H0. subst c. exists ["0"%byte]. split; [|now left].
    exact (skipn_nth _ _ _ E).
  - destruct (is_digit c) eqn:Hc.
    + destruct (digits_inv data i) as (ds & Hds & Hs).
      destruct ds as [|c' ds].
      * exfalso. cbn [app] in Hs. unfold digits in Hs.
        pose proof (nth_error_lt _ _ _ E) as Hlt.
        destruct (List.length data - i)%nat as [|n] eqn:En; [lia|].
        cbn [digits_loop] in Hs. rewrite E, Hc in Hs.
        apply skipn_length_inv in Hs. rewrite length_skipn in Hs.
        pose proof (digits_loop_bounds data n (S i)). lia.
      * exists (c' :: ds). split; [exact Hs|]. left.
        rewrite (skipn_nth _ _ _ E) in Hs. cbn [app] in Hs.
        injection Hs as <- _. cbn [forallb] in Hds. apply andb_prop in Hds.
        destruct Hds as [_ Hds]. now apply int_ok_digits.
    + exists []. split; [|now right]. cbn [app]. unfold digits.
      destruct (List.length data - i)%nat as [|n]; cbn [digits_loop];
        [reflexivity|]. now rewrite E, Hc.
Qed.

Lemma isValidNumber_inv (data : list byte) (i o : nat) (c : byte) :
  nth_error data i = Some c -> is_number_start c = true ->
  isValidNumber data (S i) = Ret (o, true) ->
  exists x, number_admitted x = true
            /\ skipn i data = number_bytes x ++ skipn o data.
Proof.
  intros E Hc H. unfold isValidNumber in H.
  rewrite (index_Some _ _ _ E) in H. cbn [bind] in H.
  destruct (Byte.eqb c "-") eqn:Hm.
  - apply byte_dec_bl in Hm. subst c.
    destruct (S i =? List.length data)%nat; [discriminate|].
    destruct (index data (S i)) as [c1| |] eqn:E1; cbn [bind] in H;
      try discriminate.
    apply index_Ret in E1.
    destruct (isValidNumber_int_inv data (S i) c1 E1) as (ds & Hs & Hds).
    destruct (isValidNumber_frac_inv _ _ _ H) as (f & e & Hf & He & Hs1).
    exists (Number true ds f e). split.
    + unfold number_admitted. cbn [minus int_part frac_part exp_part].
      rewrite Hf, He. destruct Hds as [-> | [-> _]]; reflexivity.
    + unfold number_bytes. cbn [minus int_part frac_part exp_part app].
      rewrite (skipn_nth _ _ _ E), Hs, Hs1. rewrite <- ?app_assoc. reflexivity.
  - destruct (i =? List.length data)%nat; [discriminate|].
    rewrite (index_Some _ _ _ E) in H. cbn [bind] in H.
    destruct (isValidNumber_int_inv data i c E) as (ds & Hs & Hds).
    destruct (isValidNumber_frac_inv _ _ _ H) as (f & e & Hf & He & Hs1).
    destruct (is_number_start_cases c Hc) as [-> | Hd]; [discriminate|].
    destruct Hds as [Hds | [_ Hn]]; [|congruence].
    exists (Number false ds f e). split.
    + unfold number_admitted. cbn [minus int_part frac_part exp_part].
      now rewrite Hds, Hf, He.
    + unfold number_bytes. cbn [minus int_part frac_part exp_part app].
      rewrite Hs, Hs1. same_text.
Qed.

(** ** The validators *)

Lemma admits_array (v : Verify) (d : Z) (w : list byte) (xs : list (padded value)) :
  admits v d (VArray w xs)
  = forallb is_space w
    && negb (depth_exceeded v (d + 1))
    && negb (arrayEntryCountEnabled v
             && (Z.of_nat (List.length xs) >? MaxArrayElementCount v))
    && forallb (element_admitted (admits v (d + 1))) xs.
Proof. reflexivity. Qed.

Lemma admits_object (v : Verify) (d : Z) (w : list byte)
    (ms : list (padded (list piece) * padded value)) :
  admits v d (VObject w ms)
  = forallb is_space w
    && negb (depth_exceeded v (d + 1))
    && negb (objectEntryCountEnabled v
             && (ObjectEntryCount v <? Z.of_nat (List.length ms)))
    && forallb (member_admitted v (admits v (d + 1))) ms.
Proof. reflexivity. Qed.

(** The text of the members, or of the elements, with one more in front. *)
Lemma sep_by_more (p : list byte) (q : list byte) (qs : list (list byte))
    (tl : list byte) :
  sep_by "," (p :: q :: qs) ++ tl = p ++ ","%byte :: sep_by "," (q :: qs) ++ tl.
Proof. rewrite sep_by_two, <- app_assoc. reflexivity. Qed.

Section Sound.

Variables (data : list byte) (v : Verify).
Hypothesis Hv : well_configured v.

Section Step.

Variable fuel : nat.
Hypothesis IH : sound_at data v fuel.

Lemma validany_loop_step (i : nat) (d : Z) (r : scan) :
  validany_loop (S fuel) data i d v = Ret r -> res_ok r = true ->
  value_found data v i d (res_i r).
Proof.
  destruct IH as (_ & IH2 & IH3 & _ & _ & IH6 & _).
  intros H Hok. unfold_validators_in H.
  destruct (nth_error data i) as [c|] eqn:E.
  2:{ inversion H; subst r. discriminate. }
  destruct (is_space c) eqn:Hsp.
  { destruct (IH2 _ _ _ H Hok) as (b & x & Hb & Hx & Hs).
    exists (c :: b), x. split_all; auto.
    - cbn [forallb]. unfold is_skipped at 1. now rewrite Hsp.
    - rewrite (skipn_nth _ _ _ E), Hs. reflexivity. }
  destruct (Byte.eqb c "{") eqn:Hobj.
  { apply byte_dec_bl in Hobj. subst c.
    destruct (IH6 _ _ _ H Hok) as (Hd & w & ms & Hw & Hms & Hcount & Hs).
    exists [], (VObject w ms). split_all; auto.
    - now rewrite admits_object, Hw, Hd, Hcount, Hms.
    - rewrite (skipn_nth _ _ _ E), Hs. cbn [print]. same_text. }
  destruct (Byte.eqb c "[") eqn:Harr.
  { apply byte_dec_bl in Harr. subst c.
    destruct (IH3 _ _ _ H Hok) as (Hd & w & xs & Hw & Hxs & Hcount & Hs).
    exists [], (VArray w xs). split_all; auto.
    - now rewrite admits_array, Hw, Hd, Hcount, Hxs.
    - rewrite (skipn_nth _ _ _ E), Hs. cbn [print]. same_text. }
  destruct (Byte.eqb c QUOTE) eqn:Hq.
  { apply byte_dec_bl in Hq. subst c.
    destruct (isValidateString data (S i)) as [o ok] eqn:Estr.
    destruct (validateStringLength data i o _ _ _) as [err| |];
      cbn [bind] in H; try discriminate.
    inversion H; subst r. cbn [res_ok res_i] in *. subst ok.
    destruct (isValidateString_loop_sound _ _ _ _ Estr) as (ps & Hp & Hs & _).
    exists [], (VString ps). split_all; auto.
    rewrite (skipn_nth _ _ _ E), Hs. cbn [print]. unfold token. same_text. }
  destruct (is_number_start c) eqn:Hnum.
  { destruct (isValidNumber data (S i)) as [[o ok]| |] eqn:En;
      cbn [bind] in H; try discriminate.
    inversion H; subst r. cbn [res_ok res_i fst snd] in *. subst ok.
    destruct (isValidNumber_inv _ _ _ _ E Hnum En) as (x & Hx & Hs).
    exists [], (VNumber x). split_all; auto. }
  destruct (Byte.eqb c "t") eqn:Ht.
  { apply byte_dec_bl in Ht. subst c.
    destruct (isValidTrue data (S i)) as [o ok] eqn:Et.
    inversion H; subst r. cbn [res_ok res_i] in *. subst ok.
    exists [], VTrue. split_all; auto. exact (isValidTrue_inv _ _ _ E Et). }
  destruct (Byte.eqb c "f") eqn:Hf.
  { destruct (isValidFalse data (S i)) as [o ok].
    destruct (IH2 _ _ _ H Hok) as (b & x & Hb & Hx & Hs).
    exists (c :: b), x. split_all; auto.
    - cbn [forallb]. unfold is_skipped at 1. now rewrite Hf, orb_true_r.
    - rewrite (skipn_nth _ _ _ E), Hs. reflexivity. }
  destruct (Byte.eqb c "n") eqn:Hn.
  { apply byte_dec_bl in Hn. subst c.
    destruct (isValidNull data (S i)) as [o ok] eqn:Et.
    inversion H; subst r. cbn [res_ok res_i] in *. subst ok.
    exists [], VNull. split_all; auto. exact (isValidNull_inv _ _ _ E Et). }
  inversion H; subst r. discriminate.
Qed.

Lemma isValidArray_elems_step (i : nat) (ch : Z) (e : option error) (d : Z)
    (r : scan) :
  isValidArray_elems (S fuel) data i ch e d v = Ret r -> res_ok r = true ->
  elements_found data v i ch d (res_i r).
Proof.
  destruct IH as (IH1 & _ & _ & _ & IH5 & _).
  intros H Hok. unfold_validators_in H.
  destruct (nth_error data i) as [c0|] eqn:E.
  2:{ inversion H; subst r. discriminate. }
  destruct (validany fuel data i d v) as [a| |] eqn:Ea; cbn [bind] in H;
    try discriminate.
  destruct (res_ok a) eqn:Hoka; cbn [negb] in H.
  2:{ inversion H; subst r. discriminate. }
  destruct (IH1 _ _ _ Ea Hoka) as (_ & b & x & Hb & Hx & Hs).
  destruct (depth_paired data v fuel) as (D1 & _).
  destruct (D1 _ _ _ Ea) as [Hda _]. specialize (Hda Hoka).
  destruct (isValidComma data (res_i a) "]") as [j ok] eqn:Ec.
  destruct ok; cbn [negb] in H.
  2:{ inversion H; subst r. discriminate. }
  destruct (isValidComma_loop_inv _ _ _ _ _ Ec) as (ws & c & Hws & Hc & Ej & Hs1).
  destruct (arrayEntryCountEnabled v && (ch + 1 >? MaxArrayElementCount v))
    eqn:Hcount.
  { inversion H; subst r. discriminate. }
  rewrite (index_Some _ _ _ Ej) in H. cbn [bind] in H.
  assert (Hp : element_admitted (admits v d) (b, x, ws) = true).
  { unfold element_admitted. now rewrite Hb, Hx, Hws. }
  destruct (Byte.eqb c "]") eqn:Hclose.
  - inversion H; subst r. cbn [res_i]. apply byte_dec_bl in Hclose. subst c.
    exists (b, x, ws), []. split_all.
    + cbn [forallb]. now rewrite Hp.
    + exact Hcount.
    + cbn [map sep_by pad]. rewrite Hs, Hs1. same_text.
  - destruct Hc as [-> | ->]; [|discriminate]. rewrite Hda in H.
    destruct (IH5 _ _ _ _ _ H Hok) as (p & ps & Hps & Hcount1 & Hs2).
    exists (b, x, ws), (p :: ps). split_all.
    + cbn [forallb] in *. now rewrite Hp, Hps.
    + rewrite <- Hcount1. do 2 f_equal. cbn [List.length]. lia.
    + cbn [map]. rewrite sep_by_more. cbn [map] in Hs2. rewrite <- Hs2.
      cbn [pad]. rewrite Hs, Hs1. same_text.
Qed.

Lemma isValidArray_loop_step (i : nat) (d : Z) (r : scan) :
  isValidArray_loop (S fuel) data i d v = Ret r -> res_ok r = true ->
  array_found data v i d (res_i r).
Proof.
  destruct IH as (_ & _ & _ & IH4 & IH5 & _).
  intros H Hok. unfold_validators_in H.
  destruct (nth_error data i) as [c|] eqn:E.
  2:{ inversion H; subst r. discriminate. }
  destruct (is_space c) eqn:Hsp.
  { destruct (IH4 _ _ _ H Hok) as (w & xs & Hw & Hxs & Hcount & Hs).
    exists (c :: w), xs. split_all; auto.
    - cbn [forallb]. now rewrite Hsp.
    - rewrite (skipn_nth _ _ _ E), Hs. reflexivity. }
  destruct (Byte.eqb c "]") eqn:Hclose.
  { inversion H; subst r. cbn [res_i]. apply byte_dec_bl in Hclose. subst c.
    exists [], []. split_all; [reflexivity | reflexivity | |].
    - specialize (Hv ArrayElementCount). cbn [limit_enabled limit_max] in Hv.
      destruct (arrayEntryCountEnabled v); [|reflexivity].
      cbn [andb List.length]. rewrite Z.gtb_ltb. apply Z.ltb_ge. lia.
    - exact (skipn_nth _ _ _ E). }
  destruct (IH5 _ _ _ _ _ H Hok) as (p & ps & Hps & Hcount & Hs).
  exists [], (p :: ps). split_all; auto.
Qed.

Lemma isValidObject_key_step (i : nat) (en : Z) (e : option error) (d : Z)
    (r : scan) :
  isValidObject_key (S fuel) data i en e d v = Ret r -> res_ok r = true ->
  nth_error data i = Some QUOTE ->
  members_found data v i en d (res_i r).
Proof.
  destruct IH as (IH1 & _ & _ & _ & _ & _ & _ & _ & IH9).
  intros H Hok E. unfold_validators_in H.
  destruct (isValidateString data (S i)) as [o ok] eqn:Estr.
  destruct ok; cbn [negb] in H.
  2:{ inversion H; subst r. discriminate. }
  destruct (isValidateString_loop_sound _ _ _ _ Estr) as (k & Hk & Hs & Ho).
  assert (Hkey : skipn i data = token k ++ skipn o data).
  { rewrite (skipn_nth _ _ _ E), Hs. unfold token. same_text. }
  assert (Hend : o = (i + List.length (token k))%nat).
  { unfold token. cbn [List.length]. rewrite length_app. cbn [List.length]. lia. }
  destruct (objectEntryCountEnabled v && (ObjectEntryCount v <? en + 1))
    eqn:Hcount.
  { inversion H; subst r. discriminate. }
  pose proof (validateStringLength_token data i k _ (objectKeyLengthEnabled v)
                (ObjectKeyLength v) objectKeyValueLength Hkey) as Hlen.
  rewrite <- Hend in Hlen. rewrite Hlen in H. cbn [bind] in H.
  destruct (objectKeyLengthEnabled v
            && (RuneCount (token k) - 2 >? ObjectKeyLength v)) eqn:Hlong;
    cbn [is_err] in H.
  { inversion H; subst r. discriminate. }
  destruct (isValidColon data o) as [i1 ok] eqn:Ecolon.
  destruct ok; cbn [negb] in H.
  2:{ inversion H; subst r. discriminate. }
  destruct (isValidColon_loop_inv _ _ _ _ Ecolon) as (wk & Hwk & Hs1).
  destruct (validany fuel data i1 d v) as [a| |] eqn:Ea; cbn [bind] in H;
    try discriminate.
  destruct (res_ok a) eqn:Hoka; cbn [negb orb] in H.
  2:{ inversion H; subst r. discriminate. }
  destruct (is_err (res_err a)).
  { inversion H; subst r. discriminate. }
  destruct (IH1 _ _ _ Ea Hoka) as (_ & b & x & Hb & Hx & Hs2).
  destruct (depth_paired data v fuel) as (D1 & _).
  destruct (D1 _ _ _ Ea) as [Hda _]. specialize (Hda Hoka).
  destruct (isValidComma data (res_i a) "}") as [j ok] eqn:Ec.
  destruct ok; cbn [negb] in H.
  2:{ inversion H; subst r. discriminate. }
  destruct (isValidComma_loop_inv _ _ _ _ _ Ec) as (ws & c & Hws & Hc & Ej & Hs3).
  rewrite (index_Some _ _ _ Ej) in H. cbn [bind] in H.
  set (m := (([] : list byte, k, wk), (b, x, ws))
            : padded (list piece) * padded value).
  assert (Hm : member_admitted v (admits v d) m = true).
  { unfold member_admitted, m, pad_ok, element_admitted, key_fits.
    cbn [fst snd forallb]. now rewrite Hk, Hlong, Hwk, Hb, Hx, Hws. }
  assert (Htext : skipn i data
                  = member_text print m ++ c :: skipn (S j) data).
  { unfold member_text, m, pad. cbn [fst snd].
    rewrite Hkey, Hs1, Hs2, Hs3. same_text. }
  destruct (Byte.eqb c "}") eqn:Hclose.
  - inversion H; subst r. cbn [res_i]. apply byte_dec_bl in Hclose. subst c.
    exists m, []. split_all.
    + cbn [forallb]. now rewrite Hm.
    + exact Hcount.
    + exact Htext.
  - destruct Hc as [-> | ->]; [|discriminate]. rewrite Hda in H.
    destruct (IH9 _ _ _ _ _ H Hok) as (m' & ms & Hms & Hcount1 & Hs4).
    exists m, (m' :: ms). split_all.
    + cbn [forallb] in *. now rewrite Hm, Hms.
    + rewrite <- Hcount1. do 2 f_equal. cbn [List.length]. lia.
    + cbn [map]. rewrite sep_by_more. cbn [map] in Hs4. rewrite <- Hs4.
      rewrite Htext. same_text.
Qed.

Lemma isValidObject_next_step (i : nat) (en : Z) (e : option error) (d : Z)
    (r : scan) :
  isValidObject_next (S fuel) data i en e d v = Ret r -> res_ok r = true ->
  members_found data v i en d (res_i r).
Proof.
  destruct IH as (_ & _ & _ & _ & _ & _ & _ & IH8 & IH9).
  intros H Hok. unfold_validators_in H.
  destruct (nth_error data i) as [c|] eqn:E.
  2:{ inversion H; subst r. discriminate. }
  destruct (is_space c) eqn:Hsp.
  { destruct (IH9 _ _ _ _ _ H Hok) as ([[[wk1 k] wk] px] & ms & Hms & Hcount & Hs).
    exists ((c :: wk1, k, wk), px), ms. split_all.
    - cbn [forallb] in *. unfold member_admitted, pad_ok in *.
      cbn [fst snd forallb] in *. now rewrite Hsp.
    - exact Hcount.
    - rewrite (skipn_nth _ _ _ E), Hs. cbn [map]. rewrite !sep_by_cons.
      unfold member_text, pad. cbn [fst snd]. same_text. }
  destruct (Byte.eqb c QUOTE) eqn:Hq.
  2:{ inversion H; subst r. discriminate. }
  apply byte_dec_bl in Hq. subst c. exact (IH8 _ _ _ _ _ H Hok E).
Qed.

Lemma isValidObject_loop_step (i : nat) (d : Z) (r : scan) :
  isValidObject_loop (S fuel) data i d v = Ret r -> res_ok r = true ->
  object_found data v i d (res_i r).
Proof.
  destruct IH as (_ & _ & _ & _ & _ & _ & IH7 & IH8 & _).
  intros H Hok. unfold_validators_in H.
  destruct (nth_error data i) as [c|] eqn:E.
  2:{ inversion H; subst r. discriminate. }
  destruct (is_space c) eqn:Hsp.
  { destruct (IH7 _ _ _ H Hok) as (w & ms & Hw & Hms & Hcount & Hs).
    exists (c :: w), ms. split_all; auto.
    - cbn [forallb]. now rewrite Hsp.
    - rewrite (skipn_nth _ _ _ E), Hs. reflexivity. }
  destruct (Byte.eqb c "}") eqn:Hclose.
  { inversion H; subst r. cbn [res_i]. apply byte_dec_bl in Hclose. subst c.
    exists [], []. split_all; [reflexivity | reflexivity | |].
    - specialize (Hv ObjectEntries). cbn [limit_enabled limit_max] in Hv.
      destruct (objectEntryCountEnabled v); [|reflexivity].
      cbn [andb List.length]. apply Z.ltb_ge. lia.
    - exact (skipn_nth _ _ _ E). }
  destruct (Byte.eqb c QUOTE) eqn:Hq.
  2:{ inversion H; subst r. discriminate. }
  apply byte_dec_bl in Hq. subst c.
  destruct (IH8 _ _ _ _ _ H Hok E) as (m & ms & Hms & Hcount & Hs).
  exists [], (m :: ms). split_all; auto.
Qed.

End Step.

Lemma validators_sound : forall fuel, sound_at data v fuel.
Proof.
  induction fuel as [|fuel IH].
  - unfold sound_at. split_all; intros; discriminate.
  - pose proof (validany_loop_step fuel IH) as S2.
    pose proof (isValidArray_loop_step fuel IH) as S4.
    pose proof (isValidObject_loop_step fuel IH) as S7.
    destruct IH as (IH1 & IH2 & IH3 & IH4 & IH5 & IH6 & IH7 & IH8 & IH9).
    unfold sound_at. split_all.
    + intros i d r H Hok. unfold_validators_in H.
      destruct (depth_exceeded v d) eqn:Hd.
      { inversion H; subst r. discriminate. }
      split; [reflexivity|]. exact (IH2 _ _ _ H Hok).
    + exact S2.
    + intros i d r H Hok. unfold_validators_in H.
      destruct (depth_exceeded v d) eqn:Hd.
      { inversion H; subst r. discriminate. }
      split; [reflexivity|]. exact (IH4 _ _ _ H Hok).
    + exact S4.
    + apply isValidArray_elems_step. unfold sound_at. split_all; assumption.
    + intros i d r H Hok. unfold_validators_in H.
      destruct (depth_exceeded v d) eqn:Hd.
      { inversion H; subst r. discriminate. }
      split; [reflexivity|]. exact (IH7 _ _ _ H Hok).
    + exact S7.
    + apply isValidObject_key_step. unfold sound_at. split_all; assumption.
    + apply isValidObject_next_step. unfold sound_at. split_all; assumption.
Qed.

End Sound.

(** ** The driver *)

Lemma forallb_firstn (P : byte -> bool) (data : list byte) (j : nat) :
  (forall k c, (k < j)%nat -> nth_error data k = Some c -> P c = true) ->
  forallb P (firstn j data) = true.
Proof.
  revert data. induction j as [|j IH]; intros data H; [reflexivity|].
  destruct data as [|c data]; [reflexivity|]. cbn [firstn forallb].
  rewrite (H 0%nat c); [|lia|reflexivity]. apply IH.
  intros k c' Hk E. apply (H (S k) c'); [lia | exact E].
Qed.

Lemma forallb_skipn (P : byte -> bool) (data : list byte) (j : nat) :
  (forall k c, (j <= k)%nat -> nth_error data k = Some c -> P c = true) ->
  forallb P (skipn j data) = true.
Proof.
  revert data. induction j as [|j IH]; intros data H.
  - cbn [skipn]. apply forallb_forall. intros c Hin.
    destruct (In_nth_error _ _ Hin) as [k Hk]. apply (H k c); [lia | exact Hk].
  - destruct data as [|c data]; [reflexivity|]. cbn [skipn]. apply IH.
    intros k c' Hk E. apply (H (S k) c'); [lia | exact E].
Qed.

(** X20. What [VerifyBytes] accepts under a configuration that [New] can
    build: the buffer is the text of one document that the validators
    admit, after bytes that are white space or the letter [f], and before
    white space only.  Inside the document the letter [f] may also stand,
    as white space may, before an element or the value of a member.  The
    document keeps the limits on the depth, on the
    number of elements and of entries and on the length of keys; its
    strings are made of well-formed pieces, and its numbers are those of
    RFC 8259 or a minus sign with no integer digits. *)
Theorem accepted_is_admitted (v : Verify) (data : list byte) :
  well_configured v ->
  VerifyBytes v data = Ret (true, None) ->
  exists before x after,
    data = before ++ print x ++ after
    /\ forallb is_skipped before = true
    /\ admits v 0 x = true
    /\ forallb is_space after = true.
Proof.
  intros Hv H. unfold VerifyBytes, isValidJSON in H.
  destruct (isValidJSON_loop _ data 0 0 v) as [r| |] eqn:Er; cbn [bind] in H;
    try discriminate.
  assert (Hok : res_ok r = true) by (now inversion H).
  destruct (isValidJSON_loop_ok data v _ _ _ _ Er Hok)
    as (j & c & a & _ & Hws & _ & _ & Ea & Hoka & _ & Hafter & _).
  destruct (validators_sound data v Hv (fuel_for data))
    as (S1 & _).
  destruct (S1 _ _ _ Ea Hoka) as (_ & b & x & Hb & Hx & Hs).
  exists (firstn j data ++ b), x, (skipn (res_i a) data). split_all.
  - rewrite <- app_assoc, <- Hs. symmetry. apply firstn_skipn.
  - rewrite forallb_app, Hb, andb_true_r. apply is_space_skipped.
    apply forallb_firstn. intros k c' Hk E. apply (Hws k c'); [lia | exact E].
  - exact Hx.
  - apply forallb_skipn. exact Hafter.
Qed.

(** After a letter [f], an array of a lone minus sign and [true]. *)
Lemma accepted_is_admitted_witness :
  exists before x after,
    json " f[-, true] " = before ++ print x ++ after
    /\ forallb is_skipped before = true
    /\ admits zeroVerify 0 x = true
    /\ forallb is_space after = true.
Proof.
  apply (accepted_is_admitted zeroVerify (json " f[-, true] ")).
  - intros k. destruct k; reflexivity.
  - reflexivity.
Defined.

(** * The boundaries of the limits, on every document *)

(** ** Runs that fail *)

Lemma isValidJSON_loop_rejects (v : Verify) (data : list byte) (j : nat) (d : Z)
    (c : byte) (a : scan) (E : error) :
  nth_error data j = Some c -> is_space c = false ->
  (forall k c', (k < j)%nat -> nth_error data k = Some c' -> is_space c' = true) ->
  validany (fuel_for data) data j d v = Ret a -> res_err a = Some E ->
  forall n i, (i <= j)%nat -> (j - i < n)%nat ->
    isValidJSON_loop n data i d v = Ret (Scan (res_i a) false (Some E) (res_depth a)).
Proof.
  intros Ej Ec Hws Ha He. induction n as [|n IH]; intros i Hij Hn; [lia|].
  cbn [isValidJSON_loop]. destruct (Nat.eq_dec i j) as [->|Hne].
  - rewrite Ej, Ec, Ha. cbn [bind]. rewrite He. cbn [is_err].
    now rewrite orb_true_r.
  - pose proof (nth_error_lt _ _ _ Ej) as Hl.
    destruct (index_lt data i) as (ci & _ & Ei); [lia|].
    rewrite Ei, (Hws i ci) by (auto; lia). apply IH; lia.
Qed.

(** The driver on white space and a text that [validany] refuses with an
    error. *)
Lemma VerifyBytes_fails (v : Verify) (before text : list byte) (E : error) :
  forallb is_space before = true ->
  (exists c tl, text = c :: tl /\ is_space c = false) ->
  (exists a, validany_returns (before ++ text) (List.length before) 0 v a
             /\ fails_with E a) ->
  VerifyBytes v (before ++ text) = Ret (false, Some E).
Proof.
  intros Hb (c & tl & -> & Hc) (a & [f Ha] & _ & He).
  set (data := before ++ c :: tl) in *.
  assert (Ej : nth_error data (List.length before) = Some c).
  { unfold data. rewrite nth_error_app2, Nat.sub_diag by lia. reflexivity. }
  pose proof (nth_error_lt _ _ _ Ej) as Hl.
  apply validany_fuel_for in Ha; [|lia].
  assert (Hws : forall k c', (k < List.length before)%nat ->
                  nth_error data k = Some c' -> is_space c' = true).
  { intros k c' Hk E'. apply (space_at before k c' Hb).
    unfold data in E'. rewrite nth_error_app1 in E' by lia. exact E'. }
  unfold VerifyBytes, isValidJSON.
  rewrite (isValidJSON_loop_rejects v data _ 0 c a E Ej Hc Hws Ha He) by lia.
  reflexivity.
Qed.

Lemma skipn_nonempty (data : list byte) (i : nat) (c : byte) (tl : list byte) :
  skipn i data = c :: tl -> nth_error data i = Some c.
Proof. intros H. now destruct (skipn_cons_inv _ _ _ _ H). Qed.

(** An element that [validany] refuses ends the loop over the elements. *)
Lemma element_fails (v : Verify) (data : list byte) (d : Z) (E : error)
    (w1 tail : list byte) (i : nat) (ch : Z) (e : option error) :
  depth_exceeded v d = false ->
  forallb is_space w1 = true -> tail <> [] -> skipn i data = w1 ++ tail ->
  (forall i', skipn i' data = tail ->
     exists a, validany_returns data i' d v a /\ fails_with E a) ->
  exists r, isValidArray_elems_returns data i ch e d v r /\ fails_with E r.
Proof.
  intros Hd Hw1 Hne Hs Hx.
  destruct (Hx _ (skipn_app_inv _ _ _ _ Hs)) as (a & Ha & Hok & He).
  assert (Ei : exists ci, nth_error data i = Some ci).
  { destruct w1 as [|b w1]; cbn [app] in Hs.
    - destruct tail as [|b tl]; [congruence|]. eauto using skipn_nonempty.
    - eauto using skipn_nonempty. }
  destruct Ei as [ci Ei].
  apply (validany_space data v w1 tail i d a Hw1 Hs Hd) in Ha.
  exists (Scan (res_i a) false (res_err a) (res_depth a)). split.
  - exact (isValidArray_elems_fails data v i ci ch e d a Ei Ha Hok).
  - split; [reflexivity | exact He].
Qed.

(** The value of a member that [validany] refuses ends the object. *)
Lemma member_fails (v : Verify) (data : list byte) (d : Z) (E : error)
    (k : list piece) (wk w1 tail : list byte) (i : nat) (en : Z)
    (e : option error) :
  depth_exceeded v d = false ->
  key_fits v k = true -> forallb is_space wk = true ->
  forallb is_space w1 = true ->
  objectEntryCountEnabled v && (ObjectEntryCount v <? en + 1) = false ->
  skipn i data = token k ++ wk ++ ":"%byte :: w1 ++ tail ->
  (forall i', skipn i' data = tail ->
     exists a, validany_returns data i' d v a /\ fails_with E a) ->
  exists r, isValidObject_key_returns data i en e d v r /\ fails_with E r.
Proof.
  intros Hd Hk Hwk Hw1 Hcount Hs Hx.
  destruct (key_scans v data k wk i _ Hk Hwk Hs) as (Hstr & Hlen & Hcolon & Hs1).
  destruct (Hx _ (skipn_app_inv _ _ _ _ Hs1)) as (a & Ha & Hok & He).
  apply (validany_space data v w1 tail _ d a Hw1 Hs1 Hd) in Ha.
  exists (Scan (res_i a) false (res_err a) (res_depth a)). split.
  - apply (isValidObject_key_fails data v i _ _ en e d a Hstr Hcount Hlen Hcolon Ha).
    now rewrite Hok.
  - split; [reflexivity | exact He].
Qed.

(** One element too many: the count is taken when the element and the
    comma or the bracket after it have been read. *)
Lemma element_over (v : Verify) (data : list byte) (d : Z) (w1 : list byte)
    (x : value) (w2 : list byte) (i : nat) (ch : Z) (e : option error) (c : byte)
    (tail : list byte) :
  depth_exceeded v d = false -> fits v d x = true ->
  forallb is_space w1 = true -> forallb is_space w2 = true ->
  arrayEntryCountEnabled v && (ch + 1 >? MaxArrayElementCount v) = true ->
  c = ","%byte \/ c = "]"%byte ->
  skipn i data = pad print (w1, x, w2) ++ c :: tail ->
  exists r, isValidArray_elems_returns data i ch e d v r
            /\ fails_with (errArrayElementCount (MaxArrayElementCount v) (ch + 1)) r.
Proof.
  intros Hd Hx Hw1 Hw2 Hcount Hc Hs.
  pose proof (fits_scanned v d x (all_accepted v x) Hd Hx) as Hsc.
  pose proof (fits_nonempty v d x Hx) as Hne.
  assert (Hc1 : is_space c = false) by (destruct Hc as [-> | ->]; reflexivity).
  assert (Hc2 : after_value (c :: tail) = true)
    by (destruct Hc as [-> | ->]; reflexivity).
  destruct (element_scans v data d w1 x w2 None i c tail Hsc Hw1 Hw2 Hd Hne Hs
              Hc1 Hc2)
    as (ci & a & Ei & Ha & Hok & _ & Hdepth & Hcomma & _).
  specialize (Hcomma "]"%byte).
  replace (Byte.eqb c "," || Byte.eqb c "]") with true in Hcomma
    by (destruct Hc as [-> | ->]; reflexivity).
  eexists. split.
  - exact (isValidArray_elems_count data v i _ ci ch e d a Ei Ha Hok Hcomma Hcount).
  - split; reflexivity.
Qed.

(** One member too many: the count is taken when the key has been read,
    whatever follows the key. *)
Lemma key_over (v : Verify) (data : list byte) (d : Z) (k : list piece)
    (i : nat) (en : Z) (e : option error) (tail : list byte) :
  forallb piece_ok k = true ->
  objectEntryCountEnabled v && (ObjectEntryCount v <? en + 1) = true ->
  skipn i data = token k ++ tail ->
  exists r, isValidObject_key_returns data i en e d v r
            /\ fails_with (errObjectEntryCount (ObjectEntryCount v) (en + 1)) r.
Proof.
  intros Hk Hcount Hs.
  destruct (token_scans data i k tail Hk Hs) as (_ & Hstr & _).
  eexists. split.
  - exact (isValidObject_key_count data v i _ en e d Hstr Hcount).
  - split; reflexivity.
Qed.

(** ** Elements and members that are taken before the run fails *)

(** The text of a list of parts: those before one of them, each with its
    separator, and the rest. *)
Lemma sep_by_prefix (sep : byte) (l1 : list (list byte)) (q : list byte)
    (l2 : list (list byte)) :
  sep_by sep (l1 ++ q :: l2)
  = flat_map (fun p => p ++ [sep]) l1 ++ sep_by sep (q :: l2).
Proof.
  induction l1 as [|p l1 IH]; [reflexivity|].
  change ((p :: l1) ++ q :: l2) with (p :: (l1 ++ q :: l2)).
  destruct l1 as [|p' l1].
  - cbn [app flat_map]. rewrite sep_by_two. rewrite <- !app_assoc. reflexivity.
  - change ((p' :: l1) ++ q :: l2) with (p' :: (l1 ++ q :: l2)) in *.
    rewrite sep_by_two, IH. cbn [flat_map]. rewrite <- !app_assoc. reflexivity.
Qed.

Lemma flat_map_map {A B C : Type} (g : A -> B) (f : B -> list C) (l : list A) :
  flat_map f (map g l) = flat_map (fun a => f (g a)) l.
Proof. induction l as [|a l IH]; [reflexivity|]. cbn [map flat_map]. now rewrite IH. Qed.

(** What follows the first of the parts: the separator or the closing
    byte. *)
Lemma sep_by_next (close : byte) (q : list byte) (l : list (list byte))
    (rest : list byte) :
  exists c tail, sep_by "," (q :: l) ++ close :: rest = q ++ c :: tail
                 /\ (c = ","%byte \/ c = close).
Proof.
  rewrite sep_by_cons.
  destruct (more_parts_head close rest l) as (c & tl & -> & Hc).
  exists c, tl. split; [reflexivity|]. tauto.
Qed.

Lemma length_more {A : Type} (x : A) (l : list A) :
  Z.of_nat (List.length (x :: l)) = 1 + Z.of_nat (List.length l).
Proof. change (List.length (x :: l)) with (S (List.length l)). lia. Qed.

(** Elements that fit, each with its comma, are taken one by one. *)
Lemma elems_prefix (v : Verify) (data : list byte) (d : Z) (E : error)
    (rest' : list byte) :
  depth_exceeded v d = false ->
  forall (pre : list (padded value)) (i : nat) (ch : Z) (e : option error),
    forallb (pad_ok (fits v d)) pre = true ->
    arrayEntryCountEnabled v
    && (ch + Z.of_nat (List.length pre) >? MaxArrayElementCount v) = false ->
    skipn i data = flat_map (fun p => pad print p ++ [","%byte]) pre ++ rest' ->
    (forall i' e', skipn i' data = rest' ->
       exists r, isValidArray_elems_returns data i'
                   (ch + Z.of_nat (List.length pre)) e' d v r
                 /\ fails_with E r) ->
    exists r, isValidArray_elems_returns data i ch e d v r /\ fails_with E r.
Proof.
  intros Hd. induction pre as [|p pre IH]; intros i ch e Hfit Hcount Hs Hnext.
  - cbn [List.length] in Hnext. rewrite Z.add_0_r in Hnext. exact (Hnext i e Hs).
  - cbn [forallb] in Hfit. apply andb_prop in Hfit. destruct Hfit as [Hp Hfit].
    destruct (pad_ok_inv _ _ Hp) as (w1 & x & w2 & -> & Hw1 & Hx & Hw2).
    destruct (count_step _ _ _ _ Hcount) as [Hc1 Hc2].
    cbn [flat_map] in Hs. rewrite <- !app_assoc in Hs. cbn [app] in Hs.
    destruct (IH (S (i + List.length (pad print (w1, x, w2)))) (ch + 1) None
                Hfit Hc2) as (r & Hr & HE).
    + exact (proj2 (skipn_cons_inv _ _ _ _ (skipn_app_inv _ _ _ _ Hs))).
    + intros i' e' Hs'.
      replace (ch + 1 + Z.of_nat (List.length pre))
        with (ch + Z.of_nat (List.length ((w1, x, w2) :: pre)))
        by (rewrite length_more, Z.add_assoc; reflexivity).
      exact (Hnext i' e' Hs').
    + exists r. split; [|exact HE].
      pose proof (fits_scanned v d x (all_accepted v x) Hd Hx) as Hsc.
      pose proof (fits_nonempty v d x Hx) as Hne.
      exact (element_more v data d Hd w1 x w2 None i ch e _ r Hsc Hw1 Hw2 Hne
               Hc1 Hs Hr).
Qed.

(** Members that fit, each with its comma, are taken one by one, from the
    key of the first to the key that follows the last. *)
Lemma members_prefix (v : Verify) (data : list byte) (d : Z) (E : error)
    (wk' tail' : list byte) :
  depth_exceeded v d = false -> forallb is_space wk' = true ->
  forall (pre : list (padded (list piece) * padded value)) (k : list piece)
         (wk : list byte) (px : padded value) (i : nat) (en : Z)
         (e : option error),
    forallb (fun m => pad_ok (key_fits v) (fst m) && pad_ok (fits v d) (snd m))
            ((([], k, wk), px) :: pre) = true ->
    objectEntryCountEnabled v
    && (ObjectEntryCount v <? en + Z.of_nat (List.length ((([], k, wk), px) :: pre)))
    = false ->
    skipn i data
    = flat_map (fun m => member_text print m ++ [","%byte])
        ((([], k, wk), px) :: pre) ++ wk' ++ QUOTE :: tail' ->
    (forall i', skipn i' data = QUOTE :: tail' ->
       exists r, isValidObject_key_returns data i'
                   (en + Z.of_nat (List.length ((([], k, wk), px) :: pre))) None d v r
                 /\ fails_with E r) ->
    exists r, isValidObject_key_returns data i en e d v r /\ fails_with E r.
Proof.
  intros Hd Hwk'.
  induction pre as [|m' pre IH]; intros k wk px i en e Hfit Hcount Hs Hnext.
  all: pose proof Hfit as Hfit0; cbn [forallb fst snd] in Hfit0;
    apply andb_prop in Hfit0; destruct Hfit0 as [Hm_ok Hrest].
  all: apply andb_prop in Hm_ok; destruct Hm_ok as [Hk_ok Hp_ok].
  all: cbn [pad_ok forallb andb] in Hk_ok; apply andb_prop in Hk_ok;
    destruct Hk_ok as [Hk Hwk].
  all: destruct (pad_ok_inv _ _ Hp_ok) as (w1 & x & w2 & -> & Hw1 & Hx & Hw2).
  all: cbn [List.length] in Hcount; destruct (entries_step _ _ _ _ Hcount) as [Hc1 Hc2].
  all: pose proof (fits_scanned v d x (all_accepted v x) Hd Hx) as Hsc.
  all: pose proof (fits_nonempty v d x Hx) as Hne.
  all: cbn [flat_map] in Hs; rewrite <- !app_assoc in Hs; cbn [app] in Hs.
  - destruct (Hnext (S (i + List.length (member_text print (([], k, wk), (w1, x, w2))))
                     + List.length wk')%nat) as (r & Hr & HE).
    { pose proof (skipn_app_inv _ _ _ _ Hs) as H1.
      destruct (skipn_cons_inv _ _ _ _ H1) as [_ H2].
      exact (skipn_app_inv _ _ _ _ H2). }
    exists r. split; [|exact HE].
    apply (member_more v data d Hd k wk w1 x w2 i en e wk' tail' r Hk Hwk Hsc
             Hw1 Hw2 Hne Hc1 Hwk' Hs).
    rewrite length_more in Hr. cbn [List.length Z.of_nat] in Hr.
    replace (en + 1) with (en + (1 + 0)) by lia. exact Hr.
  - destruct m' as [[[wk1 k2] wk2] px2].
    pose proof Hrest as Hrest0. cbn [forallb fst snd] in Hrest0.
    apply andb_prop in Hrest0. destruct Hrest0 as [Hm2 Hrest2].
    apply andb_prop in Hm2. destruct Hm2 as [Hk2 Hpx2].
    cbn [pad_ok] in Hk2. apply andb_prop in Hk2. destruct Hk2 as [Hk2 Hwk2].
    apply andb_prop in Hk2. destruct Hk2 as [Hwk1 Hk2].
    assert (Hshape : forall T,
               member_text print ((wk1, k2, wk2), px2) ++ T
               = wk1 ++ member_text print (([], k2, wk2), px2) ++ T).
    { intros T. unfold member_text. cbn [pad fst snd app].
      rewrite <- !app_assoc. reflexivity. }
    rewrite Hshape in Hs.
    assert (Hq : forall T, exists tl,
               member_text print (([], k2, wk2), px2) ++ T = QUOTE :: tl).
    { intros T. unfold member_text, token. cbn [pad fst snd app]. eauto. }
    match type of Hs with
    | _ = _ ++ _ :: _ ++ _ ++ ?T => destruct (Hq T) as [tl Hq']
    end.
    pose proof (skipn_app_inv _ _ _ _ Hs) as H1.
    destruct (skipn_cons_inv _ _ _ _ H1) as [_ H2].
    pose proof (skipn_app_inv _ _ _ _ H2) as H3.
    destruct (IH k2 wk2 px2
                (S (i + List.length (member_text print (([], k, wk), (w1, x, w2))))
                 + List.length wk1)%nat (en + 1) None) as (r & Hr & HE).
    + cbn [forallb fst snd pad_ok]. cbn [forallb andb].
      now rewrite Hk2, Hwk2, Hpx2, Hrest2.
    + exact Hc2.
    + cbn [flat_map]. rewrite <- !app_assoc. cbn [app]. exact H3.
    + intros i' Hs'.
      replace (en + 1 + Z.of_nat (List.length ((([], k2, wk2), px2) :: pre)))
        with (en + Z.of_nat (List.length ((([], k, wk), (w1, x, w2))
                                          :: (wk1, k2, wk2, px2) :: pre)))
        by (rewrite !length_more, !Z.add_assoc; reflexivity).
      exact (Hnext i' Hs').
    + exists r. split; [|exact HE].
      rewrite Hq' in Hs.
      exact (member_more v data d Hd k wk w1 x w2 i en e wk1 tl r Hk Hwk Hsc
               Hw1 Hw2 Hne Hc1 Hwk1 Hs Hr).
Qed.

(** ** The depth limit *)

Lemma deepest_cons {A : Type} (f : A -> Z) (x : A) (xs : list A) :
  deepest f (x :: xs) = Z.max (f x) (deepest f xs).
Proof. reflexivity. Qed.

Lemma deepest_nonneg {A : Type} (f : A -> Z) (xs : list A) : 0 <= deepest f xs.
Proof.
  induction xs as [|x xs IH]; [reflexivity|]. rewrite deepest_cons. lia.
Qed.

Lemma deepest_bound {A : Type} (f : A -> Z) (B : Z) (xs : list A) :
  deepest f xs <= B -> Forall (fun x => f x <= B) xs.
Proof.
  induction xs as [|x xs IH]; [constructor|]. rewrite deepest_cons. intros H.
  constructor; [lia|]. apply IH. lia.
Qed.

(** The first member of a list that is deeper than [B]. *)
Lemma deepest_split {A : Type} (f : A -> Z) (B : Z) (xs : list A) :
  0 <= B -> B < deepest f xs ->
  exists pre y post,
    xs = pre ++ y :: post /\ Forall (fun x => f x <= B) pre /\ B < f y.
Proof.
  intros HB. induction xs as [|x xs IH]; [cbn; lia|].
  rewrite deepest_cons. intros H. destruct (Z_lt_le_dec B (f x)) as [Hx | Hx].
  - exists [], x, xs. split_all; auto.
  - destruct IH as (pre & y & post & -> & Hpre & Hy); [lia|].
    exists (x :: pre), y, post. split_all; auto.
Qed.

Lemma nesting_nonneg (j : value) : 0 <= nesting j.
Proof.
  destruct j; cbn [nesting]; try lia.
  - pose proof (deepest_nonneg (fun p : padded value => nesting (inner p)) xs). lia.
  - pose proof (deepest_nonneg
                  (fun m : padded (list piece) * padded value =>
                     nesting (inner (snd m))) ms). lia.
Qed.

Lemma key_fits_depth_only (D : Z) (k : list piece) :
  key_fits (depth_only D) k = forallb piece_ok k.
Proof. unfold key_fits. cbn. now rewrite andb_true_r. Qed.

(** A well-formed document that nests no deeper than the limit allows from
    the depth [d] on fits the configuration of the depth limit alone. *)
Lemma well_formed_fits (D : Z) (j : value) :
  forall d, well_formed j = true -> d + nesting j <= D ->
            fits (depth_only D) d j = true.
Proof.
  apply (value_induction
           (fun j => forall d, well_formed j = true -> d + nesting j <= D ->
                               fits (depth_only D) d j = true)); clear j.
  - reflexivity.
  - reflexivity.
  - intros x d H _. exact H.
  - intros ps d H _. cbn [fits]. unfold string_fits. cbn [well_formed] in H.
    rewrite H. reflexivity.
  - intros w xs IH d H Hn. cbn [well_formed] in H. apply andb_prop in H.
    destruct H as [Hw Hxs]. cbn [nesting] in Hn. cbn [fits].
    pose proof (deepest_nonneg (fun p : padded value => nesting (inner p)) xs) as H0.
    pose proof (deepest_bound (fun p : padded value => nesting (inner p))
                  (D - (d + 1)) xs) as Hb.
    rewrite Hw, depth_only_exceeded.
    replace (D <? d + 1) with false by (symmetry; apply Z.ltb_ge; lia).
    cbn [andb negb arrayEntryCountEnabled depth_only].
    specialize (Hb ltac:(lia)). clear Hn H0.
    induction IH as [|p xs Hp _ IHxs]; [reflexivity|].
    cbn [forallb] in *. apply andb_prop in Hxs. destruct Hxs as [Hp_ok Hxs].
    inversion Hb as [|? ? Hpb Hb']; subst.
    rewrite (IHxs Hxs Hb'), andb_true_r.
    destruct p as [[w1 x] w2]. cbn [pad_ok inner fst snd] in *.
    apply andb_prop in Hp_ok. destruct Hp_ok as [Hp_ok Hw2].
    apply andb_prop in Hp_ok. destruct Hp_ok as [Hw1 Hx].
    rewrite Hw1, Hw2, (Hp (d + 1) Hx) by lia. reflexivity.
  - intros w ms IH d H Hn. cbn [well_formed] in H. apply andb_prop in H.
    destruct H as [Hw Hms]. cbn [nesting] in Hn. cbn [fits].
    pose proof (deepest_nonneg
                  (fun m : padded (list piece) * padded value =>
                     nesting (inner (snd m))) ms) as H0.
    pose proof (deepest_bound
                  (fun m : padded (list piece) * padded value =>
                     nesting (inner (snd m))) (D - (d + 1)) ms) as Hb.
    rewrite Hw, depth_only_exceeded.
    replace (D <? d + 1) with false by (symmetry; apply Z.ltb_ge; lia).
    cbn [andb negb objectEntryCountEnabled depth_only].
    specialize (Hb ltac:(lia)). clear Hn H0.
    induction IH as [|m ms Hm _ IHms]; [reflexivity|].
    cbn [forallb] in *. apply andb_prop in Hms. destruct Hms as [Hm_ok Hms].
    inversion Hb as [|? ? Hmb Hb']; subst.
    rewrite (IHms Hms Hb'), andb_true_r.
    destruct m as [[[wk1 k] wk] [[w1 x] w2]]. cbn [pad_ok inner fst snd] in *.
    apply andb_prop in Hm_ok. destruct Hm_ok as [Hk_ok Hp_ok].
    apply andb_prop in Hp_ok. destruct Hp_ok as [Hp_ok Hw2].
    apply andb_prop in Hp_ok. destruct Hp_ok as [Hw1 Hx].
    rewrite key_fits_depth_only, Hk_ok, Hw1, Hw2, (Hm (d + 1) Hx) by lia.
    reflexivity.
Qed.


Lemma well_formed_head (j : value) :
  well_formed j = true ->
  exists c tl, print j = c :: tl /\ is_space c = false /\ Byte.eqb c "]" = false.
Proof.
  intros H. apply (fits_head (depth_only (nesting j)) 0 j).
  apply well_formed_fits; [exact H | lia].
Qed.

Lemma well_formed_elements (D d : Z) (xs : list (padded value)) :
  forallb (pad_ok well_formed) xs = true ->
  Forall (fun p => nesting (inner p) <= D - d) xs ->
  forallb (pad_ok (fits (depth_only D) d)) xs = true.
Proof.
  induction xs as [|p xs IH]; [reflexivity|]. cbn [forallb]. intros H Hb.
  apply andb_prop in H. destruct H as [Hp Hxs].
  inversion Hb as [|? ? Hpb Hb']; subst. rewrite (IH Hxs Hb'), andb_true_r.
  destruct p as [[w1 x] w2]. cbn [pad_ok inner fst snd] in *.
  apply andb_prop in Hp. destruct Hp as [Hp Hw2].
  apply andb_prop in Hp. destruct Hp as [Hw1 Hx].
  rewrite Hw1, Hw2, (well_formed_fits D x d Hx) by lia. reflexivity.
Qed.

Lemma well_formed_members (D d : Z)
    (ms : list (padded (list piece) * padded value)) :
  forallb (fun m => pad_ok (forallb piece_ok) (fst m)
                    && pad_ok well_formed (snd m)) ms = true ->
  Forall (fun m => nesting (inner (snd m)) <= D - d) ms ->
  forallb (fun m => pad_ok (key_fits (depth_only D)) (fst m)
                    && pad_ok (fits (depth_only D) d) (snd m)) ms = true.
Proof.
  induction ms as [|m ms IH]; [reflexivity|]. cbn [forallb]. intros H Hb.
  apply andb_prop in H. destruct H as [Hm Hms].
  inversion Hb as [|? ? Hmb Hb']; subst. rewrite (IH Hms Hb'), andb_true_r.
  destruct m as [[[wk1 k] wk] [[w1 x] w2]]. cbn [pad_ok inner fst snd] in *.
  apply andb_prop in Hm. destruct Hm as [Hk Hp].
  apply andb_prop in Hp. destruct Hp as [Hp Hw2].
  apply andb_prop in Hp. destruct Hp as [Hw1 Hx].
  rewrite key_fits_depth_only, Hk, Hw1, Hw2, (well_formed_fits D x d Hx) by lia.
  reflexivity.
Qed.

Lemma depth_only_within (D d : Z) :
  d <= D -> depth_exceeded (depth_only D) d = false.
Proof. intros H. rewrite depth_only_exceeded. apply Z.ltb_ge. lia. Qed.

(** The loop over the elements of an array, when one of them nests too
    deep. *)
Lemma elems_too_deep (D : Z) (data : list byte) (d : Z)
    (L : list (padded value)) (i : nat) (ch : Z) (e : option error)
    (rest : list byte) :
  0 <= d -> d + 1 <= D ->
  Forall (fun p => refused_too_deep D (inner p)) L ->
  forallb (pad_ok well_formed) L = true ->
  D - (d + 1) < deepest (fun p : padded value => nesting (inner p)) L ->
  skipn i data = sep_by "," (map (pad print) L) ++ "]"%byte :: rest ->
  exists r, isValidArray_elems_returns data i ch e (d + 1) (depth_only D) r
            /\ fails_with (errContainerDepth D (D + 1)) r.
Proof.
  intros Hd0 Hd1 HP Hwf Hdeep Hs.
  destruct (deepest_split _ (D - (d + 1)) L ltac:(lia) Hdeep)
    as (pre & y & post & -> & Hpre & Hy).
  rewrite forallb_app in Hwf. apply andb_prop in Hwf. destruct Hwf as [Hwf_pre Hwf].
  cbn [forallb] in Hwf. apply andb_prop in Hwf. destruct Hwf as [Hwf_y _].
  apply Forall_app in HP. destruct HP as [_ HP].
  inversion HP as [|? ? Py _]; subst. clear HP.
  destruct y as [[w1 x] w2]. cbn [inner fst snd] in Py, Hy.
  cbn [pad_ok] in Hwf_y. apply andb_prop in Hwf_y. destruct Hwf_y as [Hwf_y Hw2].
  apply andb_prop in Hwf_y. destruct Hwf_y as [Hw1 Hx].
  rewrite map_app in Hs. cbn [map] in Hs.
  rewrite sep_by_prefix, flat_map_map, <- app_assoc in Hs.
  destruct (sep_by_next "]" (pad print (w1, x, w2)) (map (pad print) post) rest)
    as (c & tail & Heq & _).
  rewrite Heq in Hs.
  pose proof (depth_only_within D (d + 1) Hd1) as Hdepth.
  apply (elems_prefix (depth_only D) data (d + 1) _
           (pad print (w1, x, w2) ++ c :: tail) Hdepth pre i ch e).
  - apply well_formed_elements; [exact Hwf_pre | exact Hpre].
  - reflexivity.
  - exact Hs.
  - intros i' e' Hs'. cbn [pad] in Hs'. rewrite <- !app_assoc in Hs'.
    destruct (well_formed_head x Hx) as (cx & tlx & Hhead & _).
    apply (element_fails (depth_only D) data (d + 1) _ w1
             (print x ++ w2 ++ c :: tail) i' _ e' Hdepth Hw1).
    + rewrite Hhead. discriminate.
    + exact Hs'.
    + intros i2 Hs2. apply (Py data i2 (d + 1) (w2 ++ c :: tail)); auto; lia.
Qed.

(** The same for the members of an object, from the key of the first. *)
Lemma members_too_deep (D : Z) (data : list byte) (d : Z) (k0 : list piece)
    (wk0 : list byte) (px0 : padded value)
    (ms : list (padded (list piece) * padded value)) (i : nat) (en : Z)
    (e : option error) (rest : list byte) :
  0 <= d -> d + 1 <= D ->
  Forall (fun m => refused_too_deep D (inner (snd m))) ((([], k0, wk0), px0) :: ms) ->
  forallb (fun m => pad_ok (forallb piece_ok) (fst m)
                    && pad_ok well_formed (snd m))
          ((([], k0, wk0), px0) :: ms) = true ->
  D - (d + 1)
  < deepest (fun m : padded (list piece) * padded value => nesting (inner (snd m)))
      ((([], k0, wk0), px0) :: ms) ->
  skipn i data
  = sep_by "," (map (member_text print) ((([], k0, wk0), px0) :: ms))
    ++ "}"%byte :: rest ->
  exists r, isValidObject_key_returns data i en e (d + 1) (depth_only D) r
            /\ fails_with (errContainerDepth D (D + 1)) r.
Proof.
  intros Hd0 Hd1 HP Hwf Hdeep Hs.
  destruct (deepest_split _ (D - (d + 1)) _ ltac:(lia) Hdeep)
    as (pre & y & post & HL & Hpre & Hy).
  rewrite HL in HP, Hwf, Hs.
  rewrite forallb_app in Hwf. apply andb_prop in Hwf. destruct Hwf as [Hwf_pre Hwf].
  cbn [forallb] in Hwf. apply andb_prop in Hwf. destruct Hwf as [Hwf_y _].
  apply Forall_app in HP. destruct HP as [_ HP].
  inversion HP as [|? ? Py _]; subst. clear HP.
  destruct y as [[[wk1 k] wk] [[w1 x] w2]]. cbn [inner fst snd] in Py, Hy.
  cbn [fst snd] in Hwf_y. apply andb_prop in Hwf_y. destruct Hwf_y as [Hk_ok Hp_ok].
  cbn [pad_ok] in Hk_ok, Hp_ok.
  apply andb_prop in Hk_ok. destruct Hk_ok as [Hk_ok Hwk].
  apply andb_prop in Hk_ok. destruct Hk_ok as [Hwk1 Hk].
  apply andb_prop in Hp_ok. destruct Hp_ok as [Hp_ok Hw2].
  apply andb_prop in Hp_ok. destruct Hp_ok as [Hw1 Hx].
  rewrite map_app in Hs. cbn [map] in Hs.
  rewrite sep_by_prefix, flat_map_map, <- app_assoc in Hs.
  match type of Hs with
  | _ = _ ++ sep_by "," (?q :: ?l) ++ _ :: ?r =>
      destruct (sep_by_next "}" q l r) as (c & tail & Heq & _)
  end.
  assert (Hshape : member_text print ((wk1, k, wk), (w1, x, w2)) ++ c :: tail
                   = wk1 ++ token k ++ wk ++ ":"%byte :: w1
                     ++ print x ++ w2 ++ c :: tail).
  { unfold member_text. cbn [pad fst snd]. rewrite <- !app_assoc. cbn [app].
    rewrite <- !app_assoc. reflexivity. }
  assert (Hs0 : skipn i data
                = flat_map (fun m => member_text print m ++ [","%byte]) pre
                  ++ wk1 ++ token k ++ wk ++ ":"%byte :: w1
                  ++ print x ++ w2 ++ c :: tail).
  { etransitivity; [exact Hs|]. f_equal. etransitivity; [exact Heq|].
    exact Hshape. }
  clear Hs Heq Hshape. rename Hs0 into Hs.
  pose proof (depth_only_within D (d + 1) Hd1) as Hdepth.
  assert (Hlast : forall i' en' e',
             skipn i' data
             = token k ++ wk ++ ":"%byte :: w1 ++ print x ++ w2 ++ c :: tail ->
             exists r,
               isValidObject_key_returns data i' en' e' (d + 1) (depth_only D) r
               /\ fails_with (errContainerDepth D (D + 1)) r).
  { intros i' en' e' Hs'.
    apply (member_fails (depth_only D) data (d + 1) _ k wk w1
             (print x ++ w2 ++ c :: tail) i' en' e' Hdepth); auto.
    - now rewrite key_fits_depth_only.
    - intros i2 Hs2. apply (Py data i2 (d + 1) (w2 ++ c :: tail)); auto; lia. }
  destruct pre as [|p1 pre].
  - cbn [app] in HL. injection HL as H1 H2 H3 _ _. subst wk1 k wk.
    cbn [flat_map app] in Hs. exact (Hlast i en e Hs).
  - cbn [app] in HL. injection HL as <- _.
    apply (members_prefix (depth_only D) data (d + 1) _ wk1
             (content k ++ [QUOTE] ++ wk ++ ":"%byte :: w1
              ++ print x ++ w2 ++ c :: tail) Hdepth Hwk1 pre k0 wk0 px0 i en e).
    + apply well_formed_members; [exact Hwf_pre | exact Hpre].
    + reflexivity.
    + unfold token in Hs. cbn [app] in Hs. rewrite <- ?app_assoc in Hs.
      exact Hs.
    + intros i' Hs'. apply Hlast. unfold token. cbn [app].
      rewrite <- ?app_assoc. exact Hs'.
Qed.

Lemma array_too_deep (D : Z) (w : list byte) (xs : list (padded value)) :
  Forall (fun p => refused_too_deep D (inner p)) xs ->
  refused_too_deep D (VArray w xs).
Proof.
  intros HP data i d rest Hd Hdeep Hwf Hs.
  cbn [well_formed] in Hwf. apply andb_prop in Hwf. destruct Hwf as [Hw Hxs].
  cbn [nesting] in Hdeep. cbn [print app] in Hs. rewrite <- !app_assoc in Hs.
  cbn [app] in Hs.
  destruct (skipn_cons_inv _ _ _ _ Hs) as [E Hs1].
  pose proof (depth_only_within D d (proj2 Hd)) as Hdepth.
  destruct (Z.eq_dec d D) as [->|Hne].
  - eexists. split.
    + apply (validany_array data (depth_only D) i D _ E Hdepth).
      apply isValidArray_too_deep. rewrite depth_only_exceeded.
      apply Z.ltb_lt. lia.
    + split; reflexivity.
  - destruct xs as [|[[w0 x0] w0'] xs'].
    { change (deepest _ (@nil (padded value))) with 0 in Hdeep. lia. }
    inversion HP as [|? ? Px0 HP']; subst. cbn [inner fst snd] in Px0.
    cbn [forallb pad_ok] in Hxs. apply andb_prop in Hxs. destruct Hxs as [H0 Hxs'].
    apply andb_prop in H0. destruct H0 as [H0 Hw0'].
    apply andb_prop in H0. destruct H0 as [Hw0 Hx0].
    cbn [map] in Hs, Hs1. rewrite sep_by_cons in Hs, Hs1. cbn [pad] in Hs, Hs1.
    rewrite <- !app_assoc in Hs, Hs1.
    pose proof (skipn_app_inv _ _ _ _ (skipn_app_inv _ _ _ _ Hs1)) as Hs3.
    destruct (elems_too_deep D data d (([], x0, w0') :: xs')
                (S i + List.length w + List.length w0) 0 None rest)
      as (r & Hr & HE); try lia.
    + constructor; [exact Px0 | exact HP'].
    + cbn [forallb pad_ok]. cbn [forallb andb]. now rewrite Hx0, Hw0', Hxs'.
    + rewrite deepest_cons in *. cbn [inner fst snd] in *. lia.
    + cbn [map]. rewrite sep_by_cons. cbn [pad app]. rewrite <- ?app_assoc.
      exact Hs3.
    + exists r. split; [|exact HE].
      apply (array_enter (depth_only D) data i d w w0 x0 _ r Hdepth
               (depth_only_within D (d + 1) ltac:(lia)) Hw Hw0
               (well_formed_head x0 Hx0) Hs Hr).
Qed.

Lemma object_too_deep (D : Z) (w : list byte)
    (ms : list (padded (list piece) * padded value)) :
  Forall (fun m => refused_too_deep D (inner (snd m))) ms ->
  refused_too_deep D (VObject w ms).
Proof.
  intros HP data i d rest Hd Hdeep Hwf Hs.
  cbn [well_formed] in Hwf. apply andb_prop in Hwf. destruct Hwf as [Hw Hms].
  cbn [nesting] in Hdeep. cbn [print app] in Hs. rewrite <- !app_assoc in Hs.
  cbn [app] in Hs.
  destruct (skipn_cons_inv _ _ _ _ Hs) as [E Hs1].
  pose proof (depth_only_within D d (proj2 Hd)) as Hdepth.
  destruct (Z.eq_dec d D) as [->|Hne].
  - eexists. split.
    + apply (validany_object data (depth_only D) i D _ E Hdepth).
      apply isValidObject_too_deep. rewrite depth_only_exceeded.
      apply Z.ltb_lt. lia.
    + split; reflexivity.
  - destruct ms as [|[[[wk0 k0] wk0'] px0] ms'].
    { change (deepest _ (@nil (padded (list piece) * padded value))) with 0
        in Hdeep. lia. }
    inversion HP as [|? ? Px0 HP']; subst. cbn [inner fst snd] in Px0.
    pose proof Hms as Hms0. cbn [forallb fst snd] in Hms0.
    apply andb_prop in Hms0. destruct Hms0 as [H0 Hms'].
    apply andb_prop in H0. destruct H0 as [Hk0 Hpx0].
    cbn [pad_ok] in Hk0. apply andb_prop in Hk0. destruct Hk0 as [Hk0 Hwk0'].
    apply andb_prop in Hk0. destruct Hk0 as [Hwk0 Hk0].
    assert (Hshape : sep_by "," (map (member_text print)
                                   ((wk0, k0, wk0', px0) :: ms'))
                     ++ "}"%byte :: rest
                     = wk0 ++ sep_by "," (map (member_text print)
                                            ((([], k0, wk0'), px0) :: ms'))
                       ++ "}"%byte :: rest).
    { cbn [map]. rewrite !sep_by_cons. unfold member_text at 1 3.
      cbn [pad fst snd app]. now rewrite <- !app_assoc. }
    assert (Hs2 : skipn (S i) data
                  = w ++ wk0 ++ sep_by "," (map (member_text print)
                                              ((([], k0, wk0'), px0) :: ms'))
                    ++ "}"%byte :: rest).
    { etransitivity; [exact Hs1|]. f_equal. exact Hshape. }
    pose proof (skipn_app_inv _ _ _ _ (skipn_app_inv _ _ _ _ Hs2)) as Hs3.
    destruct (members_too_deep D data d k0 wk0' px0 ms'
                (S i + List.length w + List.length wk0) 0 None rest)
      as (r & Hr & HE); try lia.
    + constructor; [exact Px0 | exact HP'].
    + cbn [forallb fst snd pad_ok]. cbn [forallb andb].
      now rewrite Hk0, Hwk0', Hpx0, Hms'.
    + rewrite deepest_cons in *. cbn [inner fst snd] in *. lia.
    + exact Hs3.
    + exists r. split; [|exact HE].
      assert (Hq : exists tl,
                 sep_by "," (map (member_text print) ((([], k0, wk0'), px0) :: ms'))
                 ++ "}"%byte :: rest = QUOTE :: tl).
      { cbn [map]. rewrite sep_by_cons. unfold member_text at 1, token.
        cbn [pad fst snd app]. eauto. }
      destruct Hq as [tl Hq].
      apply (object_enter (depth_only D) data i d w wk0 tl r Hdepth
               (depth_only_within D (d + 1) ltac:(lia)) Hw Hwk0); [|exact Hr].
      rewrite (skipn_nth _ _ _ E). f_equal. etransitivity; [exact Hs2|].
      do 2 f_equal. exact Hq.
Qed.

(** [validany] refuses every document that nests too deep. *)
Lemma all_too_deep (D : Z) (j : value) : refused_too_deep D j.
Proof.
  apply (value_induction (refused_too_deep D)).
  - intros data i d rest Hd Hdeep. cbn [nesting] in Hdeep. lia.
  - intros data i d rest Hd Hdeep. cbn [nesting] in Hdeep. lia.
  - intros x data i d rest Hd Hdeep. cbn [nesting] in Hdeep. lia.
  - intros ps data i d rest Hd Hdeep. cbn [nesting] in Hdeep. lia.
  - apply array_too_deep.
  - apply object_too_deep.
Qed.

Lemma depth_boundary_documents (D : Z) (j : value) (before after : list byte) :
  0 <= D -> well_formed j = true ->
  forallb is_space before = true -> forallb is_space after = true ->
  VerifyBytes (depth_only D) (before ++ print j ++ after)
  = if nesting j <=? D then Ret (true, None)
    else Ret (false, Some (errContainerDepth D (D + 1))).
Proof.
  intros HD Hwf Hb Ha. destruct (Z.leb_spec (nesting j) D) as [Hn | Hn].
  - apply document_verified; auto.
    + now apply depth_only_within.
    + apply well_formed_fits; [exact Hwf | lia].
  - destruct (well_formed_head j Hwf) as (c & tl & Hhead & Hc & _).
    apply VerifyBytes_fails; auto.
    + exists c, (tl ++ after). rewrite Hhead. split; [reflexivity | exact Hc].
    + apply (all_too_deep D j _ _ 0 after); auto; try lia.
      now rewrite skipn_app, skipn_all, Nat.sub_diag.
Qed.

(** C4. With the depth limit alone enabled at [D], every well-formed
    document whose containers nest to the depth [D] or less validates, and
    every one that nests deeper fails with the depth error that reports
    [D + 1], the depth that the first container in excess would have
    taken: whatever the document holds beside its deepest containers, and
    whatever white space is laid out in and around it. *)
Theorem depth_limit_boundary (D : Z) (j : value) (before after : list byte) :
  0 <= D -> well_formed j = true ->
  forallb is_space before = true -> forallb is_space after = true ->
  VerifyBytes (depth_only D) (before ++ print j ++ after)
  = if nesting j <=? D then Ret (true, None)
    else Ret (false, Some (errContainerDepth D (D + 1))).
Proof. apply depth_boundary_documents. Qed.

(** Under the limit 2: two arrays side by side in an array nest to the
    depth 2 and pass; an array of an object that holds an array nests to
    the depth 3 and fails, whatever follows it. *)
Lemma depth_limit_boundary_witness :
  VerifyBytes (depth_only 2) (json "[[],[]]") = Ret (true, None)
  /\ VerifyBytes (depth_only 2) (json " [ {'a':1, 'b' : [1]}, [[[]]] ]")
     = Ret (false,
            Some "jtp.maxContainerDepthReached.Max-[2]-Allowed.Found-[3]"%string).
Proof.
  split.
  - exact (depth_limit_boundary 2
             (VArray [] [([], VArray [] [], []); ([], VArray [] [], [])]) [] []
             ltac:(lia) eq_refl eq_refl eq_refl).
  - exact (depth_limit_boundary 2
             (VArray (json " ")
                [([], VObject []
                        [(([], [Plain "a"], []),
                          ([], VNumber (Number false ["1"%byte] None None), []));
                         ((json " ", [Plain "b"], json " "),
                          (json " ", VArray []
                                       [([], VNumber (Number false ["1"%byte]
                                                        None None), [])], []))],
                  []);
                 (json " ", VArray [] [([], VArray [] [([], VArray [] [], [])], [])],
                  json " ")])
             (json " ") [] ltac:(lia) eq_refl eq_refl eq_refl).
Defined.

(** ** The limits on the elements and on the members *)

(** The lengths of lists of elements and of members, written with one
    name for the type of what they hold. *)
Ltac same_lengths :=
  repeat match goal with
    | |- context [@List.length ?T ?l] =>
        lazymatch T with
        | padded value => fail
        | (padded (list piece) * padded value)%type => fail
        | _ =>
            first
              [ change (@List.length T l) with (@List.length (padded value) l)
              | change (@List.length T l)
                  with (@List.length (padded (list piece) * padded value) l) ]
        end
    | H : context [@List.length ?T ?l] |- _ =>
        lazymatch T with
        | padded value => fail
        | (padded (list piece) * padded value)%type => fail
        | _ =>
            first
              [ change (@List.length T l) with (@List.length (padded value) l) in H
              | change (@List.length T l)
                  with (@List.length (padded (list piece) * padded value) l) in H ]
        end
    end.

Lemma split_at {A : Type} (n : nat) (l : list A) :
  (n < List.length l)%nat ->
  exists pre y post, l = pre ++ y :: post /\ List.length pre = n.
Proof.
  intros H. destruct (nth_error l n) as [y|] eqn:E.
  - destruct (nth_error_split l n E) as (pre & post & -> & Hn). eauto.
  - apply nth_error_None in E. lia.
Qed.

(** An array with more elements than the limit allows: the run fails once
    the element in excess and what separates it from the next have been read,
    whatever follows. *)
Lemma array_over (v : Verify) (M : Z) (w before rest : list byte)
    (xs : list (padded value)) :
  0 <= M -> depth_exceeded v 0 = false -> depth_exceeded v 1 = false ->
  forallb is_space before = true -> forallb is_space w = true ->
  arrayEntryCountEnabled v = true -> MaxArrayElementCount v = M ->
  forallb (pad_ok (fits v 1)) xs = true -> M < Z.of_nat (List.length xs) ->
  VerifyBytes v (before ++ print (VArray w xs) ++ rest)
  = Ret (false, Some (errArrayElementCount M (M + 1))).
Proof.
  intros HM Hd Hd1 Hb Hw Hen Hmax Hxs Hlen.
  destruct xs as [|[[w0 x0] w0'] xs']; [cbn [List.length] in Hlen; lia|].
  pose proof Hxs as Hxs0. cbn [forallb pad_ok] in Hxs0.
  apply andb_prop in Hxs0. destruct Hxs0 as [H0 Hxs'].
  apply andb_prop in H0. destruct H0 as [H0 Hw0'].
  apply andb_prop in H0. destruct H0 as [Hw0 Hx0].
  apply VerifyBytes_fails; auto.
  { cbn [print app]. do 2 eexists. split; reflexivity. }
  set (data := before ++ print (VArray w ((w0, x0, w0') :: xs')) ++ rest).
  assert (Hs : skipn (List.length before) data
               = "["%byte :: w ++ w0 ++ print x0 ++ w0'
                 ++ fold_right (fun q acc => ","%byte :: q ++ acc)
                      ("]"%byte :: rest) (map (pad print) xs')).
  { unfold data. rewrite skipn_app, skipn_all, Nat.sub_diag.
    cbn [skipn print map app]. rewrite <- !app_assoc. cbn [app].
    rewrite sep_by_cons. cbn [pad]. now rewrite <- !app_assoc. }
  destruct (skipn_cons_inv _ _ _ _ Hs) as [_ Hs1].
  pose proof (skipn_app_inv _ _ _ _ (skipn_app_inv _ _ _ _ Hs1)) as Hs3.
  destruct (split_at (Z.to_nat M) (([], x0, w0') :: xs'))
    as (pre & y & post & HL & Hpre).
  { rewrite length_more in Hlen. rewrite length_cons. same_lengths. lia. }
  assert (Hfit : forallb (pad_ok (fits v 1)) (pre ++ y :: post) = true).
  { rewrite <- HL. cbn [forallb pad_ok]. cbn [forallb andb].
    now rewrite Hx0, Hw0', Hxs'. }
  rewrite forallb_app in Hfit. apply andb_prop in Hfit.
  destruct Hfit as [Hfit_pre Hfit]. cbn [forallb] in Hfit.
  apply andb_prop in Hfit. destruct Hfit as [Hy _].
  destruct (pad_ok_inv _ _ Hy) as (w1 & x & w2 & -> & Hw1 & Hx & Hw2).
  assert (Hs4 : skipn (S (List.length before) + List.length w + List.length w0) data
                = flat_map (fun p => pad print p ++ [","%byte]) pre
                  ++ sep_by "," (pad print (w1, x, w2) :: map (pad print) post)
                  ++ "]"%byte :: rest).
  { etransitivity; [exact Hs3|].
    transitivity (sep_by "," (map (pad print) (([], x0, w0') :: xs'))
                  ++ "]"%byte :: rest).
    - cbn [map]. rewrite sep_by_cons. cbn [pad app]. now rewrite <- ?app_assoc.
    - rewrite HL, map_app. cbn [map].
      now rewrite sep_by_prefix, flat_map_map, <- app_assoc. }
  destruct (sep_by_next "]" (pad print (w1, x, w2)) (map (pad print) post) rest)
    as (c & tail & Heq & Hc).
  rewrite Heq in Hs4.
  assert (HpreM : Z.of_nat (List.length pre) = M) by lia.
  same_lengths.
  destruct (elems_prefix v data 1 (errArrayElementCount M (M + 1))
              (pad print (w1, x, w2) ++ c :: tail) Hd1 pre
              (S (List.length before) + List.length w + List.length w0) 0 None)
    as (r & Hr & HE); auto.
  - same_lengths. rewrite Hen, Hmax, HpreM. cbn [andb]. rewrite Z.gtb_ltb.
    apply Z.ltb_ge. lia.
  - intros i' e' Hs'.
    replace (errArrayElementCount M (M + 1))
      with (errArrayElementCount (MaxArrayElementCount v)
              (0 + Z.of_nat (List.length pre) + 1))
      by (same_lengths; rewrite Hmax, HpreM; reflexivity).
    apply (element_over v data 1 w1 x w2 i' _ e' c tail); auto.
    + same_lengths. rewrite Hen, Hmax, HpreM. cbn [andb]. rewrite Z.gtb_ltb.
      apply Z.ltb_lt. lia.
  - exists r. split; [|exact HE].
    apply (array_enter v data (List.length before) 0 w w0 x0 _ r Hd Hd1 Hw Hw0
             (fits_head v 1 x0 Hx0) Hs Hr).
Qed.

Lemma members_and_key_nil (wk : list byte) (k : list piece) :
  members_and_key [] wk k = wk ++ token k.
Proof. reflexivity. Qed.

Lemma members_and_key_cons (m : padded (list piece) * padded value)
    (ms : list (padded (list piece) * padded value)) (wk : list byte)
    (k : list piece) :
  members_and_key (m :: ms) wk k
  = flat_map (fun m => member_text print m ++ [","%byte]) (m :: ms)
    ++ wk ++ token k.
Proof.
  unfold members_and_key.
  rewrite (sep_by_prefix "," (map (member_text print) (m :: ms)) (wk ++ token k) []).
  now rewrite flat_map_map.
Qed.

(** An object with as many members as the limit allows, and the key of one
    more: the run fails once this key has been read, whatever follows
    it. *)
Lemma object_over (v : Verify) (M : Z) (w before : list byte)
    (ms : list (padded (list piece) * padded value)) (wk : list byte)
    (k : list piece) (tail : list byte) :
  depth_exceeded v 0 = false -> depth_exceeded v 1 = false ->
  forallb is_space before = true -> forallb is_space w = true ->
  objectEntryCountEnabled v = true -> ObjectEntryCount v = M ->
  forallb (fun m => pad_ok (key_fits v) (fst m) && pad_ok (fits v 1) (snd m)) ms
  = true ->
  Z.of_nat (List.length ms) = M ->
  forallb is_space wk = true -> forallb piece_ok k = true ->
  VerifyBytes v (before ++ ("{"%byte :: w ++ members_and_key ms wk k) ++ tail)
  = Ret (false, Some (errObjectEntryCount M (M + 1))).
Proof.
  intros Hd Hd1 Hb Hw Hen Hmax Hms Hlen Hwk Hk.
  apply VerifyBytes_fails; auto.
  { cbn [app]. do 2 eexists. split; reflexivity. }
  set (data := before ++ ("{"%byte :: w ++ members_and_key ms wk k) ++ tail).
  assert (Hs : skipn (List.length before) data
               = "{"%byte :: w ++ members_and_key ms wk k ++ tail).
  { unfold data. rewrite skipn_app, skipn_all, Nat.sub_diag.
    cbn [skipn app]. now rewrite <- !app_assoc. }
  destruct ms as [|[[[wk0 k0] wk0'] px0] ms'].
  - rewrite members_and_key_nil in Hs. cbn [List.length] in Hlen.
    unfold token in Hs. cbn [app] in Hs. rewrite <- !app_assoc in Hs.
    cbn [app] in Hs.
    destruct (skipn_cons_inv _ _ _ _ Hs) as [_ Hs1].
    pose proof (skipn_app_inv _ _ _ _ (skipn_app_inv _ _ _ _ Hs1)) as Hs3.
    destruct (key_over v data 1 k (S (List.length before) + List.length w
                                   + List.length wk) 0 None
                (tail)) as (r & Hr & HE); auto.
    + rewrite Hen, Hmax. cbn [andb]. apply Z.ltb_lt. lia.
    + exists r. split.
      * exact (object_enter v data (List.length before) 0 w wk _ r Hd Hd1 Hw Hwk
                 Hs Hr).
      * rewrite Hmax in HE. replace (M + 1) with (0 + 1) by lia. exact HE.
  - pose proof Hms as Hms0. cbn [forallb fst snd] in Hms0.
    apply andb_prop in Hms0. destruct Hms0 as [H0 Hms'].
    apply andb_prop in H0. destruct H0 as [Hk0 Hpx0].
    cbn [pad_ok] in Hk0. apply andb_prop in Hk0. destruct Hk0 as [Hk0 Hwk0'].
    apply andb_prop in Hk0. destruct Hk0 as [Hwk0 Hk0].
    rewrite members_and_key_cons in Hs.
    assert (Hshape : forall T,
               flat_map (fun m => member_text print m ++ [","%byte])
                 ((wk0, k0, wk0', px0) :: ms') ++ T
               = wk0 ++ flat_map (fun m => member_text print m ++ [","%byte])
                          ((([], k0, wk0'), px0) :: ms') ++ T).
    { intros T. cbn [flat_map]. unfold member_text at 1 3.
      cbn [pad fst snd app]. now rewrite <- !app_assoc. }
    assert (Hs2 : skipn (S (List.length before)) data
                  = w ++ wk0
                    ++ flat_map (fun m => member_text print m ++ [","%byte])
                         ((([], k0, wk0'), px0) :: ms')
                    ++ wk ++ QUOTE :: content k ++ [QUOTE] ++ tail).
    { destruct (skipn_cons_inv _ _ _ _ Hs) as [_ Hs1].
      etransitivity; [exact Hs1|]. f_equal. rewrite <- app_assoc.
      etransitivity; [apply Hshape|]. do 2 f_equal. unfold token.
      rewrite <- !app_assoc. cbn [app]. now rewrite <- !app_assoc. }
    pose proof (skipn_app_inv _ _ _ _ (skipn_app_inv _ _ _ _ Hs2)) as Hs3.
    destruct (members_prefix v data 1 (errObjectEntryCount M (M + 1)) wk
                (content k ++ [QUOTE] ++ tail) Hd1 Hwk ms' k0 wk0' px0
                (S (List.length before) + List.length w + List.length wk0) 0 None)
      as (r & Hr & HE); auto.
    + cbn [forallb fst snd pad_ok]. cbn [forallb andb].
      now rewrite Hk0, Hwk0', Hpx0, Hms'.
    + rewrite Hen, Hmax. cbn [andb]. apply Z.ltb_ge.
      rewrite length_more in *. same_lengths. lia.
    + intros i' Hs'.
      replace (errObjectEntryCount M (M + 1))
        with (errObjectEntryCount (ObjectEntryCount v)
                (0 + Z.of_nat (List.length ((([], k0, wk0'), px0) :: ms')) + 1)).
      2:{ rewrite Hmax. f_equal. rewrite length_more in *. same_lengths. lia. }
      apply (key_over v data 1 k i' _ None (tail)); auto.
      * rewrite Hen, Hmax. cbn [andb]. apply Z.ltb_lt.
        rewrite length_more in *. same_lengths. lia.
      * unfold token. cbn [app]. rewrite <- ?app_assoc. exact Hs'.
    + exists r. split; [|exact HE].
      assert (Hq : exists tl,
                 flat_map (fun m => member_text print m ++ [","%byte])
                   ((([], k0, wk0'), px0) :: ms')
                 ++ wk ++ QUOTE :: content k ++ [QUOTE] ++ tail = QUOTE :: tl).
      { cbn [flat_map]. unfold member_text at 1, token.
        cbn [pad fst snd app]. eauto. }
      destruct Hq as [tl Hq].
      apply (object_enter v data (List.length before) 0 w wk0 tl r Hd Hd1 Hw Hwk0);
        [|exact Hr].
      destruct (skipn_cons_inv _ _ _ _ Hs) as [E _].
      rewrite (skipn_nth _ _ _ E). f_equal. etransitivity; [exact Hs2|].
      do 2 f_equal. exact Hq.
Qed.

(** The text of an object, cut behind the key of one of its members. *)
Lemma object_text_split (w : list byte)
    (ms1 : list (padded (list piece) * padded value)) (wk1 : list byte)
    (k : list piece) (wk : list byte) (px : padded value)
    (ms2 : list (padded (list piece) * padded value)) (after : list byte) :
  exists tail,
    print (VObject w (ms1 ++ ((wk1, k, wk), px) :: ms2)) ++ after
    = ("{"%byte :: w ++ members_and_key ms1 wk1 k) ++ tail.
Proof.
  destruct (sep_by_next "}" (member_text print ((wk1, k, wk), px))
              (map (member_text print) ms2) after) as (c & tl & Heq & _).
  exists (wk ++ ":"%byte :: pad print px ++ c :: tl).
  cbn [print]. unfold members_and_key. rewrite map_app. cbn [map].
  rewrite !sep_by_prefix. cbn [sep_by app]. rewrite <- !app_assoc. cbn [app].
  do 3 f_equal. etransitivity; [exact Heq|].
  unfold member_text. cbn [pad fst snd]. rewrite <- !app_assoc. reflexivity.
Qed.

(** An object with more members than the limit allows. *)
Lemma object_document_over (v : Verify) (M : Z) (w before after : list byte)
    (ms : list (padded (list piece) * padded value)) :
  0 <= M -> depth_exceeded v 0 = false -> depth_exceeded v 1 = false ->
  forallb is_space before = true -> forallb is_space w = true ->
  objectEntryCountEnabled v = true -> ObjectEntryCount v = M ->
  forallb (fun m => pad_ok (key_fits v) (fst m) && pad_ok (fits v 1) (snd m)) ms
  = true ->
  M < Z.of_nat (List.length ms) ->
  VerifyBytes v (before ++ print (VObject w ms) ++ after)
  = Ret (false, Some (errObjectEntryCount M (M + 1))).
Proof.
  intros HM Hd Hd1 Hb Hw Hen Hmax Hms Hlen.
  destruct (split_at (Z.to_nat M) ms) as (ms1 & m & ms2 & -> & Hn); [lia|].
  rewrite forallb_app in Hms. apply andb_prop in Hms. destruct Hms as [Hms1 Hm].
  cbn [forallb] in Hm. apply andb_prop in Hm. destruct Hm as [Hm _].
  destruct m as [[[wk1 k] wk] px]. cbn [fst snd] in Hm.
  apply andb_prop in Hm. destruct Hm as [Hk _].
  cbn [pad_ok] in Hk. apply andb_prop in Hk. destruct Hk as [Hk _].
  apply andb_prop in Hk. destruct Hk as [Hwk1 Hk].
  unfold key_fits in Hk. apply andb_prop in Hk. destruct Hk as [Hk _].
  destruct (object_text_split w ms1 wk1 k wk px ms2 after) as [tail Htext].
  match goal with
  | |- VerifyBytes v (before ++ ?t) = _ =>
      replace t with (("{"%byte :: w ++ members_and_key ms1 wk1 k) ++ tail)
        by (symmetry; exact Htext)
  end.
  apply object_over; auto. lia.
Qed.

Lemma count_boundary_documents (v : Verify) (M : Z) (w before after : list byte)
    (xs : list (padded value))
    (ms : list (padded (list piece) * padded value))
    (wk : list byte) (k : list piece) (rest : list byte) :
  0 <= M -> depth_exceeded v 0 = false -> depth_exceeded v 1 = false ->
  forallb is_space before = true -> forallb is_space w = true ->
  forallb is_space after = true ->
  (arrayEntryCountEnabled v = true -> MaxArrayElementCount v = M ->
   forallb (pad_ok (fits v 1)) xs = true ->
   VerifyBytes v (before ++ print (VArray w xs) ++ after)
   = if Z.of_nat (List.length xs) <=? M then Ret (true, None)
     else Ret (false, Some (errArrayElementCount M (M + 1))))
  /\ (objectEntryCountEnabled v = true -> ObjectEntryCount v = M ->
      forallb (fun m => pad_ok (key_fits v) (fst m) && pad_ok (fits v 1) (snd m))
              ms = true ->
      VerifyBytes v (before ++ print (VObject w ms) ++ after)
      = (if Z.of_nat (List.length ms) <=? M then Ret (true, None)
         else Ret (false, Some (errObjectEntryCount M (M + 1))))
      /\ (Z.of_nat (List.length ms) = M ->
          forallb is_space wk = true -> forallb piece_ok k = true ->
          VerifyBytes v
            (before ++ ("{"%byte :: w ++ members_and_key ms wk k) ++ rest)
          = Ret (false, Some (errObjectEntryCount M (M + 1))))).
Proof.
  intros HM Hd Hd1 Hb Hw Ha. split; [|intros Hen Hmax Hms; split].
  - intros Hen Hmax Hxs.
    destruct (Z.leb_spec (Z.of_nat (List.length xs)) M) as [Hn | Hn].
    + apply document_verified; auto. cbn [fits].
      change (0 + 1) with 1. rewrite Hw, Hd1, Hen, Hmax, Hxs. cbn [andb negb].
      rewrite andb_true_r. apply negb_true_iff. rewrite Z.gtb_ltb.
      apply Z.ltb_ge. exact Hn.
    + now apply array_over.
  - destruct (Z.leb_spec (Z.of_nat (List.length ms)) M) as [Hn | Hn].
    + apply document_verified; auto. cbn [fits].
      change (0 + 1) with 1. rewrite Hw, Hd1, Hen, Hmax, Hms. cbn [andb negb].
      rewrite andb_true_r. apply negb_true_iff. apply Z.ltb_ge. exact Hn.
    + now apply object_document_over.
  - intros Hlen Hwk Hk. now apply object_over.
Qed.

(** C6. With the element count enabled at [M], an array of [M] elements or
    fewer passes and a longer one fails with the count error that reports
    [M + 1]; the same holds for the members of an object under the entry
    count: the tests are strict and [M] itself is allowed.  The elements
    and the members are any documents that fit the configuration, with any
    white space.  The entry counter goes up when the key of a member has
    been read, before its colon and its value: an object of [M] members
    fails with the count error at the key of one more, whatever follows
    that key. *)
Theorem count_limit_boundary (v : Verify) (M : Z) (w before after : list byte)
    (xs : list (padded value))
    (ms : list (padded (list piece) * padded value))
    (wk : list byte) (k : list piece) (rest : list byte) :
  0 <= M -> depth_exceeded v 0 = false -> depth_exceeded v 1 = false ->
  forallb is_space before = true -> forallb is_space w = true ->
  forallb is_space after = true ->
  (arrayEntryCountEnabled v = true -> MaxArrayElementCount v = M ->
   forallb (pad_ok (fits v 1)) xs = true ->
   VerifyBytes v (before ++ print (VArray w xs) ++ after)
   = if Z.of_nat (List.length xs) <=? M then Ret (true, None)
     else Ret (false, Some (errArrayElementCount M (M + 1))))
  /\ (objectEntryCountEnabled v = true -> ObjectEntryCount v = M ->
      forallb (fun m => pad_ok (key_fits v) (fst m) && pad_ok (fits v 1) (snd m))
              ms = true ->
      VerifyBytes v (before ++ print (VObject w ms) ++ after)
      = (if Z.of_nat (List.length ms) <=? M then Ret (true, None)
         else Ret (false, Some (errObjectEntryCount M (M + 1))))
      /\ (Z.of_nat (List.length ms) = M ->
          forallb is_space wk = true -> forallb piece_ok k = true ->
          VerifyBytes v
            (before ++ ("{"%byte :: w ++ members_and_key ms wk k) ++ rest)
          = Ret (false, Some (errObjectEntryCount M (M + 1))))).
Proof. apply count_boundary_documents. Qed.

(** Under the limit 2: an array of two elements, one of them an array of
    two, passes, and an array of three fails; an object of two members
    passes, one of three fails, and so does the text of two members and the
    key of a third that nothing well formed follows. *)
Lemma count_limit_boundary_witness :
  VerifyBytes (array_count_only 2) (json "[1, [3,4] ]") = Ret (true, None)
  /\ VerifyBytes (array_count_only 2) (json "[1,'b',[]]")
     = Ret (false,
            Some "jtp.maxArrayElementCountReached.Max-[2]-Allowed.Found-[3]"%string)
  /\ VerifyBytes (entry_count_only 2) (json "{'a':1,'b':{}}") = Ret (true, None)
  /\ VerifyBytes (entry_count_only 2) (json "{'a':1,'b':2,'c':3}")
     = Ret (false,
            Some "jtp.maxObjectEntryCountReached.Max-[2]-Allowed.Found-[3]"%string)
  /\ VerifyBytes (entry_count_only 2) (json "{'a':1,'b':2, 'c'!!")
     = Ret (false,
            Some "jtp.maxObjectEntryCountReached.Max-[2]-Allowed.Found-[3]"%string).
Proof.
  pose (one := VNumber (Number false ["1"%byte] None None)).
  pose (two := VNumber (Number false ["2"%byte] None None)).
  pose (three := VNumber (Number false ["3"%byte] None None)).
  pose (four := VNumber (Number false ["4"%byte] None None)).
  pose (a1 := (([] : list byte, [Plain "a"], [] : list byte),
               ([] : list byte, one, [] : list byte))).
  pose (b2 := (([] : list byte, [Plain "b"], [] : list byte),
               ([] : list byte, two, [] : list byte))).
  pose (c3 := (([] : list byte, [Plain "c"], [] : list byte),
               ([] : list byte, three, [] : list byte))).
  split_all.
  - exact (proj1 (count_limit_boundary (array_count_only 2) 2 [] [] []
                    [([], one, []);
                     (json " ", VArray [] [([], three, []); ([], four, [])],
                      json " ")]
                    [] [] [] [] ltac:(lia) eq_refl eq_refl eq_refl eq_refl eq_refl)
             eq_refl eq_refl eq_refl).
  - exact (proj1 (count_limit_boundary (array_count_only 2) 2 [] [] []
                    [([], one, []); ([], VString [Plain "b"], []);
                     ([], VArray [] [], [])]
                    [] [] [] [] ltac:(lia) eq_refl eq_refl eq_refl eq_refl eq_refl)
             eq_refl eq_refl eq_refl).
  - exact (proj1 (proj2 (count_limit_boundary (entry_count_only 2) 2 [] [] [] []
                           [a1; (([], [Plain "b"], []), ([], VObject [] [], []))]
                           [] [] [] ltac:(lia) eq_refl eq_refl eq_refl eq_refl
                           eq_refl)
                    eq_refl eq_refl eq_refl)).
  - exact (proj1 (proj2 (count_limit_boundary (entry_count_only 2) 2 [] [] [] []
                           [a1; b2; c3]
                           [] [] [] ltac:(lia) eq_refl eq_refl eq_refl eq_refl
                           eq_refl)
                    eq_refl eq_refl eq_refl)).
  - exact (proj2 (proj2 (count_limit_boundary (entry_count_only 2) 2 [] [] [] []
                           [a1; b2] (json " ") [Plain "c"] (json "!!")
                           ltac:(lia) eq_refl eq_refl eq_refl eq_refl eq_refl)
                    eq_refl eq_refl eq_refl)
             eq_refl eq_refl eq_refl).
Defined.

(** C6 as the spec words it fails: the counter has gone up, and has passed
    the limit, before the second member is read to its end; under a limit
    that allows two members the same buffer is malformed. *)
Lemma entry_counted_at_the_key :
  VerifyBytes (entry_count_only 1) (json "{'a':0,'b':!}")
  = Ret (false,
         Some "jtp.maxObjectEntryCountReached.Max-[1]-Allowed.Found-[2]"%string)
  /\ VerifyBytes (entry_count_only 2) (json "{'a':0,'b':!}")
     = Ret (false, Some ErrInvalidJSON).
Proof. split; vm_compute; reflexivity. Qed.
